(* ===== verification/_CoqProject ===== *)
-Q . S2P
Prelude.v
Error.v
Json.v
Verify.v
Jcs.v
Utf8Spec.v
JsonText.v
Wire.v
Query.v
Routes.v
Db.v
Monad.v
Config.v
Disclosure.v
PrivacySchema.v
Store.v
WireSpec.v
RoutesSpec.v
HashChain.v
Steps.v
Auth.v
Domain.v
Retention.v
Mutation.v
Deletion.v
Batch.v
Import.v
Read.v
Export.v
Sync.v
Concurrent.v
Legacy.v
Main.v
Operator.v
StoreFacts.v
StoreSpec.v
AuthFacts.v
HandlerTicks.v
HandlerFacts.v
BatchFacts.v
ChainInv.v
EpochSpec.v
ServiceFacts.v
ServiceInv.v
ServiceSpec.v
ServiceRel.v
History.v
DeletionSpec.v
SideTable.v
OperatorRow.v
ConcurrentRuns.v
Interleave.v
InterleaveSpec.v
TokenSpec.v
TransferSpec.v
ImportSpec.v
ExportSpec.v
PageSpec.v
LogSpec.v
HistorySpec.v
LegacySpec.v
UpkeepSpec.v
DisclosureSpec.v
StartSpec.v
OperatorSpec.v
Scenario.v
Witnesses.v
ServingWitnesses.v
InterleaveWitnesses.v
StartWitnesses.v
LegacyWitnesses.v
OperatorWitnesses.v
