(* ===== verification/Prelude.v ===== *)
(** * PallaSync relay: a verification library

    PallaSync is a store-and-forward relay for end-to-end encrypted data.  Devices
    of one owner share a chain: signed parameters, device certificates, key epochs
    with their envelopes, encrypted records and snapshots.  The relay never sees
    plaintext; what it is trusted for is evidence: it appends every accepted object
    to a hash-chained log, signs a receipt for it, keeps a second hash-chained
    transparency log of what it did, and answers each request by its rules.  This
    library translates the relay of [src/src] (Rust, with SQLite) into executable
    definitions and proves what makes it correct.

    ** The model

    A handler runs in [M] (Monad.v): a state monad over the database [Db] (Db.v, one
    finite map per table of [src/src/db/schema.sql]) whose outcome is a value, an error of
    the catalogue, or [Panic] where the source would unwind.  The environment is the
    class [Oracle]: the clock, the random identifiers, and for every SQL statement
    whether it fails; the theorems hold for every oracle.  Transactions, savepoints,
    rollback and commit are written out as the source takes them.  The third-party
    crates (base64, SHA-2, Ed25519 and Curve25519, JCS printing, the JSON tokenizer,
    Unicode, UUIDs) are the fields of the class [Ext] (Verify.v); the documented
    behaviour that proofs use is the class [ExtLaws].  An unsigned integer is a [Z]
    with its conversions and bounds written out; binary64 is [spec_float].

    A request takes several transactions, and SQLite lets those of other requests come
    in between.  Each handler is therefore there twice: in one piece (Sync.v, Batch.v),
    for what it does when nothing intervenes, and as the tree [Prog] of its transactions
    (Concurrent.v), which run in a pool with those of other requests, of the start and of
    upkeep.  [handle_uninterrupted] (ConcurrentRuns.v) proves that the two agree.

    ** The parts and their files

    - [src/src/api/error.rs]: Error.v, the closed catalogue of codes, statuses and Retry-After.
    - [src/src/crypto/jcs.rs]: Json.v and Jcs.v, JSON values and the strict I-JSON parser;
      Utf8Spec.v shows that its UTF-8 check is the standard one, and JsonText.v has the
      grammar of RFC 8259 that the parser is complete for.
    - [src/src/crypto/verify.rs]: Verify.v, decoding, signatures, object hashes, keys.
    - [src/src/api/wire.rs]: Wire.v (closed schemas, local artifacts) and Query.v (canonical
      query strings); WireSpec.v.
    - [endpoint] of [src/src/api/sync.rs]: Routes.v; RoutesSpec.v reads it both ways.
    - [src/src/config.rs]: Config.v, what the handlers read of the configuration; Disclosure.v,
      the start from the environment with every check of the operator's disclosure;
      PrivacySchema.v, the schema [src/docs/privacy.schema.json] as a value; DisclosureSpec.v.
    - [src/src/api/store.rs]: Store.v, chains, objects, log, receipts, transparency log,
      outcomes, quota; StoreFacts.v and StoreSpec.v.
    - [src/src/api/auth.rs]: Auth.v, rate limits and capability tokens; AuthFacts.v.
    - [src/src/api/domain.rs]: Domain.v, what makes a device, envelope, epoch, record or
      compaction acceptable, and the commit of an epoch; EpochSpec.v.
    - [src/src/api/mutation.rs], [retention.rs], [deletion.rs], [batch.rs], [import.rs]:
      Mutation.v, Retention.v, Deletion.v, Batch.v, Import.v; BatchFacts.v,
      DeletionSpec.v and ImportSpec.v.
    - [src/src/api/read.rs] and [export.rs]: Read.v and Export.v; PageSpec.v, ExportSpec.v.
    - [src/src/api/sync.rs]: Sync.v, the life of a request and the start of the service, and the
      loop of [main] (UpkeepSpec.v); Concurrent.v, the same as trees of transactions,
      and the process: the step relation [step] and its executable form [act], with
      launches, arrivals, kills, lost clients and the transfer slots [state.transfers].
    - [src/src/api/legacy.rs]: Legacy.v, the frozen v2.1 interface on its own tables and the
      operator's restoration of parameters; LegacySpec.v.
    - [src/src/main.rs] and [src/src/db/mod.rs]: Main.v, the start of the process up to
      [AppState::new]; StartSpec.v.
    - [src/src/bin/pallasync-operator.rs]: Operator.v, the operator's command on a file
      system of directories whose calls may fail; OperatorSpec.v.

    The parts interact through these interfaces.  [db_step] (Steps.v) is the vocabulary
    of writes of a handler: StoreFacts.v, HandlerFacts.v and ServiceFacts.v show that every
    handler of chain [x], whatever its outcome, writes only by steps of [x]; isolation
    and permanence follow from the vocabulary alone.  [hash_chain] (HashChain.v) is the
    abstract specification of the two logs; [chain_ok] (StoreSpec.v) ties a [Chain]
    to it, and ChainInv.v shows that every handler keeps it.  [service_ok]
    (ServiceInv.v) is the invariant of the whole service.  [QuietRelation] and
    [ServiceRelation] (ServiceRel.v) are the classes of relations that every step on
    one chain keeps; [SideTable] (SideTable.v) makes one of any table outside of the
    chains, such as the operator row (OperatorRow.v).  [Guards] (Interleave.v) lists the
    transactions that the process takes: what holds of each of them, such as a
    [ServiceRelation] or the invariant, holds along every interleaving.

    ** The theorems

    - Every interleaving of requests, starts, upkeep, kills and lost clients: the
      invariant and permanence of evidence (InterleaveSpec.v), the log as an abstract
      data type that the service refines (LogSpec.v), single use of a token and the
      check of a device's authority in the transaction that uses it (TokenSpec.v), the
      transfer slots (TransferSpec.v), revoked devices (HistorySpec.v), one relay per
      store (StartSpec.v).  InterleaveWitnesses.v has the run in which a deletion is
      completed without being erased.
    - One request: isolation of chains, absence of effects of a rejection
      (ServiceSpec.v), payload nonces (HistorySpec.v); HandlerTicks.v shows that time
      only advances.
    - The evidence store: accepting, retrying, conflicting, bounds, tamper evidence up
      to a collision of SHA-256 (StoreSpec.v).
    - Authentication: what acceptance of a token means (AuthFacts.v).
    - Epochs, batches, deletions and imports (EpochSpec.v, BatchFacts.v, DeletionSpec.v,
      ImportSpec.v).
    - The upkeep of [main]: pending deletions come to their end (UpkeepSpec.v).
    - The start: what an accepted disclosure is, and that checking one ends
      (DisclosureSpec.v).
    - The operator's command: no published policy is overwritten, and the relay
      accepts what is signed (OperatorSpec.v).
    - The frozen interface: it has no authority over v3, its deletions are final, its
      pages are contiguous (LegacySpec.v).
    - Input: the parser, UTF-8, schemas, queries, routes (Jcs.v, Utf8Spec.v, WireSpec.v,
      Query.v, RoutesSpec.v), and the completeness of the parser (JsonText.v).
    - Output: pages, cursors, the export stream (PageSpec.v, ExportSpec.v).
    - Scenario.v gives a concrete environment that satisfies [ExtLaws], a relay and a
      signed chain; Witnesses.v, ServingWitnesses.v, InterleaveWitnesses.v,
      StartWitnesses.v, LegacyWitnesses.v and OperatorWitnesses.v apply the theorems to
      its runs and schedules.

    ** Fuel

    Recursion that is not structural takes fuel, and running out is [Panic]; for each
    there is a theorem that it never does: [scan] (the length of the text,
    [Jcs.parse_ijson]), [artifact_loop] (the number of nodes,
    [WireSpec.reject_local_artifacts_spec]), [enrollment_chain] (the number of stored
    objects, [DeletionSpec.certificates_of_total]), [resolve_devices] (the number of
    devices, [ImportSpec.resolve_devices_total]), [export_loop] (the sizes of the
    tables, [ExportSpec.export_stream_ends]), [schema_valid] (the depth of the schema,
    [DisclosureSpec.new_total]) and [records_loop] (the number of rows,
    [LegacySpec.legacy_page_contiguous]).

    ** Not modelled

    - The opening of the SQLite pool and the execution of [schema.sql], the absolute
      and canonical form of the database's path, the listener and the timer of
      [main.rs]: input and output around the library.  Of the operator's command the
      parsing of paths, the printing of JSON and dates, and the system's messages are
      parameters (the class [OperatorExt] of Operator.v).
    - The HTTP layer: axum's routing and extraction, timeouts, and of the
      response headers all but Allow, Retry-After and the paging headers of v2.1.  A
      request is the record [Request] of Sync.v.
    - Columns and tables of the frozen v2 schema that no statement of the relay names.
    - Interleaving inside a transaction: an action of [step] holds at most one
      transaction, which SQLite runs by itself, with the clock readings around it; a
      kill inside of it is as if it had not begun.  The reads outside of transactions
      are actions too.  The requests of v2.1 are modelled by
      themselves and are not in the pool: of the v3 tables they change the rate buckets
      only ([LegacySpec.legacy_isolated]). *)
From Stdlib Require Export Ascii String ZArith Lia.
From stdpp Require Export base option list strings gmap sets pretty sorting.
Export List (length).

#[global] Set Warnings "-clear-no-such-hyp,-register-all".
#[global] Open Scope Z_scope.
#[global] Set Default Goal Selector "!".

(** ** Outcomes

    A Rust function that returns [Result<T, E>] and may panic ends in one of
    three ways.  [Panic] is an [unwrap]/[expect] of the source that fails. *)
Inductive Res (E A : Type) : Type :=
  | Ok (x : A)
  | Err (e : E)
  | Panic.
Arguments Ok {E A} _.
Arguments Err {E A} _.
Arguments Panic {E A}.

(** ** Error monads

    One interface for the pure fallible functions and for the stateful ones, so
    that both are written with the same notations. *)
Class ErrMonad (E : Type) (M : Type -> Type) := {
  ret : forall {A}, A -> M A;
  bind : forall {A B}, M A -> (A -> M B) -> M B;
  fail : forall {A}, E -> M A;
  panic : forall {A}, M A;
}.

Declare Scope relay_scope.
Delimit Scope relay_scope with relay.
Notation "'let!' x ':=' m 'in' k" := (bind m (fun x => k))
  (at level 10, x name, m at level 100, k at level 200) : relay_scope.
Notation "'let!' ' p ':=' m 'in' k" := (bind m (fun p => k))
  (at level 10, p pattern, m at level 100, k at level 200, only parsing) : relay_scope.
Notation "m ';;;' k" := (bind m (fun _ => k))
  (at level 199, k at level 200, right associativity) : relay_scope.
#[global] Open Scope relay_scope.

(** Rewriting lemmas of the library. *)
Create Rewrite HintDb relay.

#[global] Arguments bind : simpl never.

#[export] Instance res_monad (E : Type) : ErrMonad E (Res E) := {|
  ret _ x := Ok x;
  bind _ _ m f := match m with Ok x => f x | Err e => Err e | Panic => Panic end;
  fail _ e := Err e;
  panic _ := Panic;
|}.

Section Loops.
Context {E : Type} {M : Type -> Type} `{ErrMonad E M}.

(** [if b { return Err(e) }] *)
Definition fail_if (b : bool) (e : E) : M unit :=
  if b then fail e else ret tt.

(** [o.ok_or_else(|| e)?] *)
Definition ok_or {A} (o : option A) (e : E) : M A :=
  match o with Some x => ret x | None => fail e end.

(** [o.unwrap()] *)
Definition unwrap {A} (o : option A) : M A :=
  match o with Some x => ret x | None => panic end.

(** A [for] loop whose body updates the variables packed in [b]. *)
Fixpoint foldM {A B} (f : B -> A -> M B) (b : B) (l : list A) : M B :=
  match l with
  | [] => ret b
  | x :: l => let! b := f b x in foldM f b l
  end.

(** A [for] loop that only checks. *)
Fixpoint forM {A} (f : A -> M unit) (l : list A) : M unit :=
  match l with
  | [] => ret tt
  | x :: l => f x ;;; forM f l
  end.
End Loops.

(** ** Result lemmas and the inversion tactic for pure code *)
Section ResLemmas.
Context {E : Type}.

Lemma res_bind_Ok {A B} (x : A) (f : A -> Res E B) : bind (Ok x) f = f x.
Proof. done. Qed.
Lemma res_bind_Err {A B} e (f : A -> Res E B) : bind (Err e) f = Err e.
Proof. done. Qed.
Lemma res_bind_Panic {A B} (f : A -> Res E B) : bind Panic f = Panic.
Proof. done. Qed.

Lemma res_bind_ok {A B} (m : Res E A) (f : A -> Res E B) b :
  bind m f = Ok b <-> exists a, m = Ok a /\ f a = Ok b.
Proof. destruct m; cbv [bind res_monad]; naive_solver. Qed.

Lemma res_fail_if_ok b (e : E) u : fail_if (M:=Res E) b e = Ok u <-> b = false.
Proof. destruct b, u; simpl; naive_solver. Qed.

Lemma res_ok_or_ok {A} (o : option A) (e : E) x :
  ok_or (M:=Res E) o e = Ok x <-> o = Some x.
Proof. destruct o; simpl; naive_solver. Qed.

Lemma res_unwrap_ok {A} (o : option A) x :
  unwrap (M:=Res E) (E:=E) o = Ok x <-> o = Some x.
Proof. destruct o; simpl; naive_solver. Qed.

Lemma res_forM_ok {A} (f : A -> Res E unit) l u :
  forM f l = Ok u <-> Forall (fun x => f x = Ok tt) l.
Proof.
  destruct u. induction l as [|x l IH]; simpl.
  - split; [constructor | done].
  - rewrite Forall_cons, <-IH. destruct (f x) as [[]| |]; cbv [bind res_monad]; naive_solver.
Qed.
End ResLemmas.

#[export] Hint Rewrite @res_bind_Ok @res_bind_Err @res_bind_Panic : relay.

(** [res_inv H] turns [H : (... : Res E A) = Ok a] into the facts its guards
    establish. *)
Ltac res_inv_step H :=
  lazymatch type of H with
  | @bind _ (Res _) _ _ _ _ _ = Ok _ =>
      let x := fresh "x" in let Hx := fresh "Hx" in
      apply res_bind_ok in H as (x & Hx & H); res_inv_step Hx; try res_inv_step H
  | fail_if _ _ = Ok _ => apply res_fail_if_ok in H
  | ok_or _ _ = Ok _ => apply res_ok_or_ok in H
  | unwrap _ = Ok _ => apply res_unwrap_ok in H
  | forM _ _ = Ok _ => apply res_forM_ok in H
  | Ok _ = Ok _ => injection H as H
  | @ret _ (Res _) _ _ _ = Ok _ => cbv [ret res_monad] in H; injection H as H
  | fail _ = Ok _ => discriminate H
  | panic = Ok _ => discriminate H
  | _ => idtac
  end.
Ltac res_inv H := res_inv_step H; simplify_eq/=.

(** ** Strings: Rust [str] values are their UTF-8 bytes *)
Definition byte_of (c : ascii) : Z := Z.of_N (N_of_ascii c).
Definition ascii_of_Z (z : Z) : ascii := ascii_of_N (Z.to_N z).
Definition str_bytes (s : string) : list Z := byte_of <$> list_ascii_of_string s.
Definition str_len (s : string) : Z := Z.of_nat (String.length s).

(** [NUL]-terminated context literals, [b"...\0"]. *)
Definition nul : ascii := ascii_of_Z 0.
Definition zstr (s : string) : string := s +:+ String nul EmptyString.

Definition is_digit (c : ascii) : bool := (48 <=? byte_of c) && (byte_of c <=? 57).
Definition is_lower (c : ascii) : bool := (97 <=? byte_of c) && (byte_of c <=? 122).
Definition is_upper (c : ascii) : bool := (65 <=? byte_of c) && (byte_of c <=? 90).
Definition is_alnum (c : ascii) : bool := is_digit c || is_lower c || is_upper c.

(** [s.bytes().all(f)] *)
Fixpoint str_forallb (f : ascii -> bool) (s : string) : bool :=
  match s with EmptyString => true | String c s => f c && str_forallb f s end.

Definition str_contains (c : ascii) (s : string) : bool :=
  negb (str_forallb (fun d => negb (Ascii.eqb d c)) s).

(** [l.contains(&x)] *)
Definition mem (x : string) (l : list string) : bool := existsb (String.eqb x) l.

(** [s.split(c)]: at least one piece. *)
Fixpoint split_on (c : ascii) (s : string) : list string :=
  match s with
  | EmptyString => [EmptyString]
  | String d s =>
      if Ascii.eqb d c then EmptyString :: split_on c s
      else match split_on c s with
           | [] => [String d EmptyString]
           | p :: ps => String d p :: ps
           end
  end.

(** [s.split_once(c)] *)
Fixpoint split_once (c : ascii) (s : string) : option (string * string) :=
  match s with
  | EmptyString => None
  | String d s =>
      if Ascii.eqb d c then Some (EmptyString, s)
      else match split_once c s with
           | Some (a, b) => Some (String d a, b)
           | None => None
           end
  end.

Fixpoint strip_prefix (p s : string) : option string :=
  match p, s with
  | EmptyString, _ => Some s
  | String c p, String d s => if Ascii.eqb c d then strip_prefix p s else None
  | _, _ => None
  end.

Lemma strip_prefix_app p x : strip_prefix p (p +:+ x) = Some x.
Proof. induction p as [|c p IH]; simpl; [done|]. by rewrite Ascii.eqb_refl. Qed.
Lemma strip_prefix_ok p x y : strip_prefix p x = Some y -> x = p +:+ y.
Proof.
  revert x. induction p as [|c p IH]; intros x H; [by injection H as ->|].
  destruct x as [|d x]; [done|]. simpl in *. destruct (Ascii.eqb_spec c d) as [->|]; [|done].
  by rewrite (IH x).
Qed.

Fixpoint strip_suffix (p s : string) : option string :=
  if String.eqb p s then Some EmptyString
  else match s with
       | EmptyString => None
       | String c s => match strip_suffix p s with
                       | Some r => Some (String c r)
                       | None => None
                       end
       end.

Definition ends_with (p s : string) : bool :=
  match strip_suffix p s with Some _ => true | None => false end.

(** Rust compares [str] bytewise. *)
Definition str_leb (x y : string) : bool :=
  match String.compare x y with Gt => false | _ => true end.
Definition str_ltb (x y : string) : bool :=
  match String.compare x y with Lt => true | _ => false end.

Lemma str_leb_total x y : str_leb x y = false -> str_leb y x = true.
Proof.
  unfold str_leb. rewrite (String.compare_antisym y x).
  by destruct (String.compare x y).
Qed.

Lemma ascii_compare_lt_trans x y z :
  Ascii.compare x y = Lt -> Ascii.compare y z = Lt -> Ascii.compare x z = Lt.
Proof. unfold Ascii.compare. rewrite !N.compare_lt_iff. lia. Qed.

Lemma string_compare_refl x : String.compare x x = Eq.
Proof.
  pose proof (String.compare_antisym x x) as H. by destruct (String.compare x x).
Qed.

Lemma ascii_compare_refl x : Ascii.compare x x = Eq.
Proof. apply N.compare_refl. Qed.

Lemma ascii_compare_eq x y : Ascii.compare x y = Eq -> x = y.
Proof.
  unfold Ascii.compare. rewrite N.compare_eq_iff. intros H.
  by rewrite <-(ascii_N_embedding x), <-(ascii_N_embedding y), H.
Qed.

Lemma string_compare_lt_trans x y z :
  String.compare x y = Lt -> String.compare y z = Lt -> String.compare x z = Lt.
Proof.
  revert y z. induction x as [|c x IH]; intros [|d y] [|e z]; simpl; try done.
  destruct (Ascii.compare c d) eqn:Hcd, (Ascii.compare d e) eqn:Hde; try done;
    repeat match goal with H : Ascii.compare _ _ = Eq |- _ =>
      apply ascii_compare_eq in H; subst end.
  - rewrite ascii_compare_refl. apply IH.
  - by rewrite Hde.
  - by rewrite Hcd.
  - by rewrite (ascii_compare_lt_trans c d e).
Qed.

(** [n.to_string()] on an unsigned integer. *)
Definition dec (z : Z) : string := pretty (Z.to_N z).

(** [s.parse::<u64>()] on a string of digits (the only use): [None] on overflow. *)
Definition digit_val (c : ascii) : Z := byte_of c - 48.
Definition parse_digits (s : string) : Z :=
  fold_left (fun a c => 10 * a + digit_val c) (list_ascii_of_string s) 0.
Definition u64_max : Z := 2 ^ 64 - 1.
Definition u32_max : Z := 2 ^ 32 - 1.
Definition parse_u64 (s : string) : option Z :=
  if (parse_digits s <=? u64_max) then Some (parse_digits s) else None.

(** [n.to_be_bytes()] for a [u64]. *)
Definition be_bytes8 (z : Z) : string :=
  string_of_list_ascii
    ((fun i => ascii_of_Z (Z.land (Z.shiftr z (8 * i)) 255)) <$> [7;6;5;4;3;2;1;0]).

(** ** Sorting

    [sort_by le l] is the stable sort the source asks of [sort], [sort_by_key]
    and [ORDER BY]. *)
Section Sort.
Context {A : Type} (le : A -> A -> bool).

Fixpoint sorted_insert (x : A) (l : list A) : list A :=
  match l with
  | [] => [x]
  | y :: l' => if le x y then x :: l else y :: sorted_insert x l'
  end.
Definition sort_by (l : list A) : list A := foldr sorted_insert [] l.

Lemma sorted_insert_perm x l : sorted_insert x l ≡ₚ x :: l.
Proof.
  induction l as [|y l IH]; simpl; [done|].
  destruct (le x y); [done|]. rewrite IH. apply Permutation_swap.
Qed.

Lemma sort_by_perm l : sort_by l ≡ₚ l.
Proof.
  induction l as [|x l IH]; simpl; [done|].
  by rewrite sorted_insert_perm, IH.
Qed.

Lemma sort_by_length l : length (sort_by l) = length l.
Proof. by rewrite sort_by_perm. Qed.

Lemma elem_of_sort_by x l : x ∈ sort_by l <-> x ∈ l.
Proof. by rewrite sort_by_perm. Qed.

Context (total : forall x y, le x y = false -> le y x = true).

Lemma sorted_insert_sorted x l :
  Sorted (fun x y => le x y = true) l ->
  Sorted (fun x y => le x y = true) (sorted_insert x l).
Proof.
  induction 1 as [|y l Hl IH Hd]; simpl; [repeat constructor|].
  destruct (le x y) eqn:Hle; [by repeat constructor|].
  constructor; [done|].
  destruct l as [|z l]; simpl in *; [constructor; auto|].
  inversion Hd; subst. destruct (le x z); constructor; auto.
Qed.

Lemma sort_by_sorted l : Sorted (fun x y => le x y = true) (sort_by l).
Proof. induction l; simpl; [constructor | by apply sorted_insert_sorted]. Qed.
End Sort.

(** ** [HashSet::insert] in a loop: fails on the first repetition. *)
Fixpoint distinct {A} `{EqDecision A} (seen l : list A) : bool :=
  match l with
  | [] => true
  | x :: l => negb (bool_decide (x ∈ seen)) && distinct (x :: seen) l
  end.

Lemma distinct_spec {A} `{EqDecision A} (seen l : list A) :
  distinct seen l = true <-> NoDup l /\ forall x, x ∈ l -> x ∉ seen.
Proof.
  revert seen. induction l as [|x l IH]; intros seen; simpl.
  - split; [intros _; split; [constructor | set_solver] | done].
  - rewrite andb_true_iff, IH, negb_true_iff, bool_decide_eq_false, NoDup_cons.
    set_solver.
Qed.

(** Case analysis on the first stuck [match]/[if] of a hypothesis. *)
Ltac case_hyp H :=
  match type of H with
  | context [match ?x with _ => _ end] =>
      lazymatch x with
      | context [match _ with _ => _ end] => fail
      | _ => let E := fresh "E" in destruct x eqn:E
      end
  end.

(** Boolean guards as propositions, in every hypothesis. *)
Ltac bsimp :=
  repeat match goal with
  | H : negb _ = false |- _ => apply negb_false_iff in H
  | H : negb _ = true |- _ => apply negb_true_iff in H
  | H : _ || _ = false |- _ => apply orb_false_iff in H as [? ?]
  | H : _ && _ = true |- _ => apply andb_true_iff in H as [? ?]
  | H : String.eqb _ _ = true |- _ => apply String.eqb_eq in H
  | H : String.eqb _ _ = false |- _ => apply String.eqb_neq in H
  | H : bool_decide _ = true |- _ => apply bool_decide_eq_true in H
  | H : bool_decide _ = false |- _ => apply bool_decide_eq_false in H
  | H : (_ <=? _) = true |- _ => apply Z.leb_le in H
  | H : (_ <=? _) = false |- _ => apply Z.leb_gt in H
  | H : (_ <? _) = true |- _ => apply Z.ltb_lt in H
  | H : (_ <? _) = false |- _ => apply Z.ltb_ge in H
  | H : (_ =? _)%Z = true |- _ => apply Z.eqb_eq in H
  | H : (_ =? _)%Z = false |- _ => apply Z.eqb_neq in H
  end; simplify_eq/=.
