(* ===== verification/Error.v ===== *)
(** * Protocol errors

    The closed error catalogue of [src/src/api/error.rs]: the codes, the HTTP
    status and retryability of each, and the [Retry-After] clamp.  The type
    [ApiError] is polymorphic in the context value so that this file does not
    depend on the JSON model. *)
From S2P Require Import Prelude.

(** The error codes are string literals in the source; the closed set that
    [catalogue] accepts is an enumeration here. *)
Inductive Code :=
  | INVALID_JSON | INVALID_FIELD | CURSOR_INVALID | FILTER_NOT_ALLOWED
  | TOKEN_REQUIRED | TOKEN_NOT_YET_VALID | TOKEN_EXPIRED | TOKEN_REPLAYED
  | TOKEN_TTL_TOO_LONG | TOKEN_SIGNATURE_INVALID | TOKEN_BINDING_MISMATCH
  | ADMIN_REQUIRED | DEVICE_PENDING_KEYS | DEVICE_UNKNOWN
  | ENROLLMENT_NOT_ALLOWED | ROTATION_NOT_ALLOWED
  | DEVICE_REVOKED | DEVICE_KEY_MISMATCH | ENVELOPE_ACCESS_DENIED
  | ENDPOINT_NOT_FOUND
  | CHAIN_NOT_FOUND | DEVICE_NOT_FOUND | EPOCH_NOT_FOUND | OFFER_NOT_FOUND
  | ENVELOPE_NOT_FOUND | SNAPSHOT_PART_NOT_FOUND | SNAPSHOT_NOT_FOUND
  | RECEIPT_NOT_FOUND
  | METHOD_NOT_ALLOWED | REQUEST_TIMEOUT
  | CHAIN_EXISTS | RECORD_ID_CONFLICT | DEVICE_ID_CONFLICT
  | REQUEST_ID_CONFLICT | ENVELOPE_ID_CONFLICT | OPERATION_ID_CONFLICT
  | IMPORT_CONFLICT
  | EPOCH_STALE | CAS_MISMATCH | GENERATION_MISMATCH | MEMBER_SET_MISMATCH
  | RECOVERY_ENVELOPE_REQUIRED | HISTORY_KEY_EXPIRED | CURSOR_EXPIRED
  | LOG_ID_MISMATCH | LOG_PRUNED | SNAPSHOT_INCOMPLETE | COMPACTION_UNSAFE
  | REPAIR_PROOF_REQUIRED | TRANSPARENCY_ID_MISMATCH
  | TRANSPARENCY_RANGE_UNAVAILABLE
  | CHAIN_DELETED | PAYLOAD_TOO_LARGE | DEVICE_LIMIT_REACHED
  | UNSUPPORTED_MEDIA_TYPE
  | OBJECT_SIGNATURE_INVALID | ENROLLMENT_CERTIFICATE_INVALID
  | EPOCH_CHAIN_INVALID
  | RATE_LIMITED | INTERNAL_ERROR | BAD_GATEWAY | RELAY_UNAVAILABLE
  | RELAY_SHUTTING_DOWN | GATEWAY_TIMEOUT | QUOTA_EXCEEDED
  | STORAGE_UNAVAILABLE.

#[export] Instance Code_eq_dec : EqDecision Code.
Proof. solve_decision. Defined.

(** The string literal of a code. *)
Definition code_str (c : Code) : string :=
  match c with
  | INVALID_JSON => "INVALID_JSON"
  | INVALID_FIELD => "INVALID_FIELD"
  | CURSOR_INVALID => "CURSOR_INVALID"
  | FILTER_NOT_ALLOWED => "FILTER_NOT_ALLOWED"
  | TOKEN_REQUIRED => "TOKEN_REQUIRED"
  | TOKEN_NOT_YET_VALID => "TOKEN_NOT_YET_VALID"
  | TOKEN_EXPIRED => "TOKEN_EXPIRED"
  | TOKEN_REPLAYED => "TOKEN_REPLAYED"
  | TOKEN_TTL_TOO_LONG => "TOKEN_TTL_TOO_LONG"
  | TOKEN_SIGNATURE_INVALID => "TOKEN_SIGNATURE_INVALID"
  | TOKEN_BINDING_MISMATCH => "TOKEN_BINDING_MISMATCH"
  | ADMIN_REQUIRED => "ADMIN_REQUIRED"
  | DEVICE_PENDING_KEYS => "DEVICE_PENDING_KEYS"
  | DEVICE_UNKNOWN => "DEVICE_UNKNOWN"
  | ENROLLMENT_NOT_ALLOWED => "ENROLLMENT_NOT_ALLOWED"
  | ROTATION_NOT_ALLOWED => "ROTATION_NOT_ALLOWED"
  | DEVICE_REVOKED => "DEVICE_REVOKED"
  | DEVICE_KEY_MISMATCH => "DEVICE_KEY_MISMATCH"
  | ENVELOPE_ACCESS_DENIED => "ENVELOPE_ACCESS_DENIED"
  | ENDPOINT_NOT_FOUND => "ENDPOINT_NOT_FOUND"
  | CHAIN_NOT_FOUND => "CHAIN_NOT_FOUND"
  | DEVICE_NOT_FOUND => "DEVICE_NOT_FOUND"
  | EPOCH_NOT_FOUND => "EPOCH_NOT_FOUND"
  | OFFER_NOT_FOUND => "OFFER_NOT_FOUND"
  | ENVELOPE_NOT_FOUND => "ENVELOPE_NOT_FOUND"
  | SNAPSHOT_PART_NOT_FOUND => "SNAPSHOT_PART_NOT_FOUND"
  | SNAPSHOT_NOT_FOUND => "SNAPSHOT_NOT_FOUND"
  | RECEIPT_NOT_FOUND => "RECEIPT_NOT_FOUND"
  | METHOD_NOT_ALLOWED => "METHOD_NOT_ALLOWED"
  | REQUEST_TIMEOUT => "REQUEST_TIMEOUT"
  | CHAIN_EXISTS => "CHAIN_EXISTS"
  | RECORD_ID_CONFLICT => "RECORD_ID_CONFLICT"
  | DEVICE_ID_CONFLICT => "DEVICE_ID_CONFLICT"
  | REQUEST_ID_CONFLICT => "REQUEST_ID_CONFLICT"
  | ENVELOPE_ID_CONFLICT => "ENVELOPE_ID_CONFLICT"
  | OPERATION_ID_CONFLICT => "OPERATION_ID_CONFLICT"
  | IMPORT_CONFLICT => "IMPORT_CONFLICT"
  | EPOCH_STALE => "EPOCH_STALE"
  | CAS_MISMATCH => "CAS_MISMATCH"
  | GENERATION_MISMATCH => "GENERATION_MISMATCH"
  | MEMBER_SET_MISMATCH => "MEMBER_SET_MISMATCH"
  | RECOVERY_ENVELOPE_REQUIRED => "RECOVERY_ENVELOPE_REQUIRED"
  | HISTORY_KEY_EXPIRED => "HISTORY_KEY_EXPIRED"
  | CURSOR_EXPIRED => "CURSOR_EXPIRED"
  | LOG_ID_MISMATCH => "LOG_ID_MISMATCH"
  | LOG_PRUNED => "LOG_PRUNED"
  | SNAPSHOT_INCOMPLETE => "SNAPSHOT_INCOMPLETE"
  | COMPACTION_UNSAFE => "COMPACTION_UNSAFE"
  | REPAIR_PROOF_REQUIRED => "REPAIR_PROOF_REQUIRED"
  | TRANSPARENCY_ID_MISMATCH => "TRANSPARENCY_ID_MISMATCH"
  | TRANSPARENCY_RANGE_UNAVAILABLE => "TRANSPARENCY_RANGE_UNAVAILABLE"
  | CHAIN_DELETED => "CHAIN_DELETED"
  | PAYLOAD_TOO_LARGE => "PAYLOAD_TOO_LARGE"
  | DEVICE_LIMIT_REACHED => "DEVICE_LIMIT_REACHED"
  | UNSUPPORTED_MEDIA_TYPE => "UNSUPPORTED_MEDIA_TYPE"
  | OBJECT_SIGNATURE_INVALID => "OBJECT_SIGNATURE_INVALID"
  | ENROLLMENT_CERTIFICATE_INVALID => "ENROLLMENT_CERTIFICATE_INVALID"
  | EPOCH_CHAIN_INVALID => "EPOCH_CHAIN_INVALID"
  | RATE_LIMITED => "RATE_LIMITED"
  | INTERNAL_ERROR => "INTERNAL_ERROR"
  | BAD_GATEWAY => "BAD_GATEWAY"
  | RELAY_UNAVAILABLE => "RELAY_UNAVAILABLE"
  | RELAY_SHUTTING_DOWN => "RELAY_SHUTTING_DOWN"
  | GATEWAY_TIMEOUT => "GATEWAY_TIMEOUT"
  | QUOTA_EXCEEDED => "QUOTA_EXCEEDED"
  | STORAGE_UNAVAILABLE => "STORAGE_UNAVAILABLE"
  end.

Record ApiErrorOf (V : Type) := ApiErr { code : Code; context : option V }.
Arguments ApiErr {V} _ _.
Arguments code {V} _.
Arguments context {V} _.

(** [err(code)] and [.context(v)]. *)
Definition err {V} (c : Code) : ApiErrorOf V := ApiErr c None.
Definition with_context {V} (e : ApiErrorOf V) (v : V) : ApiErrorOf V :=
  ApiErr (code e) (Some v).

(** [catalogue]: HTTP status and retryability. *)
Definition catalogue (c : Code) : Z * bool :=
  match c with
  | INVALID_JSON | INVALID_FIELD | CURSOR_INVALID | FILTER_NOT_ALLOWED =>
      (400, false)
  | TOKEN_REQUIRED | TOKEN_NOT_YET_VALID | TOKEN_EXPIRED | TOKEN_REPLAYED =>
      (401, true)
  | TOKEN_TTL_TOO_LONG | TOKEN_SIGNATURE_INVALID | TOKEN_BINDING_MISMATCH =>
      (401, false)
  | ADMIN_REQUIRED | DEVICE_PENDING_KEYS | DEVICE_UNKNOWN
  | ENROLLMENT_NOT_ALLOWED | ROTATION_NOT_ALLOWED => (403, true)
  | DEVICE_REVOKED | DEVICE_KEY_MISMATCH | ENVELOPE_ACCESS_DENIED => (403, false)
  | ENDPOINT_NOT_FOUND => (404, false)
  | CHAIN_NOT_FOUND | DEVICE_NOT_FOUND | EPOCH_NOT_FOUND | OFFER_NOT_FOUND
  | ENVELOPE_NOT_FOUND | SNAPSHOT_PART_NOT_FOUND | SNAPSHOT_NOT_FOUND
  | RECEIPT_NOT_FOUND => (404, true)
  | METHOD_NOT_ALLOWED => (405, false)
  | REQUEST_TIMEOUT => (408, true)
  | CHAIN_EXISTS | RECORD_ID_CONFLICT | DEVICE_ID_CONFLICT
  | REQUEST_ID_CONFLICT | ENVELOPE_ID_CONFLICT | OPERATION_ID_CONFLICT
  | IMPORT_CONFLICT => (409, false)
  | EPOCH_STALE | CAS_MISMATCH | GENERATION_MISMATCH | MEMBER_SET_MISMATCH
  | RECOVERY_ENVELOPE_REQUIRED | HISTORY_KEY_EXPIRED | CURSOR_EXPIRED
  | LOG_ID_MISMATCH | LOG_PRUNED | SNAPSHOT_INCOMPLETE | COMPACTION_UNSAFE
  | REPAIR_PROOF_REQUIRED | TRANSPARENCY_ID_MISMATCH
  | TRANSPARENCY_RANGE_UNAVAILABLE => (409, true)
  | CHAIN_DELETED => (410, false)
  | PAYLOAD_TOO_LARGE | DEVICE_LIMIT_REACHED => (413, true)
  | UNSUPPORTED_MEDIA_TYPE => (415, false)
  | OBJECT_SIGNATURE_INVALID | ENROLLMENT_CERTIFICATE_INVALID
  | EPOCH_CHAIN_INVALID => (422, false)
  | RATE_LIMITED => (429, true)
  | INTERNAL_ERROR => (500, true)
  | BAD_GATEWAY => (502, true)
  | RELAY_UNAVAILABLE | RELAY_SHUTTING_DOWN => (503, true)
  | GATEWAY_TIMEOUT => (504, true)
  | QUOTA_EXCEEDED | STORAGE_UNAVAILABLE => (507, true)
  end.

Definition status {V} (e : ApiErrorOf V) : Z := fst (catalogue (code e)).
Definition retryable {V} (e : ApiErrorOf V) : bool := snd (catalogue (code e)).

(** The [Retry-After] header: [(ms.div_ceil(1000)).clamp(1, 3600)] with the
    context's [retry_after_ms], 1000 when it is absent. *)
Definition div_ceil (a b : Z) : Z := (a + b - 1) / b.
Definition clamp (lo hi x : Z) : Z := Z.min hi (Z.max lo x).
Definition retry_after {V} (ms_of : V -> option Z) (e : ApiErrorOf V) : option Z :=
  if bool_decide (code e = RATE_LIMITED \/ code e = TOKEN_NOT_YET_VALID) then
    let ms := default 1000 (context e ≫= ms_of) in
    Some (clamp 1 3600 (div_ceil ms 1000))
  else None.
