(* ===== verification/Json.v ===== *)
(** * JSON values

    [serde_json::Value] as the relay uses it: no floating-point number ever
    reaches it (the strict parser of [src/src/crypto/jcs.rs] refuses them), and
    an object is a [BTreeMap], that is a list of members sorted by key. *)
From S2P Require Import Prelude Error.

Inductive Value :=
  | Null
  | Bool (b : bool)
  | Num (z : Z)
  | Str (s : string)
  | Arr (l : list Value)
  | Obj (l : list (string * Value)).

Abbreviation ApiError := (ApiErrorOf Value).
Abbreviation Result := (Res ApiError).

(** ** Induction principle and decidable equality *)
Section ValueInd.
Context (P : Value -> Prop).
Context (HNull : P Null) (HBool : forall b, P (Bool b)) (HNum : forall z, P (Num z)).
Context (HStr : forall s, P (Str s)).
Context (HArr : forall l, Forall P l -> P (Arr l)).
Context (HObj : forall l, Forall (fun kv => P (snd kv)) l -> P (Obj l)).

Fixpoint Value_ind' (v : Value) : P v :=
  match v with
  | Null => HNull
  | Bool b => HBool b
  | Num z => HNum z
  | Str s => HStr s
  | Arr l => HArr l ((fix go l : Forall P l :=
      match l with
      | [] => Forall_nil_2 _
      | x :: l => Forall_cons_2 _ _ _ (Value_ind' x) (go l)
      end) l)
  | Obj l => HObj l ((fix go l : Forall (fun kv => P (snd kv)) l :=
      match l with
      | [] => Forall_nil_2 _
      | kv :: l => Forall_cons_2 _ _ _ (Value_ind' (snd kv)) (go l)
      end) l)
  end.
End ValueInd.

#[export] Instance Value_eq_dec : EqDecision Value.
Proof.
  refine (fix go (v w : Value) : Decision (v = w) :=
    let _ : EqDecision Value := @go in
    match v, w with
    | Null, Null => left _
    | Bool a, Bool b => cast_if (decide (a = b))
    | Num a, Num b => cast_if (decide (a = b))
    | Str a, Str b => cast_if (decide (a = b))
    | Arr a, Arr b => cast_if (decide (a = b))
    | Obj a, Obj b => cast_if (decide (a = b))
    | _, _ => right _
    end); abstract congruence.
Defined.

(** [v == w] *)
Definition veqb (v w : Value) : bool := bool_decide (v = w).

(** What [serde_json]'s deserializer feeds a visitor: members in text order,
    duplicates included; [RU64]/[RI64]/[RF64] are [visit_u64]/[visit_i64]/[visit_f64]. *)
Inductive Raw :=
  | RNull
  | RBool (b : bool)
  | RU64 (z : N)
  | RI64 (z : Z)
  | RF64
  | RStr (s : string)
  | RArr (l : list Raw)
  | RObj (l : list (string * Raw)).

Section RawInd.
Context (P : Raw -> Prop).
Context (HNull : P RNull) (HBool : forall b, P (RBool b)) (HU : forall z, P (RU64 z)).
Context (HI : forall z, P (RI64 z)) (HF : P RF64) (HStr : forall s, P (RStr s)).
Context (HArr : forall l, Forall P l -> P (RArr l)).
Context (HObj : forall l, Forall (fun kv => P (snd kv)) l -> P (RObj l)).

Fixpoint Raw_ind' (v : Raw) : P v :=
  match v with
  | RNull => HNull | RBool b => HBool b | RU64 z => HU z | RI64 z => HI z
  | RF64 => HF | RStr s => HStr s
  | RArr l => HArr l ((fix go l : Forall P l :=
      match l with
      | [] => Forall_nil_2 _
      | x :: l => Forall_cons_2 _ _ _ (Raw_ind' x) (go l)
      end) l)
  | RObj l => HObj l ((fix go l : Forall (fun kv => P (snd kv)) l :=
      match l with
      | [] => Forall_nil_2 _
      | kv :: l => Forall_cons_2 _ _ _ (Raw_ind' (snd kv)) (go l)
      end) l)
  end.
End RawInd.

(** ** Accessors of [serde_json::Value] *)
Definition as_str (v : Value) : option string :=
  match v with Str s => Some s | _ => None end.
Definition as_u64 (v : Value) : option Z :=
  match v with
  | Num z => if (0 <=? z) && (z <=? u64_max) then Some z else None
  | _ => None
  end.
Definition as_array (v : Value) : option (list Value) :=
  match v with Arr l => Some l | _ => None end.
Definition as_object (v : Value) : option (list (string * Value)) :=
  match v with Obj l => Some l | _ => None end.
Definition is_null (v : Value) : bool := match v with Null => true | _ => false end.
Definition is_bool (v : Value) : bool := match v with Bool _ => true | _ => false end.
Definition is_object (v : Value) : bool := match v with Obj _ => true | _ => false end.
Definition is_array (v : Value) : bool := match v with Arr _ => true | _ => false end.

(** ** Objects as key-sorted association lists *)
Fixpoint obj_get (l : list (string * Value)) (k : string) : option Value :=
  match l with
  | [] => None
  | (k', v) :: l => if String.eqb k k' then Some v else obj_get l k
  end.

(** [Map::insert] of a [BTreeMap]: replaces the value or keeps the order. *)
Fixpoint obj_insert (k : string) (v : Value) (l : list (string * Value)) :=
  match l with
  | [] => [(k, v)]
  | (k', v') :: l' =>
      match String.compare k k' with
      | Lt => (k, v) :: l
      | Eq => (k, v) :: l'
      | Gt => (k', v') :: obj_insert k v l'
      end
  end.

Fixpoint obj_remove (k : string) (l : list (string * Value)) :=
  match l with
  | [] => []
  | (k', v') :: l => if String.eqb k k' then obj_remove k l else (k', v') :: obj_remove k l
  end.

(** [v.get(k)] and [v[k]] ([Null] when absent or not an object). *)
Definition get_opt (v : Value) (k : string) : option Value :=
  match v with Obj l => obj_get l k | _ => None end.
Definition get (v : Value) (k : string) : Value := default Null (get_opt v k).

(** [v[k] = x] on an object. *)
Definition set_member (v : Value) (k : string) (x : Value) : Value :=
  match v with
  | Obj l => Obj (obj_insert k x l)
  | Null => Obj [(k, x)]
  | v => v
  end.

(** The values on which serde_json assigns a member: the others panic. *)
Definition settable (v : Value) : bool := is_object v || is_null v.

(** [v.as_object_mut().unwrap().remove(k)] on an object. *)
Definition remove_member (v : Value) (k : string) : Value :=
  match v with Obj l => Obj (obj_remove k l) | v => v end.

(** [json!({k: v, ...})] *)
Definition json (l : list (string * Value)) : Value :=
  Obj (foldl (fun o kv => obj_insert (fst kv) (snd kv) o) [] l).

Definition opt_str (o : option string) : Value :=
  match o with Some s => Str s | None => Null end.
Definition opt_num (o : option Z) : Value :=
  match o with Some z => Num z | None => Null end.

(** ** The accessors of [src/src/api/wire.rs] *)
Definition s (v : Value) (key : string) : string :=
  default EmptyString (as_str (get v key)).
Definition n (v : Value) (key : string) : Z := default 0 (as_u64 (get v key)).
Definition a (v : Value) (key : string) : list Value :=
  default [] (as_array (get v key)).

(** [v[k].as_str().unwrap()] and the like, on elements of arrays. *)
Definition strs (l : list Value) : list string :=
  (fun v => default EmptyString (as_str v)) <$> l.

(** ** Lemmas *)
Lemma veqb_eq v w : veqb v w = true <-> v = w.
Proof. apply bool_decide_eq_true. Qed.
Lemma veqb_neq v w : veqb v w = false <-> v <> w.
Proof. apply bool_decide_eq_false. Qed.
Lemma veqb_refl v : veqb v v = true.
Proof. by apply veqb_eq. Qed.

Lemma n_bounds v k : 0 <= n v k <= u64_max.
Proof.
  unfold n, as_u64. destruct (get v k); simpl; try (unfold u64_max; lia).
  destruct (0 <=? z) eqn:?, (z <=? u64_max) eqn:?; simpl; unfold u64_max in *; lia.
Qed.

Lemma obj_get_insert k v l k' :
  obj_get (obj_insert k v l) k' = if String.eqb k' k then Some v else obj_get l k'.
Proof.
  induction l as [|[k1 v1] l IH]; simpl; [done|].
  destruct (String.compare k k1) eqn:Hc; simpl.
  - apply String.compare_eq_iff in Hc as ->. by destruct (String.eqb k' k1).
  - done.
  - rewrite IH. destruct (String.eqb k' k1) eqn:H1, (String.eqb k' k) eqn:H2; try done.
    apply String.eqb_eq in H1, H2. subst. by rewrite string_compare_refl in Hc.
Qed.

Lemma obj_get_remove k l k' :
  obj_get (obj_remove k l) k' = if String.eqb k k' then None else obj_get l k'.
Proof.
  induction l as [|[k1 v1] l IH]; simpl; [by destruct (String.eqb _ _)|].
  destruct (String.eqb k k1) eqn:H1; simpl; rewrite IH.
  - apply String.eqb_eq in H1 as <-. rewrite (String.eqb_sym k' k).
    by destruct (String.eqb k k').
  - destruct (String.eqb k' k1) eqn:H2; [|done].
    apply String.eqb_eq in H2 as ->. by rewrite H1.
Qed.

Lemma get_set_member l k x k' :
  get (set_member (Obj l) k x) k' = if String.eqb k' k then x else get (Obj l) k'.
Proof. unfold get; simpl. rewrite obj_get_insert. by destruct (String.eqb k' k). Qed.

Lemma get_set_settable v k x k' : settable v = true ->
  get (set_member v k x) k' = if String.eqb k' k then x else get v k'.
Proof.
  destruct v; try done; intros _; [|apply get_set_member].
  unfold get, get_opt. simpl. by destruct (String.eqb k' k).
Qed.
Lemma settable_set v k x : settable v = true -> settable (set_member v k x) = true.
Proof. by destruct v. Qed.
Lemma get_remove_member l k k' :
  get (remove_member (Obj l) k) k' = if String.eqb k k' then Null else get (Obj l) k'.
Proof. unfold get; simpl. rewrite obj_get_remove. by destruct (String.eqb k k'). Qed.

(** Removing the member just written gives back an object without it. *)
Lemma obj_remove_insert k v l :
  obj_get l k = None -> obj_remove k (obj_insert k v l) = obj_remove k l.
Proof.
  induction l as [|[k1 v1] l IH]; simpl; intros Hn.
  - by rewrite String.eqb_refl.
  - destruct (String.eqb k k1) eqn:H1; [done|].
    destruct (String.compare k k1) eqn:Hc; simpl.
    + apply String.compare_eq_iff in Hc as ->. by rewrite String.eqb_refl in H1.
    + by rewrite String.eqb_refl, H1.
    + rewrite H1, IH; done.
Qed.

Lemma obj_remove_absent k l : obj_get l k = None -> obj_remove k l = l.
Proof.
  induction l as [|[k1 v1] l IH]; simpl; [done|].
  destruct (String.eqb k k1); [done|]. intros ?; by rewrite IH.
Qed.
