(* ===== verification/Verify.v ===== *)
(** * Signatures and hashes ([src/src/crypto/verify.rs])

    The primitives of the third-party crates (base64, sha2, serde_jcs,
    curve25519-dalek, ed25519-dalek, uuid, unicode-normalization) are the fields
    of the class [Ext]; the documented behaviour the relay relies on is the
    class [ExtLaws].  Everything the source builds on top of them is defined
    here. *)
From S2P Require Import Prelude Error Json.

(** What [uuid::Uuid::parse_str] yields, as far as the source looks at it. *)
Record Uuid := MkUuid {
  uuid_version : Z;          (* get_version_num() *)
  uuid_rfc4122 : bool;       (* get_variant() == Variant::RFC4122 *)
  uuid_bytes : string;       (* as_bytes() *)
  uuid_text : string;        (* to_string() *)
}.

Class Ext := {
  (* base64: URL_SAFE_NO_PAD *)
  b64_encode : string -> string;
  b64_decode : string -> option string;
  (* sha2 *)
  sha256 : string -> string;
  (* serde_jcs::to_vec; it fails on no value without floats *)
  jcs_to_vec : Value -> string;
  (* serde_json::from_str: the events it feeds, [None] on a syntax error *)
  serde_from_str : string -> option Raw;
  (* curve25519-dalek *)
  EdPoint : Type;
  ed_decompress : string -> option EdPoint;
  ed_compress : EdPoint -> string;
  ed_is_identity : EdPoint -> bool;
  ed_is_torsion_free : EdPoint -> bool;
  scalar_from_canonical : string -> bool;
  mont_mul_clamped : string -> string -> string;
  (* ed25519-dalek *)
  SigningKey : Type;
  verifying_key : SigningKey -> string;
  ed_sign : SigningKey -> string -> string;
  verifying_key_from_bytes : string -> bool;
  ed_verify_strict : string -> string -> string -> bool;
  (* unicode-normalization and uuid *)
  nfc : string -> string;
  uuid_parse : string -> option Uuid;
}.

Class ExtLaws (X : Ext) : Prop := {
  b64_decode_encode : forall x, b64_decode (b64_encode x) = Some x;
  b64_alphabet : forall x,
    str_forallb (fun c => is_alnum c || Ascii.eqb c "-" || Ascii.eqb c "_")
      (b64_encode x) = true;
  sha256_length : forall x, str_len (sha256 x) = 32;
}.

Section Verify.
Context {X : Ext}.

Definition CTX_SYNC_RECORD := zstr "PALLASYNC-SYNC-RECORD-v3".
Definition CTX_DEVICE_RECORD := zstr "PALLASYNC-DEVICE-RECORD-v3".
Definition CTX_ENROLLMENT := zstr "PALLASYNC-ENROLLMENT-v3".
Definition CTX_CAPABILITY := zstr "PALLASYNC-CAPABILITY-v3".
Definition CTX_PARAMETERS := zstr "PALLASYNC-CHAIN-PARAMS-v3".
Definition CTX_EPOCH := zstr "PALLASYNC-EPOCH-v3".
Definition CTX_ENVELOPE := zstr "PALLASYNC-EPOCH-ENVELOPE-v3".
Definition CTX_COMPACTION := zstr "PALLASYNC-COMPACTION-v3".
Definition CTX_REQUEST := zstr "PALLASYNC-ENROLL-REQUEST-v3".
Definition CTX_ADMIN_OP := zstr "PALLASYNC-ADMIN-OP-v3".
Definition CTX_RECEIPT := zstr "PALLASYNC-UPLOAD-RECEIPT-v3".
Definition CTX_TRANSPARENCY := zstr "PALLASYNC-TRANSPARENCY-ENTRY-v3".
Definition CTX_HEAD := zstr "PALLASYNC-TRANSPARENCY-HEAD-v3".
Definition CTX_DELETE := zstr "PALLASYNC-DELETE-RECEIPT-v3".
Definition CTX_PRIVACY := zstr "PALLASYNC-RELAY-PRIVACY-v3".

Definition b64_char (c : ascii) : bool :=
  is_alnum c || Ascii.eqb c "-" || Ascii.eqb c "_".

(** [None] stands for every [Err(&'static str)]: no caller looks at the text. *)
Definition decode (x : string) (length : option Z) : option string :=
  if negb (str_forallb b64_char x) then None
  else
    match b64_decode x with
    | None => None
    | Some bytes =>
        if match length with Some k => negb (str_len bytes =? k) | None => false end
           || negb (String.eqb (b64_encode bytes) x)
        then None
        else Some bytes
    end.

Definition prime_point (bytes : string) : bool :=
  match ed_decompress bytes with
  | Some p => String.eqb (ed_compress p) bytes && negb (ed_is_identity p)
              && ed_is_torsion_free p
  | None => false
  end.

Definition valid_ed_key (key : string) : bool :=
  match decode key (Some 32) with Some b => prime_point b | None => false end.

(** [b.iter().rev().cmp(p.iter().rev()).is_lt()]: lexicographic. *)
Fixpoint lex_lt (x y : list Z) : bool :=
  match x, y with
  | [], [] => false
  | [], _ => true
  | _, [] => false
  | x0 :: x, y0 :: y => if x0 <? y0 then true else if y0 <? x0 then false else lex_lt x y
  end.
(** Little-endian [2^255 - 19]. *)
Definition field_prime_le : list Z := [237] ++ replicate 30 255 ++ [127].
Definition mul_scalar : string := string_of_list_ascii (replicate 32 (ascii_of_Z 42)).

Definition valid_x_key (key : string) : bool :=
  match decode key (Some 32) with
  | None => false
  | Some b =>
      if negb (lex_lt (rev (str_bytes b)) (rev field_prime_le)) then false
      else existsb (fun v => negb (v =? 0)) (str_bytes (mont_mul_clamped b mul_scalar))
  end.

Definition verify_signature (key sig message : string) : option bool :=
  match decode key (Some 32), decode sig (Some 64) with
  | Some a, Some s =>
      if negb (prime_point a)
         || negb (prime_point (String.substring 0 32 s))
         || negb (scalar_from_canonical (String.substring 32 32 s))
      then Some false
      else if negb (verifying_key_from_bytes a) then None
      else Some (ed_verify_strict a message s)
  | _, _ => None
  end.

(** [None] is the [expect("validated object")] panic. *)
Definition signing_bytes (value : Value) (context member : string) : option string :=
  if is_object value
  then Some (context +:+ jcs_to_vec (remove_member value member))
  else None.

Definition verify_signed_json (key sig : string) (value : Value) (context : string)
    : option bool :=
  match signing_bytes value context "signature" with
  | None => None (* "Expected signed object" *)
  | Some message => verify_signature key sig message
  end.

Definition sign_relay (key : SigningKey) (value : Value) (context : string)
    : Res unit Value :=
  let! input := unwrap (signing_bytes value context "relay_signature") in
  let sig := b64_encode (ed_sign key input) in
  let! ok := ok_or (verify_signature (b64_encode (verifying_key key)) sig input) tt in
  fail_if (negb ok) tt ;;;
  ret (set_member value "relay_signature" (Str sig)).

Definition hash_bytes (bytes : string) : string := b64_encode (sha256 bytes).
Definition object_hash (value : Value) : string := hash_bytes (jcs_to_vec value).
End Verify.

(** ** Consequences of the laws *)
Section VerifyFacts.
Context {X : Ext} {XL : ExtLaws X}.

Lemma decode_encode bytes k :
  match k with Some k => str_len bytes = k | None => True end ->
  decode (b64_encode bytes) k = Some bytes.
Proof.
  intros Hk. unfold decode, b64_char. rewrite b64_alphabet, b64_decode_encode. simpl.
  rewrite String.eqb_refl. destruct k; simpl; [|done].
  by rewrite (proj2 (Z.eqb_eq _ _) Hk).
Qed.

Lemma decode_hash bytes : decode (hash_bytes bytes) (Some 32) = Some (sha256 bytes).
Proof. apply decode_encode, sha256_length. Qed.

Lemma decode_object_hash v :
  decode (object_hash v) (Some 32) = Some (sha256 (jcs_to_vec v)).
Proof. apply decode_hash. Qed.

(** [decode] is injective: it accepts one text per byte string. *)
Lemma decode_canonical x k bytes :
  decode x k = Some bytes -> x = b64_encode bytes.
Proof.
  unfold decode. destruct (str_forallb _ _); simpl; [|done].
  destruct (b64_decode x); [|done].
  destruct (_ || _) eqn:E; [done|]. intros [= ->].
  apply orb_false_iff in E as [_ E]. apply negb_false_iff, String.eqb_eq in E. done.
Qed.

Lemma decode_length x k bytes : decode x (Some k) = Some bytes -> str_len bytes = k.
Proof.
  unfold decode. destruct (str_forallb _ _); simpl; [|done].
  destruct (b64_decode x); [|done].
  destruct (_ || _) eqn:E; [done|]. intros [= ->].
  apply orb_false_iff in E as [E _]. apply negb_false_iff, Z.eqb_eq in E. done.
Qed.
End VerifyFacts.

#[export] Hint Rewrite @decode_hash @decode_object_hash using (exact _) : relay.

Section SignFacts.
Context {X : Ext}.

(** A relay attestation the relay returns verifies under the relay's own key
    and differs from its draft in the [relay_signature] member only. *)
Lemma sign_relay_ok key l context v' :
  sign_relay key (Obj l) context = Ok v' ->
  exists sig,
    v' = set_member (Obj l) "relay_signature" (Str sig) /\
    verify_signature (b64_encode (verifying_key key)) sig
      (context +:+ jcs_to_vec (remove_member (Obj l) "relay_signature")) = Some true.
Proof.
  unfold sign_relay. intros H. res_inv H.
  match goal with H : negb _ = false |- _ => apply negb_false_iff in H; subst end.
  unfold signing_bytes in *. simplify_eq/=. by eexists.
Qed.

Lemma sign_relay_get key l context v' k :
  sign_relay key (Obj l) context = Ok v' -> k <> "relay_signature"%string ->
  get v' k = get (Obj l) k.
Proof.
  intros (sig & -> & _)%sign_relay_ok Hk. rewrite get_set_member.
  destruct (String.eqb_spec k "relay_signature"); [done|]. done.
Qed.
End SignFacts.
