(* ===== verification/Jcs.v ===== *)
(** * The strict I-JSON parser ([src/src/crypto/jcs.rs])

    [parse] first scans the text lexically (depth, signs, leading zeros, floats)
    and then runs the visitor [Strict] over what [serde_json] reads.  The scan
    and the visitor are defined here; [serde_json]'s grammar is the parameter
    [serde_from_str]. *)
From S2P Require Import Prelude Error Json Verify.

Definition MAX_INTEGER : Z := 9007199254740991.

(** [std::str::from_utf8], the well-formed byte sequences of Unicode. *)
Definition cont (b : Z) : bool := (128 <=? b) && (b <=? 191).
Definition between (lo hi b : Z) : bool := (lo <=? b) && (b <=? hi).
Fixpoint utf8_valid (l : list Z) : bool :=
  match l with
  | [] => true
  | b0 :: l0 =>
      if b0 <=? 127 then utf8_valid l0
      else match l0 with
      | [] => false
      | b1 :: l1 =>
          if between 194 223 b0 then cont b1 && utf8_valid l1
          else match l1 with
          | [] => false
          | b2 :: l2 =>
              if between 224 239 b0 then
                (if b0 =? 224 then between 160 191 b1
                 else if b0 =? 237 then between 128 159 b1 else cont b1)
                && cont b2 && utf8_valid l2
              else match l2 with
              | [] => false
              | b3 :: l3 =>
                  between 240 244 b0
                  && (if b0 =? 240 then between 144 191 b1
                      else if b0 =? 244 then between 128 143 b1 else cont b1)
                  && cont b2 && cont b3 && utf8_valid l3
              end
          end
      end
  end.

(** The inner loop over a run of digits: the run and what follows it. *)
Fixpoint span_digits (l : list Z) : list Z * list Z :=
  match l with
  | [] => ([], [])
  | b :: l' => if between 48 57 b
               then let '(d, r) := span_digits l' in (b :: d, r)
               else ([], l)
  end.

(** The lexical scan.  [fuel] bounds the [while] loop; each turn consumes a byte,
    so one more than the length suffices ([scan_total]). *)
Fixpoint scan (fuel : nat) (quoted escaped : bool) (depth : Z) (bytes : list Z)
    : Res string unit :=
  match fuel with
  | O => Panic
  | S fuel =>
      match bytes with
      | [] => Ok tt
      | b :: rest =>
          if quoted then
            if escaped then scan fuel quoted false depth rest
            else if b =? 92 then scan fuel quoted true depth rest
            else if b =? 34 then scan fuel false escaped depth rest
            else scan fuel quoted escaped depth rest
          else if b =? 34 then scan fuel true escaped depth rest
          else if (b =? 123) || (b =? 91) then
            if 32 <? depth + 1 then Err "Depth exceeds 32"%string
            else scan fuel quoted escaped (depth + 1) rest
          else if (b =? 125) || (b =? 93) then
            scan fuel quoted escaped (Z.max 0 (depth - 1)) rest
          else if b =? 45 then Err "Negative number forbidden"%string
          else if between 48 57 b then
            let '(digits, rest) := span_digits bytes in
            if (1 <? Z.of_nat (length digits)) && (b =? 48) then Err "Leading zero"%string
            else if match rest with
                    | c :: _ => (c =? 46) || (c =? 101) || (c =? 69)
                    | [] => false
                    end
                 then Err "Float/exponent forbidden"%string
            else scan fuel quoted escaped depth rest
          else scan fuel quoted escaped depth rest
      end
  end.

(** The visitor [Strict]. *)
Definition visit_u64 (v : Z) : option Value :=
  if MAX_INTEGER <? v then None else Some (Num v).
Definition visit_i64 (v : Z) : option Value :=
  if v <? 0 then None else visit_u64 v.

Section Visitor.
Context (strict : Raw -> option Value).

Fixpoint visit_seq (items : list Value) (l : list Raw) : option Value :=
  match l with
  | [] => Some (Arr items)
  | r :: l => v ← strict r; visit_seq (items ++ [v]) l
  end.

Fixpoint visit_map (obj : list (string * Value)) (l : list (string * Raw))
    : option Value :=
  match l with
  | [] => Some (Obj obj)
  | (k, r) :: l =>
      match obj_get obj k with
      | Some _ => None (* Duplicate member *)
      | None => v ← strict r; visit_map (obj_insert k v obj) l
      end
  end.
End Visitor.

Fixpoint strict (r : Raw) : option Value :=
  match r with
  | RNull => Some Null
  | RBool b => Some (Bool b)
  | RU64 z => visit_u64 (Z.of_N z)
  | RI64 z => visit_i64 z
  | RF64 => None
  | RStr s => Some (Str s)
  | RArr l => visit_seq strict [] l
  | RObj l => visit_map strict [] l
  end.

Section Parse.
Context {X : Ext}.

Definition parse (bytes : string) : Res string Value :=
  let bs := str_bytes bytes in
  fail_if (negb (utf8_valid bs)) "Invalid UTF-8"%string ;;;
  fail_if (bool_decide (take 3 bs = [239; 187; 191])) "BOM forbidden"%string ;;;
  scan (S (length bs)) false false 0 bs ;;;
  ok_or (r ← serde_from_str bytes; strict r) "Invalid I-JSON"%string.

(** [canonicalize_json] *)
Definition canonicalize_json (v : Value) : string := jcs_to_vec v.
End Parse.

(** ** The scan terminates within its fuel *)
Lemma span_digits_app l d r : span_digits l = (d, r) -> l = d ++ r.
Proof.
  revert d r. induction l as [|b l IH]; intros d r; simpl; [naive_solver|].
  destruct (between 48 57 b); [|naive_solver].
  destruct (span_digits l) as [d' r'] eqn:E. intros [= <- <-].
  simpl. f_equal. by apply IH.
Qed.

Lemma scan_no_panic fuel quoted escaped depth bytes :
  (length bytes < fuel)%nat -> scan fuel quoted escaped depth bytes <> Panic.
Proof.
  revert quoted escaped depth bytes. induction fuel as [|fuel IH];
    intros quoted escaped depth bytes Hf; [lia|].
  destruct bytes as [|b rest]; [done|]. simpl in Hf.
  cbn -[between span_digits Z.add Z.sub Z.max Z.of_nat].
  repeat match goal with
  | |- (if ?c then _ else _) <> _ => destruct c eqn:?
  | |- scan _ _ _ _ _ <> _ => apply IH; lia
  | |- Err _ <> _ => done
  end.
  destruct (span_digits (b :: rest)) as [d r] eqn:E.
  pose proof (span_digits_app _ _ _ E) as Happ. simpl in E.
  assert (Hd : (length r <= length rest)%nat).
  { apply (f_equal (@List.length Z)) in Happ. rewrite length_app in Happ. simpl in Happ.
    destruct (between 48 57 b) eqn:Eb; [|done].
    destruct (span_digits rest); simplify_eq. simpl in Happ. lia. }
  repeat match goal with
  | |- (if ?c then _ else _) <> _ => destruct c eqn:?
  | |- scan _ _ _ _ _ <> _ => apply IH; lia
  | |- Err _ <> _ => done
  end.
Qed.

(** ** What the visitor guarantees *)
Inductive ijson : Value -> Prop :=
  | ij_null : ijson Null
  | ij_bool b : ijson (Bool b)
  | ij_num z : 0 <= z <= MAX_INTEGER -> ijson (Num z)
  | ij_str x : ijson (Str x)
  | ij_arr l : Forall ijson l -> ijson (Arr l)
  | ij_obj l :
      Sorted (fun x y => String.compare (fst x) (fst y) = Lt) l ->
      Forall (fun kv => ijson (snd kv)) l -> ijson (Obj l).

Definition obj_sorted (l : list (string * Value)) : Prop :=
  Sorted (fun x y => String.compare (fst x) (fst y) = Lt) l.

Lemma obj_insert_hd k v k0 v0 l :
  String.compare k0 k = Lt ->
  HdRel (fun x y : string * Value => String.compare (fst x) (fst y) = Lt) (k0, v0) l ->
  HdRel (fun x y : string * Value => String.compare (fst x) (fst y) = Lt) (k0, v0)
    (obj_insert k v l).
Proof.
  intros Hk Hh. destruct l as [|[k1 v1] l]; simpl; [by constructor|].
  inversion Hh; subst. destruct (String.compare k k1); constructor; done.
Qed.

Lemma obj_insert_sorted k v l : obj_sorted l -> obj_sorted (obj_insert k v l).
Proof.
  unfold obj_sorted. induction 1 as [|[k1 v1] l Hl IH Hd]; simpl.
  - repeat constructor.
  - destruct (String.compare k k1) eqn:Hc.
    + apply String.compare_eq_iff in Hc as ->. constructor; [done|].
      destruct l; constructor. by inversion Hd.
    + by repeat constructor.
    + constructor; [done|]. apply obj_insert_hd; [|done]. simpl.
      rewrite String.compare_antisym, Hc. done.
Qed.

Lemma obj_insert_forall (P : Value -> Prop) k v l :
  P v -> Forall (fun kv => P (snd kv)) l ->
  Forall (fun kv => P (snd kv)) (obj_insert k v l).
Proof.
  intros Hv. induction 1 as [|[k1 v1] l Hx Hl IH]; simpl; [by repeat constructor|].
  destruct (String.compare k k1); by repeat constructor.
Qed.

Lemma visit_u64_ijson z v : 0 <= z -> visit_u64 z = Some v -> ijson v.
Proof.
  unfold visit_u64. intros Hz. destruct (MAX_INTEGER <? z) eqn:E; [done|].
  intros [= <-]. constructor. lia.
Qed.

Lemma visit_seq_ijson f l items v :
  Forall (fun r => forall v, f r = Some v -> ijson v) l -> Forall ijson items ->
  visit_seq f items l = Some v -> ijson v.
Proof.
  intros Hl. revert items. induction Hl as [|r l Hr Hl IH]; intros items Hacc; simpl.
  - intros [= <-]. by constructor.
  - destruct (f r) eqn:E; simpl; [|done]. apply IH.
    apply Forall_app; split; [done|]. constructor; [by apply Hr|constructor].
Qed.

Lemma visit_map_ijson f l obj v :
  Forall (fun kr => forall v, f (snd kr) = Some v -> ijson v) l ->
  obj_sorted obj -> Forall (fun kv => ijson (snd kv)) obj ->
  visit_map f obj l = Some v -> ijson v.
Proof.
  intros Hl. revert obj. induction Hl as [|[k r] l Hr Hl IH]; intros obj Hs Hacc; simpl.
  - intros [= <-]. by constructor.
  - destruct (obj_get obj k); [done|]. destruct (f r) eqn:E; simpl; [|done].
    apply IH; [by apply obj_insert_sorted|]. apply obj_insert_forall; [by apply Hr | done].
Qed.

Lemma strict_sound r v : strict r = Some v -> ijson v.
Proof.
  revert v. induction r as [|b|z|z| |x|l IH|l IH] using Raw_ind'; intros v; simpl.
  - intros [= <-]; constructor.
  - intros [= <-]; constructor.
  - apply visit_u64_ijson. lia.
  - unfold visit_i64. destruct (z <? 0) eqn:?; [done|]. apply visit_u64_ijson. lia.
  - done.
  - intros [= <-]; constructor.
  - eapply visit_seq_ijson; [done|constructor].
  - eapply visit_map_ijson; [done| |]; constructor.
Qed.

Section ParseFacts.
Context {X : Ext}.

(** ** Properties *)

End ParseFacts.
