(* ===== verification/Utf8Spec.v ===== *)
(** * UTF-8

    The byte-range tests of [utf8_valid] accept exactly the encodings of sequences
    of Unicode scalar values. *)
From S2P Require Import Prelude Error Json Verify Jcs.

(** A Unicode scalar value: a code point that is not a surrogate. *)
Definition scalar (c : Z) : Prop := 0 <= c <= 1114111 /\ ~ (55296 <= c <= 57343).

(** The encoding of a scalar value (RFC 3629). *)
Definition utf8_encode (c : Z) : list Z :=
  if c <=? 127 then [c]
  else if c <=? 2047 then [192 + c / 64; 128 + c mod 64]
  else if c <=? 65535 then [224 + c / 4096; 128 + (c / 64) mod 64; 128 + c mod 64]
  else [240 + c / 262144; 128 + (c / 4096) mod 64; 128 + (c / 64) mod 64; 128 + c mod 64].

(** Tests that arithmetic decides are evaluated, the others split. *)
Ltac leb_tests :=
  repeat first
    [ match goal with
      | |- context [?x <=? ?y] =>
          first [ rewrite (proj2 (Z.leb_le x y)) by lia | rewrite (proj2 (Z.leb_gt x y)) by lia ]
      | |- context [?x =? ?y] =>
          first [ rewrite (proj2 (Z.eqb_eq x y)) by lia | rewrite (proj2 (Z.eqb_neq x y)) by lia ]
      end
    | progress cbn [andb orb negb]
    | match goal with
      | |- context [?x =? ?y] => destruct (Z.eqb_spec x y)
      | |- context [?x <=? ?y] => destruct (Z.leb_spec x y)
      end ].

Lemma utf8_valid_encode c l : scalar c -> utf8_valid (utf8_encode c ++ l) = utf8_valid l.
Proof.
  intros [Hc Hs]. unfold utf8_encode.
  destruct (Z.leb_spec c 127); [cbn [app utf8_valid]; by rewrite (proj2 (Z.leb_le _ _))|].
  destruct (Z.leb_spec c 2047); [|destruct (Z.leb_spec c 65535)];
    cbn [app utf8_valid]; unfold between, cont.
  - pose proof (Z.div_mod c 64 ltac:(done)). pose proof (Z.mod_pos_bound c 64 ltac:(done)).
    by leb_tests.
  - assert (A : c = 4096 * (c / 4096) + 64 * ((c / 64) mod 64) + c mod 64 /\
      0 <= c mod 64 < 64 /\ 0 <= (c / 64) mod 64 < 64) by
      (Z.to_euclidean_division_equations; lia).
    revert A. generalize (c mod 64) ((c / 64) mod 64) (c / 4096). intros z2 z1 z0 A.
    by leb_tests.
  - assert (A : c = 262144 * (c / 262144) + 4096 * ((c / 4096) mod 64)
        + 64 * ((c / 64) mod 64) + c mod 64 /\
      0 <= c mod 64 < 64 /\ 0 <= (c / 64) mod 64 < 64 /\ 0 <= (c / 4096) mod 64 < 64) by
      (Z.to_euclidean_division_equations; lia).
    revert A. generalize (c mod 64) ((c / 64) mod 64) ((c / 4096) mod 64) (c / 262144).
    intros z3 z2 z1 z0 A. by leb_tests.
Qed.

(** Reading back one encoding. *)
Lemma utf8_encode_one b : 0 <= b <= 127 -> scalar b /\ utf8_encode b = [b].
Proof. intros H. unfold scalar, utf8_encode. split; [lia|]. by leb_tests. Qed.
Lemma utf8_encode_two b0 b1 :
  194 <= b0 <= 223 -> 128 <= b1 <= 191 ->
  exists c, scalar c /\ utf8_encode c = [b0; b1].
Proof.
  intros H0 H1. exists (64 * (b0 - 192) + (b1 - 128)). unfold scalar, utf8_encode.
  split; [lia|]. leb_tests. repeat f_equal; Z.to_euclidean_division_equations; lia.
Qed.
Lemma utf8_encode_three b0 b1 b2 :
  224 <= b0 <= 239 -> 128 <= b1 <= 191 -> 128 <= b2 <= 191 ->
  (b0 = 224 -> 160 <= b1) -> (b0 = 237 -> b1 <= 159) ->
  exists c, scalar c /\ utf8_encode c = [b0; b1; b2].
Proof.
  intros H0 H1 H2 Hlo Hhi. exists (4096 * (b0 - 224) + 64 * (b1 - 128) + (b2 - 128)).
  unfold scalar, utf8_encode. split; [lia|]. leb_tests.
  repeat f_equal; Z.to_euclidean_division_equations; lia.
Qed.
Lemma utf8_encode_four b0 b1 b2 b3 :
  240 <= b0 <= 244 -> 128 <= b1 <= 191 -> 128 <= b2 <= 191 -> 128 <= b3 <= 191 ->
  (b0 = 240 -> 144 <= b1) -> (b0 = 244 -> b1 <= 143) ->
  exists c, scalar c /\ utf8_encode c = [b0; b1; b2; b3].
Proof.
  intros H0 H1 H2 H3 Hlo Hhi.
  exists (262144 * (b0 - 240) + 4096 * (b1 - 128) + 64 * (b2 - 128) + (b3 - 128)).
  unfold scalar, utf8_encode. split; [lia|]. leb_tests.
  repeat f_equal; Z.to_euclidean_division_equations; lia.
Qed.

(** A text is the encoding of scalar values. *)
Definition utf8_text (l : list Z) : Prop :=
  exists cs, Forall scalar cs /\ l = concat (map utf8_encode cs).

Lemma utf8_text_cons l p : (exists c, scalar c /\ utf8_encode c = p) -> utf8_text l ->
  utf8_text (p ++ l).
Proof. intros (c & Hc & <-) (cs & Hcs & ->). exists (c :: cs). split; [by constructor|done]. Qed.

Ltac bool_facts :=
  repeat match goal with
  | H : _ && _ = true |- _ => apply andb_true_iff in H as [? ?]
  | H : (_ <=? _) = true |- _ => apply Z.leb_le in H
  | H : (_ <=? _) = false |- _ => apply Z.leb_gt in H
  | H : context [?x =? ?y] |- _ => destruct (Z.eqb_spec x y)
  end.

Lemma utf8_valid_text k l :
  (length l <= k)%nat -> Forall (fun b => 0 <= b) l -> utf8_valid l = true -> utf8_text l.
Proof.
  revert l. induction k as [|k IH]; intros l Hk Hl Hv.
  { destruct l; [by exists []|simpl in Hk; lia]. }
  destruct l as [|b0 l0]; [by exists []|]. cbn [utf8_valid] in Hv.
  apply Forall_cons in Hl as [Hb0 Hl].
  destruct (b0 <=? 127) eqn:E0.
  { apply (utf8_text_cons l0 [b0]); [|apply IH; [simpl in Hk; lia|done..]].
    exists b0. apply utf8_encode_one. bool_facts. lia. }
  destruct l0 as [|b1 l1]; [done|]. apply Forall_cons in Hl as [Hb1 Hl].
  unfold between, cont in *. destruct ((194 <=? b0) && (b0 <=? 223)) eqn:E1.
  { bool_facts. apply (utf8_text_cons l1 [b0; b1]); [by apply utf8_encode_two|].
    apply IH; [simpl in Hk; lia|done..]. }
  destruct l1 as [|b2 l2]; [done|]. apply Forall_cons in Hl as [Hb2 Hl].
  destruct ((224 <=? b0) && (b0 <=? 239)) eqn:E2.
  { bool_facts; (apply (utf8_text_cons l2 [b0; b1; b2]);
      [apply utf8_encode_three; lia | apply IH; [simpl in Hk; lia|done..]]). }
  destruct l2 as [|b3 l3]; [done|]. apply Forall_cons in Hl as [Hb3 Hl].
  bool_facts; (apply (utf8_text_cons l3 [b0; b1; b2; b3]);
    [apply utf8_encode_four; lia | apply IH; [simpl in Hk; lia|done..]]).
Qed.

Lemma str_bytes_nonneg x : Forall (fun b => 0 <= b) (str_bytes x).
Proof.
  unfold str_bytes. apply Forall_fmap, Forall_true. intros c. unfold byte_of. simpl. lia.
Qed.

