(* ===== verification/JsonText.v ===== *)
(** * JSON texts ([src/src/crypto/jcs.rs] against RFC 8259)

    The grammar of JSON texts for the values of I-JSON, as a specification: white
    space, escapes and the order of members are free.  The strict parser accepts all
    of it up to its depth; [Jcs.parse_ijson] shows the values that come out. *)
From S2P Require Import Prelude Error Json Verify Jcs Utf8Spec.

(** ** The grammar *)
Definition is_ws (b : Z) : bool := (b =? 32) || (b =? 9) || (b =? 10) || (b =? 13).
Definition ws (l : list Z) : Prop := forallb is_ws l = true.

(** The character after a backslash, and what it stands for. *)
Definition short_escapes : list (Z * Z) :=
  [(34, 34); (92, 92); (47, 47); (98, 8); (102, 12); (110, 10); (114, 13); (116, 9)].
Definition hex_value (b : Z) : option Z :=
  if between 48 57 b then Some (b - 48)
  else if between 97 102 b then Some (b - 87)
  else if between 65 70 b then Some (b - 55)
  else None.
Definition code_unit (h : list Z) : option Z :=
  match h with
  | [b3; b2; b1; b0] =>
      z3 ← hex_value b3; z2 ← hex_value b2; z1 ← hex_value b1; z0 ← hex_value b0;
      Some (4096 * z3 + 256 * z2 + 16 * z1 + z0)
  | _ => None
  end.

(** The bytes of a text, and those of the literal between its quotes. *)
Inductive chars : list Z -> list Z -> Prop :=
  | ch_nil : chars [] []
  | ch_plain c x b : 32 <= c -> c <> 34 -> c <> 92 -> chars x b -> chars (c :: x) (c :: b)
  | ch_short e c x b : (e, c) ∈ short_escapes -> chars x b -> chars (c :: x) (92 :: e :: b)
  | ch_unit h z x b : code_unit h = Some z -> scalar z -> chars x b ->
      chars (utf8_encode z ++ x) (92 :: 117 :: h ++ b)
  | ch_pair h hi l lo x b :
      code_unit h = Some hi -> 55296 <= hi <= 56319 ->
      code_unit l = Some lo -> 56320 <= lo <= 57343 -> chars x b ->
      chars (utf8_encode (65536 + 1024 * (hi - 55296) + (lo - 56320)) ++ x)
        (92 :: 117 :: h ++ 92 :: 117 :: l ++ b).
Inductive literal (x : string) : list Z -> Prop :=
  | lit b : chars (str_bytes x) b -> literal x (34 :: b ++ [34]).

Inductive json_text : Raw -> list Z -> Prop :=
  | jt_null : json_text RNull (str_bytes "null")
  | jt_true : json_text (RBool true) (str_bytes "true")
  | jt_false : json_text (RBool false) (str_bytes "false")
  | jt_num k : json_text (RU64 k) (str_bytes (dec (Z.of_N k)))
  | jt_str x b : literal x b -> json_text (RStr x) b
  | jt_arr l b : elements l b -> json_text (RArr l) (91 :: b ++ [93])
  | jt_obj l b : members l b -> json_text (RObj l) (123 :: b ++ [125])
with elements : list Raw -> list Z -> Prop :=
  | el_nil w : ws w -> elements [] w
  | el_last r w1 b w2 : ws w1 -> ws w2 -> json_text r b -> elements [r] (w1 ++ b ++ w2)
  | el_cons r l w1 b w2 b' : ws w1 -> ws w2 -> json_text r b -> l <> [] -> elements l b' ->
      elements (r :: l) (w1 ++ b ++ w2 ++ 44 :: b')
with members : list (string * Raw) -> list Z -> Prop :=
  | mb_nil w : ws w -> members [] w
  | mb_last k r w1 q w2 w3 b w4 :
      ws w1 -> ws w2 -> ws w3 -> ws w4 -> literal k q -> json_text r b ->
      members [(k, r)] (w1 ++ q ++ w2 ++ 58 :: w3 ++ b ++ w4)
  | mb_cons k r l w1 q w2 w3 b w4 b' :
      ws w1 -> ws w2 -> ws w3 -> ws w4 -> literal k q -> json_text r b -> l <> [] ->
      members l b' ->
      members ((k, r) :: l) (w1 ++ q ++ w2 ++ 58 :: w3 ++ b ++ w4 ++ 44 :: b').
Scheme json_text_mut := Minimality for json_text Sort Prop
  with elements_mut := Minimality for elements Sort Prop
  with members_mut := Minimality for members Sort Prop.
Combined Scheme json_text_ind' from json_text_mut, elements_mut, members_mut.

Inductive json_document (r : Raw) : list Z -> Prop :=
  | doc w1 b w2 : ws w1 -> ws w2 -> json_text r b -> json_document r (w1 ++ b ++ w2).

(** The nesting of arrays and objects. *)
Fixpoint raw_depth (r : Raw) : Z :=
  match r with
  | RArr l => 1 + fold_right Z.max 0 (map raw_depth l)
  | RObj l => 1 + fold_right Z.max 0 (map (fun kr => raw_depth (snd kr)) l)
  | _ => 0
  end.

(** The events of a value, its members in any order. *)
Inductive arranged : Value -> Raw -> Prop :=
  | ar_null : arranged Null RNull
  | ar_bool b : arranged (Bool b) (RBool b)
  | ar_num z : arranged (Num z) (RU64 (Z.to_N z))
  | ar_str x : arranged (Str x) (RStr x)
  | ar_arr l m : Forall2 arranged l m -> arranged (Arr l) (RArr m)
  | ar_obj l l' m : l ≡ₚ l' ->
      Forall2 (fun kv kr => fst kv = fst kr /\ arranged (snd kv) (snd kr)) l' m ->
      arranged (Obj l) (RObj m).

(** ** The scan accepts the grammar *)
Definition scan_ok (quoted escaped : bool) (depth : Z) (bytes : list Z) : Prop :=
  forall fuel, (length bytes < fuel)%nat -> scan fuel quoted escaped depth bytes = Ok tt.
(** What may follow a number. *)
Definition ends_number (rest : list Z) : Prop :=
  match rest with
  | b :: _ => between 48 57 b = false /\ b <> 46 /\ b <> 101 /\ b <> 69
  | [] => True
  end.

Ltac scan_start :=
  let fuel := fresh "fuel" in let Hf := fresh "Hf" in
  intros fuel Hf; destruct fuel as [|fuel]; simpl in Hf; [lia|];
  cbn -[between span_digits Z.add Z.sub Z.max Z.of_nat].

Lemma so_nil q e d : scan_ok q e d [].
Proof. by scan_start. Qed.
(** Inside of a string. *)
Lemma so_plain d b rest : b <> 34 -> b <> 92 ->
  scan_ok true false d rest -> scan_ok true false d (b :: rest).
Proof.
  intros H1%Z.eqb_neq H2%Z.eqb_neq H. scan_start. rewrite H1, H2. apply H. lia.
Qed.
Lemma so_escaped d b rest : scan_ok true false d rest -> scan_ok true true d (b :: rest).
Proof. intros H. scan_start. apply H. lia. Qed.
Lemma so_backslash d rest : scan_ok true true d rest -> scan_ok true false d (92 :: rest).
Proof. intros H. scan_start. apply H. lia. Qed.
Lemma so_close d rest : scan_ok false false d rest -> scan_ok true false d (34 :: rest).
Proof. intros H. scan_start. apply H. lia. Qed.
Lemma so_open d rest : scan_ok true false d rest -> scan_ok false false d (34 :: rest).
Proof. intros H. scan_start. apply H. lia. Qed.
(** Outside. *)
Lemma so_down d b rest : b = 123 \/ b = 91 -> d + 1 <= 32 ->
  scan_ok false false (d + 1) rest -> scan_ok false false d (b :: rest).
Proof.
  intros Hb Hd H. scan_start. destruct Hb as [-> | ->]; simpl;
    (destruct (Z.ltb_spec 32 (d + 1)); [lia|]; apply H; lia).
Qed.
Lemma so_up d b rest : b = 125 \/ b = 93 -> 0 <= d ->
  scan_ok false false d rest -> scan_ok false false (d + 1) (b :: rest).
Proof.
  intros Hb Hd H. scan_start. destruct Hb as [-> | ->]; simpl;
    (replace (Z.max 0 (d + 1 - 1)) with d by lia; apply H; lia).
Qed.
(** A byte that the scan has no rule for. *)
Definition inert (b : Z) : bool :=
  negb (b =? 34) && negb (b =? 123) && negb (b =? 91) && negb (b =? 125) && negb (b =? 93)
  && negb (b =? 45) && negb (between 48 57 b).
Lemma so_inert d b rest : inert b = true ->
  scan_ok false false d rest -> scan_ok false false d (b :: rest).
Proof.
  unfold inert. intros Hb H. bsimp. scan_start.
  rewrite ?(proj2 (Z.eqb_neq _ _)) by done. simpl.
  match goal with E : between _ _ _ = false |- _ => rewrite E end. apply H. lia.
Qed.
Lemma so_inerts d w rest : forallb inert w = true ->
  scan_ok false false d rest -> scan_ok false false d (w ++ rest).
Proof.
  induction w as [|b w IH]; simpl; [done|]. intros [Hb Hw]%andb_true_iff H.
  apply so_inert; auto.
Qed.
Lemma so_ws d w rest : ws w -> scan_ok false false d rest -> scan_ok false false d (w ++ rest).
Proof.
  intros Hw. apply so_inerts. revert Hw. unfold ws. induction w as [|b w IH]; simpl; [done|].
  intros [Hb Hw]%andb_true_iff. apply andb_true_iff. split; [|auto].
  unfold is_ws, inert, between in *. bsimp. lia.
Qed.

(** ** Literals and numbers *)
Lemma hex_value_plain b z : hex_value b = Some z -> b <> 34 /\ b <> 92.
Proof. unfold hex_value, between. intros H. repeat case_match; simplify_eq; bsimp; lia. Qed.
Lemma code_unit_plain h z : code_unit h = Some z -> Forall (fun b => b <> 34 /\ b <> 92) h.
Proof.
  unfold code_unit. intros H. repeat case_match; simplify_eq. simplify_option_eq.
  repeat constructor; by eapply hex_value_plain.
Qed.
Lemma so_plains d h rest : Forall (fun b => b <> 34 /\ b <> 92) h ->
  scan_ok true false d rest -> scan_ok true false d (h ++ rest).
Proof. induction 1 as [|b h [H1 H2] _ IH]; [done|]. intros. apply so_plain; auto. Qed.
Lemma so_unit d h z rest : code_unit h = Some z ->
  scan_ok true false d rest -> scan_ok true false d (92 :: 117 :: h ++ rest).
Proof.
  intros Hh H. apply so_backslash, so_escaped, so_plains; [by eapply code_unit_plain|done].
Qed.
Lemma so_chars d x b rest : chars x b ->
  scan_ok true false d rest -> scan_ok true false d (b ++ rest).
Proof.
  induction 1; intros Hr; simpl; rewrite <-?app_assoc; simpl; rewrite <-?app_assoc.
  - done.
  - apply so_plain; auto.
  - apply so_backslash, so_escaped; auto.
  - eapply so_unit; eauto.
  - eapply so_unit; [done|]. eapply so_unit; eauto.
Qed.
Lemma so_literal d x q rest : literal x q ->
  scan_ok false false d rest -> scan_ok false false d (q ++ rest).
Proof.
  intros [b Hb] H. simpl. rewrite <-app_assoc. apply so_open.
  eapply so_chars; [done|]. by apply so_close.
Qed.

Lemma digit_val_pretty x : (x < 10)%N -> digit_val (pretty_N_char x) = Z.of_N x.
Proof.
  intros Hx. assert (H : Forall (fun i => digit_val (pretty_N_char i) = Z.of_N i)
    [0; 1; 2; 3; 4; 5; 6; 7; 8; 9]%N) by (repeat constructor).
  rewrite Forall_forall in H. apply H. rewrite !elem_of_cons. lia.
Qed.
Lemma digit_byte x : (x < 10)%N -> byte_of (pretty_N_char x) = 48 + Z.of_N x.
Proof. intros H%digit_val_pretty. unfold digit_val in H. lia. Qed.

(** Decimal digits without a leading zero. *)
Definition digits (l : list Z) : Prop :=
  Forall (fun b => between 48 57 b = true) l /\
  match l with [] => False | b :: l => b = 48 -> l = [] end.
Lemma pretty_digits x rest : (0 < x)%N -> exists b l,
  str_bytes (pretty_N_go x rest) = (b :: l) ++ str_bytes rest /\
  Forall (fun b => between 48 57 b = true) (b :: l) /\ b <> 48.
Proof.
  revert rest. induction (N.lt_wf_0 x) as [x _ IH]. intros rest Hx.
  assert (Hm : (x mod 10 < 10)%N) by (apply N.mod_lt; lia).
  assert (Hb : forall m, (m < 10)%N -> between 48 57 (byte_of (pretty_N_char m)) = true).
  { intros m Hlt. rewrite digit_byte by done. unfold between.
    apply andb_true_iff. split; apply Z.leb_le; lia. }
  specialize (Hb _ Hm).
  rewrite pretty_N_go_step by done. destruct (decide (x / 10 = 0)%N) as [E|E].
  - rewrite E, pretty_N_go_0. eexists _, []. split; [reflexivity|]. split; [by constructor|].
    apply N.div_small_iff in E; [|done]. rewrite N.mod_small, digit_byte by done. lia.
  - destruct (IH (x / 10)%N) with (rest := String (pretty_N_char (x mod 10)) rest)
      as (b & l & -> & Hf & Hn); [by apply N.div_lt|by apply N.neq_0_lt_0|].
    exists b, (l ++ [byte_of (pretty_N_char (x mod 10))]). split; [|split; [|done]].
    + simpl. rewrite <-app_assoc. done.
    + apply Forall_cons. apply Forall_cons in Hf as [H1 H2]. split; [done|].
      apply Forall_app. split; [done|]. by constructor.
Qed.
Lemma dec_digits z : digits (str_bytes (dec z)).
Proof.
  unfold dec, pretty, pretty_N. case_decide as E.
  - split; [by repeat constructor|done].
  - destruct (pretty_digits (Z.to_N z) EmptyString) as (b & l & -> & Hf & Hn); [lia|].
    rewrite app_nil_r. by split.
Qed.
Lemma span_all l rest : Forall (fun b => between 48 57 b = true) l -> ends_number rest ->
  span_digits (l ++ rest) = (l, rest).
Proof.
  intros Hl Hr. induction Hl as [|b l Hb _ IH]; simpl.
  - destruct rest as [|b rest]; [done|]. simpl. by destruct Hr as [-> _].
  - by rewrite Hb, IH.
Qed.
Lemma so_digits d l rest : digits l -> ends_number rest ->
  scan_ok false false d rest -> scan_ok false false d (l ++ rest).
Proof.
  intros [Hf Hz] He H. destruct l as [|b l]; [done|].
  pose proof (span_all _ _ Hf He) as Hs. apply Forall_cons in Hf as [Hb _].
  intros fuel Hfu. destruct fuel as [|fuel]; [simpl in Hfu; lia|].
  cbn -[between span_digits Z.add Z.sub Z.max Z.of_nat].
  assert (48 <= b <= 57) by (unfold between in Hb; bsimp; lia).
  rewrite ?(proj2 (Z.eqb_neq b _)) by lia. simpl orb. cbv iota.
  change (b :: l ++ rest) with ((b :: l) ++ rest). rewrite Hb, Hs.
  destruct ((1 <? Z.of_nat (length (b :: l))) && (b =? 48)) eqn:E.
  { apply andb_true_iff in E as [E1 ->%Z.eqb_eq]. rewrite Hz in E1 by done. done. }
  assert (Hl : (length rest < fuel)%nat).
  { simpl in Hfu. rewrite length_app in Hfu. lia. }
  destruct rest as [|c rest]; [by apply H|]. destruct He as (_ & H1 & H2 & H3).
  rewrite ?(proj2 (Z.eqb_neq c _)) by done. by apply H.
Qed.
Lemma ends_ws w rest : ws w -> ends_number rest -> ends_number (w ++ rest).
Proof.
  unfold ws. destruct w as [|b w]; simpl; [done|]. intros [Hb _]%andb_true_iff _.
  unfold is_ws, between in *. split; [apply andb_false_iff; rewrite !Z.leb_gt|]; bsimp; lia.
Qed.

(** ** The scan accepts every text up to its depth *)
Definition deepest (l : list Raw) : Z := fold_right Z.max 0 (map raw_depth l).
Lemma deepest_nonneg l : 0 <= deepest l.
Proof. unfold deepest. induction l; simpl; lia. Qed.
Lemma json_text_scan :
  (forall r b, json_text r b -> forall d rest, 0 <= d -> d + raw_depth r <= 32 ->
     ends_number rest -> scan_ok false false d rest -> scan_ok false false d (b ++ rest)) /\
  (forall l b, elements l b -> forall d rest, 0 <= d -> d + deepest l <= 32 ->
     ends_number rest -> scan_ok false false d rest -> scan_ok false false d (b ++ rest)) /\
  (forall l b, members l b -> forall d rest, 0 <= d -> d + deepest (map snd l) <= 32 ->
     ends_number rest -> scan_ok false false d rest -> scan_ok false false d (b ++ rest)).
Proof.
  apply json_text_ind'.
  - intros. by apply so_inerts.
  - intros. by apply so_inerts.
  - intros. by apply so_inerts.
  - intros. apply so_digits; [apply dec_digits|done..].
  - intros. by eapply so_literal.
  - intros l b _ IH d rest Hd Hr _ H. simpl in *. rewrite <-app_assoc.
    pose proof (deepest_nonneg l).
    apply so_down; [by right|unfold deepest in *; lia|].
    apply IH; [lia|unfold deepest; lia|by repeat split|]. apply so_up; [by right|done..].
  - intros l b _ IH d rest Hd Hr _ H. simpl in *. rewrite <-app_assoc.
    assert (E : map (fun kr : string * Raw => raw_depth (snd kr)) l = map raw_depth (map snd l))
      by (by rewrite map_map).
    rewrite E in Hr. fold (deepest (map snd l)) in Hr.
    pose proof (deepest_nonneg (map snd l)).
    apply so_down; [by left|lia|].
    apply IH; [lia|lia|by repeat split|]. apply so_up; [by left|done..].
  - intros. by apply so_ws.
  - intros r w1 b w2 H1 H2 _ IH d rest Hd Hr He H. unfold deepest in Hr. simpl in Hr.
    rewrite <-!app_assoc. apply so_ws; [done|].
    apply IH; [lia|lia|by apply ends_ws|]. by apply so_ws.
  - intros r l w1 b w2 b' H1 H2 _ IH _ _ IHl d rest Hd Hr He H.
    unfold deepest in *. simpl in Hr. rewrite <-!app_assoc. apply so_ws; [done|].
    apply IH; [lia|lia|by apply ends_ws|]. apply so_ws; [done|]. simpl.
    apply so_inert; [done|]. apply IHl; [lia|lia|done..].
  - intros. by apply so_ws.
  - intros k r w1 q w2 w3 b w4 H1 H2 H3 H4 Hq _ IH d rest Hd Hr He H.
    unfold deepest in Hr. simpl in Hr. rewrite <-!app_assoc. apply so_ws; [done|].
    eapply so_literal; [done|]. apply so_ws; [done|]. simpl. rewrite <-!app_assoc.
    apply so_inert; [done|]. apply so_ws; [done|].
    apply IH; [lia|lia|by apply ends_ws|]. by apply so_ws.
  - intros k r l w1 q w2 w3 b w4 b' H1 H2 H3 H4 Hq _ IH _ _ IHl d rest Hd Hr He H.
    unfold deepest in *. simpl in Hr. rewrite <-!app_assoc. apply so_ws; [done|].
    eapply so_literal; [done|]. apply so_ws; [done|]. simpl. rewrite <-!app_assoc.
    apply so_inert; [done|]. apply so_ws; [done|].
    apply IH; [lia|lia|by apply ends_ws|]. apply so_ws; [done|]. simpl.
    apply so_inert; [done|]. apply IHl; [lia|lia|done..].
Qed.

(** ** The visitor reads every arrangement *)
Definition key_lt (x y : string * Value) : Prop := String.compare (fst x) (fst y) = Lt.
#[export] Instance key_lt_trans : Transitive key_lt.
Proof. intros x y z. unfold key_lt. apply string_compare_lt_trans. Qed.
#[export] Instance key_lt_antisymm : AntiSymm (=) key_lt.
Proof.
  intros x y H1 H2. unfold key_lt in *. pose proof (string_compare_lt_trans _ _ _ H1 H2) as H.
  by rewrite string_compare_refl in H.
Qed.
Lemma sorted_keys l : obj_sorted l -> NoDup (map fst l).
Proof.
  intros H. apply (Sorted_StronglySorted key_lt) in H.
  induction H as [|[k v] l _ IH Hf]; simpl; constructor; [|done].
  intros ([k' v'] & Hk & Hin)%list_elem_of_fmap. simpl in Hk. subst k'.
  rewrite Forall_forall in Hf. apply Hf in Hin. unfold key_lt in Hin. simpl in Hin.
  by rewrite string_compare_refl in Hin.
Qed.
Lemma obj_insert_perm k v l : k ∉ map fst l -> obj_insert k v l ≡ₚ (k, v) :: l.
Proof.
  induction l as [|[k1 v1] l IH]; simpl; intros Hk; [done|].
  apply not_elem_of_cons in Hk as [Hne Hk].
  destruct (String.compare k k1) eqn:Hc; [|done|].
  - by apply String.compare_eq_iff in Hc.
  - rewrite IH by done. by constructor.
Qed.
Lemma obj_get_absent l k : k ∉ map fst l -> obj_get l k = None.
Proof.
  induction l as [|[k1 v1] l IH]; simpl; intros Hk; [done|].
  apply not_elem_of_cons in Hk as [Hne Hk].
  destruct (String.eqb_spec k k1) as [->|]; [done|auto].
Qed.

Lemma insert_middle k v o l :
  k ∉ map fst o -> obj_insert k v o ++ l ≡ₚ o ++ (k, v) :: l.
Proof. intros Hk. rewrite obj_insert_perm by done. simpl. by rewrite Permutation_middle. Qed.

Definition insert_all (o l : list (string * Value)) : list (string * Value) :=
  fold_left (fun o kv => obj_insert (fst kv) (snd kv) o) l o.
Lemma insert_all_perm l o : NoDup (map fst (o ++ l)) -> obj_sorted o ->
  obj_sorted (insert_all o l) /\ insert_all o l ≡ₚ o ++ l.
Proof.
  revert o. induction l as [|[k v] l IH]; intros o Hn Hs; simpl.
  - by rewrite app_nil_r.
  - assert (Hk : k ∉ map fst o).
    { rewrite map_app in Hn. simpl in Hn. apply NoDup_app in Hn as (_ & Hd & _).
      intros Hin. apply (Hd k Hin). left. }
    pose proof (insert_middle _ v _ l Hk) as Hp.
    destruct (IH (obj_insert k v o)) as [H1 H2].
    + by rewrite Hp.
    + by apply obj_insert_sorted.
    + split; [done|]. by rewrite H2.
Qed.
Lemma visit_map_all f l m o :
  Forall2 (fun (kv : string * Value) (kr : string * Raw) =>
    fst kv = fst kr /\ f (snd kr) = Some (snd kv)) l m ->
  NoDup (map fst (o ++ l)) -> visit_map f o m = Some (Obj (insert_all o l)).
Proof.
  intros Hm. revert o. induction Hm as [|[k v] [k' r] l m [Hk Hr] _ IH]; intros o Hn; [done|].
  simpl in Hk, Hr |- *. subst k'.
  assert (Hko : k ∉ map fst o).
  { rewrite map_app in Hn. simpl in Hn. apply NoDup_app in Hn as (_ & Hd & _).
    intros Hin. apply (Hd k Hin). left. }
  rewrite (obj_get_absent _ _ Hko), Hr. simpl. apply IH.
  by rewrite (insert_middle _ _ _ _ Hko).
Qed.
Lemma visit_seq_all f l m items :
  Forall2 (fun v r => f r = Some v) l m -> visit_seq f items m = Some (Arr (items ++ l)).
Proof.
  intros Hm. revert items. induction Hm as [|v r l m Hr _ IH]; intros items; simpl.
  - by rewrite app_nil_r.
  - rewrite Hr. simpl. rewrite IH. by rewrite <-app_assoc.
Qed.

Lemma strict_complete v r : ijson v -> arranged v r -> strict r = Some v.
Proof.
  revert r. induction v as [|b|z|x|l IH|l IH] using Value_ind'; intros r Hv Ha;
    inversion Ha as [| | | |l0 m Hm|l0 l' m Hp Hm]; subst; simpl; try done.
  - inversion Hv as [| |z' Hz| | |]; subst. rewrite Z2N.id by lia. unfold visit_u64.
    by destruct (Z.ltb_spec MAX_INTEGER z); [lia|].
  - inversion Hv as [| | | |l0 Hl|]; subst. rewrite (visit_seq_all _ l); [done|].
    clear Ha Hv. induction Hm as [|v r l m Hr _ IHm]; [constructor|].
    apply Forall_cons in IH as [H1 H2], Hl as [Hv Hl]. constructor; auto.
  - inversion Hv as [| | | | |l0 Hs Hl]; subst.
    assert (Hn : NoDup (map fst l')) by (rewrite <-Hp; by apply sorted_keys).
    rewrite Hp in IH, Hl. rewrite (visit_map_all _ l'); [| |done].
    + destruct (insert_all_perm l' [] Hn) as [H1 H2]; [constructor|].
      repeat f_equal. apply (Sorted_unique key_lt); [done..|]. by rewrite H2, Hp.
    + clear Ha Hv Hp Hs Hn. induction Hm as [|kv kr l' m [Hk Hr] _ IHm]; [constructor|].
      apply Forall_cons in IH as [H1 H2], Hl as [Hv Hl]. constructor; auto.
Qed.

(** No text starts with a byte order mark. *)
Lemma json_text_head r b : json_text r b -> exists c l, b = c :: l /\ c < 128.
Proof.
  assert (Hd : forall l, digits l -> exists c m, l = c :: m /\ c < 128).
  { intros [|c m] [Hf Hz]; [done|]. apply Forall_cons in Hf as [Hc _]. unfold between in Hc.
    bsimp. exists c, m. split; [done|]. lia. }
  destruct 1 as [| | |k|x b H|l b H|l b H]; [by eexists _, _..| | | |].
  - apply Hd, dec_digits.
  - destruct H. by eexists _, _.
  - by eexists _, _.
  - by eexists _, _.
Qed.
Lemma document_head r b : json_document r b -> exists c l, b = c :: l /\ c < 128.
Proof.
  destruct 1 as [w1 b w2 H1 _ H]. destruct w1 as [|c w1]; simpl.
  - apply json_text_head in H as (c & l & -> & Hc). by eexists _, _.
  - exists c, (w1 ++ b ++ w2). split; [done|]. unfold ws in H1. simpl in H1.
    apply andb_true_iff in H1 as [H1 _]. unfold is_ws in H1. bsimp. lia.
Qed.

Section Complete.
Context {X : Ext}.

Lemma parse_document v r text :
  ijson v -> arranged v r -> json_document r (str_bytes text) ->
  utf8_valid (str_bytes text) = true -> raw_depth r <= 32 ->
  serde_from_str text = Some r -> parse text = Ok v.
Proof.
  intros Hv Ha Hdoc Hu Hr Hs. unfold parse. cbv zeta. rewrite Hu. simpl negb.
  assert (Hbom : bool_decide (take 3 (str_bytes text) = [239; 187; 191]) = false).
  { apply document_head in Hdoc as (c & l & -> & Hc). apply bool_decide_eq_false.
    simpl. intros [= -> _]. lia. }
  rewrite Hbom. change (fail_if false ?e) with (@Ok string unit tt). rewrite !res_bind_Ok.
  assert (Hscan : scan_ok false false 0 (str_bytes text)).
  { destruct Hdoc as [w1 b w2 H1 H2 Hb]. apply so_ws; [done|].
    apply (proj1 json_text_scan r); [done|lia|lia| |].
    - rewrite <-(app_nil_r w2). by apply ends_ws.
    - rewrite <-(app_nil_r w2). apply so_ws; [done|apply so_nil]. }
  rewrite Hscan by lia. rewrite res_bind_Ok, Hs. simpl. by rewrite (strict_complete v r).
Qed.

(** (C40) The strict parser is complete: every JSON text (RFC 8259) of an I-JSON value,
    whatever its white space, its escapes and the order of its members, is accepted
    and gives the value, if it is UTF-8 and nested at most 32 deep; [serde_json] is
    relied on to read the text as RFC 8259 has it. *)
Theorem parse_complete v r text :
  ijson v -> arranged v r -> json_document r (str_bytes text) ->
  utf8_valid (str_bytes text) = true -> raw_depth r <= 32 ->
  serde_from_str text = Some r -> parse text = Ok v.
Proof. apply parse_document. Qed.
End Complete.
