(* ===== verification/Wire.v ===== *)
(** * Closed wire schemas ([src/src/api/wire.rs])

    The schema language of [check_type] (type names with the suffixes [?] and
    [[]]), closed objects, signed objects with their [ext] member, the schema of
    each wire object, and the canonical query string. *)
From S2P Require Import Prelude Error Json Verify Jcs.

(** The [kind] argument of [validate]; the [unreachable!] default has no
    constructor. *)
Inductive Schema :=
  | SParameters | SCertificate | SDevice | SEpoch | SEnvelope | SRecord
  | SCompaction | SAdmin | SRequest.

#[export] Instance Schema_eq_dec : EqDecision Schema.
Proof. solve_decision. Defined.

Section Wire.
Context {X : Ext}.

Definition id (v : string) : bool :=
  negb (str_contains nul v) && String.eqb (nfc v) v.

Definition uuid (v : string) : bool :=
  match uuid_parse v with
  | Some u => (uuid_version u =? 4) && uuid_rfc4122 u && String.eqb (uuid_text u) v
  | None => false
  end.

Definition str_is (f : string -> bool) (v : Value) : bool :=
  match as_str v with Some x => f x | None => false end.
Definition num_le (hi : Z) (v : Value) : bool :=
  match as_u64 v with Some k => k <=? hi | None => false end.
Definition decodes (k : Z) (x : string) : bool :=
  match decode x (Some k) with Some _ => true | None => false end.

(** The [match t] of [check_type]: a type name without suffix. *)
Definition check_base (v : Value) (t : string) : bool :=
  if String.eqb t "string" then str_is id v
  else if String.eqb t "uuid" then str_is uuid v
  else if String.eqb t "u32" then num_le u32_max v
  else if String.eqb t "int" then num_le MAX_INTEGER v
  else if String.eqb t "bool" then is_bool v
  else if String.eqb t "object" then is_object v
  else if String.eqb t "array" then is_array v
  else if String.eqb t "3.0" then veqb v (Str "3.0")
  else if String.eqb t "b16" then str_is (decodes 16) v
  else if String.eqb t "b24" then str_is (decodes 24) v
  else if String.eqb t "b32" then str_is (decodes 32) v
  else if String.eqb t "b48" then str_is (decodes 48) v
  else if String.eqb t "b64" then str_is (decodes 64) v
  else str_is (fun x => existsb (fun t => String.eqb t x) (split_on "|" t)) v.

(** [fuel] bounds the number of suffixes; the name's length suffices. *)
Fixpoint check_type_fuel (fuel : nat) (v : Value) (t : string) : bool :=
  match fuel with
  | O => check_base v t
  | S fuel =>
      match strip_suffix "?" t with
      | Some t => is_null v || check_type_fuel fuel v t
      | None =>
          match strip_suffix "[]" t with
          | Some t =>
              match as_array v with
              | Some l => forallb (fun v => check_type_fuel fuel v t) l
              | None => false
              end
          | None => check_base v t
          end
      end
  end.
Definition check_type (v : Value) (t : string) : bool :=
  check_type_fuel (String.length t) v t.

Definition invalid : ApiError := err INVALID_FIELD.

Fixpoint find_field (k : string) (l : list (string * string)) : option string :=
  match l with
  | [] => None
  | (name, t) :: l => if String.eqb name k then Some t else find_field k l
  end.

Definition fields (v : Value) (required optional : list (string * string))
    : Result unit :=
  let! o := ok_or (as_object v) invalid in
  forM (fun '(k, t) =>
    fail_if (negb (match obj_get o k with Some v => check_type v t | None => false end))
      invalid) required ;;;
  forM (fun '(k, v) =>
    let! t := ok_or (find_field k (required ++ optional)) invalid in
    fail_if (negb (check_type v t)) invalid) o.

(** Reserved local recovery objects may not travel inside public objects. *)
Definition artifact_types : list string :=
  [ "PALLASYNC-RECOVERY-BLOB-v3"; "PALLASYNC-RECOVERY-SET-v3";
    "PALLASYNC-RECOVERY-STATUS-v3"; "PALLASYNC-RECOVERY-SHARE-v3";
    "PALLASYNC-RECOVERY-PACKAGE-v3"; "PALLASYNC-OFFLINE-SHARE-KEY-v3";
    "PALLASYNC-RECOVERY-SESSION-v3"; "PALLASYNC-RECOVERY-TRANSFER-v3" ]%string.

Definition is_artifact (o : list (string * Value)) : bool :=
  (match obj_get o "type" with
   | Some (Str kind) => existsb (String.eqb kind) artifact_types
   | _ => false
   end)
  || (match obj_get o "mnemonic", obj_get o "passphrase" with
      | Some _, Some _ => true
      | _, _ => false
      end).

(** Number of nodes: the fuel of the traversal. *)
Fixpoint vsize (v : Value) : nat :=
  match v with
  | Arr l => S (sum_list_with vsize l)
  | Obj l => S (sum_list_with (fun kv => vsize (snd kv)) l)
  | _ => 1%nat
  end.

(** [while let Some(value) = pending.pop()]; the head of the list is the top
    of the stack, so a pushed block is reversed. *)
Fixpoint artifact_loop (fuel : nat) (pending : list Value) : Result unit :=
  match fuel with
  | O => match pending with [] => Ok tt | _ => Panic end
  | S fuel =>
      match pending with
      | [] => Ok tt
      | Obj o :: pending =>
          fail_if (is_artifact o) invalid ;;;
          artifact_loop fuel (rev (snd <$> o) ++ pending)
      | Arr l :: pending => artifact_loop fuel (rev l ++ pending)
      | _ :: pending => artifact_loop fuel pending
      end
  end.
Definition reject_local_artifacts (v : Value) : Result unit :=
  artifact_loop (vsize v) [v].

(** One label of an [ext] key; [last] is the rightmost one. *)
Definition label_ok (last : bool) (label : string) : bool :=
  negb (String.eqb label EmptyString)
  && (str_len label <=? (if last then 64 else 63))
  && match label with String c _ => is_lower c | EmptyString => false end
  && negb (ends_with "-" label)
  && str_forallb (fun c => is_lower c || is_digit c
                           || (if last then Ascii.eqb c "_" else Ascii.eqb c "-")) label.
Fixpoint labels_ok (labels : list string) : bool :=
  match labels with
  | [] => true
  | [l] => label_ok true l
  | l :: ls => label_ok false l && labels_ok ls
  end.
Definition ext_key_ok (key : string) : bool :=
  let labels := split_on "." key in
  negb ((length labels <? 3)%nat || (255 <? str_len key) || negb (labels_ok labels)).

Definition signed (v : Value) (required : list (string * string)) : Result unit :=
  reject_local_artifacts v ;;;
  fields v (required ++ [("signature", "b64")]%string) [("ext", "object")]%string ;;;
  match get_opt v "ext" with
  | None => ret tt
  | Some ext =>
      fail_if (1024 <? str_len (canonicalize_json ext)) invalid ;;;
      let! o := unwrap (as_object ext) in
      forM (fun key => fail_if (negb (ext_key_ok key)) invalid) (fst <$> o)
  end.

(** [(signer_kind == "admin") != signer_device_id.is_null()] *)
Definition signer (v : Value) : Result unit :=
  fail_if (negb (Bool.eqb (String.eqb (s v "signer_kind") "admin")
                          (is_null (get v "signer_device_id")))) invalid.

Definition verify (v : Value) (key ctx : string) : Result unit :=
  fail_if (negb (default false (verify_signed_json key (s v "signature") v ctx)))
    (err OBJECT_SIGNATURE_INVALID).

Local Open Scope string_scope.

Definition parameters_fields : list (string * string) :=
  [ ("version", "3.0"); ("chain_id", "b32"); ("admin_public_key", "b32");
    ("generation", "u32"); ("previous_parameters_hash", "b32?");
    ("policy", "object") ].
Definition policy_fields : list (string * string) :=
  [ ("metadata_profile", "private|queryable");
    ("allow_device_chain_delete", "bool"); ("allow_peer_enrollment", "bool");
    ("allow_device_rotation", "bool");
    ("epoch_retention", "retain|windowed|immediate");
    ("epoch_window_ms", "int"); ("scheduled_rotation_ms", "int") ].
Definition certificate_fields : list (string * string) :=
  [ ("chain_id", "b32"); ("generation", "u32"); ("certificate_id", "uuid");
    ("device_id", "uuid"); ("device_public_key", "b32");
    ("device_kex_public_key", "b32"); ("signer_kind", "admin|device");
    ("signer_device_id", "uuid?"); ("request_hash", "b32?");
    ("approved_at_ms", "int") ].
Definition device_fields : list (string * string) :=
  [ ("version", "3.0"); ("chain_id", "b32"); ("generation", "u32");
    ("device_id", "uuid"); ("device_public_key", "b32");
    ("device_kex_public_key", "b32"); ("meta_epoch", "u32");
    ("meta_nonce", "b24"); ("encrypted_device_meta", "string");
    ("enrollment", "object") ].
Definition epoch_fields : list (string * string) :=
  [ ("chain_id", "b32"); ("generation", "u32"); ("epoch", "u32");
    ("previous_epoch_hash", "b32?"); ("epoch_commitment", "b32");
    ("reason",
     "genesis|scheduled|manual|device_revocation|key_rotation|reseed|emergency");
    ("signer_kind", "admin|device"); ("signer_device_id", "uuid?");
    ("members", "uuid[]"); ("revoked_device_ids", "uuid[]");
    ("recovery_envelope_hash", "b32") ].
Definition envelope_fields : list (string * string) :=
  [ ("envelope_id", "uuid"); ("chain_id", "b32"); ("generation", "u32");
    ("epoch", "u32"); ("previous_epoch_hash", "b32?");
    ("epoch_commitment", "b32"); ("recipient_kind", "device|recovery");
    ("recipient_device_id", "uuid?"); ("recipient_key_hash", "b32?");
    ("signer_kind", "admin|device"); ("signer_device_id", "uuid?");
    ("enc", "b32?"); ("nonce", "b24?"); ("ciphertext", "b48") ].
Definition record_fields : list (string * string) :=
  [ ("version", "3.0"); ("chain_id", "b32"); ("generation", "u32");
    ("record_id", "uuid"); ("device_id", "uuid"); ("epoch", "u32");
    ("collection_tag", "b16?"); ("payload_nonce", "b24");
    ("encrypted_payload", "string") ].
Definition compaction_fields : list (string * string) :=
  [ ("compaction_id", "uuid"); ("chain_id", "b32"); ("generation", "u32");
    ("device_id", "uuid"); ("log_id", "uuid"); ("covered_through_seq", "int");
    ("covered_log_hash", "b32"); ("epoch_hash", "b32");
    ("snapshot_parts", "array"); ("state_sha256", "b32") ].
Definition admin_fields : list (string * string) :=
  [ ("operation_id", "uuid"); ("chain_id", "b32"); ("generation", "u32");
    ("action", "approve_enrollment|revoke_device|reseed|delete_chain|prune_log");
    ("expected_parameters_hash", "b32"); ("expected_epoch_hash", "b32");
    ("target_hash", "b32"); ("created_at_ms", "int") ].
Definition request_fields : list (string * string) :=
  [ ("request_id", "uuid"); ("chain_id", "b32"); ("generation", "u32");
    ("device_id", "uuid"); ("device_public_key", "b32");
    ("device_kex_public_key", "b32"); ("offer_nonce", "b32");
    ("created_at_ms", "int"); ("expires_at_ms", "int") ].

Definition in_range (lo hi x : Z) : bool := ((lo <=? x) && (x <=? hi))%Z.
Definition xor_null (b : bool) (v : Value) : bool := negb (Bool.eqb b (is_null v)).
Definition payload_len (v : Value) (k : string) : Result Z :=
  let! b := ok_or (decode (s v k) None) invalid in ret (str_len b).

Definition validate_parameters (v : Value) : Result unit :=
  signed v parameters_fields ;;;
  fields (get v "policy") policy_fields [] ;;;
  let w := n (get v "policy") "epoch_window_ms" in
  let t := n (get v "policy") "scheduled_rotation_ms" in
  fail_if (negb (in_range 1 31536000000 w)
           || (negb (t =? 0)%Z && negb (in_range 3600000 31536000000 t))
           || xor_null (n v "generation" =? 0)%Z (get v "previous_parameters_hash")
           || negb (valid_ed_key (s v "admin_public_key"))) invalid.

Definition validate_certificate (v : Value) : Result unit :=
  signed v certificate_fields ;;;
  signer v ;;;
  fail_if ((String.eqb (s v "signer_kind") "device" && is_null (get v "request_hash"))
           || negb (valid_ed_key (s v "device_public_key"))
           || negb (valid_x_key (s v "device_kex_public_key"))) invalid.

Definition validate_device (v : Value) : Result unit :=
  signed v device_fields ;;;
  validate_certificate (get v "enrollment") ;;;
  let! b := payload_len v "encrypted_device_meta" in
  fail_if (negb (bool_decide (b ∈ [1040; 4112]%Z))) invalid ;;;
  forM (fun k => fail_if (negb (veqb (get v k) (get (get v "enrollment") k)))
                         (err ENROLLMENT_CERTIFICATE_INVALID))
    ["chain_id"; "generation"; "device_id"; "device_public_key";
     "device_kex_public_key"].

(** [windows(2).any(|w| w[0].as_str() >= w[1].as_str())] on strings. *)
Fixpoint strictly_increasing (l : list string) : bool :=
  match l with
  | x :: (y :: _) as l' => str_ltb x y && strictly_increasing l'
  | _ => true
  end.

Definition validate_epoch (v : Value) : Result unit :=
  signed v epoch_fields ;;;
  signer v ;;;
  fail_if ((length (a v "members") =? 0)%nat || (128 <? length (a v "members"))%nat
           || xor_null (n v "epoch" =? 0)%Z (get v "previous_epoch_hash"))
    (err EPOCH_CHAIN_INVALID) ;;;
  forM (fun k => fail_if (negb (strictly_increasing (strs (a v k))))
                         (err MEMBER_SET_MISMATCH))
    ["members"; "revoked_device_ids"] ;;;
  fail_if (existsb (fun id => bool_decide (id ∈ a v "revoked_device_ids"))
             (a v "members")) (err MEMBER_SET_MISMATCH).

Definition validate_envelope (v : Value) : Result unit :=
  signed v envelope_fields ;;;
  signer v ;;;
  let device := String.eqb (s v "recipient_kind") "device" in
  fail_if (Bool.eqb device (is_null (get v "recipient_device_id"))
           || Bool.eqb device (is_null (get v "recipient_key_hash"))
           || Bool.eqb device (is_null (get v "enc"))
           || xor_null device (get v "nonce")
           || (device && negb (valid_x_key (s v "enc")))) invalid.

Definition validate_record (v : Value) : Result unit :=
  signed v record_fields ;;;
  let! b := payload_len v "encrypted_payload" in
  fail_if (negb (bool_decide
    (b ∈ [1040; 4112; 16400; 65552; 262160; 1048592]%Z))) invalid.

(** The loop over [snapshot_parts] checks each part's fields, then its id. *)
Fixpoint parts_loop (ids : list string) (l : list Value) : Result unit :=
  match l with
  | [] => ret tt
  | p :: l =>
      fields p [("record_id", "uuid"); ("record_hash", "b32")] [] ;;;
      fail_if (bool_decide (s p "record_id" ∈ ids)) invalid ;;;
      parts_loop (s p "record_id" :: ids) l
  end.

Definition validate_compaction (v : Value) : Result unit :=
  signed v compaction_fields ;;;
  fail_if ((length (a v "snapshot_parts") =? 0)%nat
           || (65536 <? Z.of_nat (length (a v "snapshot_parts")))%Z) invalid ;;;
  parts_loop [] (a v "snapshot_parts").

Definition validate_admin (v : Value) : Result unit := signed v admin_fields.

Definition validate_request (v : Value) : Result unit :=
  signed v request_fields ;;;
  fail_if ((n v "expires_at_ms" <=? n v "created_at_ms")
           || (300000 <? n v "expires_at_ms" - n v "created_at_ms")
           || negb (valid_ed_key (s v "device_public_key"))
           || negb (valid_x_key (s v "device_kex_public_key")))%Z invalid.

Definition validate (v : Value) (kind : Schema) : Result unit :=
  match kind with
  | SParameters => validate_parameters v
  | SCertificate => validate_certificate v
  | SDevice => validate_device v
  | SEpoch => validate_epoch v
  | SEnvelope => validate_envelope v
  | SRecord => validate_record v
  | SCompaction => validate_compaction v
  | SAdmin => validate_admin v
  | SRequest => validate_request v
  end.
End Wire.
