(* ===== verification/Query.v ===== *)
(** * Canonical query strings ([canonical_query] of [src/src/api/wire.rs])

    Percent-decoding and re-encoding of each name and value, sorting, refusal of
    repeated names, and the text a capability token binds. *)
From S2P Require Import Prelude Error Json Jcs Verify Wire.

(** [char::to_digit(16)] *)
Definition hex_val (c : ascii) : option Z :=
  let b := byte_of c in
  if between 48 57 b then Some (b - 48)
  else if between 97 102 b then Some (b - 87)
  else if between 65 70 b then Some (b - 55)
  else None.

(** [u8::from_str_radix(h, 16)] on a two-byte string.  As in the standard
    library, a leading [+] is a sign. *)
Definition from_str_radix16 (h1 h2 : ascii) : option ascii :=
  if Ascii.eqb h1 "+" then ascii_of_Z <$> hex_val h2
  else d1 ← hex_val h1; d2 ← hex_val h2; Some (ascii_of_Z (16 * d1 + d2)).

Definition hex_digit (d : Z) : ascii :=
  ascii_of_Z (if d <? 10 then 48 + d else 55 + d).

Definition unreserved (c : ascii) : bool :=
  is_alnum c || Ascii.eqb c "-" || Ascii.eqb c "." || Ascii.eqb c "_" || Ascii.eqb c "~".

(** [out.push(v as char)] or [out.push_str(&format!("%{v:02X}"))] *)
Definition emit (v : ascii) (out : string) : string :=
  if unreserved v then String v out
  else String "%" (String (hex_digit (byte_of v / 16))
                  (String (hex_digit (byte_of v mod 16)) out)).

Fixpoint pct (x : string) : Result string :=
  match x with
  | EmptyString => ret EmptyString
  | String c rest =>
      if Ascii.eqb c "%" then
        match rest with
        | String h1 (String h2 rest) =>
            fail_if (negb (utf8_valid [byte_of h1; byte_of h2])) invalid ;;;
            let! v := ok_or (from_str_radix16 h1 h2) invalid in
            let! out := pct rest in ret (emit v out)
        | _ => fail invalid
        end
      else let! out := pct rest in ret (emit c out)
  end.

Definition pair_leb (x y : string * string) : bool :=
  match String.compare (fst x) (fst y) with
  | Lt => true
  | Gt => false
  | Eq => str_leb (snd x) (snd y)
  end.

Fixpoint adjacent_dup (l : list (string * string)) : bool :=
  match l with
  | x :: (y :: _) as l' => String.eqb (fst x) (fst y) || adjacent_dup l'
  | _ => false
  end.

Fixpoint split_pairs (l : list string) : Result (list (string * string)) :=
  match l with
  | [] => ret []
  | p :: l =>
      let '(k, v) := default (p, EmptyString) (split_once "=" p) in
      let! k := pct k in
      let! v := pct v in
      let! out := split_pairs l in
      ret ((k, v) :: out)
  end.

Definition canonical_query (raw : string) : Result (list (string * string)) :=
  if String.eqb raw EmptyString then ret []
  else
    let! out := split_pairs (split_on "&" raw) in
    let out := sort_by pair_leb out in
    fail_if (adjacent_dup out) invalid ;;;
    ret out.

(** [pieces.join("&")] *)
Fixpoint join (sep : string) (l : list string) : string :=
  match l with
  | [] => EmptyString
  | [x] => x
  | x :: l => x +:+ sep +:+ join sep l
  end.
Definition query_string (q : list (string * string)) : string :=
  join "&" ((fun '(k, v) => k +:+ "=" +:+ v) <$> q).

(** ** Percent-encoding is idempotent *)
Definition plain (x : string) : Prop := str_forallb (fun c => unreserved c || Ascii.eqb c "%") x = true.

Lemma hex_roundtrip v :
  unreserved (hex_digit (byte_of v / 16)) = true /\
  unreserved (hex_digit (byte_of v mod 16)) = true /\
  utf8_valid [byte_of (hex_digit (byte_of v / 16));
              byte_of (hex_digit (byte_of v mod 16))] = true /\
  from_str_radix16 (hex_digit (byte_of v / 16)) (hex_digit (byte_of v mod 16)) = Some v.
Proof. destruct v as [[] [] [] [] [] [] [] []]; vm_compute; auto. Qed.

Lemma unreserved_not_percent v : unreserved v = true -> Ascii.eqb v "%" = false.
Proof. intros H. destruct (Ascii.eqb_spec v "%"); [subst; discriminate H | done]. Qed.

Lemma pct_emit v out : pct (emit v out) = let! r := pct out in ret (emit v r).
Proof.
  unfold emit at 1. destruct (unreserved v) eqn:Hv.
  - cbn [pct]. by rewrite (unreserved_not_percent v Hv).
  - destruct (hex_roundtrip v) as (_ & _ & Hu & Hr).
    cbn [pct]. change (Ascii.eqb "%" "%") with true. cbn iota.
    by rewrite Hu, Hr.
Qed.

Lemma emit_plain v out : plain out -> plain (emit v out).
Proof.
  unfold plain, emit. intros Hp. destruct (hex_roundtrip v) as (H1 & H2 & _).
  destruct (unreserved v) eqn:Hv; cbn [str_forallb]; by rewrite ?Hv, ?H1, ?H2, Hp.
Qed.

(** The image of [pct]: it is plain and a fixed point. *)
Lemma pct_canonical x y : pct x = Ok y -> plain y /\ pct y = Ok y.
Proof.
  assert (H : forall k x y, (String.length x <= k)%nat -> pct x = Ok y ->
    plain y /\ pct y = Ok y).
  { clear x y. induction k as [|k IH]; intros x y Hk Hx.
    - destruct x; simpl in Hk; [|lia]. injection Hx as <-. done.
    - destruct x as [|c rest]; simpl in Hk; [injection Hx as <-; done|].
      cbn -[bind from_str_radix16 utf8_valid] in Hx.
      destruct (Ascii.eqb c "%").
      + destruct rest as [|h1 [|h2 rest]]; try done. res_inv Hx.
        simpl in Hk. edestruct (IH rest) as [Hp He]; [lia|done|].
        split; [by apply emit_plain|]. by rewrite pct_emit, He.
      + res_inv Hx. edestruct (IH rest) as [Hp He]; [lia|done|].
        split; [by apply emit_plain|]. by rewrite pct_emit, He. }
  by eapply H.
Qed.

Lemma split_pairs_canonical l out :
  split_pairs l = Ok out ->
  Forall (fun kv => (plain (fst kv) /\ pct (fst kv) = Ok (fst kv)) /\
                    (plain (snd kv) /\ pct (snd kv) = Ok (snd kv))) out.
Proof.
  revert out. induction l as [|p l IH]; intros out H; simpl in H.
  - injection H as <-. constructor.
  - destruct (default _ _) as [k v]. res_inv H.
    constructor; [|by apply IH]. simpl. split; by eapply pct_canonical.
Qed.

(** ** Joining and splitting are inverse on canonical pairs *)
Lemma plain_char x c :
  plain x -> unreserved c = false -> Ascii.eqb c "%" = false ->
  str_forallb (fun d => negb (Ascii.eqb d c)) x = true.
Proof.
  unfold plain. intros Hp Hu Hc. induction x as [|d x IH]; simpl in *; [done|].
  apply andb_true_iff in Hp as [Hd Hx]. rewrite IH by done.
  destruct (Ascii.eqb_spec d c) as [->|]; [|done]. by rewrite Hu, Hc in Hd.
Qed.

Lemma split_on_none c x :
  str_forallb (fun d => negb (Ascii.eqb d c)) x = true -> split_on c x = [x].
Proof.
  induction x as [|d x IH]; simpl; [done|]. intros [Hd Hx]%andb_true_iff.
  destruct (Ascii.eqb d c); [done|]. by rewrite IH.
Qed.

Lemma split_on_app c x y :
  str_forallb (fun d => negb (Ascii.eqb d c)) x = true ->
  split_on c (x +:+ String c y) = x :: split_on c y.
Proof.
  induction x as [|d x IH]; simpl.
  - by rewrite Ascii.eqb_refl.
  - intros [Hd Hx]%andb_true_iff. destruct (Ascii.eqb d c); [done|].
    by rewrite IH.
Qed.

Lemma split_join c l :
  l <> [] ->
  Forall (fun x => str_forallb (fun d => negb (Ascii.eqb d c)) x = true) l ->
  split_on c (join (String c EmptyString) l) = l.
Proof.
  intros Hne Hl. induction Hl as [|x l Hx Hl IH]; [done|].
  destruct l as [|y l]; [by apply split_on_none|].
  change (join (String c EmptyString) (x :: y :: l))
    with (x +:+ String c (join (String c EmptyString) (y :: l))).
  rewrite split_on_app by done. f_equal. by apply IH.
Qed.

Lemma split_once_app c x y :
  str_forallb (fun d => negb (Ascii.eqb d c)) x = true ->
  split_once c (x +:+ String c y) = Some (x, y).
Proof.
  induction x as [|d x IH]; simpl.
  - by rewrite Ascii.eqb_refl.
  - intros [Hd Hx]%andb_true_iff. destruct (Ascii.eqb d c); [done|].
    by rewrite IH.
Qed.

Lemma str_forallb_app f x y :
  str_forallb f (x +:+ y) = str_forallb f x && str_forallb f y.
Proof.
  induction x as [|c x IH]; simpl; [done|].
  by rewrite IH, andb_assoc.
Qed.

Lemma sort_by_id {A} (le : A -> A -> bool) l :
  Sorted (fun x y => le x y = true) l -> sort_by le l = l.
Proof.
  induction 1 as [|x l Hl IH Hd]; simpl; [done|]. rewrite IH.
  destruct l as [|y l]; simpl; [done|]. inversion Hd; subst. by rewrite H0.
Qed.

Lemma pair_leb_total x y : pair_leb x y = false -> pair_leb y x = true.
Proof.
  unfold pair_leb. rewrite (String.compare_antisym (fst y) (fst x)).
  destruct (String.compare (fst x) (fst y)); simpl; try done. apply str_leb_total.
Qed.

Lemma split_pairs_join q :
  Forall (fun kv => (plain (fst kv) /\ pct (fst kv) = Ok (fst kv)) /\
                    (plain (snd kv) /\ pct (snd kv) = Ok (snd kv))) q ->
  split_pairs ((fun '(k, v) => k +:+ "=" +:+ v) <$> q) = Ok q.
Proof.
  induction 1 as [|[k v] q [[Hk Hk'] [Hv Hv']] Hq IH]; csimpl; [done|].
  change (k +:+ "=" +:+ v) with (k +:+ String "=" v).
  rewrite split_once_app by (by apply plain_char). simpl in Hk', Hv'.
  cbn -[pct bind split_pairs String.append fmap]. by rewrite Hk', res_bind_Ok, Hv', res_bind_Ok, IH.
Qed.

Lemma query_string_nonempty kv q : query_string (kv :: q) <> EmptyString.
Proof. destruct kv as [[|c k] v], q; simpl; try done. Qed.

(** ** Properties *)
Section QueryProperties.
(** (C15) the canonical form is canonical.  If the relay accepts a raw
    query, the text it binds into the capability token is itself accepted and
    canonicalizes to the same name/value list, so a client and the relay that
    canonicalize independently sign and check the same text. *)
Theorem canonical_query_roundtrip (raw : string) (q : list (string * string)) :
  canonical_query raw = Ok q -> canonical_query (query_string q) = Ok q.
Proof.
  unfold canonical_query at 1. destruct (String.eqb_spec raw EmptyString) as [|Hne].
  { intros [= <-]. done. }
  intros H. res_inv H. rename x into out.
  match goal with H : split_pairs _ = Ok out |- _ => rename H into Hs end.
  match goal with H : adjacent_dup _ = false |- _ => rename H into Hd end.
  set (q := sort_by pair_leb out) in *.
  assert (Hq : Forall (fun kv => (plain (fst kv) /\ pct (fst kv) = Ok (fst kv)) /\
      (plain (snd kv) /\ pct (snd kv) = Ok (snd kv))) q).
  { apply split_pairs_canonical in Hs. unfold q. by rewrite sort_by_perm. }
  destruct q as [|kv q'] eqn:Eq; [done|].
  unfold canonical_query. destruct (String.eqb_spec (query_string (kv :: q')) EmptyString)
    as [E|_]; [by apply query_string_nonempty in E|].
  unfold query_string. rewrite split_join; [|done|].
  - rewrite split_pairs_join by done. rewrite res_bind_Ok. cbv zeta.
    rewrite (sort_by_id _ (kv :: q')); [by rewrite Hd|].
    rewrite <-Eq. apply sort_by_sorted, pair_leb_total.
  - apply Forall_fmap. eapply Forall_impl; [exact Hq|].
    intros [k v] [[Hk _] [Hv _]]; simpl in *.
    by rewrite !str_forallb_app, (plain_char k), (plain_char v).
Qed.
End QueryProperties.
