(* ===== verification/Routes.v ===== *)
(** * The endpoint catalogue ([endpoint] of [src/src/api/sync.rs])

    The route strings of the source are the constructors of [Route]; the slice
    patterns of [endpoint] are the rows of [catalogue_rows], tried in order.  Also
    the query helpers of [src/src/api/read.rs] that the handlers share. *)
From S2P Require Import Prelude Error Json Jcs Verify Wire Query.

Inductive Route :=
  | RHealth | RGenesis | RImport | RDelete | RReseed | RParametersGet | REnroll
  | RDevices | RRevoke | ROwnEnvelopes | RAck | RRecordsPost | RRecordsGet | RRepair
  | ROffer | RRequest | RRequestsGet | RApprove | RReject | REpochsPost | REpochsGet
  | REpochGet | RRecovery | REnvelopesPost | RLog | RHead | RPrune | RSnapshot
  | RSnapshotsGet | RPartsPost | RPartGet | RSnapshotGet | RExport | RNotice
  | RDeletion | RReceipt | RTransparencyHead | RTransparency.

#[export] Instance Route_eq_dec : EqDecision Route.
Proof. solve_decision. Defined.

(** A segment of a slice pattern: a literal, the chain, or the parameter. *)
Inductive Seg := Lit (x : string) | SChain | SParam.

Fixpoint match_segs (pat : list Seg) (parts : list string) (chain param : string)
    : option (string * string) :=
  match pat, parts with
  | [], [] => Some (chain, param)
  | Lit x :: pat, y :: parts =>
      if String.eqb x y then match_segs pat parts chain param else None
  | SChain :: pat, y :: parts => match_segs pat parts y param
  | SParam :: pat, y :: parts => match_segs pat parts chain y
  | _, _ => None
  end.

(** [if method == m { r } else { r' }] *)
Definition on_method (m : string) (r r' : Route) (method : string) : Route :=
  if String.eqb method m then r else r'.
Definition always (r : Route) (_ : string) : Route := r.

(** Pattern, route for a method, allowed methods. *)
Definition catalogue_rows : list (list Seg * (string -> Route) * list string) :=
  [ ([Lit "health"], always RHealth, ["GET"]);
    ([Lit "chains"], always RGenesis, ["POST"]);
    ([Lit "chains"; Lit "import"], always RImport, ["POST"]);
    ([Lit "chains"; SChain], always RDelete, ["DELETE"]);
    ([Lit "chains"; SChain; Lit "parameters"], on_method "PUT" RReseed RParametersGet,
     ["GET"; "PUT"]);
    ([Lit "chains"; SChain; Lit "devices"; Lit "enroll"], always REnroll, ["POST"]);
    ([Lit "chains"; SChain; Lit "devices"], always RDevices, ["GET"]);
    ([Lit "chains"; SChain; Lit "devices"; SParam; Lit "revoke"], always RRevoke, ["POST"]);
    ([Lit "chains"; SChain; Lit "devices"; SParam; Lit "envelopes"],
     always ROwnEnvelopes, ["GET"]);
    ([Lit "chains"; SChain; Lit "devices"; SParam; Lit "keys"; Lit "ack"],
     always RAck, ["POST"]);
    ([Lit "chains"; SChain; Lit "records"], on_method "POST" RRecordsPost RRecordsGet,
     ["GET"; "POST"]);
    ([Lit "chains"; SChain; Lit "records"; Lit "repair"], always RRepair, ["POST"]);
    ([Lit "chains"; SChain; Lit "enrollment-offers"], always ROffer, ["POST"]);
    ([Lit "chains"; SChain; Lit "enrollment-requests"],
     on_method "POST" RRequest RRequestsGet, ["GET"; "POST"]);
    ([Lit "chains"; SChain; Lit "enrollment-requests"; SParam; Lit "approve"],
     always RApprove, ["POST"]);
    ([Lit "chains"; SChain; Lit "enrollment-requests"; SParam; Lit "reject"],
     always RReject, ["POST"]);
    ([Lit "chains"; SChain; Lit "epochs"], on_method "POST" REpochsPost REpochsGet,
     ["GET"; "POST"]);
    ([Lit "chains"; SChain; Lit "epochs"; SParam], always REpochGet, ["GET"]);
    ([Lit "chains"; SChain; Lit "epochs"; SParam; Lit "recovery-envelope"],
     always RRecovery, ["GET"]);
    ([Lit "chains"; SChain; Lit "epochs"; SParam; Lit "envelopes"],
     always REnvelopesPost, ["POST"]);
    ([Lit "chains"; SChain; Lit "log"], always RLog, ["GET"]);
    ([Lit "chains"; SChain; Lit "log"; Lit "head"], always RHead, ["GET"]);
    ([Lit "chains"; SChain; Lit "log"; Lit "prune"], always RPrune, ["POST"]);
    ([Lit "chains"; SChain; Lit "snapshots"], on_method "POST" RSnapshot RSnapshotsGet,
     ["GET"; "POST"]);
    ([Lit "chains"; SChain; Lit "snapshots"; Lit "parts"], always RPartsPost, ["POST"]);
    ([Lit "chains"; SChain; Lit "snapshots"; Lit "parts"; SParam], always RPartGet, ["GET"]);
    ([Lit "chains"; SChain; Lit "snapshots"; SParam], always RSnapshotGet, ["GET"]);
    ([Lit "chains"; SChain; Lit "export"], always RExport, ["GET"]);
    ([Lit "chains"; SChain; Lit "relay-notice"], always RNotice, ["GET"]);
    ([Lit "chains"; SChain; Lit "deletion"], always RDeletion, ["GET"]);
    ([Lit "chains"; SChain; Lit "receipts"; SParam], always RReceipt, ["GET"]);
    ([Lit "chains"; SChain; Lit "transparency"; Lit "head"], always RTransparencyHead, ["GET"]);
    ([Lit "chains"; SChain; Lit "transparency"; Lit "entries"], always RTransparency,
     ["GET"]) ]%string.

Fixpoint lookup_route (rows : list (list Seg * (string -> Route) * list string))
    (parts : list string) (method : string) : option (Route * string * string * list string) :=
  match rows with
  | [] => None
  | (pat, route, allow) :: rows =>
      match match_segs pat parts EmptyString EmptyString with
      | Some (chain, param) => Some (route method, chain, param, allow)
      | None => lookup_route rows parts method
      end
  end.

Lemma lookup_route_row rows parts m r c p allow :
  lookup_route rows parts m = Some (r, c, p, allow) ->
  exists pat route, (pat, route, allow) ∈ rows /\ r = route m /\
    match_segs pat parts EmptyString EmptyString = Some (c, p).
Proof.
  induction rows as [|[[pat route] al] rows IH]; simpl; [done|].
  destruct (match_segs pat parts _ _) as [[c' p']|] eqn:E.
  - intros [= <- <- <- <-]. exists pat, route. by split_and!; [constructor| |].
  - intros (pat' & route' & Hin & H)%IH. exists pat', route'. split; [by right|done].
Qed.

(** [read::decimal] *)
Definition decimal (x : string) (lo hi : Z) : Result Z :=
  if String.eqb x EmptyString || negb (str_forallb is_digit x) then Err invalid
  else
    match parse_u64 x with
    | Some v => if (lo <=? v) && (v <=? hi) then Ok v else Err invalid
    | None => Err invalid
    end.

(** [read::allowed] and [read::query] *)
Definition allowed (q : list (string * string)) (names : list string) : Result unit :=
  fail_if (existsb (fun kv => negb (existsb (String.eqb (fst kv)) names)) q)
    (err FILTER_NOT_ALLOWED).
Fixpoint query (q : list (string * string)) (name : string) : option string :=
  match q with
  | [] => None
  | (k, v) :: q => if String.eqb k name then Some v else query q name
  end.

(** The routes whose parameter is a number. *)
Definition numeric_param (r : Route) : bool :=
  match r with REpochGet | RRecovery | REnvelopesPost | RReceipt => true | _ => false end.

Record Endpoint := MkEndpoint {
  ep_route : Route;
  ep_chain : string;
  ep_param : string;
  ep_allow : list string;
}.

Section Endpoint.
Context {X : Ext}.

Definition endpoint (path method : string) : Result Endpoint :=
  let! rest := ok_or (strip_prefix "/pallasync/v3/" path) (err ENDPOINT_NOT_FOUND) in
  let! ' (route, chain, param, allow) :=
    ok_or (lookup_route catalogue_rows (split_on "/" rest) method)
      (err ENDPOINT_NOT_FOUND) in
  fail_if (negb (existsb (fun m => String.eqb m method) allow)) (err METHOD_NOT_ALLOWED) ;;;
  fail_if (negb (String.eqb chain EmptyString)
           && bool_decide (decode chain (Some 32) = None)) invalid ;;;
  let! parameter :=
    if String.eqb param EmptyString then ret param
    else if numeric_param route then
      let! v := decimal param (if bool_decide (route = RReceipt) then 1 else 0)
                  (if bool_decide (route = RReceipt) then MAX_INTEGER else u32_max) in
      ret (dec v)
    else fail_if (negb (uuid param)) invalid ;;; ret param in
  ret (MkEndpoint route chain parameter allow).
End Endpoint.
