(* ===== verification/Db.v ===== *)
(** * The relay's database ([src/src/db/schema.sql])

    One field of [Db] per v3 table, a finite map from the table's primary key to
    the other columns.  A TEXT column that the source writes with [store::text]
    and reads with [store::value] (JSON in JCS form) holds the value itself; the
    [state] column of [v3_chains] holds the [Chain] record that serde encodes.
    The history tables, filled by the schema's triggers, are lists in [id]
    order. *)
From Stdlib Require Import SpecFloat.
From S2P Require Import Prelude Error Json.

(** The [kind] column and the [kind] arguments of [src/src/api/store.rs]. *)
Inductive Kind :=
  | KParameters | KDevice | KEpoch | KEnvelope | KRecord | KSnapshotPart
  | KCompaction | KAdmin.

#[export] Instance Kind_eq_dec : EqDecision Kind.
Proof. solve_decision. Defined.

Definition kind_code (k : Kind) : nat :=
  match k with
  | KParameters => 0 | KDevice => 1 | KEpoch => 2 | KEnvelope => 3 | KRecord => 4
  | KSnapshotPart => 5 | KCompaction => 6 | KAdmin => 7
  end%nat.
Definition kind_of_code (c : nat) : option Kind :=
  nth_error [KParameters; KDevice; KEpoch; KEnvelope; KRecord; KSnapshotPart;
             KCompaction; KAdmin] c.
#[export] Program Instance Kind_countable : Countable Kind :=
  inj_countable kind_code kind_of_code _.
Next Obligation. by intros []. Qed.

Definition kind_str (k : Kind) : string :=
  match k with
  | KParameters => "parameters" | KDevice => "device" | KEpoch => "epoch"
  | KEnvelope => "envelope" | KRecord => "record" | KSnapshotPart => "snapshot_part"
  | KCompaction => "compaction" | KAdmin => "admin"
  end.

(** The CHECK constraint of [v3_registry.status]. *)
Inductive Status := Active | PendingKeys | Revoked.

#[export] Instance Status_eq_dec : EqDecision Status.
Proof. solve_decision. Defined.

Definition status_str (x : Status) : string :=
  match x with
  | Active => "active" | PendingKeys => "pending_keys" | Revoked => "revoked"
  end.

(** [store::Chain] *)
Record Chain := MkChain {
  chain_id : string;
  parameters : Value;
  epoch : Value;
  log_id : string;
  head_seq : Z;
  head_hash : string;
  min_available_seq : Z;
  boundary_compaction_id : option string;
  transparency_id : string;
  transparency_index : Z;
  transparency_hash : string;
  writable : bool;
  notice_id : string;
}.

Record ObjectRow := MkObjectRow {
  o_hash : string;
  o_body : option Value;
  o_log : option string;
  o_seq : option Z;
}.
Record RegistryRow := MkRegistryRow {
  r_generation : Z;
  r_status : Status;
  r_enrolled_seq : Z;
  r_revoked_seq : option Z;
}.
Record LogRow := MkLogRow { l_entry : option Value; l_head_hash : string }.
Record ReceiptRow := MkReceiptRow {
  rc_log : string;
  rc_seq : option Z;
  rc_receipt : Value;
}.
Record TransparencyRow := MkTransparencyRow { tr_entry : Value; tr_hash : string }.
Record OutcomeRow := MkOutcomeRow { oc_digest : string; oc_response : Value }.
Record OfferRow := MkOfferRow {
  of_offer : Value;
  of_request : option Value;
  of_status : string;
  of_updated_seq : Z;
}.
Record CursorRow := MkCursorRow {
  cu_chain : string;
  cu_binding : Value;
  cu_state : Value;
  cu_expires : Z;
}.
Record RateRow := MkRateRow { ra_tokens : spec_float; ra_updated : Z }.
Record DeletionRow := MkDeletionRow {
  de_device : option string;
  de_admin_key : string;
  de_device_key : option string;
  de_proof : Value;
  de_outcome : Value;
  de_request_hash : string;
}.
Record ImportRow := MkImportRow {
  im_log : string;
  im_parameters : Value;
  im_epoch : Value;
}.
Record HandoffRow := MkHandoffRow {
  ho_compaction : string;
  ho_due : Z;
  ho_expired : bool;
}.
Record OperatorRow := MkOperatorRow {
  op_origin : string;
  op_key_id : string;
  op_revision : Z;
  op_disclosure_hash : string;
}.
Record RegistryHistoryRow := MkRegistryHistoryRow {
  rh_chain : string;
  rh_device : string;
  rh_status : Status;
  rh_enrolled_seq : Z;
  rh_revoked_seq : option Z;
}.
Record OfferHistoryRow := MkOfferHistoryRow {
  oh_chain : string;
  oh_request_id : string;
  oh_offer : Value;
  oh_request : option Value;
  oh_status : string;
}.

(** A history table: [INTEGER PRIMARY KEY AUTOINCREMENT] gives each row an id above
    every id the table ever held; the rows are in id order. *)
Record History (A : Type) := MkHistory { last_id : Z; hist_rows : list (Z * A) }.
Arguments MkHistory {A} _ _.
Arguments last_id {A} _.
Arguments hist_rows {A} _.
Definition history_push {A} (x : A) (h : History A) : History A :=
  MkHistory (last_id h + 1) (hist_rows h ++ [(last_id h + 1, x)]).
Definition history_filter {A} (p : A -> bool) (h : History A) : History A :=
  MkHistory (last_id h) (List.filter (fun r => p (snd r)) (hist_rows h)).

Record Db := MkDb {
  t_chains : gmap string Chain; (* v3_chains: chain_id -> state *)
  t_objects : gmap (string * Kind * string) ObjectRow; (* v3_objects: (chain_id, kind, object_id) *)
  t_registry : gmap (string * string) RegistryRow; (* v3_registry: (chain_id, device_id) *)
  t_log : gmap (string * string * Z) LogRow; (* v3_log: (chain_id, log_id, seq) *)
  t_receipts : gmap (string * Kind * string) ReceiptRow; (* v3_receipts: (chain_id, kind, object_id) *)
  t_transparency : gmap (string * string * Z) TransparencyRow; (* v3_transparency: (chain_id, transparency_id, idx) *)
  t_heads : gmap (string * string * Z) Value; (* v3_heads: (chain_id, transparency_id, idx) -> head *)
  t_nonces : gmap (string * string * string * string) Z; (* v3_nonces: (chain_id, signer_kind, device_id, nonce) -> expires_at_ms *)
  t_outcomes : gmap (string * string * string) OutcomeRow; (* v3_outcomes: (chain_id, scope, operation_id) *)
  t_offers : gmap (string * string) OfferRow; (* v3_offers: (chain_id, request_id) *)
  t_cursors : gmap string CursorRow; (* v3_cursors: cursor *)
  t_rates : gmap (string * string) RateRow; (* v3_rates: (scope, identity) *)
  t_deletions : gmap string DeletionRow; (* v3_deletions: chain_id *)
  t_imports : gmap string ImportRow; (* v3_imports: chain_id *)
  t_payload_nonces : gmap (string * Z * string) string; (* v3_payload_nonces: (chain_id, epoch, nonce) -> record_id *)
  t_handoffs : gmap (string * Z) HandoffRow; (* v3_handoffs: (chain_id, epoch) *)
  t_delete_versions : gmap (string * string) Value; (* v3_delete_versions: (chain_id, receipt_hash) -> proof *)
  t_restart_barrier : option Z; (* v3_restart_barrier: the single row *)
  t_notices : gmap string Value; (* v3_notices: chain_id -> notice *)
  t_operator : option OperatorRow; (* v3_operator: the single row *)
  t_registry_history : History RegistryHistoryRow; (* v3_registry_history *)
  t_offer_history : History OfferHistoryRow; (* v3_offer_history *)
}.

(** The database after [schema.sql] has run on an empty file. *)
Definition empty_db : Db :=
  MkDb ∅ ∅ ∅ ∅ ∅ ∅ ∅ ∅ ∅ ∅ ∅ ∅ ∅ ∅ ∅ ∅ ∅ None ∅ None
    (MkHistory 0 []) (MkHistory 0 []).

(** ** Table updates *)
Definition set_chains (x : gmap string Chain) (d : Db) : Db :=  MkDb x (t_objects d)
    (t_registry d) (t_log d) (t_receipts d) (t_transparency d) (t_heads d) (t_nonces d)
    (t_outcomes d) (t_offers d) (t_cursors d) (t_rates d) (t_deletions d) (t_imports d)
    (t_payload_nonces d) (t_handoffs d) (t_delete_versions d) (t_restart_barrier d)
    (t_notices d) (t_operator d) (t_registry_history d) (t_offer_history d).
Definition set_objects (x : gmap (string * Kind * string) ObjectRow) (d : Db) : Db :=
    MkDb (t_chains d) x (t_registry d) (t_log d) (t_receipts d) (t_transparency d)
    (t_heads d) (t_nonces d) (t_outcomes d) (t_offers d) (t_cursors d) (t_rates d)
    (t_deletions d) (t_imports d) (t_payload_nonces d) (t_handoffs d) (t_delete_versions
    d) (t_restart_barrier d) (t_notices d) (t_operator d) (t_registry_history d)
    (t_offer_history d).
Definition set_registry (x : gmap (string * string) RegistryRow) (d : Db) : Db :=
    MkDb (t_chains d) (t_objects d) x (t_log d) (t_receipts d) (t_transparency d) (t_heads
    d) (t_nonces d) (t_outcomes d) (t_offers d) (t_cursors d) (t_rates d) (t_deletions d)
    (t_imports d) (t_payload_nonces d) (t_handoffs d) (t_delete_versions d)
    (t_restart_barrier d) (t_notices d) (t_operator d) (t_registry_history d)
    (t_offer_history d).
Definition set_log (x : gmap (string * string * Z) LogRow) (d : Db) : Db :=  MkDb
    (t_chains d) (t_objects d) (t_registry d) x (t_receipts d) (t_transparency d) (t_heads
    d) (t_nonces d) (t_outcomes d) (t_offers d) (t_cursors d) (t_rates d) (t_deletions d)
    (t_imports d) (t_payload_nonces d) (t_handoffs d) (t_delete_versions d)
    (t_restart_barrier d) (t_notices d) (t_operator d) (t_registry_history d)
    (t_offer_history d).
Definition set_receipts (x : gmap (string * Kind * string) ReceiptRow) (d : Db) : Db
    :=  MkDb (t_chains d) (t_objects d) (t_registry d) (t_log d) x (t_transparency d)
    (t_heads d) (t_nonces d) (t_outcomes d) (t_offers d) (t_cursors d) (t_rates d)
    (t_deletions d) (t_imports d) (t_payload_nonces d) (t_handoffs d) (t_delete_versions
    d) (t_restart_barrier d) (t_notices d) (t_operator d) (t_registry_history d)
    (t_offer_history d).
Definition set_transparency (x : gmap (string * string * Z) TransparencyRow) (d : Db)
    : Db :=  MkDb (t_chains d) (t_objects d) (t_registry d) (t_log d) (t_receipts d) x
    (t_heads d) (t_nonces d) (t_outcomes d) (t_offers d) (t_cursors d) (t_rates d)
    (t_deletions d) (t_imports d) (t_payload_nonces d) (t_handoffs d) (t_delete_versions
    d) (t_restart_barrier d) (t_notices d) (t_operator d) (t_registry_history d)
    (t_offer_history d).
Definition set_heads (x : gmap (string * string * Z) Value) (d : Db) : Db :=  MkDb
    (t_chains d) (t_objects d) (t_registry d) (t_log d) (t_receipts d) (t_transparency d)
    x (t_nonces d) (t_outcomes d) (t_offers d) (t_cursors d) (t_rates d) (t_deletions d)
    (t_imports d) (t_payload_nonces d) (t_handoffs d) (t_delete_versions d)
    (t_restart_barrier d) (t_notices d) (t_operator d) (t_registry_history d)
    (t_offer_history d).
Definition set_nonces (x : gmap (string * string * string * string) Z) (d : Db) : Db
    :=  MkDb (t_chains d) (t_objects d) (t_registry d) (t_log d) (t_receipts d)
    (t_transparency d) (t_heads d) x (t_outcomes d) (t_offers d) (t_cursors d) (t_rates d)
    (t_deletions d) (t_imports d) (t_payload_nonces d) (t_handoffs d) (t_delete_versions
    d) (t_restart_barrier d) (t_notices d) (t_operator d) (t_registry_history d)
    (t_offer_history d).
Definition set_outcomes (x : gmap (string * string * string) OutcomeRow) (d : Db) : Db
    :=  MkDb (t_chains d) (t_objects d) (t_registry d) (t_log d) (t_receipts d)
    (t_transparency d) (t_heads d) (t_nonces d) x (t_offers d) (t_cursors d) (t_rates d)
    (t_deletions d) (t_imports d) (t_payload_nonces d) (t_handoffs d) (t_delete_versions
    d) (t_restart_barrier d) (t_notices d) (t_operator d) (t_registry_history d)
    (t_offer_history d).
Definition set_offers (x : gmap (string * string) OfferRow) (d : Db) : Db :=  MkDb
    (t_chains d) (t_objects d) (t_registry d) (t_log d) (t_receipts d) (t_transparency d)
    (t_heads d) (t_nonces d) (t_outcomes d) x (t_cursors d) (t_rates d) (t_deletions d)
    (t_imports d) (t_payload_nonces d) (t_handoffs d) (t_delete_versions d)
    (t_restart_barrier d) (t_notices d) (t_operator d) (t_registry_history d)
    (t_offer_history d).
Definition set_cursors (x : gmap string CursorRow) (d : Db) : Db :=  MkDb (t_chains d)
    (t_objects d) (t_registry d) (t_log d) (t_receipts d) (t_transparency d) (t_heads d)
    (t_nonces d) (t_outcomes d) (t_offers d) x (t_rates d) (t_deletions d) (t_imports d)
    (t_payload_nonces d) (t_handoffs d) (t_delete_versions d) (t_restart_barrier d)
    (t_notices d) (t_operator d) (t_registry_history d) (t_offer_history d).
Definition set_rates (x : gmap (string * string) RateRow) (d : Db) : Db :=  MkDb
    (t_chains d) (t_objects d) (t_registry d) (t_log d) (t_receipts d) (t_transparency d)
    (t_heads d) (t_nonces d) (t_outcomes d) (t_offers d) (t_cursors d) x (t_deletions d)
    (t_imports d) (t_payload_nonces d) (t_handoffs d) (t_delete_versions d)
    (t_restart_barrier d) (t_notices d) (t_operator d) (t_registry_history d)
    (t_offer_history d).
Definition set_deletions (x : gmap string DeletionRow) (d : Db) : Db :=  MkDb
    (t_chains d) (t_objects d) (t_registry d) (t_log d) (t_receipts d) (t_transparency d)
    (t_heads d) (t_nonces d) (t_outcomes d) (t_offers d) (t_cursors d) (t_rates d) x
    (t_imports d) (t_payload_nonces d) (t_handoffs d) (t_delete_versions d)
    (t_restart_barrier d) (t_notices d) (t_operator d) (t_registry_history d)
    (t_offer_history d).
Definition set_imports (x : gmap string ImportRow) (d : Db) : Db :=  MkDb (t_chains d)
    (t_objects d) (t_registry d) (t_log d) (t_receipts d) (t_transparency d) (t_heads d)
    (t_nonces d) (t_outcomes d) (t_offers d) (t_cursors d) (t_rates d) (t_deletions d) x
    (t_payload_nonces d) (t_handoffs d) (t_delete_versions d) (t_restart_barrier d)
    (t_notices d) (t_operator d) (t_registry_history d) (t_offer_history d).
Definition set_payload_nonces (x : gmap (string * Z * string) string) (d : Db) : Db :=
    MkDb (t_chains d) (t_objects d) (t_registry d) (t_log d) (t_receipts d)
    (t_transparency d) (t_heads d) (t_nonces d) (t_outcomes d) (t_offers d) (t_cursors d)
    (t_rates d) (t_deletions d) (t_imports d) x (t_handoffs d) (t_delete_versions d)
    (t_restart_barrier d) (t_notices d) (t_operator d) (t_registry_history d)
    (t_offer_history d).
Definition set_handoffs (x : gmap (string * Z) HandoffRow) (d : Db) : Db :=  MkDb
    (t_chains d) (t_objects d) (t_registry d) (t_log d) (t_receipts d) (t_transparency d)
    (t_heads d) (t_nonces d) (t_outcomes d) (t_offers d) (t_cursors d) (t_rates d)
    (t_deletions d) (t_imports d) (t_payload_nonces d) x (t_delete_versions d)
    (t_restart_barrier d) (t_notices d) (t_operator d) (t_registry_history d)
    (t_offer_history d).
Definition set_delete_versions (x : gmap (string * string) Value) (d : Db) : Db :=
    MkDb (t_chains d) (t_objects d) (t_registry d) (t_log d) (t_receipts d)
    (t_transparency d) (t_heads d) (t_nonces d) (t_outcomes d) (t_offers d) (t_cursors d)
    (t_rates d) (t_deletions d) (t_imports d) (t_payload_nonces d) (t_handoffs d) x
    (t_restart_barrier d) (t_notices d) (t_operator d) (t_registry_history d)
    (t_offer_history d).
Definition set_restart_barrier (x : option Z) (d : Db) : Db :=  MkDb (t_chains d)
    (t_objects d) (t_registry d) (t_log d) (t_receipts d) (t_transparency d) (t_heads d)
    (t_nonces d) (t_outcomes d) (t_offers d) (t_cursors d) (t_rates d) (t_deletions d)
    (t_imports d) (t_payload_nonces d) (t_handoffs d) (t_delete_versions d) x (t_notices
    d) (t_operator d) (t_registry_history d) (t_offer_history d).
Definition set_notices (x : gmap string Value) (d : Db) : Db :=  MkDb (t_chains d)
    (t_objects d) (t_registry d) (t_log d) (t_receipts d) (t_transparency d) (t_heads d)
    (t_nonces d) (t_outcomes d) (t_offers d) (t_cursors d) (t_rates d) (t_deletions d)
    (t_imports d) (t_payload_nonces d) (t_handoffs d) (t_delete_versions d)
    (t_restart_barrier d) x (t_operator d) (t_registry_history d) (t_offer_history d).
Definition set_operator (x : option OperatorRow) (d : Db) : Db :=  MkDb (t_chains d)
    (t_objects d) (t_registry d) (t_log d) (t_receipts d) (t_transparency d) (t_heads d)
    (t_nonces d) (t_outcomes d) (t_offers d) (t_cursors d) (t_rates d) (t_deletions d)
    (t_imports d) (t_payload_nonces d) (t_handoffs d) (t_delete_versions d)
    (t_restart_barrier d) (t_notices d) x (t_registry_history d) (t_offer_history d).
Definition set_registry_history (x : History RegistryHistoryRow) (d : Db) : Db :=  MkDb
    (t_chains d) (t_objects d) (t_registry d) (t_log d) (t_receipts d) (t_transparency d)
    (t_heads d) (t_nonces d) (t_outcomes d) (t_offers d) (t_cursors d) (t_rates d)
    (t_deletions d) (t_imports d) (t_payload_nonces d) (t_handoffs d) (t_delete_versions
    d) (t_restart_barrier d) (t_notices d) (t_operator d) x (t_offer_history d).
Definition set_offer_history (x : History OfferHistoryRow) (d : Db) : Db :=  MkDb
    (t_chains d) (t_objects d) (t_registry d) (t_log d) (t_receipts d) (t_transparency d)
    (t_heads d) (t_nonces d) (t_outcomes d) (t_offers d) (t_cursors d) (t_rates d)
    (t_deletions d) (t_imports d) (t_payload_nonces d) (t_handoffs d) (t_delete_versions
    d) (t_restart_barrier d) (t_notices d) (t_operator d) (t_registry_history d) x.

(** ** Updates of a chain *)
Definition set_log_head (seq : Z) (hash : string) (c : Chain) : Chain := MkChain
    (chain_id c) (parameters c) (epoch c) (log_id c) seq hash (min_available_seq c)
    (boundary_compaction_id c) (transparency_id c) (transparency_index c)
    (transparency_hash c) (writable c) (notice_id c).
Definition set_transparency_head (i : Z) (hash : string) (c : Chain) : Chain :=
    MkChain (chain_id c) (parameters c) (epoch c) (log_id c) (head_seq c) (head_hash c)
    (min_available_seq c) (boundary_compaction_id c) (transparency_id c) i hash (writable
    c) (notice_id c).
Definition set_epoch (e : Value) (c : Chain) : Chain := MkChain (chain_id c)
    (parameters c) e (log_id c) (head_seq c) (head_hash c) (min_available_seq c)
    (boundary_compaction_id c) (transparency_id c) (transparency_index c)
    (transparency_hash c) (writable c) (notice_id c).
Definition set_pruned (q : Z) (b : option string) (c : Chain) : Chain := MkChain
    (chain_id c) (parameters c) (epoch c) (log_id c) (head_seq c) (head_hash c) q b
    (transparency_id c) (transparency_index c) (transparency_hash c) (writable c)
    (notice_id c).
Definition set_writable (b : bool) (c : Chain) : Chain := MkChain (chain_id c)
    (parameters c) (epoch c) (log_id c) (head_seq c) (head_hash c) (min_available_seq c)
    (boundary_compaction_id c) (transparency_id c) (transparency_index c)
    (transparency_hash c) b (notice_id c).
Definition set_transparency_of (old : Chain) (c : Chain) : Chain := MkChain (chain_id
    c) (parameters c) (epoch c) (log_id c) (head_seq c) (head_hash c) (min_available_seq
    c) (boundary_compaction_id c) (transparency_id old) (transparency_index old)
    (transparency_hash old) (writable c) (notice_id c).
