(* ===== verification/Monad.v ===== *)
(** * The effects of a request

    A handler runs inside one SQLite transaction: it reads and writes the
    database, reads the clock, draws random identifiers, and every statement may
    fail for reasons of storage.  [M] is a state monad whose state survives an
    error, since the caller decides between COMMIT and ROLLBACK. *)
From S2P Require Import Prelude Error Json Db.

(** The environment: the [k]-th effect of a run reads [clock k], draws
    [new_uuid k], or fails when [sql_fails k]. *)
Class Oracle := {
  clock : nat -> Z;             (* chrono::Utc::now().timestamp_millis() *)
  new_uuid : nat -> string;     (* Uuid::new_v4().to_string() *)
  sql_fails : nat -> bool;      (* sqlx::Error on a statement *)
  wal_busy : nat -> bool;       (* PRAGMA wal_checkpoint reports a busy log *)
}.

Record World := MkWorld { db : Db; tick : nat }.

Definition next (w : World) : World := MkWorld (db w) (S (tick w)).
Definition with_db (d : Db) (w : World) : World := MkWorld d (S (tick w)).

Definition M (A : Type) : Type := World -> Result A * World.

#[export] Instance M_monad : ErrMonad ApiError M := {|
  ret _ x := fun w => (Ok x, w);
  bind _ _ m f := fun w =>
    match m w with
    | (Ok x, w') => f x w'
    | (Err e, w') => (Err e, w')
    | (Panic, w') => (Panic, w')
    end;
  fail _ e := fun w => (Err e, w);
  panic _ := fun w => (Panic, w);
|}.

Definition storage_error : ApiError := err STORAGE_UNAVAILABLE.

Section Effects.
Context {O : Oracle}.

(** [error::now]: [timestamp_millis().max(0) as u64] *)
Definition now : M Z := fun w => (Ok (Z.max 0 (clock (tick w))), next w).

(** [store::new_id] *)
Definition new_id : M string := fun w => (Ok (new_uuid (tick w)), next w).

(** A statement: it fails, or computes on the tables.  [None] is a violated
    constraint or a missing row, also an [sqlx::Error]. *)
Definition sql {A} (f : Db -> option (A * Db)) : M A := fun w =>
  if sql_fails (tick w) then (Err storage_error, next w)
  else match f (db w) with
       | Some (x, d) => (Ok x, with_db d w)
       | None => (Err storage_error, next w)
       end.

Definition select {A} (f : Db -> A) : M A := sql (fun d => Some (f d, d)).
Definition fetch_one {A} (f : Db -> option A) : M A :=
  sql (fun d => x ← f d; Some (x, d)).
Definition exec (f : Db -> option Db) : M unit := sql (fun d => d' ← f d; Some (tt, d')).
Definition exec_ (f : Db -> Db) : M unit := sql (fun d => Some (tt, f d)).

(** A pure fallible computation inside a handler. *)
Definition lift {A} (r : Result A) : M A := fun w => (r, w).

(** ** Transactions

    [BEGIN IMMEDIATE; m; COMMIT].  An error of [m] rolls back, unless [keep],
    where the source commits before it looks at the result; a panic unwinds
    through the transaction and rolls back, and so does a failing COMMIT. *)
Definition rollback (w0 w : World) : World := MkWorld (db w0) (S (tick w)).
Definition commit {A} (r : Result A) (w0 w : World) : Result A * World :=
  if sql_fails (tick w) then (Err storage_error, rollback w0 w) else (r, next w).
Definition transaction {A} (keep : bool) (m : M A) : M A := fun w =>
  if sql_fails (tick w) then (Err storage_error, next w)
  else match m (next w) with
       | (Ok x, w1) => commit (Ok x) w w1
       | (Err e, w1) => if keep then commit (Err e) w w1 else (Err e, rollback w w1)
       | (Panic, w1) => (Panic, rollback w w1)
       end.

(** [m] with its outcome as a value: [let r = async { m }.await]. *)
Definition try_ {A} (m : M A) : M (Result A) := fun w =>
  match m w with
  | (Panic, w') => (Panic, w')
  | (r, w') => (Ok r, w')
  end.

(** The same steps where the source takes them one by one: BEGIN yields the
    snapshot that ROLLBACK, or a failing COMMIT, restores.  A failing ROLLBACK
    also ends the transaction without effect. *)
Definition begin_tx : M Db := sql (fun d => Some (d, d)).
Definition rollback_tx (d0 : Db) : M unit := fun w =>
  ((if sql_fails (tick w) then Err storage_error else Ok tt), MkWorld d0 (S (tick w))).
Definition commit_tx (d0 : Db) : M unit := fun w =>
  if sql_fails (tick w) then (Err storage_error, MkWorld d0 (S (tick w)))
  else (Ok tt, next w).
Definition try_tx {A} (d0 : Db) (m : M A) : M (Result A) := fun w =>
  match m w with
  | (Panic, w') => (Panic, MkWorld d0 (S (tick w')))
  | (r, w') => (Ok r, w')
  end.

(** [m.map_err(|_| e)] *)
Definition map_err {A} (e : ApiError) (m : M A) : M A := fun w =>
  match m w with
  | (Err _, w') => (Err e, w')
  | r => r
  end.
End Effects.

(** ** Inversion of successful runs *)
Section Inversion.
Context {O : Oracle}.

Lemma M_bind_ok {A B} (m : M A) (f : A -> M B) w b w' :
  bind m f w = (Ok b, w') <-> exists x w1, m w = (Ok x, w1) /\ f x w1 = (Ok b, w').
Proof. cbv [bind M_monad]. destruct (m w) as [[x|e|] w1]; naive_solver. Qed.

Lemma M_ret_ok {A} (x y : A) w w' :
  ret (M:=M) x w = (Ok y, w') <-> x = y /\ w' = w.
Proof. cbv [ret M_monad]. naive_solver. Qed.

Lemma M_fail_if_ok b e w u w' :
  fail_if (M:=M) b e w = (Ok u, w') <-> b = false /\ w' = w.
Proof. destruct b, u; cbv [fail_if ret fail M_monad]; naive_solver. Qed.

Lemma M_ok_or_ok {A} (o : option A) e w x w' :
  ok_or (M:=M) o e w = (Ok x, w') <-> o = Some x /\ w' = w.
Proof. destruct o; cbv [ok_or ret fail M_monad]; naive_solver. Qed.

Lemma M_unwrap_ok {A} (o : option A) w x w' :
  unwrap (M:=M) o w = (Ok x, w') <-> o = Some x /\ w' = w.
Proof. destruct o; cbv [unwrap ret panic M_monad]; naive_solver. Qed.

Lemma M_lift_ok {A} (r : Result A) w x w' :
  lift r w = (Ok x, w') <-> r = Ok x /\ w' = w.
Proof. unfold lift. naive_solver. Qed.

Lemma M_map_err_ok {A} e (m : M A) w x w' :
  map_err e m w = (Ok x, w') <-> m w = (Ok x, w').
Proof. unfold map_err. destruct (m w) as [[]]; naive_solver. Qed.

Lemma now_ok w t w' :
  now w = (Ok t, w') -> t = Z.max 0 (clock (tick w)) /\ w' = next w.
Proof. unfold now. naive_solver. Qed.

Lemma new_id_ok w i w' :
  new_id w = (Ok i, w') -> i = new_uuid (tick w) /\ w' = next w.
Proof. unfold new_id. naive_solver. Qed.

Lemma sql_ok {A} (f : Db -> option (A * Db)) w x w' :
  sql f w = (Ok x, w') -> exists d, f (db w) = Some (x, d) /\ w' = with_db d w.
Proof.
  unfold sql. destruct (sql_fails _); [done|].
  destruct (f (db w)) as [[y d]|]; naive_solver.
Qed.

Lemma select_ok {A} (f : Db -> A) w x w' :
  select f w = (Ok x, w') -> x = f (db w) /\ w' = next w.
Proof. intros (d & ? & ->)%sql_ok. simplify_eq. done. Qed.

Lemma fetch_one_ok {A} (f : Db -> option A) w x w' :
  fetch_one f w = (Ok x, w') -> f (db w) = Some x /\ w' = next w.
Proof.
  intros (d & H & ->)%sql_ok. destruct (f (db w)); simplify_eq/=. done.
Qed.

Lemma exec_ok f w u w' :
  exec f w = (Ok u, w') -> exists d, f (db w) = Some d /\ w' = with_db d w.
Proof.
  intros (d & H & ->)%sql_ok. destruct (f (db w)); simplify_eq/=. eauto.
Qed.

Lemma exec__ok f w u w' : exec_ f w = (Ok u, w') -> w' = with_db (f (db w)) w.
Proof. intros (d & ? & ->)%sql_ok. by simplify_eq. Qed.
End Inversion.

(** ** Runs of the explicit transactions *)
Section TxRuns.
Context {O : Oracle}.
Lemma begin_tx_run {B} (f : Db -> M B) w :
  bind begin_tx f w =
  if sql_fails (tick w) then (Err storage_error, next w) else f (db w) (next w).
Proof. cbv [bind M_monad begin_tx sql]. by destruct (sql_fails _). Qed.
Lemma select_run {A B} (f : Db -> A) (k : A -> M B) w :
  bind (select f) k w =
  if sql_fails (tick w) then (Err storage_error, next w) else k (f (db w)) (next w).
Proof. cbv [bind M_monad select sql]. by destruct (sql_fails _). Qed.
Lemma try_tx_run {A B} d0 (m : M A) (f : Result A -> M B) w :
  bind (try_tx d0 m) f w =
  match m w with
  | (Panic, w1) => (Panic, MkWorld d0 (S (tick w1)))
  | (r, w1) => f r w1
  end.
Proof. cbv [bind M_monad try_tx]. by destruct (m w) as [[]]. Qed.
Lemma try_run {A B} (m : M A) (f : Result A -> M B) w :
  bind (try_ m) f w =
  match m w with
  | (Panic, w1) => (Panic, w1)
  | (r, w1) => f r w1
  end.
Proof. cbv [bind M_monad try_]. by destruct (m w) as [[]]. Qed.
Lemma commit_tx_run {B} d0 (f : unit -> M B) w :
  bind (commit_tx d0) f w =
  if sql_fails (tick w) then (Err storage_error, MkWorld d0 (S (tick w))) else f tt (next w).
Proof. cbv [bind M_monad commit_tx]. by destruct (sql_fails _). Qed.
Lemma rollback_tx_run {B} d0 (f : unit -> M B) w :
  bind (rollback_tx d0) f w =
  if sql_fails (tick w) then (Err storage_error, MkWorld d0 (S (tick w)))
  else f tt (MkWorld d0 (S (tick w))).
Proof. cbv [bind M_monad rollback_tx]. by destruct (sql_fails _). Qed.
Lemma fail_if_run {B} b e (f : unit -> M B) w :
  bind (fail_if b e) f w = if b then (Err e, w) else f tt w.
Proof. by destruct b. Qed.
Lemma ok_or_run {A B} (o : option A) e (f : A -> M B) w :
  bind (ok_or o e) f w = match o with Some x => f x w | None => (Err e, w) end.
Proof. by destruct o. Qed.
Lemma unwrap_run {A B} (o : option A) (f : A -> M B) w :
  bind (unwrap o) f w = match o with Some x => f x w | None => (Panic, w) end.
Proof. by destruct o. Qed.
Lemma now_run {B} (f : Z -> M B) w :
  bind now f w = f (Z.max 0 (clock (tick w))) (next w).
Proof. done. Qed.
Lemma lift_run {A B} (r : Result A) (f : A -> M B) w :
  bind (lift r) f w =
  match r with Ok x => f x w | Err e => (Err e, w) | Panic => (Panic, w) end.
Proof. by destruct r. Qed.
End TxRuns.

(** [m_inv H] decomposes [H : m w = (Ok x, w')] along the binds of [m]. *)
Ltac m_inv_step H :=
  lazymatch type of H with
  | @bind _ M _ _ _ _ _ _ = (Ok _, _) =>
      let x := fresh "x" in let w := fresh "w" in let Hx := fresh "Hm" in
      apply M_bind_ok in H as (x & w & Hx & H); m_inv_step Hx; m_inv_step H
  | @ret _ M _ _ _ _ = (Ok _, _) => apply M_ret_ok in H as [? ?]; subst
  | fail_if _ _ _ = (Ok _, _) => apply M_fail_if_ok in H as [H ?]; subst
  | ok_or _ _ _ = (Ok _, _) => apply M_ok_or_ok in H as [H ?]; subst
  | unwrap _ _ = (Ok _, _) => apply M_unwrap_ok in H as [H ?]; subst
  | lift _ _ = (Ok _, _) => apply M_lift_ok in H as [H ?]; subst
  | map_err _ _ _ = (Ok _, _) => apply M_map_err_ok in H; m_inv_step H
  | now _ = (Ok _, _) => apply now_ok in H as [? ?]; subst
  | new_id _ = (Ok _, _) => apply new_id_ok in H as [? ?]; subst
  | select _ _ = (Ok _, _) => apply select_ok in H as [? ?]; subst
  | fetch_one _ _ = (Ok _, _) => apply fetch_one_ok in H as [H ?]; subst
  | exec _ _ = (Ok _, _) =>
      let d := fresh "d" in apply exec_ok in H as (d & H & ?); subst
  | exec_ _ _ = (Ok _, _) => apply exec__ok in H; subst
  | @fail _ M _ _ _ _ = (Ok _, _) => discriminate H
  | @panic _ M _ _ _ = (Ok _, _) => discriminate H
  | (let _ := _ in _) _ = (Ok _, _) => cbv zeta in H; m_inv_step H
  | (if ?b then _ else _) _ = (Ok _, _) =>
      let E := fresh "E" in destruct b eqn:E; m_inv_step H
  | (match ?p with _ => _ end) _ = (Ok _, _) =>
      lazymatch type of p with
      | (_ * _)%type => destruct p; m_inv_step H
      | _ => let E := fresh "E" in destruct p eqn:E; m_inv_step H
      end
  | _ => idtac
  end.
Ltac m_inv H := m_inv_step H.

(** [m_run] runs the goal's computation as far as its data allow, splitting on
    whether each statement fails. *)
Ltac m_run :=
  repeat first
    [ progress cbv [bind ret fail panic M_monad fail_if ok_or unwrap lift now new_id]
    | progress unfold select, fetch_one, exec, exec_
    | progress cbn [mbind option_bind option_ret mret fmap option_fmap option_map db with_db next]
    | match goal with
      | |- context [sql ?f ?w] =>
          unfold sql at 1; let E := fresh "Hsql" in destruct (sql_fails (tick w)) eqn:E
      end ].

(** ** Relations that a computation respects

    [respects R m]: whatever the outcome of [m], the databases before and after
    are related by [R].  For a preorder [R] this composes along [bind], so a
    frame or monotonicity property of a handler follows from its statements. *)
Section Respects.
Context {O : Oracle}.
Context (R : Db -> Db -> Prop) `{!PreOrder R}.

(** Some run of [m] returns [x]. *)
Definition yields {A} (m : M A) (x : A) : Prop := exists w w', m w = (Ok x, w').

Definition respects {A} (m : M A) : Prop :=
  forall w r w', m w = (r, w') -> R (db w) (db w').

Lemma respects_ret {A} (x : A) : respects (ret x).
Proof. intros w r w' [= _ <-]. reflexivity. Qed.
Lemma respects_fail {A} e : respects (fail (A:=A) e).
Proof. intros w r w' [= _ <-]. reflexivity. Qed.
Lemma respects_panic {A} : respects (panic (A:=A)).
Proof. intros w r w' [= _ <-]. reflexivity. Qed.
Lemma respects_lift {A} (x : Result A) : respects (lift x).
Proof. intros w r w' [= _ <-]. reflexivity. Qed.
Lemma respects_now : respects now.
Proof. intros w r w' [= _ <-]. reflexivity. Qed.
Lemma respects_new_id : respects new_id.
Proof. intros w r w' [= _ <-]. reflexivity. Qed.
Lemma respects_fail_if b e : respects (fail_if b e).
Proof. destruct b; [apply respects_fail | apply respects_ret]. Qed.
Lemma respects_ok_or {A} (o : option A) e : respects (ok_or o e).
Proof. destruct o; [apply respects_ret | apply respects_fail]. Qed.
Lemma respects_unwrap {A} (o : option A) : respects (unwrap o).
Proof. destruct o; [apply respects_ret | apply respects_panic]. Qed.

(** The continuation may use that [m] has yielded its argument. *)
Lemma respects_bind {A B} (m : M A) (f : A -> M B) :
  respects m -> (forall x, yields m x -> respects (f x)) -> respects (bind m f).
Proof.
  intros Hm Hf w r w'. cbv [bind M_monad].
  destruct (m w) as [[x|e|] w1] eqn:E.
  - intros H. transitivity (db w1); [by eapply Hm | eapply Hf, H; by exists w, w1].
  - intros [= _ <-]. by eapply Hm.
  - intros [= _ <-]. by eapply Hm.
Qed.

Lemma respects_sql {A} (f : Db -> option (A * Db)) :
  (forall d x d', f d = Some (x, d') -> R d d') -> respects (sql f).
Proof.
  intros Hf w r w'. unfold sql. destruct (sql_fails _); [intros [= _ <-]; reflexivity|].
  destruct (f (db w)) as [[x d]|] eqn:E; intros [= _ <-]; [by eapply Hf | reflexivity].
Qed.
Lemma respects_select {A} (f : Db -> A) : respects (select f).
Proof. apply respects_sql. intros d x d' [= _ <-]. reflexivity. Qed.
Lemma respects_fetch_one {A} (f : Db -> option A) : respects (fetch_one f).
Proof.
  apply respects_sql. intros d x d'. destruct (f d); simpl; [|done].
  intros [= _ <-]. reflexivity.
Qed.
Lemma respects_exec f : (forall d d', f d = Some d' -> R d d') -> respects (exec f).
Proof.
  intros Hf. apply respects_sql. intros d x d'. destruct (f d) eqn:E; simpl; [|done].
  intros [= <- <-]. by apply Hf.
Qed.
Lemma respects_exec_ f : (forall d, R d (f d)) -> respects (exec_ f).
Proof. intros Hf. apply respects_sql. intros d x d' [= _ <-]. apply Hf. Qed.

Lemma respects_transaction {A} keep (m : M A) : respects m -> respects (transaction keep m).
Proof.
  intros Hm w r w'. unfold transaction, commit, rollback.
  destruct (sql_fails _); [intros [= _ <-]; reflexivity|].
  destruct (m (next w)) as [[x|e|] w1] eqn:E; apply Hm in E; simpl in E;
    repeat case_match; intros [= _ <-]; simpl; done.
Qed.
Lemma respects_try {A} (m : M A) : respects m -> respects (try_ m).
Proof.
  intros Hm w r w'. unfold try_. destruct (m w) as [[x|e|] w1] eqn:E; apply Hm in E;
    intros [= _ <-]; done.
Qed.
Lemma respects_map_err {A} e (m : M A) : respects m -> respects (map_err e m).
Proof.
  intros Hm w r w'. unfold map_err. destruct (m w) as [[x|e'|] w1] eqn:E;
    intros [= _ <-]; by eapply Hm.
Qed.

(** [I] is the loop invariant of the accumulator. *)
Lemma respects_foldM {A B} (I : B -> Prop) (f : B -> A -> M B) b l :
  I b ->
  (forall b x, x ∈ l -> I b -> respects (f b x)) ->
  (forall b x b', x ∈ l -> I b -> yields (f b x) b' -> I b') ->
  respects (foldM f b l).
Proof.
  revert b. induction l as [|x l IH]; intros b Hb Hf Hi; simpl; [apply respects_ret|].
  apply respects_bind; [apply Hf; [constructor | done]|].
  intros b' Hy. apply IH; [eapply Hi, Hy; [constructor | done] | |];
    intros; [apply Hf | eapply Hi]; eauto; by constructor.
Qed.
Lemma foldM_yields {A B} (I : B -> Prop) (f : B -> A -> M B) b l b' :
  I b -> (forall b x b', I b -> yields (f b x) b' -> I b') ->
  yields (foldM f b l) b' -> I b'.
Proof.
  intros Hb Hi. revert b Hb. induction l as [|x l IH]; intros b Hb (w & w' & H);
    cbn [foldM] in H; m_inv H.
  - done.
  - eapply IH; [|by do 2 eexists]. eapply Hi; [done|]. by do 2 eexists.
Qed.
Lemma respects_forM {A} (f : A -> M unit) l :
  (forall x, x ∈ l -> respects (f x)) -> respects (forM f l).
Proof.
  induction l as [|x l IH]; intros Hf; simpl; [apply respects_ret|].
  apply respects_bind; [apply Hf; constructor|].
  intros _ _. apply IH. intros y Hy. apply Hf. by constructor.
Qed.
End Respects.

(** [yields_norm] decomposes what a computation built in place has yielded. *)
Section Yields.
Context {O : Oracle}.
Lemma yields_ret {A} (x y : A) : yields (ret x) y -> x = y.
Proof. intros (w & w' & H). by m_inv H. Qed.
Lemma yields_unwrap {A} (o : option A) y : yields (unwrap o) y -> o = Some y.
Proof. intros (w & w' & H). by m_inv H. Qed.
Lemma yields_fail_if b e u : yields (fail_if b e) u -> b = false.
Proof. intros (w & w' & H). by m_inv H. Qed.
Lemma yields_ok_or {A} (o : option A) e y : yields (ok_or o e) y -> o = Some y.
Proof. intros (w & w' & H). by m_inv H. Qed.
Lemma yields_bind {A B} (m : M A) (f : A -> M B) y :
  yields (bind m f) y -> exists x, yields m x /\ yields (f x) y.
Proof.
  intros (w & w' & H). apply M_bind_ok in H as (x & w1 & H1 & H2).
  exists x. split; by do 2 eexists.
Qed.
End Yields.
Ltac yields_norm :=
  repeat match goal with
  | H : yields (ret _) _ |- _ => apply yields_ret in H; simplify_eq
  | H : yields (@bind _ M _ _ _ _ _) _ |- _ =>
      let x := fresh "x" in apply yields_bind in H as (x & ? & H)
  | H : yields (match ?b with _ => _ end) _ |- _ => destruct b eqn:?
  | H : yields (let _ := _ in _) _ |- _ => cbv zeta in H
  end.

(** Hints for the [respects] lemma of each operation. *)
Create HintDb respects discriminated.
#[export] Hint Constants Opaque : respects.
#[export] Hint Extern 1 (PreOrder _) => typeclasses eauto : respects.

(** [respects_tac stmt] decomposes a [respects] goal; [stmt] proves the goals
    left by the writing statements. *)
Ltac respects_tac stmt :=
  intros;
  lazymatch goal with
  | |- PreOrder _ => exact _
  | |- respects ?R (@bind _ M _ _ _ _ _) => apply respects_bind; respects_tac stmt
  | |- respects ?R (@ret _ M _ _ _) => apply respects_ret; exact _
  | |- respects ?R (@fail _ M _ _ _) => apply respects_fail; exact _
  | |- respects ?R (@panic _ M _ _) => apply respects_panic; exact _
  | |- respects ?R (lift _) => apply respects_lift; exact _
  | |- respects ?R now => apply respects_now; exact _
  | |- respects ?R new_id => apply respects_new_id; exact _
  | |- respects ?R (fail_if _ _) => apply respects_fail_if; exact _
  | |- respects ?R (ok_or _ _) => apply respects_ok_or; exact _
  | |- respects ?R (unwrap _) => apply respects_unwrap; exact _
  | |- respects ?R (select _) => apply respects_select; exact _
  | |- respects ?R (fetch_one _) => apply respects_fetch_one; exact _
  | |- respects ?R (map_err _ _) => apply respects_map_err; respects_tac stmt
  | |- respects ?R (transaction _ _) => apply respects_transaction; respects_tac stmt
  | |- respects ?R (try_ _) => apply respects_try; respects_tac stmt
  | |- respects ?R (forM _ _) => apply respects_forM; [exact _|]; respects_tac stmt
  | |- respects ?R (exec _) => apply respects_exec; [exact _|]; intros; cbv beta in *; stmt
  | |- respects ?R (exec_ _) => apply respects_exec_; [exact _|]; intros; cbv beta; stmt
  | |- respects ?R (let _ := _ in _) => cbv zeta; respects_tac stmt
  | |- respects ?R (match ?x with _ => _ end) =>
      destruct x eqn:?; respects_tac stmt
  | |- respects _ _ => try solve [eauto 3 with respects]
  | |- _ => stmt
  end.

(** ** Absence of panics *)
Section Panics.
Context {O : Oracle}.

Definition never_panics {A} (m : M A) : Prop := forall w w', m w <> (Panic, w').

Lemma np_ret {A} (x : A) : never_panics (ret x).
Proof. by intros w w'. Qed.
Lemma np_fail {A} e : never_panics (fail (A:=A) e).
Proof. by intros w w'. Qed.
Lemma np_now : never_panics now.
Proof. by intros w w'. Qed.
Lemma np_new_id : never_panics new_id.
Proof. by intros w w'. Qed.
Lemma np_fail_if b e : never_panics (fail_if b e).
Proof. by destruct b; intros w w'. Qed.
Lemma np_ok_or {A} (o : option A) e : never_panics (ok_or o e).
Proof. by destruct o; intros w w'. Qed.
Lemma np_unwrap {A} (o : option A) : is_Some o -> never_panics (unwrap o).
Proof. by intros [x ->] w w'. Qed.
Lemma np_lift {A} (r : Result A) : r <> Panic -> never_panics (lift r).
Proof. intros Hr w w' [= -> _]. done. Qed.
Lemma np_sql {A} (f : Db -> option (A * Db)) : never_panics (sql f).
Proof.
  intros w w'. unfold sql. destruct (sql_fails _); [done|]. by destruct (f (db w)) as [[]|].
Qed.
Lemma np_transaction {A} keep (m : M A) : never_panics m -> never_panics (transaction keep m).
Proof.
  intros Hm w w'. unfold transaction, commit. destruct (sql_fails _); [done|].
  destruct (m (next w)) as [[x|e|] w1] eqn:E; [| |by edestruct Hm];
    repeat case_match; done.
Qed.
Lemma np_map_err {A} e (m : M A) : never_panics m -> never_panics (map_err e m).
Proof.
  intros Hm w w'. unfold map_err. destruct (m w) as [[]] eqn:E; try done.
  intros [= <-]. by eapply Hm.
Qed.
Lemma np_bind {A B} (m : M A) (f : A -> M B) :
  never_panics m -> (forall x, yields m x -> never_panics (f x)) -> never_panics (bind m f).
Proof.
  intros Hm Hf w w'. cbv [bind M_monad]. destruct (m w) as [[x|e|] w1] eqn:E; try done.
  - apply Hf. by exists w, w1.
  - intros _. by eapply Hm.
Qed.
Lemma np_foldM {A B} (I : B -> Prop) (f : B -> A -> M B) b l :
  I b ->
  (forall b x, x ∈ l -> I b -> never_panics (f b x)) ->
  (forall b x b', x ∈ l -> I b -> yields (f b x) b' -> I b') ->
  never_panics (foldM f b l).
Proof.
  revert b. induction l as [|x l IH]; intros b Hb Hf Hi; simpl; [apply np_ret|].
  apply np_bind; [apply Hf; [constructor | done]|].
  intros b' Hy. apply IH; [eapply Hi, Hy; [constructor | done] | |];
    intros; [apply Hf | eapply Hi]; eauto; by constructor.
Qed.
Lemma np_forM {A} (f : A -> M unit) l :
  (forall x, x ∈ l -> never_panics (f x)) -> never_panics (forM f l).
Proof.
  induction l as [|x l IH]; intros Hf; simpl; [apply np_ret|].
  apply np_bind; [apply Hf; constructor|].
  intros _ _. apply IH. intros y Hy. apply Hf. by constructor.
Qed.
End Panics.

Create HintDb panics discriminated.

(** [np_tac] decomposes a [never_panics] goal; the goals left are the unwraps. *)
Ltac np_tac :=
  intros;
  lazymatch goal with
  | |- never_panics (@bind _ M _ _ _ _ _) => apply np_bind; np_tac
  | |- never_panics (@ret _ M _ _ _) => apply np_ret
  | |- never_panics (@fail _ M _ _ _) => apply np_fail
  | |- never_panics now => apply np_now
  | |- never_panics new_id => apply np_new_id
  | |- never_panics (fail_if _ _) => apply np_fail_if
  | |- never_panics (ok_or _ _) => apply np_ok_or
  | |- never_panics (unwrap _) => apply np_unwrap
  | |- never_panics (lift _) => apply np_lift
  | |- never_panics (sql _) => apply np_sql
  | |- never_panics (select _) => apply np_sql
  | |- never_panics (fetch_one _) => apply np_sql
  | |- never_panics (exec _) => apply np_sql
  | |- never_panics (exec_ _) => apply np_sql
  | |- never_panics (map_err _ _) => apply np_map_err; np_tac
  | |- never_panics (transaction _ _) => apply np_transaction; np_tac
  | |- never_panics (forM _ _) => apply np_forM; np_tac
  | |- never_panics (let _ := _ in _) => cbv zeta; np_tac
  | |- never_panics (match ?x with _ => _ end) => destruct x eqn:?; np_tac
  | |- never_panics _ => try solve [eauto 3 with panics]
  | |- _ => idtac
  end.
