(* ===== verification/Config.v ===== *)
(** * The effective configuration ([src/src/config.rs])

    The fields of [RelayConfig] that the request handlers read, the limits, the
    health document and the guard on writes. *)
From S2P Require Import Prelude Error Json Db Monad Verify.

Section Config.
Context {X : Ext} {O : Oracle}.

(** [RelayConfig] *)
Record RelayConfig := MkConfig {
  key : SigningKey;
  origin : string;
  key_id : string;
  privacy : Value;
  markdown : string;
  max_bytes : option Z;
  shutdown_at_ms : option Z;
  migration_origin : option string;
  stop_writes : bool;
}.

Definition limits (cfg : RelayConfig) : Value := get (privacy cfg) "limits".

Definition health (cfg : RelayConfig) : M Value :=
  let! t := now in
  ret (json [
    ("protocol", Str "pallasync/3");
    ("relay_origin", Str (origin cfg));
    ("server_time_ms", Num t);
    ("durability_tier", Str "single-durable");
    ("limits", limits cfg);
    ("shutdown_at_ms", opt_num (shutdown_at_ms cfg));
    ("migration_origin", opt_str (migration_origin cfg));
    ("relay_public_key", Str (b64_encode (verifying_key (key cfg))));
    ("relay_key_id", Str (key_id cfg))]%string).

(** [self.stop_writes || self.shutdown_at_ms.is_some_and(|t| now() >= t)]: the
    clock is read only when the first test fails and a shutdown is set. *)
Definition write_guard (cfg : RelayConfig) : M unit :=
  let! stopped :=
    if stop_writes cfg then ret true
    else match shutdown_at_ms cfg with
         | Some t => let! now_ms := now in ret (t <=? now_ms)
         | None => ret false
         end in
  fail_if stopped
    (with_context (err RELAY_SHUTTING_DOWN)
      (json [("shutdown_at_ms", opt_num (shutdown_at_ms cfg));
             ("migration_origin", opt_str (migration_origin cfg))]%string)).
End Config.
