(* ===== verification/Disclosure.v ===== *)
(** * The operator's disclosure ([src/src/config.rs])

    The relay starts only with a signed privacy disclosure: [new] checks it against
    the JSON schema [src/docs/privacy.schema.json] (here a parameter, a [Value]), against
    the relay's key and against what the implementation can keep, and [from_env]
    reads it from the environment.  The crates [url] and [regex] are the class
    [ConfigExt]. *)
From S2P Require Import Prelude Error Json Verify Jcs Wire Db Monad Config.

(** What [url::Url::parse] yields, as far as the source looks at it. *)
Record Url := MkUrl {
  url_scheme : string;
  url_host : option string;        (* host_str() *)
  url_username : string;
  url_password : option string;
  url_fragment : option string;
  url_path : string;
  url_query : option string;
  url_origin : string;             (* origin().ascii_serialization() *)
}.
Class ConfigExt (X : Ext) := {
  url_parse : string -> option Url;
  (* regex::Regex::new, with is_match *)
  regex_new : string -> option (string -> bool);
  (* SigningKey::from_bytes *)
  key_from_seed : string -> SigningKey;
}.

(** [s.is_ascii()] and [s.chars().count()]: a scalar value has one byte that is not
    a continuation byte. *)
Definition is_ascii (x : string) : bool := str_forallb (fun c => byte_of c <? 128) x.
Definition char_count (x : string) : Z :=
  Z.of_nat (length (List.filter (fun b => negb ((128 <=? b) && (b <? 192))) (str_bytes x))).

(** ** JSON pointers: [Value::pointer] *)
Fixpoint unescape (x : string) : string :=
  match x with
  | String "~" (String "1" x) => String "/" (unescape x)
  | String "~" (String "0" x) => String "~" (unescape x)
  | String c x => String c (unescape x)
  | EmptyString => EmptyString
  end.
(** An index: no sign, no leading zero. *)
Definition pointer_index (x : string) : option nat :=
  if String.eqb x EmptyString || negb (str_forallb is_digit x)
     || (match x with String "0" (String _ _) => true | _ => false end)
  then None
  else Z.to_nat <$> parse_u64 x.
Definition pointer_step (v : option Value) (token : string) : option Value :=
  v ← v;
  match v with
  | Obj l => obj_get l (unescape token)
  | Arr l => i ← pointer_index (unescape token); nth_error l i
  | _ => None
  end.
Definition pointer (v : Value) (path : string) : option Value :=
  match path with
  | EmptyString => Some v
  | String "/" rest => fold_left pointer_step (split_on "/" rest) (Some v)
  | _ => None
  end.

(** [schema[k].as_u64().is_some_and(f)] and the like *)
Definition on_u64 (v : Value) (k : string) (f : Z -> bool) : bool :=
  match as_u64 (get v k) with Some z => f z | None => false end.
Definition on_array (v : Value) (k : string) (f : list Value -> bool) : bool :=
  match as_array (get v k) with Some l => f l | None => false end.
Definition contains (l : list Value) (v : Value) : bool := existsb (veqb v) l.

Definition has_type (t : string) (v : Value) : bool :=
  if String.eqb t "object" then is_object v
  else if String.eqb t "array" then is_array v
  else if String.eqb t "integer" then bool_decide (is_Some (as_u64 v))
  else if String.eqb t "string" then bool_decide (is_Some (as_str v))
  else if String.eqb t "boolean" then is_bool v
  else if String.eqb t "null" then is_null v
  else false.

Section Disclosure.
Context {X : Ext} {C : ConfigExt X} {O : Oracle}.

(** ** URLs *)
Definition valid_url (x : string) : bool :=
  is_ascii x && (str_len x <=? 4096)
  && match url_parse x with
     | Some u =>
         String.eqb (url_scheme u) "https" && bool_decide (is_Some (url_host u))
         && String.eqb (url_username u) EmptyString && bool_decide (url_password u = None)
         && bool_decide (url_fragment u = None)
     | None => false
     end.
Definition valid_origin (x : string) : bool :=
  valid_url x
  && match url_parse x with
     | Some u => String.eqb (url_path u) "/" && bool_decide (url_query u = None)
                 && String.eqb (url_origin u) x
     | None => false
     end.

Fixpoint validate_strings (v : Value) : Result unit :=
  match v with
  | Str x => fail_if ((4096 <? str_len x) || (4096 <? char_count x)) invalid
  | Obj o => forM (fun kv => validate_strings (snd kv)) o
  | Arr l => forM validate_strings l
  | _ => ret tt
  end.

(** ** The schema evaluator

    [None] in a position of the source that panics is [Panic] here; so is the lack of
    fuel, which bounds the depth of schemas and references. *)
Definition and_then (b k : Result bool) : Result bool :=
  bind b (fun b : bool => if b then k else ret false).
Fixpoint all_ok {A} (f : A -> Result bool) (l : list A) : Result bool :=
  match l with
  | [] => ret true
  | x :: l => and_then (f x) (all_ok f l)
  end.
(** [l.iter().filter(f).count()] *)
Fixpoint count_ok {A} (f : A -> Result bool) (l : list A) : Result nat :=
  match l with
  | [] => ret 0%nat
  | x :: l => let! b := f x in let! k := count_ok f l in ret (Nat.b2n b + k)%nat
  end.

Definition check_alternatives (valid : Value -> Result bool) (schema : Value)
    (k : string) (exactly : bool) : Result bool :=
  match as_array (get schema k) with
  | None => ret true
  | Some l =>
      let! count := count_ok valid l in
      ret (if exactly then Nat.eqb count 1 else negb (Nat.eqb count 0))
  end.
Definition check_scalar (schema v : Value) : bool :=
  negb match get_opt schema "const" with Some c => negb (veqb c v) | None => false end
  && negb (on_array schema "enum" (fun l => negb (contains l v)))
  && negb match as_str (get schema "type") with Some t => negb (has_type t v) | None => false end
  && negb match as_u64 v with
          | Some z => on_u64 schema "minimum" (fun min => z <? min)
                      || on_u64 schema "maximum" (fun max => max <? z)
          | None => false
          end.
Definition pattern_bytes : list (string * Z) :=
  [("^[A-Za-z0-9_-]{43}$"%string, 32); ("^[A-Za-z0-9_-]{86}$"%string, 64)].
Definition matches_pattern (schema : Value) (x : string) : Result bool :=
  match as_str (get schema "pattern") with
  | Some p => let! is_match := unwrap (regex_new p) in ret (is_match x)
  | None => ret true
  end.
Definition check_text (schema v : Value) : Result bool :=
  match as_str v with
  | None => ret true
  | Some x =>
      let k := char_count x in
      if on_u64 schema "minLength" (fun min => k <? min)
         || on_u64 schema "maxLength" (fun max => max <? k)
      then ret false
      else and_then (matches_pattern schema x)
        (ret (forallb (fun pk =>
                negb (veqb (get schema "pattern") (Str (fst pk))
                      && bool_decide (decode x (Some (snd pk)) = None)))
              pattern_bytes))
  end.
(** [any(|k| !o.contains_key(k.as_str().unwrap()))] *)
Definition has_required (o : list (string * Value)) (names : list Value) : Result bool :=
  all_ok (fun k => let! k := unwrap (as_str k) in
                   ret (bool_decide (is_Some (obj_get o k)))) names.
Definition check_object (valid : Value -> Value -> Result bool) (schema v : Value)
    : Result bool :=
  match as_object v with
  | None => ret true
  | Some o =>
      and_then (match as_array (get schema "required") with
                | Some names => has_required o names
                | None => ret true
                end)
        (all_ok (fun kv =>
           match get_opt (get schema "properties") (fst kv) with
           | Some p => valid p (snd kv)
           | None => ret (negb (veqb (get schema "additionalProperties") (Bool false)))
           end) o)
  end.
Fixpoint check_items (valid : Value -> Value -> Result bool) (schema : Value)
    (before l : list Value) : Result bool :=
  match l with
  | [] => ret true
  | x :: l =>
      and_then (match get_opt schema "items" with
                | Some item => valid item x
                | None => ret true
                end)
        (if veqb (get schema "uniqueItems") (Bool true) && contains before x then ret false
         else check_items valid schema (before ++ [x]) l)
  end.
Definition check_array (valid : Value -> Value -> Result bool) (schema v : Value)
    : Result bool :=
  match as_array v with
  | None => ret true
  | Some l =>
      let k := Z.of_nat (length l) in
      if on_u64 schema "minItems" (fun min => k <? min)
         || on_u64 schema "maxItems" (fun max => max <? k)
      then ret false else check_items valid schema [] l
  end.

(** [&r[1..]]: a panic unless byte 1 starts a character, or ends the text. *)
Definition slice_from_1 (r : string) : option string :=
  match r with
  | String _ (String c rest) => if cont (byte_of c) then None else Some (String c rest)
  | String _ EmptyString => Some EmptyString
  | EmptyString => None
  end.

Fixpoint schema_valid (fuel : nat) (root schema v : Value) : Result bool :=
  match fuel with
  | 0%nat => panic
  | S fuel =>
      match as_str (get schema "$ref") with
      | Some r =>
          let! path := unwrap (slice_from_1 r) in
          match pointer root path with
          | Some target => schema_valid fuel root target v
          | None => ret false
          end
      | None =>
          and_then (check_alternatives (fun x => schema_valid fuel root x v) schema "anyOf"
                      false)
         (and_then (check_alternatives (fun x => schema_valid fuel root x v) schema "oneOf"
                      true)
         (and_then (ret (check_scalar schema v))
         (and_then (check_text schema v)
         (and_then (check_object (schema_valid fuel root) schema v)
                   (check_array (schema_valid fuel root) schema v)))))
      end
  end.

(** ** [RelayConfig::new]

    The checks in the order of the source, one definition per paragraph of it. *)
Definition at_ (v : Value) (path : list string) : Value := fold_left get path v.
Definition is_text (v : Value) (x : string) : bool := veqb v (Str x).
Definition has_text (v : Value) (k x : string) : bool :=
  existsb (fun y => is_text y x) (a v k).

Definition MAX_DOCUMENT : Z := 1048576.
Definition check_document (fuel : nat) (schema : Value) (md : string) (privacy : Value)
    : Result unit :=
  fail_if ((MAX_DOCUMENT <? str_len md)
           || negb (utf8_valid (str_bytes md)
                    && negb (bool_decide (take 3 (str_bytes md) = [239; 187; 191])))
           || (MAX_DOCUMENT <? str_len (canonicalize_json privacy))) invalid ;;;
  let! ok := schema_valid fuel schema schema privacy in
  fail_if (negb ok) invalid.

(** The conditions before and after the comparison with the clock. *)
Definition misidentified (key : SigningKey) (md : string) (privacy : Value) : bool :=
  negb (valid_origin (s privacy "relay_origin"))
  || negb (valid_ed_key (b64_encode (verifying_key key)))
  || negb (is_text (get privacy "relay_key_id") (hash_bytes (verifying_key key)))
  || negb (is_text (get privacy "markdown_sha256") (hash_bytes md))
  || (n privacy "effective_at_ms" <? n privacy "published_at_ms").
Definition unsupported (privacy : Value) : bool :=
  negb (is_text (get privacy "durability_tier") "single-durable")
  || negb (mem (s (get privacy "replay_protection") "mode")
             ["durable"; "restart_barrier"]%string)
  || negb (is_text (get (get privacy "deletion") "assurance") "backup-expiry")
  || negb (veqb (get (get privacy "backups") "enabled") (Bool false)).
Definition check_identity (key : SigningKey) (md : string) (privacy : Value) : M unit :=
  let! refused :=
    if misidentified key md privacy then ret true
    else let! t := now in
         ret ((t <? n privacy "effective_at_ms") || unsupported privacy) in
  fail_if refused invalid.

Definition kept_copies : list string :=
  ["active_store"; "wal"; "snapshot_store"; "staging"; "cache"; "attestations";
   "deletion_ledger"]%string.
Definition check_copy (privacy : Value) (name : string) (c : Value) : Result unit :=
  fail_if (mem name ["active_store"; "wal"; "snapshot_store"; "staging"]%string
           && negb (is_text (get c "content") "ciphertext")) invalid ;;;
  if negb (veqb (get c "present") (Bool true)) then ret tt
  else if is_text (get c "content") "ciphertext" then
    let d := n (get c "after_delete") "max_ms" in
    fail_if (negb (is_text (get (get c "after_delete") "mode") "erase")
             || (d =? 0)
             || (mem name ["active_store"; "wal"; "snapshot_store"]%string
                 && (n (get privacy "deletion") "active_delete_max_ms" <? d))) invalid
  else ret tt.
Definition check_copies (privacy : Value) : Result unit :=
  let copies := get privacy "copies" in
  let present name := get (get copies name) "present" in
  fail_if (negb (veqb (present "replica") (Bool false))
           || negb (veqb (present "backup") (Bool false))
           || negb (is_null (get (get privacy "deletion") "backup_delete_max_ms"))
           || negb (is_null (get (get privacy "deletion") "key_destroy_max_ms"))) invalid ;;;
  forM (fun name => fail_if (negb (veqb (present name) (Bool true))) invalid)
    kept_copies ;;;
  let! o := unwrap (as_object copies) in
  forM (fun nc => check_copy privacy (fst nc) (snd nc)) o ;;;
  fail_if (negb (is_text (at_ copies ["active_store"; "retention"; "mode"]%string)
                         "until_chain_deletion")) invalid.

Definition counted_components : list string :=
  ["record"; "snapshot"; "envelope"; "device_meta"; "receipt"; "transparency";
   "control"]%string.
Definition check_quota (max_bytes : option Z) (quota : Value) : Result unit :=
  fail_if (negb (forallb (has_text quota "counted_components") counted_components))
    invalid ;;;
  fail_if (on_u64 quota "maximum_bytes" (fun m => m <? n quota "minimum_bytes")
           || match max_bytes with
              | Some m => (MAX_INTEGER <? m) || (m <? n quota "minimum_bytes")
                          || on_u64 quota "maximum_bytes" (fun v => v <? m)
              | None => negb (veqb (get quota "allow_unconfigured") (Bool true))
              end) invalid.

Definition rate_caps : list (string * (Z * Z)) :=
  [("authorized_signer"%string, (120, 30)); ("record_upload_device"%string, (30, 10));
   ("enrollment_source_ip"%string, (6, 3)); ("enrollment_offer"%string, (3, 1))].
Definition check_rates (rates : Value) : Result unit :=
  forM (fun cap =>
    fail_if ((fst (snd cap) <? n (get rates (fst cap)) "requests_per_minute")
             || (snd (snd cap) <? n (get rates (fst cap)) "burst")) invalid) rate_caps ;;;
  fail_if (n (get rates "public_document_ip") "requests_per_minute"
           <? 2 * n (get rates "authorized_signer") "requests_per_minute") invalid.

Definition check_metadata (privacy : Value) : Result unit :=
  let metadata := get privacy "metadata" in
  let empty k := match a metadata k with [] => true | _ => false end in
  let mode := get (get metadata "retention") "mode" in
  let cache := get (get privacy "copies") "cache" in
  fail_if (empty "retained_fields"
           && (negb (empty "purposes") || negb (empty "recipients")
               || negb (is_text mode "not_retained"))) invalid ;;;
  fail_if (negb (forallb (has_text metadata "retained_fields") ["ip"; "timing"]%string)
           || negb (is_text mode "indefinite")
           || empty "purposes" || empty "recipients"
           || negb (is_text (get cache "content") "metadata")
           || negb (is_text (get (get cache "retention") "mode") "indefinite")
           || negb (is_text (get (get cache "after_delete") "mode") "retain_metadata")
           || negb (is_null (get (get cache "after_delete") "max_ms"))) invalid.

Definition notice_urls : list string :=
  ["/operator/contact_url"; "/change_notice/notice_url"; "/change_notice/archive_url"]%string.
Definition check_urls (privacy : Value) : Result unit :=
  forM (fun path =>
    fail_if (negb match v ← pointer privacy path; as_str v with
                  | Some url => valid_url url
                  | None => false
                  end) invalid) notice_urls.

Definition check_relay_signature (key : SigningKey) (privacy : Value) : Result unit :=
  let! input := unwrap (signing_bytes privacy CTX_PRIVACY "relay_signature") in
  fail_if (negb (default false
             (verify_signature (b64_encode (verifying_key key))
                (s privacy "relay_signature") input)))
    (err OBJECT_SIGNATURE_INVALID).

(** [new]: [schema] is the parsed schema file, [fuel] bounds its depth. *)
Definition new (fuel : nat) (schema : Value) (key : SigningKey) (md : string)
    (privacy : Value) (max_bytes : option Z) : M RelayConfig :=
  lift (check_document fuel schema md privacy) ;;;
  check_identity key md privacy ;;;
  lift (check_copies privacy) ;;;
  lift (check_quota max_bytes (get privacy "quota")) ;;;
  lift (check_rates (get privacy "rate_limits")) ;;;
  lift (check_metadata privacy) ;;;
  lift (check_urls privacy) ;;;
  lift (validate_strings privacy) ;;;
  lift (check_relay_signature key privacy) ;;;
  ret {| Config.key := key; origin := s privacy "relay_origin";
         key_id := hash_bytes (verifying_key key); Config.privacy := privacy;
         markdown := md; Config.max_bytes := max_bytes; shutdown_at_ms := None;
         migration_origin := None; stop_writes := false |}.

(** ** [RelayConfig::from_env]

    [env] is the environment ([None]: unset, or not Unicode) and [read] the file
    system: [inl] is the text of an [io::Error]. *)
Definition decode_message (x : string) : string :=
  if str_forallb b64_char x && bool_decide (is_Some (b64_decode x))
  then "Invalid binary length or trailing bits" else "Noncanonical Base64URL".
(** [v.parse::<u64>()]: also with a leading plus. *)
Definition from_str_u64 (x : string) : option Z :=
  let digits := match x with String "+" y => y | y => y end in
  if String.eqb digits EmptyString || negb (str_forallb is_digit digits) then None
  else parse_u64 digits.
Definition env_u64 (v : option string) (message : string) : Res string (option Z) :=
  match v with
  | None => ret None
  | Some x => let! z := ok_or (from_str_u64 x) message in ret (Some z)
  end.

Section Environment.
Context (env : string -> option string) (read : string -> string + string).

Definition read_file (path : string) : Res string string :=
  match read path with inl e => fail e | inr bytes => ret bytes end.
Definition from_env_inputs : Res string (SigningKey * string * Value * option Z) :=
  let! seed := ok_or (env "PALLASYNC_RELAY_SIGNING_SEED")
    "PALLASYNC_RELAY_SIGNING_SEED is required; inject an independently protected operator key"%string in
  let! seed := ok_or (decode seed (Some 32)) (decode_message seed) in
  let! md_path := ok_or (env "PALLASYNC_PRIVACY_MARKDOWN")
    "PALLASYNC_PRIVACY_MARKDOWN is required"%string in
  let! md := read_file md_path in
  let! json_path := ok_or (env "PALLASYNC_PRIVACY_JSON")
    "PALLASYNC_PRIVACY_JSON is required"%string in
  let! disclosure := read_file json_path in
  let! privacy := parse disclosure in
  let! max_bytes := env_u64 (env "PALLASYNC_QUOTA_BYTES") "Invalid quota" in
  ret (key_from_seed seed, md, privacy, max_bytes).

Definition from_env_notices (cfg : RelayConfig) : Res string RelayConfig :=
  let! shutdown := env_u64 (env "PALLASYNC_SHUTDOWN_AT_MS") "Invalid shutdown time" in
  let migration := x ← env "PALLASYNC_MIGRATION_ORIGIN";
                   if String.eqb x EmptyString then None else Some x in
  let! stop := match env "PALLASYNC_STOP_WRITES" with
               | None => ret false
               | Some x => if String.eqb x "true" then ret true
                           else if String.eqb x "false" then ret false
                           else fail "Invalid write-stop setting"%string
               end in
  fail_if (match shutdown with Some t => MAX_INTEGER <? t | None => false end
           || match migration with Some x => negb (valid_origin x) | None => false end)
    "Invalid relay notice"%string ;;;
  ret {| Config.key := Config.key cfg; origin := origin cfg; key_id := key_id cfg;
         Config.privacy := Config.privacy cfg; markdown := markdown cfg;
         Config.max_bytes := Config.max_bytes cfg; shutdown_at_ms := shutdown;
         migration_origin := migration; stop_writes := stop |}.

Definition from_env (fuel : nat) (schema : Value) (w : World)
    : Res string RelayConfig * World :=
  match from_env_inputs with
  | Ok (key, md, privacy, max_bytes) =>
      match new fuel schema key md privacy max_bytes w with
      | (Ok cfg, w) => (from_env_notices cfg, w)
      | (Err e, w) =>
          (Err ("Operator disclosure rejected: " +:+ code_str (Error.code e))%string, w)
      | (Panic, w) => (Panic, w)
      end
  | Err e => (Err e, w)
  | Panic => (Panic, w)
  end.
End Environment.
End Disclosure.
