(* ===== verification/PrivacySchema.v ===== *)
(** * The schema of the disclosure ([src/docs/privacy.schema.json])

    The file that [RelayConfig::new] includes, as the [Value] that serde_json reads
    from it: its [$defs], the larger of its properties, and the whole. *)
From S2P Require Import Prelude Error Json.
#[local] Open Scope string_scope.

Definition texts (l : list string) : Value := Arr (map Str l).

Definition b32_schema : Value :=
  json [("type", Str "string"); ("pattern", Str "^[A-Za-z0-9_-]{43}$")].

Definition b64_schema : Value :=
  json [("type", Str "string"); ("pattern", Str "^[A-Za-z0-9_-]{86}$")].

Definition uuid_schema : Value :=
  json [
    ("type", Str "string");
    ("pattern", Str "^[0-9a-f]{8}-[0-9a-f]{4}-4[0-9a-f]{3}-[89ab][0-9a-f]{3}-[0-9a-f]{12}$")].

Definition url_schema : Value :=
  json [
    ("type", Str "string");
    ("maxLength", Num 4096);
    ("pattern", Str "^https://[^\s]+$")].

Definition origin_schema : Value :=
  json [
    ("type", Str "string");
    ("maxLength", Num 4096);
    ("pattern", Str "^https://[^/\s?#]+$")].

Definition retention_schema : Value :=
  json [
    ("oneOf", Arr [
       json [
         ("type", Str "object");
         ("properties", json [
            ("mode", json [("const", Str "age")]);
            ("max_age_ms", json [
               ("type", Str "integer");
               ("minimum", Num 1);
               ("maximum", Num 9007199254740991)])]);
         ("required", texts ["mode"; "max_age_ms"]);
         ("additionalProperties", Bool false)];
       json [
         ("type", Str "object");
         ("properties", json [("mode", json [("const", Str "until_chain_deletion")])]);
         ("required", texts ["mode"]);
         ("additionalProperties", Bool false)];
       json [
         ("type", Str "object");
         ("properties", json [("mode", json [("const", Str "indefinite")])]);
         ("required", texts ["mode"]);
         ("additionalProperties", Bool false)]])].

Definition rate_schema : Value :=
  json [
    ("type", Str "object");
    ("properties", json [
       ("requests_per_minute", json [
          ("type", Str "integer");
          ("minimum", Num 1);
          ("maximum", Num 9007199254740991)]);
       ("burst", json [
          ("type", Str "integer");
          ("minimum", Num 1);
          ("maximum", Num 9007199254740991)])]);
    ("required", texts ["requests_per_minute"; "burst"]);
    ("additionalProperties", Bool false)].

Definition copy_schema : Value :=
  json [
    ("oneOf", Arr [
       json [
         ("type", Str "object");
         ("properties", json [("present", json [("const", Bool false)])]);
         ("required", texts ["present"]);
         ("additionalProperties", Bool false)];
       json [
         ("type", Str "object");
         ("properties", json [
            ("present", json [("const", Bool true)]);
            ("content", json [("enum", texts ["ciphertext"; "metadata"; "authority_evidence"])]);
            ("retention", json [("$ref", Str "#/$defs/retention")]);
            ("locations", json [
               ("type", Str "array");
               ("items", json [
                  ("type", Str "string");
                  ("minLength", Num 1);
                  ("maxLength", Num 1024)]);
               ("minItems", Num 1);
               ("maxItems", Num 128)]);
            ("recipients", json [
               ("type", Str "array");
               ("items", json [
                  ("type", Str "string");
                  ("minLength", Num 1);
                  ("maxLength", Num 1024)]);
               ("minItems", Num 1);
               ("maxItems", Num 128)]);
            ("purpose", json [
               ("type", Str "string");
               ("minLength", Num 1);
               ("maxLength", Num 1024)]);
            ("after_delete", json [
               ("type", Str "object");
               ("properties", json [
                  ("mode", json [
                     ("enum", texts [
                        "erase"; "crypto_shred"; "retain_metadata";
                        "retain_authority_evidence"])]);
                  ("max_ms", json [
                     ("anyOf", Arr [
                        json [
                          ("type", Str "integer");
                          ("minimum", Num 1);
                          ("maximum", Num 9007199254740991)];
                        json [("type", Str "null")]])])]);
               ("required", texts ["mode"; "max_ms"]);
               ("additionalProperties", Bool false)])]);
         ("required", texts [
            "present"; "content"; "retention"; "locations"; "recipients"; "purpose";
            "after_delete"]);
         ("additionalProperties", Bool false)]])].

Definition backup_schema : Value :=
  json [
    ("oneOf", Arr [
       json [
         ("type", Str "object");
         ("properties", json [("enabled", json [("const", Bool false)])]);
         ("required", texts ["enabled"]);
         ("additionalProperties", Bool false)];
       json [
         ("type", Str "object");
         ("properties", json [
            ("enabled", json [("const", Bool true)]);
            ("max_interval_ms", json [
               ("type", Str "integer");
               ("minimum", Num 1);
               ("maximum", Num 9007199254740991)]);
            ("retention", json [
               ("oneOf", Arr [
                  json [
                    ("type", Str "object");
                    ("properties", json [
                       ("mode", json [("const", Str "age")]);
                       ("max_age_ms", json [
                          ("type", Str "integer");
                          ("minimum", Num 1);
                          ("maximum", Num 9007199254740991)])]);
                    ("required", texts ["mode"; "max_age_ms"]);
                    ("additionalProperties", Bool false)];
                  json [
                    ("type", Str "object");
                    ("properties", json [("mode", json [("const", Str "until_chain_deletion")])]);
                    ("required", texts ["mode"]);
                    ("additionalProperties", Bool false)]])]);
            ("restore_test_max_interval_ms", json [
               ("anyOf", Arr [
                  json [
                    ("type", Str "integer");
                    ("minimum", Num 1);
                    ("maximum", Num 9007199254740991)];
                  json [("type", Str "null")]])]);
            ("last_successful_restore_test_at_ms", json [
               ("anyOf", Arr [
                  json [
                    ("type", Str "integer");
                    ("minimum", Num 0);
                    ("maximum", Num 9007199254740991)];
                  json [("type", Str "null")]])])]);
         ("required", texts [
            "enabled"; "max_interval_ms"; "retention"; "restore_test_max_interval_ms";
            "last_successful_restore_test_at_ms"]);
         ("additionalProperties", Bool false)]])].

Definition replay_schema : Value :=
  json [
    ("oneOf", Arr [
       json [
         ("type", Str "object");
         ("properties", json [("mode", json [("enum", texts ["durable"; "replicated"])])]);
         ("required", texts ["mode"]);
         ("additionalProperties", Bool false)];
       json [
         ("type", Str "object");
         ("properties", json [
            ("mode", json [("const", Str "restart_barrier")]);
            ("barrier_offset_ms", json [("const", Num 60000)]);
            ("clock_skew_ms", json [("const", Num 60000)]);
            ("coordination", json [
               ("type", Str "string");
               ("minLength", Num 1);
               ("maxLength", Num 1024)]);
            ("recovery", json [
               ("type", Str "string");
               ("minLength", Num 1);
               ("maxLength", Num 1024)])]);
         ("required", texts [
            "mode"; "barrier_offset_ms"; "clock_skew_ms"; "coordination"; "recovery"]);
         ("additionalProperties", Bool false)]])].

Definition operator_schema : Value :=
  json [
    ("type", Str "object");
    ("properties", json [
       ("name", json [("type", Str "string"); ("minLength", Num 1); ("maxLength", Num 1024)]);
       ("contact_url", json [("$ref", Str "#/$defs/url")])]);
    ("required", texts ["name"; "contact_url"]);
    ("additionalProperties", Bool false)].

Definition limits_schema : Value :=
  json [
    ("type", Str "object");
    ("properties", json [
       ("max_request_bytes", json [("type", Str "integer"); ("minimum", Num 1); ("maximum", Num 8388608)]);
       ("max_devices", json [("type", Str "integer"); ("minimum", Num 1); ("maximum", Num 128)]);
       ("max_records_per_upload", json [("type", Str "integer"); ("minimum", Num 1); ("maximum", Num 64)]);
       ("page_limit", json [("type", Str "integer"); ("minimum", Num 1); ("maximum", Num 1000)])]);
    ("required", texts [
       "max_request_bytes"; "max_records_per_upload"; "page_limit"; "max_devices"]);
    ("additionalProperties", Bool false)].

Definition quota_schema : Value :=
  json [
    ("type", Str "object");
    ("properties", json [
       ("minimum_bytes", json [
          ("type", Str "integer");
          ("minimum", Num 0);
          ("maximum", Num 9007199254740991)]);
       ("maximum_bytes", json [
          ("anyOf", Arr [
             json [
               ("type", Str "integer");
               ("minimum", Num 0);
               ("maximum", Num 9007199254740991)];
             json [("type", Str "null")]])]);
       ("allow_unconfigured", json [("type", Str "boolean")]);
       ("counted_components", json [
          ("type", Str "array");
          ("items", json [
             ("enum", texts [
                "record"; "snapshot"; "envelope"; "device_meta"; "receipt";
                "transparency"; "backup"; "control"])]);
          ("minItems", Num 0);
          ("maxItems", Num 8);
          ("uniqueItems", Bool true)]);
       ("allocation_rule", json [("type", Str "string"); ("minLength", Num 1); ("maxLength", Num 1024)])]);
    ("required", texts [
       "minimum_bytes"; "maximum_bytes"; "allow_unconfigured"; "counted_components";
       "allocation_rule"]);
    ("additionalProperties", Bool false)].

Definition rate_limits_schema : Value :=
  json [
    ("type", Str "object");
    ("properties", json [
       ("authorized_signer", json [("$ref", Str "#/$defs/rate")]);
       ("record_upload_device", json [("$ref", Str "#/$defs/rate")]);
       ("enrollment_source_ip", json [("$ref", Str "#/$defs/rate")]);
       ("enrollment_offer", json [("$ref", Str "#/$defs/rate")]);
       ("public_document_ip", json [("$ref", Str "#/$defs/rate")])]);
    ("required", texts [
       "authorized_signer"; "record_upload_device"; "enrollment_source_ip";
       "enrollment_offer"; "public_document_ip"]);
    ("additionalProperties", Bool false)].

Definition copies_schema : Value :=
  json [
    ("type", Str "object");
    ("properties", json [
       ("active_store", json [("$ref", Str "#/$defs/copy")]);
       ("replica", json [("$ref", Str "#/$defs/copy")]);
       ("wal", json [("$ref", Str "#/$defs/copy")]);
       ("snapshot_store", json [("$ref", Str "#/$defs/copy")]);
       ("backup", json [("$ref", Str "#/$defs/copy")]);
       ("staging", json [("$ref", Str "#/$defs/copy")]);
       ("temporary_export", json [("$ref", Str "#/$defs/copy")]);
       ("support", json [("$ref", Str "#/$defs/copy")]);
       ("cache", json [("$ref", Str "#/$defs/copy")]);
       ("operational_log", json [("$ref", Str "#/$defs/copy")]);
       ("attestations", json [("$ref", Str "#/$defs/copy")]);
       ("deletion_ledger", json [("$ref", Str "#/$defs/copy")])]);
    ("required", texts [
       "active_store"; "replica"; "wal"; "snapshot_store"; "backup"; "staging";
       "temporary_export"; "support"; "cache"; "operational_log"; "attestations";
       "deletion_ledger"]);
    ("additionalProperties", Bool false)].

Definition deletion_schema : Value :=
  json [
    ("type", Str "object");
    ("properties", json [
       ("assurance", json [("enum", texts ["crypto-shred"; "backup-expiry"])]);
       ("active_delete_max_ms", json [
          ("type", Str "integer");
          ("minimum", Num 1);
          ("maximum", Num 9007199254740991)]);
       ("backup_delete_max_ms", json [
          ("anyOf", Arr [
             json [
               ("type", Str "integer");
               ("minimum", Num 1);
               ("maximum", Num 9007199254740991)];
             json [("type", Str "null")]])]);
       ("key_destroy_max_ms", json [
          ("anyOf", Arr [
             json [
               ("type", Str "integer");
               ("minimum", Num 1);
               ("maximum", Num 9007199254740991)];
             json [("type", Str "null")]])])]);
    ("required", texts [
       "assurance"; "active_delete_max_ms"; "backup_delete_max_ms";
       "key_destroy_max_ms"]);
    ("additionalProperties", Bool false)].

Definition relay_key_schema : Value :=
  json [
    ("type", Str "object");
    ("properties", json [
       ("protection", json [
          ("enum", texts ["hardware"; "os_keystore"; "kms"; "passphrase_wrapped"])]);
       ("replacement_mode", json [("const", Str "explicit_trust_reestablishment")]);
       ("automatic_rotation", json [("const", Bool false)]);
       ("new_transparency_id_required", json [("const", Bool true)]);
       ("old_verification_keys_retained", json [("const", Bool true)])]);
    ("required", texts [
       "protection"; "replacement_mode"; "automatic_rotation";
       "new_transparency_id_required"; "old_verification_keys_retained"]);
    ("additionalProperties", Bool false)].

Definition metadata_schema : Value :=
  json [
    ("type", Str "object");
    ("properties", json [
       ("retained_fields", json [
          ("type", Str "array");
          ("items", json [
             ("enum", texts [
                "ip"; "user_agent"; "connection_time"; "request_path_class";
                "response_status"; "timing"; "byte_count"])]);
          ("minItems", Num 0);
          ("maxItems", Num 7);
          ("uniqueItems", Bool true)]);
       ("purposes", json [
          ("type", Str "array");
          ("items", json [
             ("type", Str "string");
             ("minLength", Num 1);
             ("maxLength", Num 1024)]);
          ("minItems", Num 0);
          ("maxItems", Num 128)]);
       ("retention", json [
          ("oneOf", Arr [
             json [
               ("type", Str "object");
               ("properties", json [("mode", json [("const", Str "not_retained")])]);
               ("required", texts ["mode"]);
               ("additionalProperties", Bool false)];
             json [
               ("type", Str "object");
               ("properties", json [
                  ("mode", json [("const", Str "age")]);
                  ("max_age_ms", json [
                     ("type", Str "integer");
                     ("minimum", Num 1);
                     ("maximum", Num 9007199254740991)])]);
               ("required", texts ["mode"; "max_age_ms"]);
               ("additionalProperties", Bool false)];
             json [
               ("type", Str "object");
               ("properties", json [("mode", json [("const", Str "indefinite")])]);
               ("required", texts ["mode"]);
               ("additionalProperties", Bool false)]])]);
       ("recipients", json [
          ("type", Str "array");
          ("items", json [
             ("type", Str "string");
             ("minLength", Num 1);
             ("maxLength", Num 1024)]);
          ("minItems", Num 0);
          ("maxItems", Num 128)])]);
    ("required", texts ["retained_fields"; "purposes"; "retention"; "recipients"]);
    ("additionalProperties", Bool false)].

Definition change_notice_schema : Value :=
  json [
    ("type", Str "object");
    ("properties", json [
       ("minimum_notice_ms", json [
          ("type", Str "integer");
          ("minimum", Num 0);
          ("maximum", Num 9007199254740991)]);
       ("notice_url", json [("$ref", Str "#/$defs/url")]);
       ("archive_url", json [("$ref", Str "#/$defs/url")])]);
    ("required", texts ["minimum_notice_ms"; "notice_url"; "archive_url"]);
    ("additionalProperties", Bool false)].

Definition privacy_schema : Value :=
  json [
    ("$schema", Str "https://json-schema.org/draft/2020-12/schema");
    ("title", Str "PallaSync RelayPrivacyDisclosure 3.0");
    ("type", Str "object");
    ("properties", json [
       ("type", json [("const", Str "PALLASYNC-RELAY-PRIVACY-v3")]);
       ("version", json [("const", Str "3.0")]);
       ("disclosure_id", json [("$ref", Str "#/$defs/uuid")]);
       ("relay_origin", json [("$ref", Str "#/$defs/origin")]);
       ("relay_key_id", json [("$ref", Str "#/$defs/b32")]);
       ("revision", json [
          ("type", Str "integer");
          ("minimum", Num 1);
          ("maximum", Num 4294967295)]);
       ("published_at_ms", json [
          ("type", Str "integer");
          ("minimum", Num 0);
          ("maximum", Num 9007199254740991)]);
       ("effective_at_ms", json [
          ("type", Str "integer");
          ("minimum", Num 0);
          ("maximum", Num 9007199254740991)]);
       ("markdown_sha256", json [("$ref", Str "#/$defs/b32")]);
       ("operator", operator_schema);
       ("durability_tier", json [
          ("enum", texts ["single-durable"; "replicated-durable"; "backup-durable"])]);
       ("limits", limits_schema);
       ("quota", quota_schema);
       ("rate_limits", rate_limits_schema);
       ("backups", json [("$ref", Str "#/$defs/backup")]);
       ("copies", copies_schema);
       ("deletion", deletion_schema);
       ("relay_key", relay_key_schema);
       ("replay_protection", json [("$ref", Str "#/$defs/replay")]);
       ("metadata", metadata_schema);
       ("change_notice", change_notice_schema);
       ("relay_signature", json [("$ref", Str "#/$defs/b64")])]);
    ("required", texts [
       "type"; "version"; "disclosure_id"; "relay_origin"; "relay_key_id"; "revision";
       "published_at_ms"; "effective_at_ms"; "markdown_sha256"; "operator";
       "durability_tier"; "limits"; "quota"; "rate_limits"; "backups"; "copies";
       "deletion"; "relay_key"; "replay_protection"; "metadata"; "change_notice";
       "relay_signature"]);
    ("additionalProperties", Bool false);
    ("$defs", json [
       ("b32", b32_schema);
       ("b64", b64_schema);
       ("uuid", uuid_schema);
       ("url", url_schema);
       ("origin", origin_schema);
       ("retention", retention_schema);
       ("rate", rate_schema);
       ("copy", copy_schema);
       ("backup", backup_schema);
       ("replay", replay_schema)])].
