(* ===== verification/Store.v ===== *)
(** * The evidence store ([src/src/api/store.rs])

    Chains, immutable objects, the hash-chained log, signed receipts, the
    transparency chain, idempotency outcomes and the quota.  Every function is
    run inside the caller's transaction. *)
From S2P Require Import Prelude Error Json Verify Jcs Wire Db Monad Config.

(** The schema under which [validate] checks an object of each kind. *)
Definition schema_of (k : Kind) : Schema :=
  match k with
  | KParameters => SParameters | KDevice => SDevice | KEpoch => SEpoch
  | KEnvelope => SEnvelope | KRecord | KSnapshotPart => SRecord
  | KCompaction => SCompaction | KAdmin => SAdmin
  end.

(** ** Statements on the tables *)
Definition insert_new {K V} `{Countable K} (k : K) (v : V) (m : gmap K V)
    : option (gmap K V) :=
  match m !! k with Some _ => None | None => Some (<[k := v]> m) end.

(** [INSERT OR IGNORE] *)
Definition insert_ignore {K V} `{Countable K} (k : K) (v : V) (m : gmap K V)
    : gmap K V :=
  match m !! k with Some _ => m | None => <[k := v]> m end.

(** The index [v3_record_ids]: records and snapshot parts share their ids. *)
Definition record_twin (k : Kind) : option Kind :=
  match k with
  | KRecord => Some KSnapshotPart
  | KSnapshotPart => Some KRecord
  | _ => None
  end.
Definition insert_object (c : string) (k : Kind) (i : string) (row : ObjectRow)
    (d : Db) : option Db :=
  match record_twin k ≫= fun k' => t_objects d !! (c, k', i) with
  | Some _ => None
  | None => m ← insert_new (c, k, i) row (t_objects d); Some (set_objects m d)
  end.

(** The index [v3_receipt_seq]. *)
Definition receipt_seq_taken (c log : string) (seq : Z) (m : gmap (string * Kind * string) ReceiptRow) : bool :=
  existsb (fun '((c', _, _), row) =>
    String.eqb c' c && String.eqb (rc_log row) log && bool_decide (rc_seq row = Some seq))
    (map_to_list m).
Definition insert_receipt (c : string) (k : Kind) (i : string) (row : ReceiptRow)
    (d : Db) : option Db :=
  if match rc_seq row with
     | Some seq => receipt_seq_taken c (rc_log row) seq (t_receipts d)
     | None => false
     end
  then None
  else m ← insert_new (c, k, i) row (t_receipts d); Some (set_receipts m d).

(** [SUM(...) WHERE chain_id=?] over a table whose rows yield [None] where the
    SQL expression is NULL. *)
Definition sum_rows {K V} `{Countable K} (bytes : K -> V -> option Z) (m : gmap K V) : Z :=
  map_fold (fun k v acc => default 0 (bytes k v) + acc) 0 m.

Section Store.
Context {X : Ext} {O : Oracle}.
Implicit Types (c : Chain) (cfg : RelayConfig).

(** [text]; [text(v).len()] *)
Definition text (v : Value) : string := canonicalize_json v.
Definition text_len (v : Value) : Z := str_len (text v).

Definition generation (c : Chain) : Z := n (parameters c) "generation".
Definition parameters_hash (c : Chain) : string := object_hash (parameters c).
Definition epoch_hash (c : Chain) : string := object_hash (epoch c).

Definition head (c : Chain) : Value :=
  json [("log_id", Str (log_id c)); ("generation", Num (generation c));
        ("head_seq", Num (head_seq c)); ("head_hash", Str (head_hash c));
        ("min_available_seq", Num (min_available_seq c));
        ("epoch_hash", Str (epoch_hash c));
        ("parameters_hash", Str (parameters_hash c))]%string.
Definition result (c : Chain) : Value :=
  json [("parameters_hash", Str (parameters_hash c));
        ("epoch_hash", Str (epoch_hash c)); ("log_id", Str (log_id c));
        ("head_seq", Num (head_seq c)); ("head_hash", Str (head_hash c))]%string.

Definition LOG_CTX := zstr "PALLASYNC-LOG-v3".
Definition TRANSPARENCY_CTX := zstr "PALLASYNC-TRANSPARENCY-v3".
Definition LINK_CTX := zstr "PALLASYNC-TRANSPARENCY-LINK-v3".

(** [None] where an [unwrap] of the source panics. *)
Definition initial_hash (ctx chain id : string) (key : option string) : option string :=
  bytes ← decode chain (Some 32);
  u ← uuid_parse id;
  k ← match key with None => Some EmptyString | Some k => decode k (Some 32) end;
  Some (hash_bytes (ctx +:+ bytes +:+ uuid_bytes u +:+ k)).

(** The bytes [link_hash] feeds to SHA-256. *)
Definition link_preimage (prev : string) (index : Z) (entry : Value) (ctx : string)
    : option string :=
  p ← decode prev (Some 32);
  e ← decode (object_hash entry) (Some 32);
  Some (ctx +:+ p +:+ be_bytes8 index +:+ e).
Definition link_hash (prev : string) (index : Z) (entry : Value) (ctx : string)
    : option string :=
  hash_bytes <$> link_preimage prev index entry ctx.

(** [Chain::new] *)
Definition Chain_new (parameters epoch : Value) (cfg : RelayConfig)
    (log_id : option string) : M Chain :=
  let chain_id := s parameters "chain_id" in
  let! log_id := match log_id with Some l => ret l | None => new_id end in
  let! transparency_id := new_id in
  let! head_hash := unwrap (initial_hash LOG_CTX chain_id log_id None) in
  let! transparency_hash :=
    unwrap (initial_hash TRANSPARENCY_CTX chain_id transparency_id
              (Some (key_id cfg))) in
  let! notice_id := new_id in
  ret (MkChain chain_id parameters epoch log_id 0 head_hash 1 None transparency_id
         0 transparency_hash true notice_id).

Definition load (chain : string) : M (option Chain) :=
  select (fun d => t_chains d !! chain).

(** [used]: the logical bytes of a chain.  A NULL [body] or [entry] makes the
    whole SQL sum of its row NULL, so the row counts nothing. *)
Definition object_bytes (chain : string) (k : string * Kind * string) (r : ObjectRow)
    : option Z :=
  if String.eqb (fst (fst k)) chain then
    body ← o_body r; Some (text_len body + str_len (snd k) + str_len (o_hash r))
  else None.
Definition log_bytes (chain : string) (k : string * string * Z) (r : LogRow)
    : option Z :=
  if String.eqb (fst (fst k)) chain then
    entry ← l_entry r; Some (text_len entry + str_len (l_head_hash r))
  else None.
Definition used_of (chain : string) (d : Db) : Z :=
  sum_rows (object_bytes chain) (t_objects d)
  + sum_rows (log_bytes chain) (t_log d)
  + sum_rows (fun k r => if String.eqb (fst (fst k)) chain
                         then Some (text_len (rc_receipt r)) else None) (t_receipts d)
  + sum_rows (fun k r => if String.eqb (fst (fst k)) chain
                         then Some (text_len (tr_entry r) + str_len (tr_hash r))
                         else None) (t_transparency d)
  + sum_rows (fun k v => if String.eqb (fst (fst k)) chain
                         then Some (text_len v) else None) (t_heads d)
  + sum_rows (fun k r => if String.eqb (fst (fst k)) chain
                         then Some (text_len (oc_response r)) else None) (t_outcomes d)
  + sum_rows (fun _ r => if String.eqb (cu_chain r) chain
                         then Some (text_len (cu_state r)) else None) (t_cursors d)
  + sum_rows (fun k r => if String.eqb (fst k) chain
                         then Some (text_len (of_offer r)
                                    + default 0 (text_len <$> of_request r))
                         else None) (t_offers d).
Definition used (chain : string) : M Z :=
  let! bytes := select (used_of chain) in ret (Z.max bytes 0).

Definition quota (chain : string) (cfg : RelayConfig) : M unit :=
  let! used := used chain in
  fail_if (match max_bytes cfg with Some max => max <? used | None => false end)
    (with_context (err QUOTA_EXCEEDED)
      (json [("used_bytes", Num used); ("max_bytes", opt_num (max_bytes cfg))]%string)).

(** [sign_relay(..).map_err(|_| err("INTERNAL_ERROR"))] *)
Definition sign (cfg : RelayConfig) (v : Value) (ctx : string) : Result Value :=
  match sign_relay (key cfg) v ctx with
  | Ok v => Ok v
  | Err _ => Err (err INTERNAL_ERROR)
  | Panic => Panic
  end.

Definition transparency_head (c : Chain) (cfg : RelayConfig) (t : Z) : Value :=
  json [("type", Str "PALLASYNC-TRANSPARENCY-HEAD-v3"); ("version", Str "3.0");
        ("chain_id", Str (chain_id c)); ("log_id", Str (log_id c));
        ("relay_key_id", Str (key_id cfg));
        ("transparency_id", Str (transparency_id c));
        ("entry_index", Num (transparency_index c));
        ("transparency_hash", Str (transparency_hash c));
        ("head_seq", Num (head_seq c)); ("head_hash", Str (head_hash c));
        ("parameters_hash", Str (parameters_hash c));
        ("epoch_hash", Str (epoch_hash c));
        ("min_available_seq", Num (min_available_seq c));
        ("timestamp", Num t)]%string.

Definition save (c : Chain) (cfg : RelayConfig) : M unit :=
  exec_ (fun d => set_chains (<[chain_id c := c]> (t_chains d)) d) ;;;
  let! t := now in
  let! head := lift (sign cfg (transparency_head c cfg t) CTX_HEAD) in
  exec_ (fun d => set_heads
    (insert_ignore (chain_id c, transparency_id c, transparency_index c) head
       (t_heads d)) d) ;;;
  quota (chain_id c) cfg.

Definition object (c : string) (kind : Kind) (id : string) : M (option Value) :=
  select (fun d => t_objects d !! (c, kind, id) ≫= o_body).

Definition object_digest (c : string) (kind : Kind) (id : string) : M (option string) :=
  select (fun d => o_hash <$> t_objects d !! (c, kind, id)).

Definition object_id (v : Value) (kind : Kind) : string :=
  match kind with
  | KParameters => dec (n v "generation")
  | KEpoch => dec (n v "epoch")
  | KDevice => s v "device_id"
  | KEnvelope => s v "envelope_id"
  | KCompaction => s v "compaction_id"
  | KAdmin => s v "operation_id"
  | KRecord | KSnapshotPart => s v "record_id"
  end.

Definition conflict (kind : Kind) : ApiError :=
  err (match kind with
       | KRecord | KSnapshotPart => RECORD_ID_CONFLICT
       | KDevice => DEVICE_ID_CONFLICT
       | KEnvelope => ENVELOPE_ID_CONFLICT
       | KAdmin => OPERATION_ID_CONFLICT
       | _ => IMPORT_CONFLICT
       end).

Definition put_object (c : string) (kind : Kind) (v : Value)
    (log : option (string * Z)) : M bool :=
  let id := object_id v kind in
  let digest := object_hash v in
  let! old := object_digest c kind id in
  match old with
  | Some old =>
      fail_if (negb (String.eqb old digest)) (conflict kind) ;;; ret false
  | None =>
      match record_twin kind with
      | Some other =>
          let! o := object_digest c other id in
          fail_if (match o with Some _ => true | None => false end) (conflict kind)
      | None => ret tt
      end ;;;
      exec (insert_object c kind id
        (MkObjectRow digest (Some v) (fst <$> log) (snd <$> log))) ;;;
      ret true
  end.

Definition transparency_entry (c : Chain) (cfg : RelayConfig) (i : Z) (op digest : string)
    (seq : option Z) (code : Value) (t : Z) : Value :=
  json [("type", Str "PALLASYNC-TRANSPARENCY-ENTRY-v3"); ("version", Str "3.0");
        ("transparency_id", Str (transparency_id c)); ("entry_index", Num i);
        ("chain_id", Str (chain_id c)); ("log_id", Str (log_id c));
        ("relay_key_id", Str (key_id cfg)); ("operation", Str op);
        ("object_hash", Str digest); ("relay_seq", opt_num seq);
        ("resulting_head_hash", Str (head_hash c));
        ("previous_transparency_hash", Str (transparency_hash c));
        ("timestamp", Num t); ("code", code)]%string.

(** Returns the updated chain, the entry and its link hash. *)
Definition transparency (c : Chain) (cfg : RelayConfig) (op digest : string)
    (seq : option Z) (code : Value) : M (Chain * (Value * string)) :=
  fail_if (MAX_INTEGER <=? transparency_index c) storage_error ;;;
  let i := transparency_index c + 1 in
  let! t := now in
  let! entry := lift (sign cfg (transparency_entry c cfg i op digest seq code t)
                        CTX_TRANSPARENCY) in
  let! hash := unwrap (link_hash (transparency_hash c) i entry LINK_CTX) in
  exec (fun d => m ← insert_new (chain_id c, transparency_id c, i)
                       (MkTransparencyRow entry hash) (t_transparency d);
                 Some (set_transparency m d)) ;;;
  ret (set_transparency_head i hash c, (entry, hash)).

Definition publish_notice (c : Chain) (cfg : RelayConfig) : M Chain :=
  let! existing := select (fun d => t_notices d !! chain_id c) in
  let unchanged :=
    match existing with
    | Some old =>
        veqb (get old "shutdown_at_ms") (opt_num (shutdown_at_ms cfg))
        && veqb (get old "migration_origin") (opt_str (migration_origin cfg))
    | None => bool_decide (shutdown_at_ms cfg = None)
              && bool_decide (migration_origin cfg = None)
    end in
  if unchanged then ret c
  else
    let! notice_id := new_id in
    let! t := now in
    let notice :=
      json [("shutdown_at_ms", opt_num (shutdown_at_ms cfg));
            ("migration_origin", opt_str (migration_origin cfg));
            ("notice_id", Str notice_id); ("server_time_ms", Num t)]%string in
    let! ' (c, _) := transparency c cfg "migrate" (object_hash notice) None Null in
    exec_ (fun d => set_notices (<[chain_id c := notice]> (t_notices d)) d) ;;;
    ret c.

Definition receipt (c : string) (kind : Kind) (id : string) : M Value :=
  fetch_one (fun d => rc_receipt <$> t_receipts d !! (c, kind, id)).

(** [ReceiptLink] *)
Record ReceiptLink := MkLink {
  rl_seq : option Z;
  rl_entry_hash : option string;
  rl_previous : string;
  rl_received : Z;
  rl_hash : string;
}.

Definition receipt_body (c : Chain) (cfg : RelayConfig) (v : Value) (link : ReceiptLink)
    (receipt_id : string) : Value :=
  json [("type", Str "PALLASYNC-UPLOAD-RECEIPT-v3"); ("version", Str "3.0");
        ("receipt_id", Str receipt_id); ("chain_id", Str (chain_id c));
        ("log_id", Str (log_id c)); ("relay_key_id", Str (key_id cfg));
        ("relay_seq", opt_num (rl_seq link)); ("object_hash", Str (object_hash v));
        ("entry_hash", opt_str (rl_entry_hash link));
        ("previous_head_hash", Str (rl_previous link));
        ("resulting_head_hash", Str (head_hash c));
        ("received_at_ms", Num (rl_received link));
        ("transparency_id", Str (transparency_id c));
        ("transparency_index", Num (transparency_index c));
        ("transparency_hash", Str (rl_hash link))]%string.

Definition make_receipt (c : Chain) (cfg : RelayConfig) (v : Value)
    (link : ReceiptLink) : M Value :=
  let! receipt_id := new_id in
  lift (sign cfg (receipt_body c cfg v link receipt_id) CTX_RECEIPT).

Definition store_receipt (c : Chain) (kind : Kind) (id : string) (r : Value) : M unit :=
  exec (insert_receipt (chain_id c) kind id
    (MkReceiptRow (log_id c) (as_u64 (get r "relay_seq")) r)).

(** The entry of the log: an epoch also carries its commit time. *)
Definition log_entry (kind : Kind) (v : Value) (seq received : Z) : Value :=
  let entry := json [("relay_seq", Num seq); ("received_at_ms", Num received);
                     ("kind", Str (kind_str kind)); ("object", v)]%string in
  if bool_decide (kind = KEpoch)
  then set_member entry "committed_at_ms" (Num received) else entry.

(** [UPDATE v3_objects SET log_id=?,relay_seq=? WHERE ... AND log_id IS NULL] *)
Definition adopt (log : string) (seq : Z) (r : ObjectRow) : ObjectRow :=
  match o_log r with
  | None => MkObjectRow (o_hash r) (o_body r) (Some log) (Some seq)
  | Some _ => r
  end.

(** The part of [append] after the duplicate check. *)
Definition append_new (c : Chain) (cfg : RelayConfig) (kind : Kind) (v : Value)
    : M (Chain * (Value * Value)) :=
  let id := object_id v kind in
  fail_if (MAX_INTEGER <=? head_seq c) storage_error ;;;
  let seq := head_seq c + 1 in
  let! received := now in
  let previous := head_hash c in
  let entry := log_entry kind v seq received in
  put_object (chain_id c) kind v (Some (log_id c, seq)) ;;;
  exec_ (fun d => set_objects
    (alter (adopt (log_id c) seq) (chain_id c, kind, id) (t_objects d)) d) ;;;
  let! hash := unwrap (link_hash previous seq entry EmptyString) in
  let c := set_log_head seq hash c in
  exec (fun d => m ← insert_new (chain_id c, log_id c, seq)
                       (MkLogRow (Some entry) hash) (t_log d);
                 Some (set_log m d)) ;;;
  let! ' (c, (_, thash)) := transparency c cfg "accept" (object_hash v) (Some seq) Null in
  let! r := make_receipt c cfg v
              (MkLink (Some seq) (Some (object_hash entry)) previous received thash) in
  store_receipt c kind id r ;;;
  ret (c, (entry, r)).

Definition append (c : Chain) (cfg : RelayConfig) (kind : Kind) (v : Value)
    : M (Chain * (Value * Value)) :=
  let id := object_id v kind in
  let! digest := object_digest (chain_id c) kind id in
  match digest with
  | None => append_new c cfg kind v
  | Some d =>
      fail_if (negb (String.eqb d (object_hash v))) (conflict kind) ;;;
      let! receipt := select (fun d => rc_receipt <$>
                        t_receipts d !! (chain_id c, kind, id)) in
      match receipt with
      | None => append_new c cfg kind v
      | Some receipt =>
          let! entry := fetch_one (fun d => l_entry <$>
            t_log d !! (chain_id c, s receipt "log_id", n receipt "relay_seq")) in
          ret (c, (default Null entry, receipt))
      end
  end.

Definition snapshot_part (c : Chain) (cfg : RelayConfig) (v : Value)
    : M (Chain * Value) :=
  let! inserted := put_object (chain_id c) KSnapshotPart v None in
  if negb inserted then
    let! r := receipt (chain_id c) KSnapshotPart (s v "record_id") in ret (c, r)
  else
    let! ' (c, (_, hash)) := transparency c cfg "accept" (object_hash v) None Null in
    let! received := now in
    let! r := make_receipt c cfg v (MkLink None None (head_hash c) received hash) in
    store_receipt c KSnapshotPart (s v "record_id") r ;;;
    ret (c, r).

Definition outcomes (chain scope id : string) (payload : Value) : M (option Value) :=
  let! row := select (fun d => t_outcomes d !! (chain, scope, id)) in
  match row with
  | Some row =>
      fail_if (negb (String.eqb (oc_digest row) (object_hash payload)))
        (err (if String.eqb scope "genesis" then CHAIN_EXISTS
              else OPERATION_ID_CONFLICT)) ;;;
      ret (Some (oc_response row))
  | None => ret None
  end.

Definition outcome (chain scope id : string) (payload response : Value) : M unit :=
  exec (fun d => m ← insert_new (chain, scope, id)
                       (MkOutcomeRow (object_hash payload) response) (t_outcomes d);
                 Some (set_outcomes m d)).

(** [bounded_rows]: the longest prefix of the rows within 8 MiB; a first row
    that does not fit is an error. *)
Fixpoint bounded_loop {A} (size : A -> Z) (bytes : Z) (acc rows : list A)
    : Result (list A) :=
  match rows with
  | [] => Ok acc
  | row :: rows =>
      if 8388608 <? bytes + size row then
        match acc with [] => Err (err PAYLOAD_TOO_LARGE) | _ => Ok acc end
      else bounded_loop size (bytes + size row) (acc ++ [row]) rows
  end.
Definition bounded_rows {A} (size : A -> Z) (rows : list A) : Result (list A) :=
  bounded_loop size 0 [] rows.
End Store.
