(* ===== verification/WireSpec.v ===== *)
(** * The wire schemas never panic

    The explicit-stack search for local artifacts agrees with the structural
    definition, and validation ends in acceptance or an error on every value. *)
From S2P Require Import Prelude Error Json Verify Jcs Wire.

(** ** The search for local artifacts *)

(** The reference definition: no object anywhere in the value is an artifact. *)
Fixpoint artifact_free (v : Value) : bool :=
  match v with
  | Arr l => forallb artifact_free l
  | Obj o => negb (is_artifact o) && forallb (fun kv => artifact_free (snd kv)) o
  | _ => true
  end.

(** The work that a stack of values holds. *)
Definition stack_size (l : list Value) : nat := sum_list_with vsize l.

Lemma vsize_pos v : (1 <= vsize v)%nat.
Proof. destruct v; simpl; lia. Qed.
Lemma stack_size_app l k : stack_size (l ++ k) = (stack_size l + stack_size k)%nat.
Proof. apply sum_list_with_app. Qed.
Lemma stack_size_rev l : stack_size (rev l) = stack_size l.
Proof.
  induction l as [|v l IH]; simpl; [done|].
  rewrite stack_size_app, IH. unfold stack_size. simpl. lia.
Qed.
Lemma forallb_rev {A} (f : A -> bool) l : forallb f (rev l) = forallb f l.
Proof.
  induction l as [|x l IH]; simpl; [done|]. rewrite forallb_app, IH. simpl.
  by rewrite andb_true_r, andb_comm.
Qed.
Lemma forallb_fmap {A B} (f : B -> bool) (g : A -> B) l :
  forallb f (g <$> l) = forallb (fun x => f (g x)) l.
Proof. induction l as [|x l IH]; csimpl; by rewrite ?IH. Qed.
Lemma stack_size_members o :
  stack_size (snd <$> o) = sum_list_with (fun kv : string * Value => vsize (snd kv)) o.
Proof. unfold stack_size. induction o as [|kv o IH]; csimpl; by rewrite ?IH. Qed.

Lemma artifact_loop_spec fuel pending :
  (stack_size pending <= fuel)%nat ->
  artifact_loop fuel pending = if forallb artifact_free pending then Ok tt else Err invalid.
Proof.
  revert pending. induction fuel as [|fuel IH]; intros pending Hf.
  { destruct pending as [|v l]; [done|]. unfold stack_size in Hf. simpl in Hf.
    pose proof (vsize_pos v). lia. }
  destruct pending as [|v l]; [done|].
  assert (Hv : (vsize v + stack_size l <= S fuel)%nat) by exact Hf.
  destruct v as [| | | |items|o]; cbn [artifact_loop forallb artifact_free];
    try (rewrite IH by (simpl in Hv; lia); done).
  - rewrite IH by (rewrite stack_size_app, stack_size_rev; simpl in Hv;
      unfold stack_size in *; lia).
    by rewrite forallb_app, forallb_rev.
  - destruct (is_artifact o); [done|]. cbv [fail_if bind ret res_monad]. cbn [negb andb].
    rewrite IH by (rewrite stack_size_app, stack_size_rev, stack_size_members;
      simpl in Hv; lia).
    by rewrite forallb_app, forallb_rev, forallb_fmap.
Qed.

(** (C20) The iterative search for local recovery artifacts, with its explicit stack,
    terminates and decides the structural property: a value is refused exactly when
    an object at some depth is a reserved artifact. *)
Theorem reject_local_artifacts_spec v :
  reject_local_artifacts v = if artifact_free v then Ok tt else Err invalid.
Proof.
  unfold reject_local_artifacts. rewrite artifact_loop_spec; [|unfold stack_size; simpl; lia].
  simpl. by rewrite andb_true_r.
Qed.

(** ** No panic *)
Section NoPanic.
Context {X : Ext}.

Definition safe {A} (r : Result A) : Prop := r <> Panic.

Lemma safe_ret {A} (x : A) : safe (ret x).
Proof. done. Qed.
Lemma safe_fail_if b e : safe (fail_if b e).
Proof. by destruct b. Qed.
Lemma safe_ok_or {A} (o : option A) e : safe (ok_or o e).
Proof. by destruct o. Qed.
Lemma safe_bind {A B} (r : Result A) (f : A -> Result B) :
  safe r -> (forall x, r = Ok x -> safe (f x)) -> safe (bind r f).
Proof. intros Hr Hf. destruct r; [by apply Hf | done..]. Qed.
Lemma safe_forM {A} (f : A -> Result unit) l : (forall x, safe (f x)) -> safe (forM f l).
Proof. intros Hf. induction l as [|x l IH]; cbn [forM]; [done|]. by apply safe_bind. Qed.

Create HintDb safe.
Hint Resolve safe_ret safe_fail_if safe_ok_or : safe.
Ltac safe_tac :=
  repeat first
    [ progress cbv zeta
    | progress intros
    | solve [eauto with safe]
    | apply safe_bind
    | apply safe_forM
    | match goal with
      | |- safe (match ?x with _ => _ end) => destruct x eqn:?
      | |- safe (if ?x then _ else _) => destruct x eqn:?
      end
    | done ].

Lemma fields_safe v required optional : safe (fields v required optional).
Proof. unfold fields. safe_tac. Qed.
Lemma obj_get_elem o k x : obj_get o k = Some x -> (k, x) ∈ o.
Proof.
  induction o as [|[k' v] o IH]; simpl; [done|].
  destruct (String.eqb_spec k k') as [->|]; [intros [= ->]; constructor|].
  intros H. constructor. by apply IH.
Qed.
Lemma fields_ok v required optional u :
  fields v required optional = Ok u ->
  exists o, v = Obj o /\ forall k x, get_opt v k = Some x ->
    exists t, find_field k (required ++ optional) = Some t /\ check_type x t = true.
Proof.
  unfold fields. intros H. res_inv H. destruct v as [| | | | |o0]; simplify_eq/=.
  rename x into o. exists o.
  split; [done|]. intros k x Hx.
  apply obj_get_elem in Hx. rewrite Forall_forall in H. specialize (H _ Hx). simpl in H.
  res_inv H. bsimp. eauto.
Qed.

Lemma reject_safe v : safe (reject_local_artifacts v).
Proof. rewrite reject_local_artifacts_spec. by destruct (artifact_free v). Qed.
Hint Resolve fields_safe reject_safe : safe.

Lemma find_field_app k l l' :
  find_field k (l ++ l') = match find_field k l with Some t => Some t | None => find_field k l' end.
Proof. induction l as [|[k' t] l IH]; simpl; [done|]. by destruct (String.eqb k' k). Qed.

Lemma signed_safe v required :
  find_field "ext" (required ++ [("signature", "b64")]%string) = None ->
  safe (signed v required).
Proof.
  intros Hext. unfold signed. safe_tac.
  match goal with H : fields _ _ _ = Ok _ |- _ => apply fields_ok in H as (o & -> & Hf) end.
  match goal with H : get_opt _ "ext" = Some ?e |- _ =>
    destruct (Hf _ _ H) as (t & Ht & Hc) end.
  rewrite find_field_app, Hext in Ht. injection Ht as <-.
  change (is_object v0 = true) in Hc. by destruct v0.
Qed.

Lemma payload_len_safe v k : safe (payload_len v k).
Proof. unfold payload_len. safe_tac. Qed.
Lemma parts_loop_safe ids l : safe (parts_loop ids l).
Proof.
  revert ids. induction l as [|p l IH]; intros ids; cbn [parts_loop]; [done|].
  safe_tac.
Qed.
Lemma signer_safe v : safe (signer v).
Proof. apply safe_fail_if. Qed.
Hint Resolve payload_len_safe parts_loop_safe signer_safe : safe.
Hint Extern 1 (safe (signed _ _)) => apply signed_safe; reflexivity : safe.

Lemma validate_certificate_safe v : safe (validate_certificate v).
Proof. unfold validate_certificate. safe_tac. Qed.
Hint Resolve validate_certificate_safe : safe.

(** Validation is total: on every value and under every schema it ends in
    acceptance or in an error; the traversals end within their fuel and the
    [unwrap] of the [ext] member cannot fail. *)
Theorem validate_never_panics v kind : validate v kind <> Panic.
Proof.
  change (safe (validate v kind)). destruct kind; cbn [validate];
    unfold validate_parameters, validate_device, validate_epoch, validate_envelope,
      validate_record, validate_compaction, validate_admin, validate_request; safe_tac.
Qed.
End NoPanic.
