(* ===== verification/RoutesSpec.v ===== *)
(** * The endpoint catalogue, read both ways

    [path_of] prints the URL of an endpoint; [endpoint] is its inverse: every
    accepted request line is printed by the endpoint it resolves to, and every
    printed one resolves to its endpoint. *)
From S2P Require Import Prelude Error Json Jcs Verify Wire Query Routes.

(** The method and the path pattern of each route. *)
Definition method_of (r : Route) : string :=
  match r with
  | RGenesis | RImport | REnroll | RRevoke | RAck | RRecordsPost | RRepair | ROffer
  | RRequest | RApprove | RReject | REpochsPost | REnvelopesPost | RPrune | RSnapshot
  | RPartsPost => "POST"
  | RDelete => "DELETE"
  | RReseed => "PUT"
  | _ => "GET"
  end%string.
Definition of_chain (l : list Seg) : list Seg := Lit "chains" :: SChain :: l.
Definition pattern_of (r : Route) : list Seg :=
  match r with
  | RHealth => [Lit "health"]
  | RGenesis => [Lit "chains"]
  | RImport => [Lit "chains"; Lit "import"]
  | RDelete => of_chain []
  | RReseed | RParametersGet => of_chain [Lit "parameters"]
  | REnroll => of_chain [Lit "devices"; Lit "enroll"]
  | RDevices => of_chain [Lit "devices"]
  | RRevoke => of_chain [Lit "devices"; SParam; Lit "revoke"]
  | ROwnEnvelopes => of_chain [Lit "devices"; SParam; Lit "envelopes"]
  | RAck => of_chain [Lit "devices"; SParam; Lit "keys"; Lit "ack"]
  | RRecordsPost | RRecordsGet => of_chain [Lit "records"]
  | RRepair => of_chain [Lit "records"; Lit "repair"]
  | ROffer => of_chain [Lit "enrollment-offers"]
  | RRequest | RRequestsGet => of_chain [Lit "enrollment-requests"]
  | RApprove => of_chain [Lit "enrollment-requests"; SParam; Lit "approve"]
  | RReject => of_chain [Lit "enrollment-requests"; SParam; Lit "reject"]
  | REpochsPost | REpochsGet => of_chain [Lit "epochs"]
  | REpochGet => of_chain [Lit "epochs"; SParam]
  | RRecovery => of_chain [Lit "epochs"; SParam; Lit "recovery-envelope"]
  | REnvelopesPost => of_chain [Lit "epochs"; SParam; Lit "envelopes"]
  | RLog => of_chain [Lit "log"]
  | RHead => of_chain [Lit "log"; Lit "head"]
  | RPrune => of_chain [Lit "log"; Lit "prune"]
  | RSnapshot | RSnapshotsGet => of_chain [Lit "snapshots"]
  | RPartsPost => of_chain [Lit "snapshots"; Lit "parts"]
  | RPartGet => of_chain [Lit "snapshots"; Lit "parts"; SParam]
  | RSnapshotGet => of_chain [Lit "snapshots"; SParam]
  | RExport => of_chain [Lit "export"]
  | RNotice => of_chain [Lit "relay-notice"]
  | RDeletion => of_chain [Lit "deletion"]
  | RReceipt => of_chain [Lit "receipts"; SParam]
  | RTransparencyHead => of_chain [Lit "transparency"; Lit "head"]
  | RTransparency => of_chain [Lit "transparency"; Lit "entries"]
  end%string.

Definition fill_seg (chain param : string) (sg : Seg) : string :=
  match sg with Lit x => x | SChain => chain | SParam => param end.
Definition path_of (r : Route) (chain param : string) : string :=
  "/pallasync/v3/" +:+ join "/" (fill_seg chain param <$> pattern_of r).

Definition seg_eqb (x y : Seg) : bool :=
  match x, y with
  | Lit x, Lit y => String.eqb x y
  | SChain, SChain | SParam, SParam => true
  | _, _ => false
  end.
Definition has_seg (sg : Seg) (l : list Seg) : bool := existsb (seg_eqb sg) l.

(** A pattern names the chain and the parameter at most once. *)
Fixpoint linear (l : list Seg) : bool :=
  match l with
  | [] => true
  | Lit _ :: l => linear l
  | sg :: l => negb (has_seg sg l) && linear l
  end.

Lemma match_segs_free pat parts c0 p0 c p :
  match_segs pat parts c0 p0 = Some (c, p) ->
  (has_seg SChain pat = false -> c = c0) /\ (has_seg SParam pat = false -> p = p0).
Proof.
  revert parts c0 p0. induction pat as [|sg pat IH]; intros [|y parts] c0 p0 H; simpl in H;
    try (by destruct sg); try (by simplify_eq).
  destruct sg; simpl; [case_match; [|done]| |]; apply IH in H as [H1 H2]; by split.
Qed.
Lemma match_segs_fill pat parts c0 p0 c p :
  linear pat = true -> match_segs pat parts c0 p0 = Some (c, p) ->
  parts = fill_seg c p <$> pat.
Proof.
  revert parts c0 p0. induction pat as [|sg pat IH]; intros [|y parts] c0 p0 Hl H; simpl in *;
    try done; try (by destruct sg).
  destruct sg; simpl.
  - destruct (String.eqb_spec x y) as [->|]; [|done]. f_equal. by eapply IH.
  - apply andb_true_iff in Hl as [Hn%negb_true_iff Hl].
    f_equal; [symmetry; by apply (match_segs_free _ _ _ _ _ _ H) | by eapply IH].
  - apply andb_true_iff in Hl as [Hn%negb_true_iff Hl].
    f_equal; [symmetry; by apply (match_segs_free _ _ _ _ _ _ H) | by eapply IH].
Qed.

(** The rows of the catalogue agree with [pattern_of] and [method_of]. *)
Definition row_ok (row : list Seg * (string -> Route) * list string) : bool :=
  let '(pat, route, allow) := row in
  linear pat && forallb (fun m => String.eqb (method_of (route m)) m
    && bool_decide (length (pattern_of (route m)) = length pat)
    && forallb (fun xy => seg_eqb (fst xy) (snd xy)) (zip (pattern_of (route m)) pat)) allow.
Lemma catalogue_ok : forallb row_ok catalogue_rows = true.
Proof. by vm_compute. Qed.

Lemma seg_eqb_eq x y : seg_eqb x y = true -> x = y.
Proof. destruct x, y; try done. simpl. by intros ->%String.eqb_eq. Qed.
Lemma segs_eq l k : length l = length k ->
  forallb (fun xy => seg_eqb (fst xy) (snd xy)) (zip l k) = true -> l = k.
Proof.
  revert k. induction l as [|x l IH]; intros [|y k] Hl H; try done. simpl in *.
  apply andb_true_iff in H as [->%seg_eqb_eq H]. f_equal. apply IH; [lia|done].
Qed.
Lemma catalogue_row pat route allow m :
  (pat, route, allow) ∈ catalogue_rows -> existsb (fun x => String.eqb x m) allow = true ->
  linear pat = true /\ method_of (route m) = m /\ pattern_of (route m) = pat.
Proof.
  intros Hin Hm. pose proof catalogue_ok as H. rewrite forallb_forall in H.
  specialize (H _ (proj1 (list_elem_of_In _ _) Hin)). unfold row_ok in H.
  apply andb_true_iff in H as [Hl H]. rewrite forallb_forall in H.
  apply existsb_exists in Hm as (x & Hx & ->%String.eqb_eq). specialize (H _ Hx).
  apply andb_true_iff in H as [[->%String.eqb_eq Hlen%bool_decide_eq_true]%andb_true_iff H].
  split_and!; [done..|by apply segs_eq].
Qed.

(** The path from its segments. *)
Lemma join_split c x : join (String c EmptyString) (split_on c x) = x.
Proof.
  induction x as [|d x IH]; [done|]. cbn [split_on].
  destruct (Ascii.eqb_spec d c) as [->|Hd].
  - destruct (split_on c x) as [|y l] eqn:E; [by destruct x; simpl in E; repeat case_match|].
    change (join _ (EmptyString :: y :: l))
      with (String c (join (String c EmptyString) (y :: l))). by rewrite IH.
  - destruct (split_on c x) as [|y l]; [by simpl in *; subst|].
    rewrite <-IH. by destruct l.
Qed.

Section RoutesSpec.
Context {X : Ext}.

(** The parameter as the handler gets it: a number is printed again. *)
Definition parameter_of (r : Route) (raw : string) : Result string :=
  if String.eqb raw EmptyString then Ok raw
  else if numeric_param r then
    match decimal raw (if bool_decide (r = RReceipt) then 1 else 0)
            (if bool_decide (r = RReceipt) then MAX_INTEGER else u32_max) with
    | Ok v => Ok (dec v)
    | Err e => Err e
    | Panic => Panic
    end
  else if uuid raw then Ok raw else Err invalid.

#[local] Opaque lookup_route catalogue_rows strip_prefix.

(** (C27) An accepted request line is the printed URL of the endpoint it resolves to, with
    the method of the route; its chain is a 32-byte value and its parameter the one
    of the path, checked. *)
Theorem endpoint_sound path m ep :
  endpoint path m = Ok ep ->
  m = method_of (ep_route ep) /\
  exists raw, path = path_of (ep_route ep) (ep_chain ep) raw /\
    parameter_of (ep_route ep) raw = Ok (ep_param ep) /\
    (ep_chain ep = EmptyString \/ is_Some (decode (ep_chain ep) (Some 32))).
Proof.
  unfold endpoint. intros H. res_inv H. destruct x0 as [[[route chain] param] allow].
  res_inv H. simplify_eq. cbn [ep_route ep_chain ep_param].
  match goal with H : negb (existsb _ _) = false |- _ => apply negb_false_iff in H; rename H into Hal end.
  match goal with H : strip_prefix _ _ = Some _ |- _ => apply strip_prefix_ok in H; subst path end.
  match goal with H : lookup_route _ _ _ = Some _ |- _ =>
    apply lookup_route_row in H as (pat & r & Hin & -> & Hm) end.
  destruct (catalogue_row _ _ _ _ Hin Hal) as (Hl & Hmeth & Hpat).
  split; [done|]. exists param. split_and!.
  - unfold path_of. rewrite Hpat, <-(match_segs_fill _ _ _ _ _ _ Hl Hm). by rewrite join_split.
  - unfold parameter_of. revert Hx3. destruct (String.eqb param EmptyString); [done|].
    destruct (numeric_param (r m)); [by destruct (decimal _ _ _)|]. by destruct (uuid param).
  - destruct (String.eqb_spec chain EmptyString); [by left|]. right.
    match goal with H : _ && _ = false |- _ => apply bool_decide_eq_false in H end.
    by destruct (decode chain _).
Qed.

(** ** Every route is reached *)
Definition literals : list string :=
  concat (map (fun row => omap (fun sg => match sg with Lit x => Some x | _ => None end)
                            (fst (fst row))) catalogue_rows).

(** Some path fits both patterns, a literal being neither a chain nor a parameter. *)
Fixpoint compatible (pat pat' : list Seg) : bool :=
  match pat, pat' with
  | [], [] => true
  | Lit x :: pat, Lit y :: pat' => String.eqb x y && compatible pat pat'
  | Lit _ :: _, _ :: _ => false
  | _ :: pat, _ :: pat' => compatible pat pat'
  | _, _ => false
  end.
Lemma match_segs_none pat pat' c raw c0 p0 :
  Forall (fun x => x <> c /\ x <> raw)
    (omap (fun sg => match sg with Lit x => Some x | _ => None end) pat) ->
  compatible pat pat' = false -> match_segs pat (fill_seg c raw <$> pat') c0 p0 = None.
Proof.
  revert pat' c0 p0. induction pat as [|sg pat IH]; intros [|sg' pat'] c0 p0 Hl H;
    try done; [by destruct sg|].
  destruct sg as [x| |]; csimpl in *; [|by apply IH..]. inversion_clear Hl as [|? ? [Hc Hp] Hl'].
  destruct (String.eqb_spec x (fill_seg c raw sg')) as [Hx|]; [|done].
  apply IH; [done|]. destruct sg' as [y| |]; simpl in *; [|done..]. subst.
  by rewrite String.eqb_refl in H.
Qed.
Lemma match_segs_some pat c raw c0 p0 :
  match_segs pat (fill_seg c raw <$> pat) c0 p0
  = Some (if has_seg SChain pat then c else c0, if has_seg SParam pat then raw else p0).
Proof.
  revert c0 p0. induction pat as [|sg pat IH]; intros c0 p0; [done|].
  destruct sg as [x| |]; csimpl; rewrite ?String.eqb_refl, IH; by repeat case_match.
Qed.

(** The first row whose pattern is compatible with that of a route is its own. *)
Definition first_row (r : Route) : option (list Seg * (string -> Route) * list string) :=
  List.find (fun row => compatible (fst (fst row)) (pattern_of r)) catalogue_rows.
Lemma first_row_own r : exists route allow,
  first_row r = Some (pattern_of r, route, allow) /\ route (method_of r) = r /\
  existsb (fun m => String.eqb m (method_of r)) allow = true.
Proof. destruct r; eexists _, _; split_and!; by vm_compute. Qed.

Lemma lookup_first rows r c raw pat route allow m :
  Forall (fun x => x <> c /\ x <> raw) (concat (map (fun row =>
    omap (fun sg => match sg with Lit x => Some x | _ => None end) (fst (fst row))) rows)) ->
  List.find (fun row => compatible (fst (fst row)) (pattern_of r)) rows
    = Some (pat, route, allow) ->
  pat = pattern_of r ->
  lookup_route rows (fill_seg c raw <$> pattern_of r) m
  = Some (route m, if has_seg SChain pat then c else EmptyString,
          if has_seg SParam pat then raw else EmptyString, allow).
Proof.
  intros Hl H ->. induction rows as [|[[pat' route'] allow'] rows IH]; [done|].
  cbn [map concat fst] in Hl. apply Forall_app in Hl as [Hl Hl'].
  cbn [List.find fst] in H. cbn [lookup_route]. destruct (compatible pat' (pattern_of r)) eqn:E.
  - injection H as -> -> ->. by rewrite match_segs_some.
  - rewrite (match_segs_none _ _ _ _ _ _ Hl E). by apply IH.
Qed.

(** The segments of a printed URL: what stands in the slots of the pattern. *)
Record segments (r : Route) (c raw p : string) : Prop := {
  sg_chain : if has_seg SChain (pattern_of r) then is_Some (decode c (Some 32))
             else c = EmptyString;
  sg_param : if has_seg SParam (pattern_of r)
             then str_forallb (fun d => negb (Ascii.eqb d "/")) raw = true
             else raw = EmptyString;
  sg_value : parameter_of r raw = Ok p;
  sg_literals : Forall (fun x => x <> c /\ x <> raw) literals;
}.

Lemma decode_no_slash c l : is_Some (decode c l) ->
  str_forallb (fun d => negb (Ascii.eqb d "/")) c = true.
Proof.
  unfold decode. destruct (str_forallb b64_char c) eqn:E; [|by intros []]. intros _.
  induction c as [|d c IH]; [done|]. cbn [str_forallb] in *.
  apply andb_true_iff in E as [Hd Hc]. apply andb_true_iff. split; [|by apply IH].
  clear -Hd. by destruct d as [[] [] [] [] [] [] [] []].
Qed.

Definition no_slash (x : string) : Prop :=
  str_forallb (fun d => negb (Ascii.eqb d "/")) x = true.
Lemma pattern_no_slash r c raw : no_slash c -> no_slash raw ->
  Forall no_slash (fill_seg c raw <$> pattern_of r).
Proof. intros Hc Hp. destruct r; simpl; repeat constructor; done. Qed.

(** (C28) Every route is reached: the printed URL of an endpoint, with the method of its
    route, resolves to that route, chain and parameter. *)
Theorem endpoint_complete r c raw p :
  segments r c raw p ->
  exists allow, endpoint (path_of r c raw) (method_of r) = Ok (MkEndpoint r c p allow).
Proof.
  intros [Hc Hp Hv Hl]. destruct (first_row_own r) as (route & allow & Hf & Hr & Ha).
  exists allow. unfold endpoint, path_of.
  rewrite strip_prefix_app. cbv [ok_or bind ret res_monad].
  rewrite (split_join "/"); [|by destruct r|apply pattern_no_slash].
  2: { destruct (has_seg SChain _); [by eapply decode_no_slash | by subst]. }
  2: { destruct (has_seg SParam _); [done | by subst]. }
  rewrite (lookup_first _ r c raw _ route allow _ Hl Hf eq_refl), Hr.
  assert ((if has_seg SChain (pattern_of r) then c else EmptyString) = c) as ->
    by (by destruct (has_seg SChain _)).
  assert ((if has_seg SParam (pattern_of r) then raw else EmptyString) = raw) as ->
    by (by destruct (has_seg SParam _)).
  rewrite Ha. cbn [negb fail_if]. cbv [ret res_monad].
  assert (negb (String.eqb c EmptyString) && bool_decide (decode c (Some 32) = None) = false)
    as ->.
  { destruct (has_seg SChain (pattern_of r)); [|by subst]. destruct Hc as [y ->].
    by rewrite andb_false_r. }
  unfold parameter_of in Hv. cbn [fail_if]. destruct (String.eqb raw EmptyString);
    [by injection Hv as ->|]. destruct (numeric_param r).
  - destruct (decimal _ _ _); [by injection Hv as ->|done..].
  - destruct (uuid raw); [by injection Hv as ->|done].
Qed.
End RoutesSpec.
