(* ===== verification/HashChain.v ===== *)
(** * Hash chains

    The abstract specification of the two append-only sequences the relay keeps
    per chain, the data log ([v3_log]) and the transparency log
    ([v3_transparency]): rows numbered from 1 without a gap, each carrying the
    hash that links it to its predecessor.  An entry may be erased (pruning) but
    its hash stays. *)
From S2P Require Import Prelude Error Json Verify Store.

Lemma append_inj_len (a a' b b' : string) :
  str_len a = str_len a' -> a +:+ b = a' +:+ b' -> a = a' /\ b = b'.
Proof.
  unfold str_len. revert a'. induction a as [|c a IH]; intros [|c' a'] Hl He;
    cbn [String.length] in Hl; try lia.
  - by split.
  - injection He as -> He. destruct (IH a') as [-> ->]; [lia|done|done].
Qed.

Section HashChain.
Context {X : Ext} (ctx : string).

(** Row [i]: its entry, unless erased, and its link hash. *)
Abbreviation rows := (Z -> option (option Value * string)).

Definition hash_at (h0 : string) (f : rows) (i : Z) : option string :=
  if i =? 0 then Some h0 else snd <$> f i.

Record hash_chain (h0 : string) (f : rows) (hd : Z) (hh : string) : Prop := {
  hc_nonneg : 0 <= hd;
  hc_dom : forall i, is_Some (f i) <-> 1 <= i <= hd;
  hc_head : hash_at h0 f hd = Some hh;
  hc_link : forall i e h, f i = Some (Some e, h) ->
    exists p, hash_at h0 f (i - 1) = Some p /\ link_hash p i e ctx = Some h;
}.

(** Every link hash decodes to 32 bytes, the precondition of the next link. *)
Definition decodable (h : string) : Prop := is_Some (decode h (Some 32)).

Lemma hash_chain_empty h0 f : (forall i, f i = None) -> hash_chain h0 f 0 h0.
Proof.
  intros Hf. split; [done| | |].
  - intros i. rewrite Hf. split; [by intros [? [=]] | lia].
  - done.
  - intros i e h. by rewrite Hf.
Qed.

Lemma hash_chain_extend h0 f f' hd hh e h :
  hash_chain h0 f hd hh ->
  link_hash hh (hd + 1) e ctx = Some h ->
  f' (hd + 1) = Some (Some e, h) ->
  (forall i, i <> hd + 1 -> f' i = f i) ->
  hash_chain h0 f' (hd + 1) h.
Proof.
  intros [Hn Hdom Hhd Hlink] Hl Hnew Hold. split; [lia| | |].
  - intros i. destruct (Z.eq_dec i (hd + 1)) as [->|Hi].
    + rewrite Hnew. split; [lia | eauto].
    + rewrite Hold, Hdom by done. lia.
  - unfold hash_at. destruct (hd + 1 =? 0) eqn:E; [lia|]. by rewrite Hnew.
  - intros i e' h'. destruct (Z.eq_dec i (hd + 1)) as [->|Hi].
    + rewrite Hnew. intros [= <- <-]. exists hh. split; [|done].
      replace (hd + 1 - 1) with hd by lia. revert Hhd. unfold hash_at.
      destruct (hd =? 0); [done|]. by rewrite Hold by lia.
    + rewrite Hold by done. intros Hi'. destruct (Hlink _ _ _ Hi') as (p & Hp & Hpl).
      exists p. split; [|done]. revert Hp. unfold hash_at.
      assert (1 <= i <= hd) by (apply Hdom; eauto).
      destruct (i - 1 =? 0); [done|]. by rewrite Hold by lia.
Qed.

(** Erasing entries, but no hash, keeps the chain. *)
Lemma hash_chain_erase h0 f f' hd hh :
  hash_chain h0 f hd hh ->
  (forall i, snd <$> f' i = snd <$> f i) ->
  (forall i e h, f' i = Some (Some e, h) -> f i = Some (Some e, h)) ->
  hash_chain h0 f' hd hh.
Proof.
  intros [Hn Hdom Hhd Hlink] Hsnd Hsub.
  assert (Hat : forall i, hash_at h0 f' i = hash_at h0 f i).
  { intros i. unfold hash_at. by destruct (i =? 0). }
  split; [done| | |].
  - intros i. rewrite <-Hdom. specialize (Hsnd i).
    destruct (f' i), (f i); split; intros [? ?]; simplify_eq/=; eauto.
  - by rewrite Hat.
  - intros i e h Hi. rewrite Hat. by apply Hlink, Hsub.
Qed.

Lemma hash_chain_ext h0 f f' hd hh :
  hash_chain h0 f hd hh -> (forall i, f' i = f i) -> hash_chain h0 f' hd hh.
Proof. intros H Hf. eapply hash_chain_erase; [exact H| |]; intros i; rewrite Hf; done. Qed.

(** ** Tamper evidence *)
Context {XL : ExtLaws X}.

Lemma hash_bytes_inj x y : hash_bytes x = hash_bytes y -> sha256 x = sha256 y.
Proof.
  unfold hash_bytes. intros H. apply (f_equal b64_decode) in H.
  rewrite !b64_decode_encode in H. by simplify_eq.
Qed.

Lemma link_preimage_inj p p' i e e' x :
  link_preimage p i e ctx = Some x -> link_preimage p' i e' ctx = Some x ->
  p = p' /\ sha256 (jcs_to_vec e) = sha256 (jcs_to_vec e').
Proof.
  unfold link_preimage. rewrite !decode_object_hash.
  destruct (decode p (Some 32)) as [b|] eqn:Hb; [|done].
  destruct (decode p' (Some 32)) as [b'|] eqn:Hb'; [|done].
  simpl. intros [= <-] [= H]. apply append_inj_len in H as [_ H]; [|done].
  pose proof (decode_length _ _ _ Hb). pose proof (decode_length _ _ _ Hb').
  apply append_inj_len in H as [-> H]; [|congruence].
  apply append_inj_len in H as [_ H]; [|done].
  split; [|done]. by rewrite (decode_canonical _ _ _ Hb), (decode_canonical _ _ _ Hb').
Qed.

(** A SHA-256 collision between the bytes two logs hash at position [i]. *)
Definition link_collision (h0 : string) (f g : rows) (i : Z) : Prop :=
  exists p p' e e' x y,
    hash_at h0 f (i - 1) = Some p /\ hash_at h0 g (i - 1) = Some p' /\
    (fst <$> f i) = Some (Some e) /\ (fst <$> g i) = Some (Some e') /\
    ((link_preimage p i e ctx = Some x /\ link_preimage p' i e' ctx = Some y) \/
     (x = jcs_to_vec e /\ y = jcs_to_vec e')) /\
    x <> y /\ sha256 x = sha256 y.

Lemma hash_chain_step h0 f g hd hh hh' i e e' h :
  hash_chain h0 f hd hh -> hash_chain h0 g hd hh' ->
  f i = Some (Some e, h) -> g i = Some (Some e', h) ->
  link_collision h0 f g i \/
  (hash_at h0 f (i - 1) = hash_at h0 g (i - 1) /\ jcs_to_vec e = jcs_to_vec e').
Proof.
  intros Hf Hg Hfi Hgi.
  destruct (hc_link _ _ _ _ Hf _ _ _ Hfi) as (p & Hp & Hl).
  destruct (hc_link _ _ _ _ Hg _ _ _ Hgi) as (p' & Hp' & Hl').
  unfold link_hash in Hl, Hl'.
  destruct (link_preimage p i e ctx) as [x|] eqn:Hx; [|done].
  destruct (link_preimage p' i e' ctx) as [y|] eqn:Hy; [|done].
  simpl in Hl, Hl'. simplify_eq.
  match goal with H : hash_bytes _ = hash_bytes _ |- _ => apply hash_bytes_inj in H as Hs end.
  destruct (decide (x = y)) as [->|Hxy].
  - destruct (link_preimage_inj _ _ _ _ _ _ Hx Hy) as [-> He].
    destruct (decide (jcs_to_vec e = jcs_to_vec e')) as [|Hne]; [right; split; congruence|].
    left. exists p', p', e, e', (jcs_to_vec e), (jcs_to_vec e').
    rewrite Hfi, Hgi. naive_solver.
  - left. exists p, p', e, e', x, y. rewrite Hfi, Hgi. naive_solver.
Qed.

(** Two chains with the same genesis hash, length and head agree, byte for byte
    of the canonical entries, on every suffix neither has erased, unless the two
    exhibit a SHA-256 collision in that suffix. *)
Lemma hash_chain_unique h0 f g hd hh lo :
  hash_chain h0 f hd hh -> hash_chain h0 g hd hh -> 0 <= lo <= hd ->
  (forall i, lo < i <= hd -> exists e h, f i = Some (Some e, h)) ->
  (forall i, lo < i <= hd -> exists e h, g i = Some (Some e, h)) ->
  (exists i, lo < i <= hd /\ link_collision h0 f g i) \/
  (hash_at h0 f lo = hash_at h0 g lo /\
   forall i e e' h h', lo < i <= hd -> f i = Some (Some e, h) ->
     g i = Some (Some e', h') -> h = h' /\ jcs_to_vec e = jcs_to_vec e').
Proof.
  intros Hf Hg Hlo Hpf Hpg.
  remember (Z.to_nat (hd - lo)) as k eqn:Hk. revert lo Hlo Hpf Hpg Hk.
  induction k as [|k IH]; intros lo Hlo Hpf Hpg Hk.
  - right. replace lo with hd by lia. split; [|intros; lia].
    by rewrite (hc_head _ _ _ _ Hf), (hc_head _ _ _ _ Hg).
  - destruct (IH (lo + 1)) as [(i & Hi & Hc)|[Hat Hag]]; try lia.
    + intros i Hi. apply Hpf. lia.
    + intros i Hi. apply Hpg. lia.
    + left. exists i. split; [lia|done].
    + destruct (Hpf (lo + 1) ltac:(lia)) as (e & h & Hfi).
      destruct (Hpg (lo + 1) ltac:(lia)) as (e' & h' & Hgi).
      assert (h = h') as <-.
      { revert Hat. unfold hash_at. destruct (lo + 1 =? 0) eqn:E; [lia|].
        rewrite Hfi, Hgi. by intros [= ->]. }
      destruct (hash_chain_step _ _ _ _ _ _ _ _ _ _ Hf Hg Hfi Hgi) as [Hc|[Hprev He]].
      * left. exists (lo + 1). split; [lia|done].
      * right. replace (lo + 1 - 1) with lo in Hprev by lia. split; [done|].
        intros i e1 e2 h1 h2 Hi H1 H2. destruct (Z.eq_dec i (lo + 1)) as [->|].
        -- rewrite Hfi in H1. rewrite Hgi in H2. by simplify_eq.
        -- eapply Hag; eauto. lia.
Qed.
End HashChain.
