(* ===== verification/Steps.v ===== *)
(** * The write vocabulary of the handlers

    [db_step x] lists every kind of write a handler of chain [x] makes inside its
    transaction: an INSERT takes a fresh key, an erasure nulls the body of a record
    or envelope and keeps its hash, and so on.  A handler [respects] its
    reflexive-transitive closure, [db_steps x]; isolation of chains and
    immutability of evidence are then proved once, by induction on the steps. *)
From S2P Require Import Prelude Error Json Verify Db Monad Config Store.

(** Nulling the bodies or entries selected by [p]: the hashes stay. *)
Definition erase_object (r : ObjectRow) : ObjectRow :=
  MkObjectRow (o_hash r) None (o_log r) (o_seq r).
Definition erase_entry (r : LogRow) : LogRow := MkLogRow None (l_head_hash r).

Definition erase_objects (p : string * Kind * string -> ObjectRow -> bool)
    (m : gmap (string * Kind * string) ObjectRow) :=
  map_imap (fun k r => Some (if p k r then erase_object r else r)) m.
Definition erase_log (p : string * string * Z -> LogRow -> bool)
    (m : gmap (string * string * Z) LogRow) :=
  map_imap (fun k r => Some (if p k r then erase_entry r else r)) m.

Lemma erase_objects_lookup p m k :
  erase_objects p m !! k = (fun r => if p k r then erase_object r else r) <$> m !! k.
Proof. unfold erase_objects. rewrite map_lookup_imap. by destruct (m !! k). Qed.
Lemma erase_log_lookup p m k :
  erase_log p m !! k = (fun r => if p k r then erase_entry r else r) <$> m !! k.
Proof. unfold erase_log. rewrite map_lookup_imap. by destruct (m !! k). Qed.

(** What the handlers may erase. *)
Definition erasable_kind (k : Kind) : bool :=
  match k with KRecord | KEnvelope => true | _ => false end.
Definition erasable_entry (e : Value) : bool :=
  veqb (get e "kind") (Str "record") || veqb (get e "kind") (Str "envelope").

(** A device goes from [PendingKeys] to [Active] to [Revoked], never back; its
    generation and the position of its enrollment are fixed. *)
Definition status_rank (st : Status) : Z :=
  match st with PendingKeys => 0 | Active => 1 | Revoked => 2 end.
Record moves_forward (r r' : RegistryRow) : Prop := {
  mf_generation : r_generation r' = r_generation r;
  mf_enrolled : r_enrolled_seq r' = r_enrolled_seq r;
  mf_status : status_rank (r_status r) <= status_rank (r_status r');
}.
#[export] Instance moves_forward_preorder : PreOrder moves_forward.
Proof.
  split; [by intros r|]. intros ??? [] []. constructor; [congruence..|lia].
Qed.

Inductive db_step (x : string) (d : Db) : Db -> Prop :=
  | st_chain c : chain_id c = x ->
      db_step x d (set_chains (<[x := c]> (t_chains d)) d)
  | st_object k i row : t_objects d !! (x, k, i) = None ->
      db_step x d (set_objects (<[(x, k, i) := row]> (t_objects d)) d)
  | st_adopt log seq k i :
      db_step x d (set_objects (alter (adopt log seq) (x, k, i) (t_objects d)) d)
  | st_erase_objects p :
      (forall k r, p k r = true -> fst (fst k) = x /\ erasable_kind (snd (fst k)) = true) ->
      db_step x d (set_objects (erase_objects p (t_objects d)) d)
  | st_log log seq row : t_log d !! (x, log, seq) = None ->
      db_step x d (set_log (<[(x, log, seq) := row]> (t_log d)) d)
  | st_erase_log p :
      (forall k r, p k r = true -> fst (fst k) = x /\
         match l_entry r with Some e => erasable_entry e = true | None => False end) ->
      db_step x d (set_log (erase_log p (t_log d)) d)
  | st_transparency t i row : t_transparency d !! (x, t, i) = None ->
      db_step x d (set_transparency (<[(x, t, i) := row]> (t_transparency d)) d)
  | st_receipt k i row : t_receipts d !! (x, k, i) = None ->
      db_step x d (set_receipts (<[(x, k, i) := row]> (t_receipts d)) d)
  | st_head t i h :
      db_step x d (set_heads (insert_ignore (x, t, i) h (t_heads d)) d)
  | st_outcome sc i row : t_outcomes d !! (x, sc, i) = None ->
      db_step x d (set_outcomes (<[(x, sc, i) := row]> (t_outcomes d)) d)
  | st_notice v :
      db_step x d (set_notices (<[x := v]> (t_notices d)) d)
  | st_registry i row h :
      rh_chain h = x ->
      (forall old, t_registry d !! (x, i) = Some old -> moves_forward old row) ->
      db_step x d (set_registry_history (history_push h (t_registry_history d))
                     (set_registry (<[(x, i) := row]> (t_registry d)) d))
  | st_offer i row h :
      oh_chain h = x ->
      db_step x d (set_offer_history (history_push h (t_offer_history d))
                     (set_offers (<[(x, i) := row]> (t_offers d)) d))
  | st_payload_nonce e nonce rid :
      db_step x d (set_payload_nonces
        (insert_ignore (x, e, nonce) rid (t_payload_nonces d)) d)
  | st_handoff m :
      (forall k, fst k <> x -> m !! k = t_handoffs d !! k) ->
      db_step x d (set_handoffs m d)
  | st_deletion row : t_deletions d !! x = None ->
      db_step x d (set_deletions (<[x := row]> (t_deletions d)) d)
  | st_import row :
      db_step x d (set_imports (insert_ignore x row (t_imports d)) d)
  | st_import_done :
      db_step x d (set_imports (delete x (t_imports d)) d)
  | st_cursor t row : t_cursors d !! t = None ->
      db_step x d (set_cursors (<[t := row]> (t_cursors d)) d).

Definition db_steps (x : string) : Db -> Db -> Prop := rtc (db_step x).

#[export] Instance db_steps_preorder x : PreOrder (db_steps x).
Proof. unfold db_steps. split; apply _. Qed.

(** ** Isolation: the rows of another chain *)
Record same_chain_rows (y : string) (d d' : Db) : Prop := {
  sc_chains : t_chains d' !! y = t_chains d !! y;
  sc_objects : forall k i, t_objects d' !! (y, k, i) = t_objects d !! (y, k, i);
  sc_registry : forall i, t_registry d' !! (y, i) = t_registry d !! (y, i);
  sc_log : forall l i, t_log d' !! (y, l, i) = t_log d !! (y, l, i);
  sc_receipts : forall k i, t_receipts d' !! (y, k, i) = t_receipts d !! (y, k, i);
  sc_transparency : forall t i,
    t_transparency d' !! (y, t, i) = t_transparency d !! (y, t, i);
  sc_heads : forall t i, t_heads d' !! (y, t, i) = t_heads d !! (y, t, i);
  sc_outcomes : forall sc i, t_outcomes d' !! (y, sc, i) = t_outcomes d !! (y, sc, i);
  sc_offers : forall i, t_offers d' !! (y, i) = t_offers d !! (y, i);
  sc_payload_nonces : forall e i,
    t_payload_nonces d' !! (y, e, i) = t_payload_nonces d !! (y, e, i);
  sc_handoffs : forall e, t_handoffs d' !! (y, e) = t_handoffs d !! (y, e);
  sc_deletions : t_deletions d' !! y = t_deletions d !! y;
  sc_imports : t_imports d' !! y = t_imports d !! y;
  sc_notices : t_notices d' !! y = t_notices d !! y;
  sc_cursors : forall t row, cu_chain row = y ->
    t_cursors d !! t = Some row -> t_cursors d' !! t = Some row;
  sc_registry_history :
    filter (fun r => rh_chain (snd r) = y) (hist_rows (t_registry_history d'))
    = filter (fun r => rh_chain (snd r) = y) (hist_rows (t_registry_history d));
  sc_offer_history :
    filter (fun r => oh_chain (snd r) = y) (hist_rows (t_offer_history d'))
    = filter (fun r => oh_chain (snd r) = y) (hist_rows (t_offer_history d));
}.

#[export] Instance same_chain_rows_preorder y : PreOrder (same_chain_rows y).
Proof.
  constructor.
  - intros d. by constructor.
  - intros d1 d2 d3 [] []. constructor; intros; first [congruence | eauto].
Qed.

Lemma insert_ignore_lookup_ne {K V} `{Countable K} (k k' : K) (v : V) m :
  k <> k' -> insert_ignore k v m !! k' = m !! k'.
Proof. intros Hk. unfold insert_ignore. destruct (m !! k); [done|]. by apply lookup_insert_ne. Qed.

Lemma db_step_isolated x y d d' : x <> y -> db_step x d d' -> same_chain_rows y d d'.
Proof.
  intros Hxy. destruct 1; split; intros; cbn; try done;
    try (by rewrite lookup_insert_ne by congruence);
    try (by rewrite insert_ignore_lookup_ne by congruence);
    try (by rewrite lookup_alter_ne by congruence);
    try (by rewrite lookup_delete_ne by congruence).
  - rewrite erase_objects_lookup. destruct (t_objects d !! (y, k, i)) as [r|]; [|done].
    simpl. destruct (p _ r) eqn:E; [|done]. apply H in E as [E _]. simpl in E. congruence.
  - rewrite erase_log_lookup. destruct (t_log d !! (y, l, i)) as [r|]; [|done].
    simpl. destruct (p _ r) eqn:E; [|done]. apply H in E as [E _]. simpl in E. congruence.
  - rewrite filter_app. rewrite filter_cons_False by (simpl; congruence).
    by rewrite filter_nil, app_nil_r.
  - rewrite filter_app. rewrite filter_cons_False by (simpl; congruence).
    by rewrite filter_nil, app_nil_r.
  - apply H. simpl. congruence.
Qed.

Lemma db_steps_isolated x y d d' : x <> y -> db_steps x d d' -> same_chain_rows y d d'.
Proof.
  intros Hxy. induction 1 as [d|d1 d2 d3 Hs _ IH]; [reflexivity|].
  transitivity d2; [by eapply db_step_isolated | done].
Qed.

(** ** Immutability of evidence *)
Record evidence_kept (d d' : Db) : Prop := {
  ev_receipts : t_receipts d ⊆ t_receipts d';
  ev_transparency : t_transparency d ⊆ t_transparency d';
  ev_heads : t_heads d ⊆ t_heads d';
  ev_outcomes : t_outcomes d ⊆ t_outcomes d';
  ev_payload_nonces : t_payload_nonces d ⊆ t_payload_nonces d';
  ev_deletions : t_deletions d ⊆ t_deletions d';
  ev_registry : forall k r, t_registry d !! k = Some r ->
    exists r', t_registry d' !! k = Some r' /\ moves_forward r r';
  ev_object_hash : forall k r, t_objects d !! k = Some r ->
    exists r', t_objects d' !! k = Some r' /\ o_hash r' = o_hash r /\
      (o_body r' = o_body r \/ (o_body r' = None /\ erasable_kind (snd (fst k)) = true));
  ev_log_hash : forall k r, t_log d !! k = Some r ->
    exists r', t_log d' !! k = Some r' /\ l_head_hash r' = l_head_hash r /\
      (l_entry r' = l_entry r \/
       (l_entry r' = None /\ exists e, l_entry r = Some e /\ erasable_entry e = true));
}.

#[export] Instance evidence_kept_preorder : PreOrder evidence_kept.
Proof.
  constructor.
  - intros d. constructor; try done; eauto 10. intros k r Hr. exists r. by split.
  - intros d1 d2 d3 [A1 A2 A3 A4 A5 A6 A0 A7 A8] [B1 B2 B3 B4 B5 B6 B0 B7 B8].
    constructor; try (by etransitivity).
    + intros k r Hr. destruct (A0 _ _ Hr) as (r2 & Hr2 & H2).
      destruct (B0 _ _ Hr2) as (r3 & Hr3 & H3). exists r3. split; [done|].
      by transitivity r2.
    + intros k r Hr. destruct (A7 _ _ Hr) as (r2 & Hr2 & Hh2 & Hb2).
      destruct (B7 _ _ Hr2) as (r3 & Hr3 & Hh3 & Hb3).
      exists r3. split; [done|]. split; [congruence|].
      destruct Hb2 as [Hb2|[]], Hb3 as [Hb3|[]]; [left|right..]; split_and?; congruence.
    + intros k r Hr. destruct (A8 _ _ Hr) as (r2 & Hr2 & Hh2 & Hb2).
      destruct (B8 _ _ Hr2) as (r3 & Hr3 & Hh3 & Hb3).
      exists r3. split; [done|]. split; [congruence|].
      destruct Hb2 as [Hb2|[Hb2 He2]], Hb3 as [Hb3|[Hb3 (e & He & Hk)]];
        rewrite ?Hb2 in *; eauto 10.
Qed.

Lemma insert_ignore_subseteq {K V} `{Countable K} (k : K) (v : V) m :
  m ⊆ insert_ignore k v m.
Proof. unfold insert_ignore. destruct (m !! k) eqn:E; [done|]. by apply insert_subseteq. Qed.

Lemma db_step_evidence x d d' : db_step x d d' -> evidence_kept d d'.
Proof.
  destruct 1; split; cbn; try done; try (intros k' r' Hr'; exists r'; by split); eauto 10;
    try (by apply insert_subseteq); try apply insert_ignore_subseteq.
  - intros k' r Hr. exists r. rewrite lookup_insert_ne by congruence. eauto.
  - intros k' r Hr. destruct (decide ((x, k, i) = k')) as [<-|Hk].
    + rewrite lookup_alter_eq, Hr. simpl. eexists; split; [done|].
      unfold adopt. destruct (o_log r); simpl; eauto.
    + rewrite lookup_alter_ne by done. eauto 10.
  - intros k r Hr. rewrite erase_objects_lookup, Hr. simpl. eexists; split; [done|].
    destruct (p k r) eqn:E; simpl; [|eauto]. apply H in E as [_ E]. eauto.
  - intros k r Hr. exists r. rewrite lookup_insert_ne by congruence. eauto.
  - intros k r Hr. rewrite erase_log_lookup, Hr. simpl. eexists; split; [done|].
    destruct (p k r) eqn:E; simpl; [|eauto]. apply H in E as [_ E].
    destruct (l_entry r); [|done]. eauto 10.
  - intros k r Hr. destruct (decide ((x, i) = k)) as [<-|Hk].
    + rewrite lookup_insert_eq. eauto.
    + rewrite lookup_insert_ne by done. exists r. by split.
Qed.

Lemma db_steps_evidence x d d' : db_steps x d d' -> evidence_kept d d'.
Proof.
  induction 1 as [d|d1 d2 d3 Hs _ IH]; [reflexivity|].
  transitivity d2; [by eapply db_step_evidence | done].
Qed.

(** [db_stmt] proves that one statement of a handler of chain [x] is a
    [db_step x]; the chain value at hand has identity [x] by the hypotheses and the
    [respects] hints. *)
(** [chain_step] moves a goal [chain_id c' = x] back over the operation that
    returned [c']; it is extended where the operations are known. *)
Ltac chain_step := fail.
Ltac chain_solve := yields_norm; simpl; repeat chain_step; solve [assumption | reflexivity].
#[export] Hint Extern 2 (chain_id _ = _) => chain_solve : respects.

Ltac chain_rw x :=
  repeat match goal with
  | |- context [chain_id ?c] =>
      let E := fresh in assert (E : chain_id c = x) by chain_solve; rewrite !E; clear E
  | H : _ = Some _ |- _ =>
      match type of H with
      | context [chain_id ?c] =>
          let E := fresh in assert (E : chain_id c = x) by chain_solve;
          rewrite !E in H; clear E
      end
  end.
Ltac db_step_tac :=
  match goal with
  | |- db_step _ _ (set_chains _ _) => apply st_chain; chain_solve
  | |- db_step _ _ (set_objects (insert _ _ _) _) => apply st_object
  | |- db_step _ _ (set_objects (alter _ _ _) _) => apply st_adopt
  | |- db_step _ _ (set_log (insert _ _ _) _) => apply st_log
  | |- db_step _ _ (set_transparency _ _) => apply st_transparency
  | |- db_step _ _ (set_receipts _ _) => apply st_receipt
  | |- db_step _ _ (set_heads _ _) => apply st_head
  | |- db_step _ _ (set_outcomes _ _) => apply st_outcome
  | |- db_step _ _ (set_notices _ _) => apply st_notice
  | |- db_step _ _ (set_payload_nonces _ _) => apply st_payload_nonce
  | |- db_step _ _ (set_handoffs _ _) => apply st_handoff
  | |- db_step _ _ (set_deletions _ _) => apply st_deletion
  | |- db_step _ _ (set_imports (insert_ignore _ _ _) _) => apply st_import
  | |- db_step _ _ (set_imports (delete _ _) _) => apply st_import_done
  | |- db_step _ _ (set_cursors _ _) => apply st_cursor
  end; try done.
Ltac db_stmt :=
  unfold insert_object, insert_receipt, insert_new in *;
  lazymatch goal with |- db_steps ?x _ _ => chain_rw x end;
  repeat case_match; simplify_eq/=; apply rtc_once; db_step_tac.
