(* ===== verification/Auth.v ===== *)
(** * Capability tokens and rate limits ([src/src/api/auth.rs])

    Token buckets in binary64, the verification of a capability token with its
    replay protection, and the lifecycle state of the device that presents it. *)
From Stdlib Require Import SpecFloat.
From S2P Require Import Prelude Error Json Verify Jcs Wire Query Routes Db Monad Config.
From S2P Require Import Store.

(** ** binary64 *)
Definition f64_of_Z (z : Z) : spec_float := binary_normalize 53 1024 z 0 false.
Definition f64_add := SFadd 53 1024.
Definition f64_sub := SFsub 53 1024.
Definition f64_mul := SFmul 53 1024.
Definition f64_div := SFdiv 53 1024.
Definition f64_lt (x y : spec_float) : bool := SFltb x y.

(** [x.min(y)]: the other operand when one is NaN. *)
Definition f64_min (x y : spec_float) : spec_float :=
  match x, y with
  | S754_nan, _ => y
  | _, S754_nan => x
  | _, _ => if f64_lt y x then y else x
  end.

(** [x.ceil() as u64]: saturating, NaN to 0. *)
Definition f64_ceil_u64 (x : spec_float) : Z :=
  match x with
  | S754_infinity false => u64_max
  | S754_finite sg m e =>
      let v := if sg then Z.neg m else Z.pos m in
      let c := if 0 <=? e then v * 2 ^ e else - ((- v) / 2 ^ (- e)) in
      clamp 0 u64_max c
  | _ => 0
  end.

(** [Auth] *)
Record Auth := MkAuth { token : Value; device : option string }.
Definition admin (x : Auth) : bool := bool_decide (device x = None).
Definition require_admin (x : Auth) : Result unit :=
  fail_if (negb (admin x)) (err ADMIN_REQUIRED).
Definition owns (x : Auth) (id : string) : bool :=
  admin x || bool_decide (device x = Some id).

(** The request as [authenticate] sees it; [Some None] is a header that is not
    visible ASCII. *)
Record AuthRequest := MkAuthRequest {
  authorization : option (option string);
  rq_method : string;
  uri_path : string;
  uri_query : option string;
  rq_body : string;
  rq_chain_id : string;
  proposed_key : option string;
  rq_route : Route;
}.

(** The routes open to a device that still waits for its keys. *)
Definition pending_route (r : Route) : bool :=
  match r with
  | RParametersGet | REpochsGet | REpochGet | ROwnEnvelopes | RAck => true
  | _ => false
  end.

Section AuthOps.
Context {X : Ext} {O : Oracle}.
Implicit Types (c : Chain) (cfg : RelayConfig).

Definition bucket_after (policy : Value) (t : Z) (row : option RateRow) : spec_float :=
  let burst := f64_of_Z (n policy "burst") in
  let refill := f64_div (f64_of_Z (n policy "requests_per_minute")) (f64_of_Z 60000) in
  match row with
  | Some row =>
      let elapsed := Z.max 0 (t - ra_updated row mod 2 ^ 64) in
      f64_min (f64_add (ra_tokens row) (f64_mul (f64_of_Z elapsed) refill)) burst
  | None => burst
  end.

Definition rate (cfg : RelayConfig) (scope identity : string) : M unit :=
  let policy := get (get (privacy cfg) "rate_limits") scope in
  let refill := f64_div (f64_of_Z (n policy "requests_per_minute")) (f64_of_Z 60000) in
  let! t := now in
  let! row := select (fun d => t_rates d !! (scope, identity)) in
  let tokens := bucket_after policy t row in
  fail_if (f64_lt tokens (f64_of_Z 1))
    (with_context (err RATE_LIMITED)
      (json [("retry_after_ms",
              Num (f64_ceil_u64 (f64_div (f64_sub (f64_of_Z 1) tokens) refill)));
             ("scope", Str scope)]%string)) ;;;
  exec_ (fun d => set_rates
    (<[(scope, identity) := MkRateRow (f64_sub tokens (f64_of_Z 1)) t]> (t_rates d)) d).

Definition token_fields : list (string * string) :=
  [("v", "int"); ("aud", "string"); ("chain_id", "b32"); ("signer_kind", "device|admin");
   ("device_id", "uuid?"); ("method", "string"); ("path", "string"); ("query", "string");
   ("body_sha256", "b32"); ("issued_at_ms", "int"); ("expires_at_ms", "int");
   ("nonce", "b16")]%string.

Definition bad_token : ApiError := err TOKEN_SIGNATURE_INVALID.

(** The part of [authenticate] that only looks at the request: parse, bind,
    and check the validity window. *)
Definition parse_token (cfg : RelayConfig) (rq : AuthRequest) : Result Value :=
  let! h := ok_or (authorization rq) (err TOKEN_REQUIRED) in
  let! h := ok_or h bad_token in
  let! raw := ok_or (strip_prefix "PallaSync " h) (err TOKEN_REQUIRED) in
  let! bytes := ok_or (decode raw None) bad_token in
  let! token := match parse bytes with
                | Ok v => Ok v | Err _ => Err bad_token | Panic => Panic end in
  match signed token token_fields with
  | Ok _ => Ok tt | Err _ => Err bad_token | Panic => Panic end ;;;
  fail_if (negb (String.eqb bytes (canonicalize_json token))
           || negb (n token "v" =? 3)
           || negb (Bool.eqb (String.eqb (s token "signer_kind") "admin")
                      (is_null (get token "device_id")))) bad_token ;;;
  let! q := canonical_query (default EmptyString (uri_query rq)) in
  fail_if (negb (String.eqb (s token "aud") (origin cfg))
           || negb (String.eqb (s token "chain_id") (rq_chain_id rq))
           || negb (String.eqb (s token "method") (rq_method rq))
           || negb (String.eqb (s token "path") (uri_path rq))
           || negb (String.eqb (s token "query") (query_string q))
           || negb (String.eqb (s token "body_sha256") (hash_bytes (rq_body rq))))
    (err TOKEN_BINDING_MISMATCH) ;;;
  ret token.

Definition check_window (token : Value) (t : Z) : Result unit :=
  let issued := n token "issued_at_ms" in
  let expires := n token "expires_at_ms" in
  fail_if (expires <=? issued) bad_token ;;;
  fail_if (300000 <? expires - issued) (err TOKEN_TTL_TOO_LONG) ;;;
  fail_if (t + 60000 <? issued)
    (with_context (err TOKEN_NOT_YET_VALID)
      (json [("retry_after_ms", Num (issued - t - 60000))]%string)) ;;;
  fail_if (expires + 60000 <? t) (err TOKEN_EXPIRED).

(** The key the token must verify under, with the device's certificate and
    registry status when the chain is live. *)
Definition capability_key (chain : string) (c : option Chain) (device : option string)
    (proposed : option string) : M (string * option (Value * option Status)) :=
  let! deletion := select (fun d => t_deletions d !! chain) in
  match deletion with
  | Some row =>
      match device with
      | Some id =>
          fail_if (bool_decide (de_device row <> Some id)) bad_token ;;;
          let! k := ok_or (de_device_key row) (err DEVICE_UNKNOWN) in
          ret (k, None)
      | None => ret (de_admin_key row, None)
      end
  | None =>
      match c with
      | Some c =>
          match device with
          | Some id =>
              let! d := object chain KDevice id in
              let! d := ok_or d bad_token in
              let! status := select (fun db => r_status <$> t_registry db !! (chain, id)) in
              ret (s d "device_public_key", Some (d, status))
          | None => ret (s (parameters c) "admin_public_key", None)
          end
      | None =>
          match proposed with
          | Some k => ret (k, None)
          | None => fail bad_token
          end
      end
  end.

(** [DELETE FROM v3_nonces WHERE expires_at_ms < ?] *)
Definition sweep_nonces (t : Z) (d : Db) : Db :=
  set_nonces (filter (fun kv => t <= snd kv) (t_nonces d)) d.

(** [INSERT OR IGNORE INTO v3_nonces]; [true] when a row was inserted. *)
Definition reserve_nonce (k : string * string * string * string) (expires : Z)
  : M bool :=
  sql (fun d => match t_nonces d !! k with
                | Some _ => Some (false, d)
                | None => Some (true, set_nonces (<[k := expires]> (t_nonces d)) d)
                end).

Definition device_state_check (route : Route) (c : Chain)
    (state : Value * option Status) : Result unit :=
  let '(d, status) := state in
  fail_if (negb (n d "generation" =? generation c)) (err GENERATION_MISMATCH) ;;;
  match status with
  | Some Revoked => fail (err DEVICE_REVOKED)
  | None => fail (err DEVICE_UNKNOWN)
  | Some PendingKeys => fail_if (negb (pending_route route)) (err DEVICE_PENDING_KEYS)
  | Some Active => ret tt
  end.

(** [authenticate] from the reading of the clock on. *)
Definition authorize (cfg : RelayConfig) (rq : AuthRequest) (token : Value) (t : Z)
    : M Auth :=
  let chain := rq_chain_id rq in
  let issued := n token "issued_at_ms" in
  let expires := n token "expires_at_ms" in
  lift (check_window token t) ;;;
  let device := as_str (get token "device_id") in
  fail_if (bool_decide (is_Some (proposed_key rq)) && bool_decide (is_Some device))
    (err ADMIN_REQUIRED) ;;;
  let! c := load chain in
  let! ' (key, device_state) := capability_key chain c device (proposed_key rq) in
  fail_if (negb (default false
    (verify_signed_json key (s token "signature") token CTX_CAPABILITY))) bad_token ;;;
  (if veqb (get (get (privacy cfg) "replay_protection") "mode") (Str "restart_barrier") then
     let! barrier := fetch_one t_restart_barrier in
     let barrier := barrier mod 2 ^ 64 in
     fail_if (issued <? barrier)
       (with_context (err TOKEN_NOT_YET_VALID)
         (json [("retry_after_ms", Num (barrier - issued))]%string))
   else ret tt) ;;;
  exec_ (sweep_nonces t) ;;;
  let! fresh := reserve_nonce
    (chain, s token "signer_kind", default EmptyString device, s token "nonce")
    (expires + 60000) in
  fail_if (negb fresh) (err TOKEN_REPLAYED) ;;;
  match device_state with
  | Some st => let! c := unwrap c in lift (device_state_check (rq_route rq) c st)
  | None => ret tt
  end ;;;
  rate cfg "authorized_signer"
    (chain +:+ ":" +:+ s token "signer_kind" +:+ ":" +:+ default EmptyString device) ;;;
  ret (MkAuth token device).

Definition authenticate (cfg : RelayConfig) (rq : AuthRequest) : M Auth :=
  let! token := lift (parse_token cfg rq) in
  let! t := now in
  authorize cfg rq token t.

Definition check_state (c : Chain) (auth : Auth) (route : Route) : M unit :=
  match device auth with
  | None => ret tt
  | Some id =>
      let! d := object (chain_id c) KDevice id in
      let! d := ok_or d (err DEVICE_UNKNOWN) in
      fail_if (negb (n d "generation" =? generation c)) (err GENERATION_MISMATCH) ;;;
      let! status := select (fun d => r_status <$> t_registry d !! (chain_id c, id)) in
      match status with
      | Some Revoked => fail (err DEVICE_REVOKED)
      | Some PendingKeys =>
          fail_if (negb (pending_route route)) (err DEVICE_PENDING_KEYS)
      | Some Active => ret tt
      | None => fail (err DEVICE_UNKNOWN)
      end
  end.

Definition active_device (c : Chain) (id : string) : M string :=
  let! d := object (chain_id c) KDevice id in
  let! d := ok_or d (err DEVICE_UNKNOWN) in
  fail_if (negb (n d "generation" =? generation c)) (err GENERATION_MISMATCH) ;;;
  let! status := fetch_one (fun d => r_status <$> t_registry d !! (chain_id c, id)) in
  fail_if (negb (bool_decide (status = Active)))
    (err (if bool_decide (status = Revoked) then DEVICE_REVOKED
          else DEVICE_PENDING_KEYS)) ;;;
  ret (s d "device_public_key").

Definition signing_key (c : Chain) (v : Value) : M string :=
  if String.eqb (s v "signer_kind") "admin"
  then ret (s (parameters c) "admin_public_key")
  else active_device c (s v "signer_device_id").
End AuthOps.
