(* ===== verification/Domain.v ===== *)
(** * The domain rules ([src/src/api/domain.rs])

    What makes a device, an envelope, an epoch, a record or a compaction
    acceptable on a chain, and the commit of an epoch with its envelopes. *)
From S2P Require Import Prelude Error Json Verify Jcs Wire Query Routes Db Monad Config.
From S2P Require Import Store Auth.

(** ** Statements on [v3_registry], with the triggers of [schema.sql] *)
Definition history_row (c id : string) (r : RegistryRow) : RegistryHistoryRow :=
  MkRegistryHistoryRow c id (r_status r) (r_enrolled_seq r) (r_revoked_seq r).

Definition registry_insert (c id : string) (r : RegistryRow) (d : Db) : option Db :=
  m ← insert_new (c, id) r (t_registry d);
  Some (set_registry_history (history_push (history_row c id r) (t_registry_history d))
          (set_registry m d)).

(** [UPDATE v3_registry SET ... WHERE chain_id=c AND device_id=id]; [f] is [None]
    on a row that a further condition excludes. *)
Definition registry_update (c id : string) (f : RegistryRow -> option RegistryRow)
    (d : Db) : Db :=
  match t_registry d !! (c, id) ≫= f with
  | Some r =>
      set_registry_history (history_push (history_row c id r) (t_registry_history d))
        (set_registry (<[(c, id) := r]> (t_registry d)) d)
  | None => d
  end.

(** The rows of a chain in device order. *)
Definition registry_rows (c : string) (d : Db) : list (string * RegistryRow) :=
  sort_by (fun x y => str_leb (fst x) (fst y))
    ((fun kv => (snd (fst kv), snd kv)) <$>
       filter (fun kv => fst (fst kv) = c) (map_to_list (t_registry d))).

Definition revoke_row (seq : Z) (r : RegistryRow) : RegistryRow :=
  MkRegistryRow (r_generation r) Revoked (r_enrolled_seq r) (Some seq).

Definition find_device (id : string) (staged : list Value) : option Value :=
  List.find (fun d => String.eqb (s d "device_id") id) staged.


Section Domain.
Context {X : Ext} {O : Oracle}.
Implicit Types (c : Chain) (cfg : RelayConfig).

Definition policy (c : Chain) : Value := get (parameters c) "policy".

Definition bound (v : Value) (c : Chain) : Result unit :=
  fail_if (negb (String.eqb (s v "chain_id") (chain_id c))) invalid ;;;
  fail_if (negb (n v "generation" =? generation c)) (err GENERATION_MISMATCH).

Definition cas (c : Chain) (parameters epoch : Value) : Result unit :=
  fail_if (bool_decide (as_str parameters <> Some (parameters_hash c))
           || bool_decide (as_str epoch <> Some (epoch_hash c))) (err CAS_MISMATCH).

Definition admin_operation (c : Chain) (op : Value) (action : string) (target : Value)
    : M unit :=
  lift (validate op SAdmin) ;;;
  lift (bound op c) ;;;
  lift (verify op (s (parameters c) "admin_public_key") CTX_ADMIN_OP) ;;;
  fail_if (negb (String.eqb (s op "action") action)
           || negb (String.eqb (s op "target_hash") (object_hash target))) invalid ;;;
  let! old := object_digest (chain_id c) KAdmin (s op "operation_id") in
  fail_if (match old with
           | Some old => negb (String.eqb old (object_hash op))
           | None => false
           end) (err OPERATION_ID_CONFLICT) ;;;
  lift (cas c (get op "expected_parameters_hash") (get op "expected_epoch_hash")).

Definition bad_certificate : ApiError := err ENROLLMENT_CERTIFICATE_INVALID.

(** Another device enrolled under the same certificate. *)
Definition certificate_used (chain certificate device : string) (d : Db) : bool :=
  existsb (fun '((c, k, i), row) =>
    String.eqb c chain && bool_decide (k = KDevice) && negb (String.eqb i device) &&
    match o_body row with
    | Some body =>
        veqb (get (get body "enrollment") "certificate_id") (Str certificate)
    | None => false
    end) (map_to_list (t_objects d)).

Definition device_key_of (c : Chain) (cert : Value) : M string :=
  map_err bad_certificate (signing_key c cert).

Definition device (c : Chain) (d : Value) (request : option Value) (genesis : bool)
    : M unit :=
  lift (validate d SDevice) ;;;
  lift (bound d c) ;;;
  let cert := get d "enrollment" in
  lift (verify d (s d "device_public_key") CTX_DEVICE_RECORD) ;;;
  fail_if (negb (veqb match request with Some r => Str (object_hash r) | None => Null end
                   (get cert "request_hash"))) bad_certificate ;;;
  fail_if
    match request with
    | Some r =>
        existsb (fun k => negb (veqb (get d k) (get r k)))
          ["device_id"; "device_public_key"; "device_kex_public_key"; "chain_id";
           "generation"]%string
    | None => false
    end bad_certificate ;;;
  (if genesis then ret tt
   else
     let! e := object (chain_id c) KEpoch (dec (n d "meta_epoch")) in
     fail_if (bool_decide (e = None)) (err EPOCH_STALE)) ;;;
  fail_if (genesis && negb (n d "meta_epoch" =? n (epoch c) "epoch")
           && negb (n d "meta_epoch" =? n (epoch c) "epoch" + 1)) (err EPOCH_STALE) ;;;
  (if String.eqb (s cert "signer_kind") "device" then
     fail_if (negb (veqb (get (policy c) "allow_peer_enrollment") (Bool true))
              || bool_decide (request = None)
              || String.eqb (s cert "signer_device_id") (s d "device_id"))
       bad_certificate ;;;
     let! key := device_key_of c cert in
     map_err bad_certificate (lift (verify cert key CTX_ENROLLMENT))
   else
     map_err bad_certificate
       (lift (verify cert (s (parameters c) "admin_public_key") CTX_ENROLLMENT))) ;;;
  let! old := object_digest (chain_id c) KDevice (s d "device_id") in
  fail_if (match old with
           | Some old => negb (String.eqb old (object_hash d))
           | None => false
           end) (err DEVICE_ID_CONFLICT) ;;;
  let! same_cert := select
    (certificate_used (chain_id c) (s cert "certificate_id") (s d "device_id")) in
  fail_if same_cert bad_certificate.

Definition envelope (c : Chain) (e epoch : Value) (staged : list Value) : M unit :=
  lift (validate e SEnvelope) ;;;
  fail_if (existsb (fun k => negb (veqb (get e k) (get epoch k)))
             ["chain_id"; "generation"; "epoch"; "previous_epoch_hash";
              "epoch_commitment"]%string) (err EPOCH_CHAIN_INVALID) ;;;
  let! key :=
    if String.eqb (s e "signer_kind") "admin"
    then ret (s (parameters c) "admin_public_key")
    else match find_device (s e "signer_device_id") staged with
         | Some d => ret (s d "device_public_key")
         | None => signing_key c e
         end in
  lift (verify e key CTX_ENVELOPE) ;;;
  if String.eqb (s e "recipient_kind") "device" then
    let id := s e "recipient_device_id" in
    let! d :=
      match find_device id staged with
      | Some d => ret d
      | None =>
          let! d := object (chain_id c) KDevice id in
          let! d := ok_or d (err ENVELOPE_ACCESS_DENIED) in
          let! status := fetch_one (fun db => r_status <$> t_registry db !! (chain_id c, id)) in
          fail_if (bool_decide (status = Revoked)
                   || negb (n d "generation" =? generation c))
            (err ENVELOPE_ACCESS_DENIED) ;;;
          ret d
      end in
    let! kex := unwrap (decode (s d "device_kex_public_key") (Some 32)) in
    fail_if (negb (veqb (get e "recipient_key_hash") (Str (hash_bytes kex))))
      (err ENVELOPE_ACCESS_DENIED)
  else ret tt.

(** The registry members an epoch can keep or revoke. *)
Definition existing_members (c : Chain) (genesis reseed : bool) (d : Db) : list string :=
  fst <$> filter (fun kv =>
    r_status (snd kv) <> Revoked /\
    (negb genesis && (reseed || (r_generation (snd kv) mod 2 ^ 64 =? generation c))) = true)
    (registry_rows (chain_id c) d).

(** [for d in staged { ... members.push(..) }] *)
Fixpoint add_staged (members : list string) (staged : list Value) : Result (list string) :=
  match staged with
  | [] => Ok members
  | d :: staged =>
      if mem (s d "device_id") members then Err (err DEVICE_ID_CONFLICT)
      else add_staged (members ++ [s d "device_id"]) staged
  end.

(** The state of the loop over the envelopes: ids, recipients, recovery. *)
Definition bundle_envelope (c : Chain) (epoch : Value) (staged : list Value)
    (members : list string) (st : list string * list string * bool) (e : Value)
    : M (list string * list string * bool) :=
  let '(ids, recipients, recovery) := st in
  envelope c e epoch staged ;;;
  fail_if (mem (s e "envelope_id") ids) invalid ;;;
  let ids := s e "envelope_id" :: ids in
  if String.eqb (s e "recipient_kind") "recovery" then
    fail_if (recovery || negb (String.eqb (object_hash e) (s epoch "recovery_envelope_hash")))
      (err RECOVERY_ENVELOPE_REQUIRED) ;;;
    ret (ids, recipients, true)
  else
    let r := s e "recipient_device_id" in
    fail_if (negb (mem r members) || mem r recipients) (err MEMBER_SET_MISMATCH) ;;;
    ret (ids, r :: recipients, recovery).

(** The checks of [bundle] on the epoch alone. *)
Definition epoch_position (c : Chain) (epoch : Value) (genesis reseed : bool)
    : Result unit :=
  (if genesis then
     fail_if (negb (n epoch "epoch" =? 0)
              || negb (String.eqb (s epoch "reason") "genesis")
              || negb (String.eqb (s epoch "signer_kind") "admin")
              || negb (bool_decide (a epoch "revoked_device_ids" = [])))
       (err EPOCH_CHAIN_INVALID)
   else
     fail_if (negb (n epoch "epoch" =? n (Db.epoch c) "epoch" + 1)
              || negb (String.eqb (s epoch "previous_epoch_hash") (epoch_hash c)))
       (err EPOCH_CHAIN_INVALID) ;;;
     fail_if (mem (s epoch "reason") ["genesis"; "reseed"]%string && negb reseed)
       (err EPOCH_CHAIN_INVALID) ;;;
     fail_if (negb (bool_decide (a epoch "revoked_device_ids" = []))
              && negb (mem (s epoch "reason")
                         ["device_revocation"; "key_rotation"; "emergency"; "reseed"]%string))
       (err EPOCH_CHAIN_INVALID)) ;;;
  fail_if (mem (s epoch "reason") ["genesis"; "emergency"; "reseed"]%string
           && negb (String.eqb (s epoch "signer_kind") "admin"))
    (err ROTATION_NOT_ALLOWED) ;;;
  fail_if (String.eqb (s epoch "signer_kind") "device"
           && negb (veqb (get (policy c) "allow_device_rotation") (Bool true)))
    (err ROTATION_NOT_ALLOWED).

Definition bundle (c : Chain) (epoch : Value) (envelopes staged : list Value)
    (genesis reseed : bool) : M unit :=
  lift (validate epoch SEpoch) ;;;
  lift (bound epoch c) ;;;
  lift (epoch_position c epoch genesis reseed) ;;;
  let! key := signing_key c epoch in
  lift (verify epoch key CTX_EPOCH) ;;;
  let! existing := select (existing_members c genesis reseed) in
  let! revoked := unwrap (mapM as_str (a epoch "revoked_device_ids")) in
  fail_if (existsb (fun id => negb (mem id existing)) revoked
           || (reseed && negb (bool_decide (revoked = existing))))
    (err MEMBER_SET_MISMATCH) ;;;
  let kept := if reseed then []
              else List.filter (fun id => negb (mem id revoked)) existing in
  let! members := lift (add_staged kept staged) in
  let members := sort_by str_leb members in
  let! actual := unwrap (mapM as_str (a epoch "members")) in
  fail_if (negb (bool_decide (members = actual))
           || (128 <? Z.of_nat (length members))) (err MEMBER_SET_MISMATCH) ;;;
  fail_if (negb (Nat.eqb (length envelopes) (length members + 1)))
    (err MEMBER_SET_MISMATCH) ;;;
  let! ' (_, _, recovery) :=
    foldM (bundle_envelope c epoch staged members) ([], [], false) envelopes in
  fail_if (negb recovery) (err RECOVERY_ENVELOPE_REQUIRED).

Definition register (c : Chain) (d : Value) (seq : Z) (st : Status) : M unit :=
  exec (registry_insert (chain_id c) (s d "device_id")
          (MkRegistryRow (n d "generation") st seq None)).

(** [EpochCommit] *)
Record EpochCommit := MkEpochCommit {
  ec_epoch : Value;
  ec_envelopes : list Value;
  ec_staged : list Value;
  ec_admin : option Value;
  ec_genesis : bool;
}.

Definition commit_device (cfg : RelayConfig) (genesis : bool) (st : Chain * list Value)
    (d : Value) : M (Chain * list Value) :=
  let '(c, receipts) := st in
  let! ' (c, (entry, r)) := append c cfg KDevice d in
  register c d (n entry "relay_seq") (if genesis then Active else PendingKeys) ;;;
  ret (c, receipts ++ [r]).

Definition commit_object (cfg : RelayConfig) (kind : Kind) (st : Chain * list Value)
    (v : Value) : M (Chain * list Value) :=
  let '(c, receipts) := st in
  let! ' (c, (_, r)) := append c cfg kind v in
  ret (c, receipts ++ [r]).

Definition envelope_key (e : Value) : string * string :=
  (s e "recipient_kind", s e "recipient_device_id").

(** Returns the chain, the entry of the epoch and the receipts. *)
Definition commit_epoch (c : Chain) (cfg : RelayConfig) (commit : EpochCommit)
    : M (Chain * (Value * list Value)) :=
  let epoch := ec_epoch commit in
  let ds := sort_by (fun x y => str_leb (s x "device_id") (s y "device_id"))
              (ec_staged commit) in
  let! ' (c, receipts) :=
    foldM (commit_device cfg (ec_genesis commit)) (c, []) ds in
  let es := sort_by (fun x y => pair_leb (envelope_key x) (envelope_key y))
              (ec_envelopes commit) in
  let! ' (c, receipts) := foldM (commit_object cfg KEnvelope) (c, receipts) es in
  let! ' (c, receipts) :=
    match ec_admin commit with
    | Some op => commit_object cfg KAdmin (c, receipts) op
    | None => ret (c, receipts)
    end in
  let! ' (c, (entry, r)) := append c cfg KEpoch epoch in
  let receipts := receipts ++ [r] in
  forM (fun id =>
    let! id := unwrap (as_str id) in
    exec_ (registry_update (chain_id c) id
             (fun r => Some (revoke_row (n entry "relay_seq") r))))
    (a epoch "revoked_device_ids") ;;;
  ret (set_epoch epoch c, (entry, receipts)).

(** [metadata_profile == "private"] must agree with the absence of a tag. *)
Definition tag_mismatch (parameters v : Value) : bool :=
  negb (Bool.eqb (veqb (get (get parameters "policy") "metadata_profile") (Str "private"))
          (is_null (get v "collection_tag"))).

Definition payload_nonce_taken (chain : string) (v : Value) (d : Db) : bool :=
  match t_payload_nonces d !! (chain, n v "epoch", s v "payload_nonce") with
  | Some id => negb (String.eqb id (s v "record_id"))
  | None => false
  end.

(** [true]: already stored. *)
Definition record (c : Chain) (v : Value) (auth : Auth) (snapshot staged : bool)
    : M bool :=
  lift (validate v SRecord) ;;;
  fail_if (negb (String.eqb (s v "chain_id") (chain_id c))) invalid ;;;
  let kind := if snapshot then KSnapshotPart else KRecord in
  fail_if (negb (admin auth) && negb (bool_decide (Auth.device auth = Some (s v "device_id"))))
    (err DEVICE_KEY_MISMATCH) ;;;
  let! digest := object_digest (chain_id c) kind (s v "record_id") in
  match digest with
  | Some digest =>
      fail_if (negb (String.eqb digest (object_hash v))) (err RECORD_ID_CONFLICT) ;;;
      ret true
  | None =>
      if staged && admin auth && (n v "generation" =? generation c + 1) then ret false
      else if snapshot && admin auth && (n v "generation" <=? generation c) then
        let g := n v "generation" in
        let! p := object (chain_id c) KParameters (dec g) in
        let! p := ok_or p (err GENERATION_MISMATCH) in
        let! e := object (chain_id c) KEpoch (dec (n v "epoch")) in
        let! e := ok_or e (err EPOCH_NOT_FOUND) in
        let! d := object (chain_id c) KDevice (s v "device_id") in
        let! d := ok_or d (err DEVICE_UNKNOWN) in
        fail_if (negb (n d "generation" =? g) || negb (n e "generation" =? g))
          (err GENERATION_MISMATCH) ;;;
        lift (verify v (s d "device_public_key") CTX_SYNC_RECORD) ;;;
        fail_if (tag_mismatch p v) invalid ;;;
        let! taken := select (payload_nonce_taken (chain_id c) v) in
        fail_if taken invalid ;;;
        ret false
      else
        lift (bound v c) ;;;
        fail_if (negb (admin auth)
                 && negb (bool_decide (Auth.device auth = Some (s v "device_id"))))
          (err DEVICE_KEY_MISMATCH) ;;;
        let! key := active_device c (s v "device_id") in
        lift (verify v key CTX_SYNC_RECORD) ;;;
        fail_if (negb (n v "epoch" =? n (Db.epoch c) "epoch")) (err EPOCH_STALE) ;;;
        fail_if (tag_mismatch (parameters c) v) invalid ;;;
        let! taken := select (payload_nonce_taken (chain_id c) v) in
        fail_if taken invalid ;;;
        ret false
  end.

Definition reserve_payload_nonce (c : Chain) (v : Value) : M unit :=
  exec_ (fun d => set_payload_nonces
    (insert_ignore (chain_id c, n v "epoch", s v "payload_nonce") (s v "record_id")
       (t_payload_nonces d)) d).

(** The key of a staged device, or of an active one. *)
Definition staged_key (c : Chain) (id : string) (staged : list Value) : M string :=
  match find_device id staged with
  | Some d => ret (s d "device_public_key")
  | None => active_device c id
  end.

Definition compaction_part (c : Chain) (staged : list Value) (p : Value) : M unit :=
  let! part := object (chain_id c) KSnapshotPart (s p "record_id") in
  let! part := ok_or part (err SNAPSHOT_INCOMPLETE) in
  fail_if (negb (String.eqb (object_hash part) (s p "record_hash"))
           || negb (n part "generation" =? generation c)
           || negb (n part "epoch" =? n (Db.epoch c) "epoch")) (err SNAPSHOT_INCOMPLETE) ;;;
  let! key := staged_key c (s part "device_id") staged in
  lift (verify part key CTX_SYNC_RECORD) ;;;
  fail_if (tag_mismatch (parameters c) part) invalid.

Definition compaction (c : Chain) (v : Value) (staged : list Value) : M unit :=
  lift (validate v SCompaction) ;;;
  lift (bound v c) ;;;
  fail_if (negb (String.eqb (s v "log_id") (log_id c))) (err LOG_ID_MISMATCH) ;;;
  fail_if (negb (String.eqb (s v "epoch_hash") (epoch_hash c))) (err EPOCH_STALE) ;;;
  let! key := staged_key c (s v "device_id") staged in
  lift (verify v key CTX_COMPACTION) ;;;
  let covered := n v "covered_through_seq" in
  let! hash :=
    if covered =? 0 then unwrap (initial_hash LOG_CTX (chain_id c) (log_id c) None)
    else
      let! h := select (fun d => l_head_hash <$> t_log d !! (chain_id c, log_id c, covered)) in
      ok_or h (err COMPACTION_UNSAFE) in
  fail_if ((head_seq c <? covered) || negb (String.eqb (s v "covered_log_hash") hash))
    (err COMPACTION_UNSAFE) ;;;
  forM (compaction_part c staged) (a v "snapshot_parts").

Definition target (v : Value) (keys : list string) : Value :=
  Obj (foldl (fun o k => match get_opt v k with
                         | Some x => obj_insert k x o
                         | None => o
                         end) [] keys).

Definition rejection (v : Value) (id : string) (e : ApiError) : Value :=
  json [(id, get v id); ("status", Num (status e)); ("code", Str (code_str (code e)));
        ("retryable", Bool (retryable e))]%string.
End Domain.
