(* ===== verification/Retention.v ===== *)
(** * Epoch retention ([src/src/api/retention.rs])

    After a snapshot handoff the envelopes of old epochs fall due and are erased,
    in the background ([maintenance]) or at the next handoff. *)
From S2P Require Import Prelude Error Json Verify Jcs Wire Query Routes Db Monad Config.
From S2P Require Import Store HashChain Steps Auth Domain.

(** ** The SELECTs *)
Definition old_epochs (c : Chain) (d : Db) : list Value :=
  omap (fun '((x, k, i), row) =>
    if String.eqb x (chain_id c) && bool_decide (k = KEpoch)
       && (parse_digits i <? n (epoch c) "epoch")
    then o_body row else None) (map_to_list (t_objects d)).

(** An envelope of epoch [number] that the covered prefix does not contain. *)
Definition late_envelope (c : Chain) (number through : Z) (d : Db) : bool :=
  existsb (fun '((x, k, _), row) =>
    String.eqb x (chain_id c) && bool_decide (k = KEnvelope)
    && match o_body row with
       | Some body => veqb (get body "epoch") (Num number)
       | None => false
       end
    && (match o_seq row with Some q => through <? q | None => false end
        || match o_log row with Some l => negb (String.eqb l (log_id c)) | None => false end))
    (map_to_list (t_objects d)).

Definition committed_at (c : Chain) (number : string) (d : Db) : option Z :=
  row ← t_objects d !! (chain_id c, KEpoch, number);
  log ← o_log row; seq ← o_seq row;
  l ← t_log d !! (chain_id c, log, seq);
  entry ← l_entry l;
  match get entry "committed_at_ms" with Num z => Some z | _ => None end.

Definition due_handoffs (chain : string) (t : Z) (d : Db) : list Z :=
  omap (fun '((x, e), row) =>
    if String.eqb x chain && (ho_due row <=? t) && negb (ho_expired row)
    then Some e else None) (map_to_list (t_handoffs d)).

(** ** The UPDATEs of [expire] *)
Definition envelope_entry_of (c : Chain) (e : Z) (k : string * string * Z) (r : LogRow) : bool :=
  String.eqb (fst (fst k)) (chain_id c) && (snd k <? min_available_seq c)
  && match l_entry r with
     | Some entry => veqb (get entry "kind") (Str "envelope")
                     && veqb (get (get entry "object") "epoch") (Num e)
     | None => false
     end.
Definition envelope_body_of (c : Chain) (e : Z) (k : string * Kind * string) (r : ObjectRow)
    : bool :=
  String.eqb (fst (fst k)) (chain_id c) && bool_decide (snd (fst k) = KEnvelope)
  && match o_body r with
     | Some body => veqb (get body "epoch") (Num e)
     | None => false
     end.
Definition expire_row (r : HandoffRow) : HandoffRow :=
  MkHandoffRow (ho_compaction r) (ho_due r) true.

Section Retention.
Context {X : Ext} {O : Oracle}.
Implicit Types (c : Chain) (cfg : RelayConfig).

Definition expire_epoch (c : Chain) (e : Z) : M unit :=
  exec_ (fun d => set_log (erase_log (envelope_entry_of c e) (t_log d)) d) ;;;
  exec_ (fun d => set_objects (erase_objects (envelope_body_of c e) (t_objects d)) d) ;;;
  exec_ (fun d => set_handoffs (alter expire_row (chain_id c, e) (t_handoffs d)) d).

Definition expire (c : Chain) : M unit :=
  let! t := now in
  let! epochs := select (due_handoffs (chain_id c) t) in
  forM (expire_epoch c) epochs.

Definition handoff_epoch (c : Chain) (comp : Value) (through : Z) (epoch : Value)
    : M unit :=
  let number := n epoch "epoch" in
  let! late := select (late_envelope c number through) in
  if late then ret tt
  else
    let! successor := object (chain_id c) KEpoch (dec (number + 1)) in
    let! successor := ok_or successor (err COMPACTION_UNSAFE) in
    let! committed := fetch_one (committed_at c (dec (n successor "epoch"))) in
    let! due :=
      if veqb (get (policy c) "epoch_retention") (Str "immediate") then now
      else ret (committed mod 2 ^ 64 + n (policy c) "epoch_window_ms") in
    exec_ (fun d => set_handoffs
      (insert_ignore (chain_id c, number)
         (MkHandoffRow (s comp "compaction_id") due false) (t_handoffs d)) d).

Definition handoff (c : Chain) (comp : Value) (through : Z) : M unit :=
  if veqb (get (policy c) "epoch_retention") (Str "retain") then ret tt
  else
    let! epochs := select (old_epochs c) in
    forM (handoff_epoch c comp through) epochs ;;;
    expire c.

Definition expired (c : Chain) (epoch : Z) : M bool :=
  select (fun d => match t_handoffs d !! (chain_id c, epoch) with
                   | Some row => ho_expired row
                   | None => false
                   end).

(** [SELECT DISTINCT chain_id] of the handoffs that are due. *)
Definition due_chains (t : Z) (d : Db) : list string :=
  remove_dups (omap (fun '((x, _), row) =>
    if negb (ho_expired row) && (ho_due row <=? t) then Some x else None)
    (map_to_list (t_handoffs d))).

Definition maintenance (cfg : RelayConfig) : M unit :=
  transaction false (
    let! t := now in
    let! ids := select (due_chains t) in
    forM (fun id =>
      let! c := load id in
      match c with
      | Some c => expire c ;;; quota id cfg
      | None => ret tt
      end) ids).
End Retention.
