(* ===== verification/Mutation.v ===== *)
(** * The mutating handlers ([src/src/api/mutation.rs])

    Genesis, enrollment, epoch rotation and revocation, peer enrollment offers and
    requests, key acknowledgement, snapshots and pruning.  A handler that takes
    [&mut Chain] returns the updated chain with its HTTP status and body. *)
From S2P Require Import Prelude Error Json Verify Jcs Wire Query Routes Db Monad Config.
From S2P Require Import Store HashChain Steps Auth Domain Retention.

(** ** Statements on [v3_offers], with the triggers of [schema.sql] *)
Definition offer_history_row (c i : string) (r : OfferRow) : OfferHistoryRow :=
  MkOfferHistoryRow c i (of_offer r) (of_request r) (of_status r).
Definition offer_insert (c i : string) (r : OfferRow) (d : Db) : option Db :=
  m ← insert_new (c, i) r (t_offers d);
  Some (set_offer_history (history_push (offer_history_row c i r) (t_offer_history d))
          (set_offers m d)).
Definition offer_update (c i : string) (f : OfferRow -> OfferRow) (d : Db) : Db :=
  match t_offers d !! (c, i) with
  | Some r =>
      set_offer_history (history_push (offer_history_row c i (f r)) (t_offer_history d))
        (set_offers (<[(c, i) := f r]> (t_offers d)) d)
  | None => d
  end.

(** ** SELECT COUNT and UPDATE of the handlers *)
Definition count_members (c : string) (g : Z) (d : Db) : Z :=
  Z.of_nat (length (filter (fun kv =>
    r_generation (snd kv) = g /\ r_status (snd kv) <> Revoked) (registry_rows c d))).
Definition envelope_exists (c : string) (p : Value -> bool) (d : Db) : bool :=
  existsb (fun '((x, k, _), row) =>
    String.eqb x c && bool_decide (k = KEnvelope)
    && match o_body row with Some body => p body | None => false end)
    (map_to_list (t_objects d)).

Definition pruned_object (c : Chain) (through : Z) (k : string * Kind * string)
    (r : ObjectRow) : bool :=
  String.eqb (fst (fst k)) (chain_id c) && bool_decide (snd (fst k) = KRecord)
  && bool_decide (o_log r = Some (log_id c))
  && match o_seq r with Some q => q <=? through | None => false end.
Definition pruned_entry (c : Chain) (through : Z) (k : string * string * Z) (r : LogRow)
    : bool :=
  String.eqb (fst (fst k)) (chain_id c) && String.eqb (snd (fst k)) (log_id c)
  && (snd k <=? through)
  && match l_entry r with
     | Some entry => veqb (get entry "kind") (Str "record")
     | None => false
     end.

(** The acknowledging device becomes active, unless it is revoked. *)
Definition activate_row (r : RegistryRow) : option RegistryRow :=
  if bool_decide (r_status r = Revoked) then None
  else Some (MkRegistryRow (r_generation r) Active (r_enrolled_seq r) (r_revoked_seq r)).

Section Mutation.
Context {X : Ext} {O : Oracle}.
Implicit Types (c : Chain) (cfg : RelayConfig).

Definition peer_enrollment (c : Chain) : bool :=
  veqb (get (policy c) "allow_peer_enrollment") (Bool true).

Definition genesis (cfg : RelayConfig) (v : Value) : M (Z * Value * Chain) :=
  lift (fields v [("parameters", "object"); ("device_record", "object");
                  ("epoch", "object"); ("envelopes", "array")]%string []) ;;;
  let p := get v "parameters" in
  lift (validate p SParameters) ;;;
  lift (verify p (s p "admin_public_key") CTX_PARAMETERS) ;;;
  let id := s p "chain_id" in
  let! old := outcomes id "genesis" id v in
  match old with
  | Some response =>
      let! c := load id in
      let! c := unwrap c in
      ret (200, response, c)
  | None =>
      let! c := load id in
      fail_if (bool_decide (is_Some c)) (err CHAIN_EXISTS) ;;;
      fail_if (negb (n p "generation" =? 0)) (err GENERATION_MISMATCH) ;;;
      let d := get v "device_record" in
      fail_if (negb (n d "meta_epoch" =? 0)) (err EPOCH_STALE) ;;;
      let! c := Chain_new p (get v "epoch") cfg None in
      device c d None true ;;;
      fail_if (negb (String.eqb (s (get d "enrollment") "signer_kind") "admin"))
        bad_certificate ;;;
      bundle c (get v "epoch") (a v "envelopes") [d] true false ;;;
      let! ' (c, (_, r)) := append c cfg KParameters p in
      let! ' (c, (_, rs)) := commit_epoch c cfg
        (MkEpochCommit (get v "epoch") (a v "envelopes") [d] None true) in
      let response :=
        set_member (set_member (result c) "device_status" (Str "active"))
          "upload_receipts" (Arr (r :: rs)) in
      let! c := publish_notice c cfg in
      outcome id "genesis" id v response ;;;
      save c cfg ;;;
      ret (201, response, c)
  end.

(** The loop over the envelopes of an enrollment: ids seen, current epoch seen. *)
Definition enroll_envelope (c : Chain) (d : Value) (st : list string * bool) (e : Value)
    : M (list string * bool) :=
  let '(ids, current) := st in
  fail_if (negb (String.eqb (s e "recipient_kind") "device")
           || negb (String.eqb (s e "recipient_device_id") (s d "device_id"))
           || mem (s e "envelope_id") ids) (err ENVELOPE_ACCESS_DENIED) ;;;
  let! ep := object (chain_id c) KEpoch (dec (n e "epoch")) in
  let! ep := ok_or ep (err EPOCH_STALE) in
  envelope c e ep [d] ;;;
  (if (n e "epoch" <? n (Db.epoch c) "epoch")
      && negb (veqb (get (policy c) "epoch_retention") (Str "retain")) then
     let! exists_ := select (envelope_exists (chain_id c) (fun body =>
       veqb (get body "epoch") (Num (n e "epoch"))
       && veqb (get body "recipient_kind") (Str "recovery"))) in
     fail_if (negb exists_) (err HISTORY_KEY_EXPIRED)
   else ret tt) ;;;
  ret (s e "envelope_id" :: ids, current || (n e "epoch" =? n (Db.epoch c) "epoch")).

Definition enroll (c : Chain) (cfg : RelayConfig) (auth : Auth) (v : Value)
    (request : option Value) : M (Chain * (Z * Value)) :=
  let peer := bool_decide (is_Some request) in
  lift (fields v [("device_record", "object"); ("envelopes", "array");
                  ("admin_operation", if peer then "object?" else "object")]%string []) ;;;
  (if peer then ret tt else lift (require_admin auth)) ;;;
  (if veqb (get (policy c) "epoch_retention") (Str "immediate")
      && (0 <? n (Db.epoch c) "epoch") then
     let! handoff := select (fun d => t_handoffs d !! (chain_id c, n (Db.epoch c) "epoch" - 1)) in
     fail_if (bool_decide (~ is_Some handoff)) (err ENROLLMENT_NOT_ALLOWED)
   else ret tt) ;;;
  let d := get v "device_record" in
  lift (validate d SDevice) ;;;
  let id := s d "device_id" in
  let! old := outcomes (chain_id c) "enroll" id v in
  match old with
  | Some r => ret (c, (200, r))
  | None =>
      device c d request false ;;;
      let! digest := object_digest (chain_id c) KDevice id in
      fail_if (bool_decide (is_Some digest)) (err DEVICE_ID_CONFLICT) ;;;
      fail_if (negb peer
               && negb (String.eqb (s (get d "enrollment") "signer_kind") "admin"))
        bad_certificate ;;;
      (if admin auth then ret tt
       else
         let! own := unwrap (Auth.device auth) in
         fail_if (negb (peer_enrollment c)
                  || negb (String.eqb (s (get d "enrollment") "signer_device_id") own))
           (err ENROLLMENT_NOT_ALLOWED)) ;;;
      let! count := select (count_members (chain_id c) (generation c)) in
      fail_if (n (limits cfg) "max_devices" <=? count) (err DEVICE_LIMIT_REACHED) ;;;
      let op := get v "admin_operation" in
      (if admin auth then
         admin_operation c op "approve_enrollment"
           (target v ["device_record"; "envelopes"]%string)
       else fail_if (negb (is_null op)) invalid) ;;;
      let envelopes := a v "envelopes" in
      fail_if (bool_decide (envelopes = [])
               || (128 <? Z.of_nat (length envelopes))) invalid ;;;
      let! ' (_, current) := foldM (enroll_envelope c d) ([], false) envelopes in
      fail_if (negb current) (err EPOCH_STALE) ;;;
      let! ' (c, (entry, r)) := append c cfg KDevice d in
      register c d (n entry "relay_seq") PendingKeys ;;;
      let! ' (c, rs) := foldM (commit_object cfg KEnvelope) (c, [r]) envelopes in
      let! ' (c, rs) :=
        if admin auth then commit_object cfg KAdmin (c, rs) op else ret (c, rs) in
      let response :=
        json [("device_id", Str id); ("status", Str "pending_keys");
              ("device_record_hash", Str (object_hash d));
              ("upload_receipts", Arr rs)]%string in
      outcome (chain_id c) "enroll" id v response ;;;
      ret (c, (201, response))
  end.

Definition staged_device (c : Chain) (d : Value) : M unit :=
  device c d None true ;;;
  fail_if (negb (String.eqb (s (get d "enrollment") "signer_kind") "admin")) bad_certificate.

Definition epoch (c : Chain) (cfg : RelayConfig) (auth : Auth) (v : Value)
    (target_device : option string) : M (Chain * (Z * Value)) :=
  lift (fields v [("expected_epoch_hash", "b32"); ("epoch", "object");
                  ("envelopes", "array"); ("admin_operation", "object?")]%string
          [("device_records", "array")]%string) ;;;
  let e := get v "epoch" in
  lift (validate e SEpoch) ;;;
  let id := object_hash e in
  let! old := outcomes (chain_id c) "epoch" id v in
  match old with
  | Some r => ret (c, (200, r))
  | None =>
      fail_if (negb (String.eqb (s v "expected_epoch_hash") (epoch_hash c)))
        (err CAS_MISMATCH) ;;;
      let staged := a v "device_records" in
      fail_if (bool_decide (is_Some (get_opt v "device_records"))
               && (negb (admin auth) || negb (String.eqb (s e "reason") "emergency")))
        (err ROTATION_NOT_ALLOWED) ;;;
      forM (staged_device c) staged ;;;
      fail_if (negb (admin auth)
               && (negb (bool_decide (Auth.device auth = Some (s e "signer_device_id")))
                   || negb (String.eqb (s e "signer_kind") "device")))
        (err ROTATION_NOT_ALLOWED) ;;;
      fail_if match target_device with
              | Some t =>
                  negb (existsb (fun x => veqb x (Str t)) (a e "revoked_device_ids"))
                  || negb (mem (s e "reason") ["device_revocation"; "emergency"]%string)
              | None => false
              end (err MEMBER_SET_MISMATCH) ;;;
      let op := get v "admin_operation" in
      let revoke := negb (bool_decide (a e "revoked_device_ids" = [])) in
      (if admin auth && (revoke || bool_decide (is_Some target_device)) then
         admin_operation c op "revoke_device"
           (target v ["epoch"; "envelopes"; "device_records"]%string)
       else fail_if (negb (is_null op)) invalid) ;;;
      bundle c e (a v "envelopes") staged false false ;;;
      fail_if (n (limits cfg) "max_devices" <? Z.of_nat (length (a e "members")))
        (err DEVICE_LIMIT_REACHED) ;;;
      let! ' (c, (entry, rs)) := commit_epoch c cfg
        (MkEpochCommit e (a v "envelopes") staged
           (if is_null op then None else Some op) false) in
      let response :=
        match target_device with
        | Some t =>
            json [("device_id", Str t); ("status", Str "revoked");
                  ("epoch_hash", Str (epoch_hash c)); ("receipt", entry);
                  ("upload_receipts", Arr rs)]%string
        | None =>
            json [("epoch_hash", Str (epoch_hash c)); ("receipt", entry);
                  ("upload_receipts", Arr rs)]%string
        end in
      outcome (chain_id c) "epoch" id v response ;;;
      ret (c, ((if bool_decide (is_Some target_device) then 200 else 201), response))
  end.

Definition offer (c : Chain) (auth : Auth) (v : Value) : M (Z * Value) :=
  lift (fields v [("request_id", "uuid"); ("offer_nonce", "b32");
                  ("expires_at_ms", "int")]%string []) ;;;
  fail_if (admin auth) (err ENROLLMENT_NOT_ALLOWED) ;;;
  fail_if (negb (peer_enrollment c)) (err ENROLLMENT_NOT_ALLOWED) ;;;
  let id := s v "request_id" in
  let! old := outcomes (chain_id c) "offer" id v in
  match old with
  | Some r => ret (200, r)
  | None =>
      let expires := n v "expires_at_ms" in
      let! t := now in
      fail_if (expires <=? t) invalid ;;;
      let! t := now in
      fail_if (t + 300000 <? expires) invalid ;;;
      let offer :=
        json [("chain_id", Str (chain_id c)); ("generation", Num (generation c));
              ("request_id", Str id); ("offer_nonce", get v "offer_nonce");
              ("offering_device_id", opt_str (Auth.device auth));
              ("expires_at_ms", Num expires)]%string in
      exec (offer_insert (chain_id c) id
              (MkOfferRow offer None "awaiting_approval" (head_seq c))) ;;;
      let response :=
        json [("request_id", Str id); ("expires_at_ms", Num expires);
              ("offer_hash", Str (object_hash offer))]%string in
      outcome (chain_id c) "offer" id v response ;;;
      ret (201, response)
  end.

Definition no_offer : ApiError := err OFFER_NOT_FOUND.
Definition awaiting (row : OfferRow) : bool :=
  String.eqb (of_status row) "awaiting_approval".

Definition enrollment_request (c : Chain) (v : Value) : M (Z * Value) :=
  map_err no_offer (lift (validate v SRequest)) ;;;
  let id := s v "request_id" in
  let! row := select (fun d => t_offers d !! (chain_id c, id)) in
  let! row := ok_or row no_offer in
  let offer := of_offer row in
  fail_if (negb (awaiting row) || negb (generation c =? n offer "generation")) no_offer ;;;
  let! t := now in
  fail_if (n offer "expires_at_ms" + 60000 <? t) no_offer ;;;
  fail_if (n offer "expires_at_ms" <? n v "expires_at_ms") no_offer ;;;
  let! t := now in
  fail_if (t + 60000 <? n v "created_at_ms") no_offer ;;;
  let! t := now in
  fail_if (n v "expires_at_ms" + 60000 <? t) no_offer ;;;
  fail_if (existsb (fun k => negb (veqb (get v k) (get offer k)))
             ["chain_id"; "generation"; "request_id"; "offer_nonce"]%string) no_offer ;;;
  map_err no_offer (active_device c (s offer "offering_device_id")) ;;;
  map_err no_offer (lift (verify v (s v "device_public_key") CTX_REQUEST)) ;;;
  let response :=
    json [("request_id", get v "request_id"); ("status", Str "awaiting_approval");
          ("request_hash", Str (object_hash v))]%string in
  match of_request row with
  | Some old =>
      fail_if (negb (veqb old v)) (err REQUEST_ID_CONFLICT) ;;; ret (200, response)
  | None =>
      exec_ (offer_update (chain_id c) id (fun r =>
        MkOfferRow (of_offer r) (Some v) (of_status r) (of_updated_seq r))) ;;;
      ret (201, response)
  end.

Definition approve (c : Chain) (cfg : RelayConfig) (auth : Auth) (id : string) (v : Value)
    (reject : bool) : M (Chain * (Z * Value)) :=
  let! row := select (fun d => t_offers d !! (chain_id c, id)) in
  let! row := ok_or row no_offer in
  let! r := ok_or (of_request row) no_offer in
  fail_if (negb (owns auth (s (of_offer row) "offering_device_id")))
    (err ENROLLMENT_NOT_ALLOWED) ;;;
  let scope := if reject then "reject_request"%string else "approve_request"%string in
  let! old := outcomes (chain_id c) scope id v in
  match old with
  | Some r => ret (c, (200, r))
  | None =>
      fail_if (negb (awaiting row)) no_offer ;;;
      let! t := now in
      fail_if (n r "expires_at_ms" + 60000 <? t) no_offer ;;;
      fail_if (negb reject && negb (peer_enrollment c)) (err ENROLLMENT_NOT_ALLOWED) ;;;
      let! ' (c, result) :=
        if reject then
          lift (fields v [("request_hash", "b32")]%string []) ;;;
          fail_if (negb (String.eqb (s v "request_hash") (object_hash r)))
            (err REQUEST_ID_CONFLICT) ;;;
          ret (c, (200, json [("request_id", Str id); ("status", Str "rejected")]%string))
        else enroll c cfg auth v (Some r) in
      exec_ (offer_update (chain_id c) id (fun r =>
        MkOfferRow (of_offer r) (of_request r)
          (if reject then "rejected" else "approved")%string (head_seq c))) ;;;
      outcome (chain_id c) scope id v (snd result) ;;;
      ret (c, result)
  end.

Definition ack (c : Chain) (auth : Auth) (id : string) (v : Value) : M Value :=
  lift (fields v [("epoch_hash", "b32"); ("epoch_commitment", "b32")]%string []) ;;;
  fail_if (admin auth || negb (owns auth id)) (err ENVELOPE_ACCESS_DENIED) ;;;
  fail_if (negb (String.eqb (s v "epoch_hash") (epoch_hash c))
           || negb (veqb (get v "epoch_commitment")
                      (get (Db.epoch c) "epoch_commitment"))) (err EPOCH_STALE) ;;;
  let! exists_ := select (envelope_exists (chain_id c) (fun body =>
    veqb (get body "recipient_device_id") (Str id)
    && veqb (get body "epoch") (Num (n (Db.epoch c) "epoch")))) in
  fail_if (negb exists_) (err ENVELOPE_NOT_FOUND) ;;;
  exec_ (registry_update (chain_id c) id activate_row) ;;;
  ret (json [("device_id", Str id); ("status", Str "active");
             ("epoch_hash", Str (epoch_hash c))]%string).

Definition snapshot (c : Chain) (cfg : RelayConfig) (v : Value) : M (Chain * (Z * Value)) :=
  lift (fields v [("compaction", "object")]%string []) ;;;
  let comp := get v "compaction" in
  lift (validate comp SCompaction) ;;;
  let id := s comp "compaction_id" in
  let! old := outcomes (chain_id c) "snapshot" id v in
  match old with
  | Some r => ret (c, (200, r))
  | None =>
      compaction c comp [] ;;;
      let! ' (c, (entry, r)) := append c cfg KCompaction comp in
      let response :=
        json [("compaction_id", Str id); ("receipt", entry);
              ("upload_receipts", Arr [r])]%string in
      outcome (chain_id c) "snapshot" id v response ;;;
      ret (c, (201, response))
  end.

(** The erasure of the records up to [through] and the new horizon. *)
Definition prune_log (c : Chain) (comp : Value) (through : Z) : M Chain :=
  exec_ (fun d => set_objects (erase_objects (pruned_object c through) (t_objects d)) d) ;;;
  exec_ (fun d => set_log (erase_log (pruned_entry c through) (t_log d)) d) ;;;
  ret (set_pruned (through + 1) (Some (s comp "compaction_id")) c).

Definition prune (c : Chain) (cfg : RelayConfig) (auth : Auth) (v : Value)
    : M (Chain * Value) :=
  lift (require_admin auth) ;;;
  lift (fields v [("compaction_id", "uuid"); ("through_seq", "int");
                  ("admin_operation", "object")]%string []) ;;;
  let op := get v "admin_operation" in
  let id := s op "operation_id" in
  let! old := outcomes (chain_id c) "prune" id v in
  match old with
  | Some r => ret (c, r)
  | None =>
      let subject := target v ["compaction_id"; "through_seq"]%string in
      admin_operation c op "prune_log" subject ;;;
      let! comp := object (chain_id c) KCompaction (s v "compaction_id") in
      let! comp := ok_or comp (err COMPACTION_UNSAFE) in
      let through := n v "through_seq" in
      fail_if ((through <? min_available_seq c - 1)
               || (n comp "covered_through_seq" <? through)) (err COMPACTION_UNSAFE) ;;;
      map_err (err COMPACTION_UNSAFE) (compaction c comp []) ;;;
      let! ' (c, _) := append c cfg KAdmin op in
      let! c := prune_log c comp through in
      handoff c comp through ;;;
      let! ' (c, _) := transparency c cfg "prune" (object_hash subject) None Null in
      let response :=
        json [("min_available_seq", Num (min_available_seq c));
              ("compaction_id", get v "compaction_id")]%string in
      outcome (chain_id c) "prune" id v response ;;;
      ret (c, response)
  end.
End Mutation.
