(* ===== verification/Deletion.v ===== *)
(** * Chain deletion ([src/src/api/deletion.rs])

    A deletion is recorded as a ledger entry with a signed receipt ([delete]); the
    chain's active rows are then erased ([erase]) and the ledger is completed
    ([complete]). *)
From S2P Require Import Prelude Error Json Verify Jcs Wire Query Routes Db Monad Config.
From S2P Require Import Store Auth Domain.

(** ** [DELETE FROM table WHERE chain_id=x], for the tables [erase] empties *)
Definition erase_statements (x : string) : list (Db -> Db) :=
  [ (fun d => set_objects (filter (fun kv => fst (fst (fst kv)) <> x) (t_objects d)) d);
    (fun d => set_log (filter (fun kv => fst (fst (fst kv)) <> x) (t_log d)) d);
    (fun d => set_registry (filter (fun kv => fst (fst kv) <> x) (t_registry d)) d);
    (fun d => set_outcomes (filter (fun kv => fst (fst (fst kv)) <> x) (t_outcomes d)) d);
    (fun d => set_offers (filter (fun kv => fst (fst kv) <> x) (t_offers d)) d);
    (fun d => set_cursors (filter (fun kv => cu_chain (snd kv) <> x) (t_cursors d)) d);
    (fun d => set_imports (filter (fun kv => fst kv <> x) (t_imports d)) d);
    (fun d => set_payload_nonces
       (filter (fun kv => fst (fst (fst kv)) <> x) (t_payload_nonces d)) d);
    (fun d => set_registry_history
       (history_filter (fun r => negb (String.eqb (rh_chain r) x)) (t_registry_history d)) d);
    (fun d => set_offer_history
       (history_filter (fun r => negb (String.eqb (oh_chain r) x)) (t_offer_history d)) d);
    (fun d => set_handoffs (filter (fun kv => fst (fst kv) <> x) (t_handoffs d)) d) ].

(** [json_extract(proof,'$.ledger.completed_at_ms') IS NULL] *)
Definition incomplete (row : DeletionRow) : bool :=
  is_null (get (get (de_proof row) "ledger") "completed_at_ms").
Definition incomplete_deletions (d : Db) : list (string * DeletionRow) :=
  filter (fun kv => incomplete (snd kv) = true) (map_to_list (t_deletions d)).

Definition set_proof (p : Value) (row : DeletionRow) : DeletionRow :=
  MkDeletionRow (de_device row) (de_admin_key row) (de_device_key row) p
    (de_outcome row) (de_request_hash row).

Section Deletion.
Context {X : Ext} {O : Oracle}.
Implicit Types (c : Chain) (cfg : RelayConfig).

(** The walk from the deleting device up to an enrollment by the admin.  [panic]
    on lack of fuel: [delete] supplies enough, one unit per stored object. *)
Fixpoint enrollment_chain (fuel : nat) (chain : string) (seen : list string)
    (current : string) (device_key : option string) (certificates : list Value)
    : M (option string * list Value) :=
  match fuel with
  | 0%nat => panic
  | S fuel =>
      fail_if (mem current seen) bad_certificate ;;;
      let! d := object chain KDevice current in
      let! d := ok_or d bad_certificate in
      let device_key :=
        match device_key with
        | None => Some (s d "device_public_key")
        | k => k
        end in
      let cert := get d "enrollment" in
      let certificates := certificates ++ [cert] in
      if String.eqb (s cert "signer_kind") "admin" then ret (device_key, certificates)
      else enrollment_chain fuel chain (current :: seen) (s cert "signer_device_id")
             device_key certificates
  end.
Definition certificates_of (chain : string) (device : option string)
    : M (option string * list Value) :=
  match device with
  | None => ret (None, [])
  | Some id => fun w =>
      enrollment_chain (S (S (size (t_objects (db w))))) chain [] id None [] w
  end.

Definition delete_receipt (c : Chain) (cfg : RelayConfig) (ledger : Value) (index : Z)
    (hash : string) : Result Value :=
  sign cfg (json
    [("type", Str "PALLASYNC-DELETE-RECEIPT-v3"); ("version", Str "3.0");
     ("chain_id", Str (chain_id c)); ("log_id", Str (log_id c));
     ("relay_key_id", Str (key_id cfg)); ("deletion_id", get ledger "deletion_id");
     ("authorized_parameters_hash", get ledger "authorized_parameters_hash");
     ("authorized_epoch_hash", get ledger "authorized_epoch_hash");
     ("authorization_hash", get ledger "authorization_hash");
     ("requested_at_ms", get ledger "requested_at_ms");
     ("completed_at_ms", get ledger "completed_at_ms");
     ("assurance", get ledger "assurance");
     ("delete_after_ms", get ledger "delete_after_ms");
     ("ledger_receipt_hash", get ledger "receipt_hash");
     ("transparency_id", Str (transparency_id c)); ("transparency_index", Num index);
     ("transparency_hash", Str hash)]%string) CTX_DELETE.

Definition deletion_ledger (c : Chain) (v : Value) (authority : string) (t deadline : Z)
    : Value :=
  let ledger := json
    [("chain_id", Str (chain_id c)); ("deletion_id", get v "deletion_id");
     ("authorized_parameters_hash", Str (parameters_hash c));
     ("authorized_epoch_hash", Str (epoch_hash c));
     ("authorization_hash", Str authority); ("requested_at_ms", Num t);
     ("completed_at_ms", Null); ("assurance", Str "backup-expiry");
     ("delete_after_ms", Num deadline)]%string in
  set_member ledger "receipt_hash" (Str (object_hash ledger)).

Definition delete (c : Chain) (cfg : RelayConfig) (auth : Auth) (v : Value)
    : M (Chain * Value) :=
  lift (fields v [("deletion_id", "uuid"); ("expected_parameters_hash", "b32");
                  ("expected_epoch_hash", "b32"); ("admin_operation", "object?")]%string
          []) ;;;
  fail_if (negb (admin auth)
           && negb (veqb (get (policy c) "allow_device_chain_delete") (Bool true)))
    (err ADMIN_REQUIRED) ;;;
  lift (cas c (get v "expected_parameters_hash") (get v "expected_epoch_hash")) ;;;
  let op := get v "admin_operation" in
  let evidence := json [("token", token auth); ("request", v)]%string in
  let! authority :=
    if admin auth then
      admin_operation c op "delete_chain"
        (target v ["deletion_id"; "expected_parameters_hash"; "expected_epoch_hash"]%string) ;;;
      ret (object_hash op)
    else
      fail_if (negb (is_null op)) invalid ;;;
      ret (object_hash evidence) in
  let! ' (c, receipts) :=
    if admin auth then commit_object cfg KAdmin (c, []) op else ret (c, []) in
  let! t := now in
  let deadline := t + n (get (privacy cfg) "deletion") "active_delete_max_ms" in
  let ledger := deletion_ledger c v authority t deadline in
  let! ' (c, (entry, _)) := transparency c cfg "delete" (object_hash ledger) None Null in
  let! receipt := lift (delete_receipt c cfg ledger (transparency_index c)
                          (transparency_hash c)) in
  let! ' (device_key, certificates) := certificates_of (chain_id c) (Auth.device auth) in
  let proof := json
    [("ledger", ledger); ("parameters", parameters c); ("epoch", Db.epoch c);
     ("enrollment_chain", Arr certificates); ("admin_operation", op);
     ("device_authorization", if admin auth then Null else evidence);
     ("delete_receipt", receipt); ("deletion_transparency_entry", entry)]%string in
  let response := json
    [("deletion_id", get v "deletion_id"); ("state", Str "deleting");
     ("assurance", Str "backup-expiry"); ("delete_after_ms", Num deadline);
     ("receipt_hash", get ledger "receipt_hash"); ("delete_receipt", receipt);
     ("upload_receipts", Arr receipts)]%string in
  exec (fun d => m ← insert_new (chain_id c)
    (MkDeletionRow (Auth.device auth) (s (parameters c) "admin_public_key") device_key
       proof response (object_hash v)) (t_deletions d); Some (set_deletions m d)) ;;;
  ret (c, response).

Definition proof (chain : string) : M (option Value) :=
  select (fun d => de_proof <$> t_deletions d !! chain).

Definition gone (proof : Value) : ApiError :=
  let l := get proof "ledger" in
  with_context (err CHAIN_DELETED)
    (json [("deletion_id", get l "deletion_id"); ("assurance", get l "assurance");
           ("delete_after_ms", get l "delete_after_ms");
           ("receipt_hash", get l "receipt_hash")]%string).

(** When there is nothing to erase the source rolls back instead of committing,
    which on an unchanged database has the same effect. *)
Definition erase : M unit :=
  let! none := transaction false (
    let! chains := select incomplete_deletions in
    forM (fun kv => forM exec_ (erase_statements (fst kv))) chains ;;;
    ret (bool_decide (chains = []))) in
  if none then ret tt
  else
    select (fun _ => tt) ;;; (* acquire *)
    select (fun _ => tt) ;;; (* PRAGMA wal_checkpoint(TRUNCATE) *)
    fun w => fail_if (wal_busy (tick w)) (err STORAGE_UNAVAILABLE) (next w).

(** The completed proof: the ledger gets its completion time and a new hash, and
    the receipt is signed again. *)
Definition completed_proof (cfg : RelayConfig) (proof : Value) (t : Z) : Result Value :=
  (if settable proof && settable (get proof "ledger")
      && settable (get proof "delete_receipt") then ret tt else panic) ;;;
  let ledger := set_member (get proof "ledger") "completed_at_ms" (Num t) in
  let ledger := set_member ledger "receipt_hash"
                  (Str (object_hash (remove_member ledger "receipt_hash"))) in
  let receipt := set_member (set_member (get proof "delete_receipt")
    "completed_at_ms" (get ledger "completed_at_ms"))
    "ledger_receipt_hash" (get ledger "receipt_hash") in
  let! receipt := sign cfg receipt CTX_DELETE in
  ret (set_member (set_member proof "ledger" ledger) "delete_receipt" receipt).

Definition complete_row (cfg : RelayConfig) (kv : string * DeletionRow) : M unit :=
  let '(chain, row) := kv in
  let proof := de_proof row in
  exec_ (fun d => set_delete_versions
    (insert_ignore (chain, s (get proof "ledger") "receipt_hash") proof
       (t_delete_versions d)) d) ;;;
  let! t := now in
  let! proof := lift (completed_proof cfg proof t) in
  exec_ (fun d => set_deletions (alter (set_proof proof) chain (t_deletions d)) d).

(** The second transaction of [complete]. *)
Definition complete_ledgers (cfg : RelayConfig) : M unit :=
  transaction false (
    let! rows := select incomplete_deletions in
    forM (complete_row cfg) rows).

Definition complete (cfg : RelayConfig) : M unit :=
  erase ;;; complete_ledgers cfg.
End Deletion.
