(* ===== verification/Batch.v ===== *)
(** * Batch uploads ([src/src/api/batch.rs])

    Records, snapshot parts, envelopes and repairs arrive in batches; each item
    runs in a transaction of its own and is accepted or rejected on its own. *)
From S2P Require Import Prelude Error Json Verify Jcs Wire Query Routes Db Monad Config.
From S2P Require Import Store HashChain Steps Auth Domain Retention Deletion.

(** The variables that the loop over the items updates. *)
Record Batch := MkBatch {
  accepted : list Value;
  rejected : list Value;
  receipts : list Value;
  final_chain : option Chain;
}.

Definition is_envelope_route (r : Route) : bool := bool_decide (r = REnvelopesPost).
Definition is_repair (r : Route) : bool := bool_decide (r = RRepair).
Definition is_snapshot (r : Route) : bool := bool_decide (r = RPartsPost).
Definition batch_key (r : Route) : string :=
  if is_envelope_route r then "envelopes" else "records".
Definition id_key (r : Route) : string :=
  if is_envelope_route r then "envelope_id" else "record_id".
Definition batch_schema (r : Route) : Schema :=
  if is_envelope_route r then SEnvelope else SRecord.

Section Batch.
Context {X : Ext} {O : Oracle}.
Implicit Types (c : Chain) (cfg : RelayConfig).

(** Every item of [rs] is rejected with [e]. *)
Definition reject_items (id : string) (e : ApiError) (rs : list Value) (b : Batch) : Batch :=
  MkBatch (accepted b) (rejected b ++ ((fun r => rejection r id e) <$> rs))
    (receipts b) (final_chain b).
Definition accept_item (item receipt : Value) (c : Chain) (b : Batch) : Batch :=
  MkBatch (accepted b ++ [item]) (rejected b) (receipts b ++ [receipt]) (Some c).
Definition with_chain (c : Chain) (b : Batch) : Batch :=
  MkBatch (accepted b) (rejected b) (receipts b) (Some c).
(** [if final_chain.is_none() { final_chain = Some(c.clone()) }] *)
Definition first_chain (c : Chain) (b : Batch) : Batch :=
  match final_chain b with None => with_chain c b | Some _ => b end.

Definition audit_reject (cfg : RelayConfig) (chain : string) (r : Value) (co : Code)
    : M Chain :=
  transaction false (
    let! c := load chain in
    let! c := ok_or c (err CHAIN_NOT_FOUND) in
    let! ' (c, _) := transparency c cfg "reject" (object_hash r) None
                       (Str (code_str co)) in
    save c cfg ;;;
    ret c).

Definition attempt_envelope (c : Chain) (cfg : RelayConfig) (auth : Auth)
    (chain param : string) (r : Value) : M (Chain * (Value * Value)) :=
  lift (validate r SEnvelope) ;;;
  fail_if (negb (String.eqb (s r "recipient_kind") "device")) (err ENVELOPE_ACCESS_DENIED) ;;;
  fail_if (negb (String.eqb (dec (n r "epoch")) param)) invalid ;;;
  fail_if (negb (admin auth)
           && negb (bool_decide (Auth.device auth = Some (s r "signer_device_id"))))
    (err DEVICE_KEY_MISMATCH) ;;;
  let! ep := object chain KEpoch param in
  let! ep := ok_or ep (err EPOCH_NOT_FOUND) in
  let! gone := expired c (n r "epoch") in
  fail_if gone (err HISTORY_KEY_EXPIRED) ;;;
  envelope c r ep [] ;;;
  let! ' (c, (_, receipt)) := append c cfg KEnvelope r in
  ret (c, (Str (s r "envelope_id"), receipt)).

Definition source_fields : list (string * string) :=
  [("relay_seq", "int"); ("received_at_ms", "int"); ("kind", "record");
   ("object", "object")]%string.

Definition attempt_repair (c : Chain) (cfg : RelayConfig) (chain : string) (v : Value)
    (index : nat) (r : Value) : M (Chain * (Value * Value)) :=
  lift (validate r SRecord) ;;;
  lift (bound r c) ;;;
  let! source := unwrap (nth_error (a v "receipts") index) in
  lift (fields source source_fields []) ;;;
  fail_if (negb (veqb (get source "object") r)) (err REPAIR_PROOF_REQUIRED) ;;;
  let! known := select (fun d =>
    t_log d !! (chain, s v "source_log_id", n source "relay_seq") ≫= l_entry) in
  fail_if (negb (bool_decide (known = Some source))) (err REPAIR_PROOF_REQUIRED) ;;;
  let! digest := object_digest chain KRecord (s r "record_id") in
  let! ' (c, (entry, receipt)) := append c cfg KRecord r in
  ret (c, (json [("record_id", get r "record_id");
                 ("duplicate", Bool (bool_decide (is_Some digest)));
                 ("receipt", if is_null entry then source else entry)]%string, receipt)).

(** The log entry of a pruned duplicate, rebuilt from the object and its receipt. *)
Definition rebuilt_entry (receipt r : Value) : Value :=
  json [("relay_seq", get receipt "relay_seq");
        ("received_at_ms", get receipt "received_at_ms");
        ("kind", Str "record"); ("object", r)]%string.

Definition attempt_record (c : Chain) (cfg : RelayConfig) (auth : Auth) (chain : string)
    (snapshot : bool) (r : Value) : M (Chain * (Value * Value)) :=
  fail_if (negb (writable c) && negb snapshot) (err CHAIN_NOT_FOUND) ;;;
  let! staged := select (fun d => bool_decide (is_Some (t_imports d !! chain))) in
  let! duplicate := record c r auth snapshot staged in
  reserve_payload_nonce c r ;;;
  if snapshot then
    let! ' (c, receipt) := snapshot_part c cfg r in
    ret (c, (Str (s r "record_id"), receipt))
  else
    let! ' (c, (entry, receipt)) := append c cfg KRecord r in
    let entry := if is_null entry then rebuilt_entry receipt r else entry in
    ret (c, (json [("record_id", get r "record_id"); ("duplicate", Bool duplicate);
                   ("receipt", entry)]%string, receipt)).

Definition attempt (c : Chain) (cfg : RelayConfig) (auth : Auth) (chain : string)
    (route : Route) (param : string) (v : Value) (index : nat) (r : Value)
    : M (Chain * (Value * Value)) :=
  write_guard cfg ;;;
  let! p := proof chain in
  match p with Some p => fail (gone p) | None => ret tt end ;;;
  match Auth.device auth with
  | Some id => active_device c id ;;; ret tt
  | None => ret tt
  end ;;;
  if is_envelope_route route then attempt_envelope c cfg auth chain param r
  else if is_repair route then attempt_repair c cfg chain v index r
  else attempt_record c cfg auth chain (is_snapshot route) r.

Definition attempt_and_save (c : Chain) (cfg : RelayConfig) (auth : Auth) (chain : string)
    (route : Route) (param : string) (v : Value) (index : nat) (r : Value)
    : M (Chain * (Value * Value)) :=
  let! ' (c, result) := attempt c cfg auth chain route param v index r in
  save c cfg ;;;
  ret (c, result).

(** A failure that ends the batch: an error while nothing is accepted, else the
    remaining items are rejected with it. *)
Definition stop (route : Route) (e : ApiError) (rs : list Value) (b : Batch)
    : M (bool * Batch) :=
  if bool_decide (accepted b = []) then fail e
  else ret (false, reject_items (id_key route) e rs b).

Definition storage_code (co : Code) : bool :=
  match co with QUOTA_EXCEEDED | STORAGE_UNAVAILABLE => true | _ => false end.
Definition unaudited_code (co : Code) : bool :=
  storage_code co || bool_decide (co = CHAIN_DELETED).

(** The arm [Err(e)] of the match on the attempt, after the rollback. *)
Definition reject_step (cfg : RelayConfig) (chain : string) (route : Route)
    (e : ApiError) (r : Value) (rest : list Value) (b : Batch) : M (bool * Batch) :=
  fail_if (bool_decide (accepted b = []) && storage_code (code e)) e ;;;
  if negb (unaudited_code (code e))
     && match validate r (batch_schema route) with Ok _ => true | _ => false end then
    let! audited := try_ (audit_reject cfg chain r (code e)) in
    match audited with
    | Ok c => ret (true, with_chain c (reject_items (id_key route) e [r] b))
    | Err failure => stop route failure (r :: rest) b
    | Panic => panic
    end
  else ret (true, reject_items (id_key route) e [r] b).

(** One iteration on item [r] at [index]; [false] is [break]. *)
Definition upload_step (cfg : RelayConfig) (auth : Auth) (chain : string) (route : Route)
    (param : string) (v : Value) (index : nat) (r : Value) (rest : list Value)
    (b : Batch) : M (bool * Batch) :=
  let! begun := try_ begin_tx in
  match begun with
  | Err e => stop route e (r :: rest) b
  | Panic => panic
  | Ok d0 =>
      let! loaded := try_ (let! c := load chain in ok_or c (err CHAIN_NOT_FOUND)) in
      match loaded with
      | Err e => try_ (rollback_tx d0) ;;; stop route e (r :: rest) b
      | Panic => panic
      | Ok c =>
          let b := first_chain c b in
          let! result := try_tx d0
            (attempt_and_save c cfg auth chain route param v index r) in
          match result with
          | Ok (c, (item, receipt)) =>
              let! committed := try_ (commit_tx d0) in
              match committed with
              | Err e => stop route e (r :: rest) b
              | _ => ret (true, accept_item item receipt c b)
              end
          | Err e =>
              let! rolled := try_ (rollback_tx d0) in
              match rolled with
              | Err failure => stop route failure (r :: rest) b
              | _ => reject_step cfg chain route e r rest b
              end
          | Panic => panic
          end
      end
  end.

Fixpoint upload_loop (cfg : RelayConfig) (auth : Auth) (chain : string) (route : Route)
    (param : string) (v : Value) (index : nat) (rs : list Value) (b : Batch) : M Batch :=
  match rs with
  | [] => ret b
  | r :: rest =>
      let! ' (continue, b) := upload_step cfg auth chain route param v index r rest b in
      if continue then upload_loop cfg auth chain route param v (S index) rest b
      else ret b
  end.

(** [ids.get(s(r,"object_hash")).cloned()]: the last item with that hash wins. *)
Definition part_id (records : list Value) (receipt : Value) : option string :=
  (fun r => s r "record_id") <$>
    List.find (fun r => String.eqb (object_hash r) (s receipt "object_hash")) (rev records).

Definition sort_receipts (route : Route) (records rs : list Value) : Result (list Value) :=
  if is_snapshot route then
    let! ids := unwrap (mapM (part_id records) rs) in
    ret (snd <$> sort_by (fun x y => str_leb (fst x) (fst y)) (zip ids rs))
  else ret (sort_by (fun x y => n x "relay_seq" <=? n y "relay_seq") rs).

Definition upload_checks (cfg : RelayConfig) (auth : Auth) (route : Route) (v : Value)
    : Result unit :=
  (if is_repair route then
     require_admin auth ;;;
     fields v [("source_log_id", "uuid"); ("records", "array"); ("receipts", "array")]%string []
   else fields v [(batch_key route, "array")]%string []) ;;;
  fail_if (bool_decide (route = RRecordsPost) && admin auth) (err DEVICE_KEY_MISMATCH) ;;;
  let records := a v (batch_key route) in
  let max := if is_envelope_route route then 128
             else n (limits cfg) "max_records_per_upload" in
  fail_if (bool_decide (records = []) || (max <? Z.of_nat (length records))
           || (is_repair route
               && negb (Nat.eqb (length (a v "receipts")) (length records)))) invalid ;;;
  fail_if (negb (forallb (fun r => uuid (s r (id_key route))) records)
           || negb (distinct [] ((fun r => s r (id_key route)) <$> records))) invalid.

Definition upload_response (route : Route) (b : Batch) (rs : list Value)
    (c : option Chain) : Value :=
  let response := json [("accepted", Arr (accepted b)); ("rejected", Arr (rejected b));
                        ("upload_receipts", Arr rs)]%string in
  match c with
  | None => response
  | Some c =>
      let response :=
        set_member (set_member (set_member (set_member response
          "generation" (Num (generation c))) "log_id" (Str (log_id c)))
          "head_seq" (Num (head_seq c))) "head_hash" (Str (head_hash c)) in
      if is_repair route then
        set_member response "repair_required"
          (Bool (negb (bool_decide (rejected b = []))))
      else response
  end.

Definition upload (cfg : RelayConfig) (auth : Auth) (chain : string) (route : Route)
    (param : string) (v : Value) : M Value :=
  lift (upload_checks cfg auth route v) ;;;
  select (fun _ => tt) ;;; (* acquire *)
  fail_if (bool_decide (max_bytes cfg = Some 0)) (err QUOTA_EXCEEDED) ;;;
  quota chain cfg ;;;
  let records := a v (batch_key route) in
  let! b := upload_loop cfg auth chain route param v 0 records (MkBatch [] [] [] None) in
  let! rs := lift (sort_receipts route records (receipts b)) in
  if is_snapshot route || is_envelope_route route then
    ret (upload_response route b rs None)
  else
    let! c :=
      match final_chain b with
      | Some c => ret c
      | None =>
          select (fun _ => tt) ;;; (* acquire *)
          let! c := load chain in
          unwrap c
      end in
    ret (upload_response route b rs (Some c)).
End Batch.
