(* ===== verification/Import.v ===== *)
(** * Import and reseed ([src/src/api/import.rs])

    [stage] stores the verified history of a chain without log positions;
    [reseed] turns the staged objects into a new log under new parameters. *)
From S2P Require Import Prelude Error Json Verify Jcs Wire Query Routes Db Monad Config.
From S2P Require Import Store Auth Domain.

Definition conflict_error : ApiError := err IMPORT_CONFLICT.

(** ** SELECTs on staged objects ([log_id IS NULL]) *)
Definition staged_rows (chain : string) (kind : Kind) (d : Db)
    : list (string * option Value) :=
  omap (fun '((x, k, i), row) =>
    if String.eqb x chain && bool_decide (k = kind) && bool_decide (o_log row = None)
    then Some (i, o_body row) else None) (map_to_list (t_objects d)).

(** [ORDER BY CASE WHEN kind IN ('parameters','epoch') THEN CAST(object_id AS
    INTEGER) ELSE object_id END] *)
Definition id_leb (kind : Kind) (x y : string) : bool :=
  match kind with
  | KParameters | KEpoch => parse_digits x <=? parse_digits y
  | _ => str_leb x y
  end.
Definition staged_ids (chain : string) (kind : Kind) (d : Db) : list string :=
  sort_by (id_leb kind) (fst <$> staged_rows chain kind d).

(** The bodies, decoded as non-null strings: a NULL is a decoding error. *)
Definition staged_bodies (chain : string) (kind : Kind) (d : Db) : option (list Value) :=
  mapM snd (staged_rows chain kind d).

(** An epoch that revokes the device. *)
Definition revoked_by_epoch (chain id : string) (d : Db) : bool :=
  existsb (fun '((x, k, _), row) =>
    String.eqb x chain && bool_decide (k = KEpoch)
    && match o_body row with
       | Some body => existsb (fun y => veqb y (Str id)) (a body "revoked_device_ids")
       | None => false
       end) (map_to_list (t_objects d)).

Section Importing.
Context {X : Ext} {O : Oracle}.
Implicit Types (c : Chain) (cfg : RelayConfig).

Definition historical_key (chain admin : string) (v : Value) : M string :=
  if String.eqb (s v "signer_kind") "admin" then ret admin
  else
    let! d := object chain KDevice (s v "signer_device_id") in
    let! d := ok_or d conflict_error in
    fail_if (negb (n d "generation" =? n v "generation")) conflict_error ;;;
    ret (s d "device_public_key").

(** [previous] exists and its hash is not the one [v] names. *)
Definition breaks_link (v : Value) (key : string) (previous : option Value) : bool :=
  match previous with
  | Some previous => negb (String.eqb (s v key) (object_hash previous))
  | None => false
  end.

Definition check_previous (chain : string) (kind : Kind) (v : Value) (number key : string)
    (e : ApiError) : M unit :=
  if 0 <? n v number then
    let! previous := object chain kind (dec (n v number - 1)) in
    fail_if (breaks_link v key previous) e
  else ret tt.

(** Members known to the relay are of the epoch's generation. *)
Definition check_members (chain : string) (epoch : Value) : M unit :=
  forM (fun id =>
    let! id := unwrap (as_str id) in
    let! d := object chain KDevice id in
    fail_if match d with
            | Some d => negb (n d "generation" =? n epoch "generation")
            | None => false
            end conflict_error) (a epoch "members").

Definition history_lists : list (Schema * string) :=
  [(SParameters, "parameters_history"); (SEpoch, "epoch_history");
   (SDevice, "device_history"); (SEnvelope, "envelopes");
   (SCompaction, "compactions")]%string.
Definition check_history (v : Value) (chain : string) : Result unit :=
  forM (fun '(kind, key) =>
    forM (fun obj =>
      validate obj kind ;;;
      fail_if (negb (String.eqb (s obj "chain_id") chain)) conflict_error) (a v key))
    history_lists.

Definition stage_parameters (chain admin : string) (p : Value) : M unit :=
  fail_if (negb (String.eqb (s p "admin_public_key") admin)) conflict_error ;;;
  lift (verify p admin CTX_PARAMETERS) ;;;
  check_previous chain KParameters p "generation" "previous_parameters_hash"
    conflict_error ;;;
  put_object chain KParameters p None ;;;
  ret tt.

(** One device of a pass over the certificate graph: verified and stored, or kept
    for the next pass. *)
Definition resolve_device (chain admin : string) (st : list Value * gmap string Value)
    (d : Value) : M (list Value * gmap string Value) :=
  let '(next, verified) := st in
  let cert := get d "enrollment" in
  let! key :=
    if String.eqb (s cert "signer_kind") "admin" then ret (Some admin)
    else
      let id := s cert "signer_device_id" in
      match verified !! id with
      | Some signer =>
          fail_if (negb (n signer "generation" =? n d "generation")) conflict_error ;;;
          ret (Some (s signer "device_public_key"))
      | None =>
          let! d2 := object chain KDevice id in
          ret (match d2 with
               | Some d2 => if n d2 "generation" =? n d "generation"
                            then Some (s d2 "device_public_key") else None
               | None => None
               end)
      end in
  match key with
  | Some key =>
      map_err bad_certificate (lift (verify cert key CTX_ENROLLMENT)) ;;;
      lift (verify d (s d "device_public_key") CTX_DEVICE_RECORD) ;;;
      put_object chain KDevice d None ;;;
      ret (next, <[s d "device_id" := d]> verified)
  | None => ret (next ++ [d], verified)
  end.

(** [while !unresolved.is_empty()]; [panic] on lack of fuel, which [stage] never
    meets: a pass that resolves nothing is an error. *)
Fixpoint resolve_devices (fuel : nat) (chain admin : string) (unresolved : list Value)
    (verified : gmap string Value) : M unit :=
  match unresolved with
  | [] => ret tt
  | _ =>
      match fuel with
      | 0%nat => panic
      | S fuel =>
          let! ' (next, verified) :=
            foldM (resolve_device chain admin) ([], verified) unresolved in
          fail_if (Nat.eqb (length next) (length unresolved)) bad_certificate ;;;
          resolve_devices fuel chain admin next verified
      end
  end.

Definition stage_epoch (chain admin : string) (epoch : Value) : M unit :=
  check_previous chain KEpoch epoch "epoch" "previous_epoch_hash"
    (err EPOCH_CHAIN_INVALID) ;;;
  let! key := historical_key chain admin epoch in
  lift (verify epoch key CTX_EPOCH) ;;;
  check_members chain epoch ;;;
  put_object chain KEpoch epoch None ;;;
  ret tt.

Definition stage_envelope (chain admin : string) (env : Value) : M unit :=
  let! epoch := object chain KEpoch (dec (n env "epoch")) in
  let! epoch := ok_or epoch conflict_error in
  fail_if (existsb (fun k => negb (veqb (get env k) (get epoch k)))
             ["generation"; "epoch"; "epoch_commitment"; "previous_epoch_hash"]%string)
    conflict_error ;;;
  fail_if (String.eqb (s env "recipient_kind") "recovery"
           && negb (String.eqb (object_hash env) (s epoch "recovery_envelope_hash")))
    conflict_error ;;;
  let! key := historical_key chain admin env in
  lift (verify env key CTX_ENVELOPE) ;;;
  put_object chain KEnvelope env None ;;;
  ret tt.

Definition stage_compaction (chain : string) (comp : Value) : M unit :=
  let! d := object chain KDevice (s comp "device_id") in
  let! d := ok_or d conflict_error in
  lift (verify comp (s d "device_public_key") CTX_COMPACTION) ;;;
  put_object chain KCompaction comp None ;;;
  ret tt.

(** The staged history as a whole, across uploads. *)
Definition recheck_staged (chain : string) : M unit :=
  let! ps := fetch_one (staged_bodies chain KParameters) in
  forM (fun p => check_previous chain KParameters p "generation"
                   "previous_parameters_hash" conflict_error) ps ;;;
  let! es := fetch_one (staged_bodies chain KEpoch) in
  forM (fun e =>
    check_previous chain KEpoch e "epoch" "previous_epoch_hash"
      (err EPOCH_CHAIN_INVALID) ;;;
    check_members chain e) es.

(** The objects of the history, each verified before it is stored. *)
Definition stage_history (chain admin : string) (v : Value) : M unit :=
  forM (stage_parameters chain admin) (a v "parameters_history") ;;;
  let devices := a v "device_history" in
  resolve_devices (length devices) chain admin devices ∅ ;;;
  forM (stage_epoch chain admin) (a v "epoch_history") ;;;
  forM (stage_envelope chain admin) (a v "envelopes") ;;;
  forM (stage_compaction chain) (a v "compactions") ;;;
  recheck_staged chain.

(** An unknown chain is created, and not writable until its reseed. *)
Definition stage_chain (cfg : RelayConfig) (current : option Chain) (chain : string)
    (p e : Value) (log_id : string) : M Chain :=
  let! c := match current with
            | Some c => ret c
            | None => Chain_new p e cfg (Some log_id)
            end in
  let! stored := load chain in
  match stored with
  | Some _ => ret c
  | None => let c := set_writable false c in save c cfg ;;; ret c
  end.

Definition stage (cfg : RelayConfig) (v : Value) : M (Value * Chain) :=
  lift (fields v [("parameters_history", "array"); ("epoch_history", "array");
                  ("device_history", "array"); ("envelopes", "array");
                  ("compactions", "array")]%string []) ;;;
  fail_if (bool_decide (a v "parameters_history" = [])
           || bool_decide (a v "epoch_history" = [])) conflict_error ;;;
  let! p := unwrap (last (a v "parameters_history")) in
  let! e := unwrap (last (a v "epoch_history")) in
  let chain := s p "chain_id" in
  let admin := s p "admin_public_key" in
  let! current := load chain in
  fail_if match current with
          | Some c =>
              negb (String.eqb (parameters_hash c) (object_hash p))
              || negb (String.eqb (epoch_hash c) (object_hash e))
              || negb (String.eqb (s (parameters c) "admin_public_key") admin)
          | None => false
          end conflict_error ;;;
  let! staged_head := select (fun d => t_imports d !! chain) in
  fail_if match staged_head with
          | Some row => negb (veqb (im_parameters row) p) || negb (veqb (im_epoch row) e)
          | None => false
          end conflict_error ;;;
  lift (check_history v chain) ;;;
  stage_history chain admin v ;;;
  let! staged := select (fun d => im_log <$> t_imports d !! chain) in
  let! log_id := match staged with Some l => ret l | None => new_id end in
  exec_ (fun d => set_imports
    (insert_ignore chain (MkImportRow log_id p e) (t_imports d)) d) ;;;
  let! c := stage_chain cfg current chain p e log_id in
  quota chain cfg ;;;
  ret (json [("chain_id", Str chain); ("state", Str "staged");
             ("log_id", Str log_id)]%string, c).

(** A staged object gets its place in the new log; a device also its row in the
    registry. *)
Definition reseed_object (cfg : RelayConfig) (old : Chain) (kind : Kind)
    (st : Chain * list Value) (id : string) : M (Chain * list Value) :=
  let '(c, rs) := st in
  let! obj := object (chain_id old) kind id in
  let! obj := unwrap obj in
  let! ' (c, (entry, r)) := append c cfg kind obj in
  (if bool_decide (kind = KDevice) then
     let! revoked := select (revoked_by_epoch (chain_id old) id) in
     register c obj (n entry "relay_seq")
       (if revoked || negb (n obj "generation" =? generation old) then Revoked else Active)
   else ret tt) ;;;
  ret (c, rs ++ [r]).

Definition reseed_kind (cfg : RelayConfig) (old : Chain) (st : Chain * list Value)
    (kind : Kind) : M (Chain * list Value) :=
  let! ids := select (staged_ids (chain_id old) kind) in
  foldM (reseed_object cfg old kind) st ids.

Definition staged_admin_device (c : Chain) (d : Value) : M unit :=
  device c d None true ;;;
  fail_if (negb (String.eqb (s (get d "enrollment") "signer_kind") "admin")) bad_certificate.

Definition reseed (old : Chain) (cfg : RelayConfig) (auth : Auth) (v : Value)
    : M (Chain * Value) :=
  lift (require_admin auth) ;;;
  lift (fields v [("parameters", "object"); ("epoch", "object"); ("envelopes", "array");
                  ("compaction", "object"); ("admin_operation", "object");
                  ("device_records", "array")]%string []) ;;;
  let p := get v "parameters" in
  lift (validate p SParameters) ;;;
  let op := get v "admin_operation" in
  let id := s op "operation_id" in
  let! done := outcomes (chain_id old) "reseed" id v in
  match done with
  | Some r => ret (old, r)
  | None =>
      admin_operation old op "reseed"
        (target v ["parameters"; "epoch"; "envelopes"; "compaction";
                   "device_records"]%string) ;;;
      fail_if (negb (String.eqb (s p "chain_id") (chain_id old))
               || negb (String.eqb (s p "admin_public_key")
                          (s (parameters old) "admin_public_key"))
               || negb (n p "generation" =? generation old + 1)
               || negb (String.eqb (s p "previous_parameters_hash") (parameters_hash old)))
        (err GENERATION_MISMATCH) ;;;
      lift (verify p (s p "admin_public_key") CTX_PARAMETERS) ;;;
      let ds := a v "device_records" in
      fail_if (bool_decide (ds = [])
               || (n (limits cfg) "max_devices" <? Z.of_nat (length ds)))
        (err MEMBER_SET_MISMATCH) ;;;
      let! imported := select (fun d => t_imports d !! chain_id old) in
      let! imported := ok_or imported conflict_error in
      fail_if (negb (veqb (im_parameters imported) (parameters old))
               || negb (veqb (im_epoch imported) (Db.epoch old))) (err CAS_MISMATCH) ;;;
      let! c := Chain_new p (Db.epoch old) cfg (Some (im_log imported)) in
      let c := set_transparency_of old c in
      forM (staged_admin_device c) ds ;;;
      let! ' (c, rs) := foldM (reseed_kind cfg old) (c, [])
        [KParameters; KDevice; KEnvelope; KEpoch; KAdmin] in
      let e := get v "epoch" in
      fail_if (negb (String.eqb (s e "reason") "reseed")) (err EPOCH_CHAIN_INVALID) ;;;
      bundle c e (a v "envelopes") ds false true ;;;
      let! ' (c, (_, r)) := append c cfg KParameters p in
      let! ' (c, (_, r')) := commit_epoch c cfg
        (MkEpochCommit e (a v "envelopes") ds (Some op) false) in
      let comp := get v "compaction" in
      fail_if (negb (n comp "covered_through_seq" =? 0)) (err COMPACTION_UNSAFE) ;;;
      compaction c comp ds ;;;
      let! ' (c, (_, r2)) := append c cfg KCompaction comp in
      let response :=
        set_member (result c) "upload_receipts" (Arr (rs ++ [r] ++ r' ++ [r2])) in
      outcome (chain_id c) "reseed" id v response ;;;
      exec_ (fun d => set_imports (delete (chain_id c) (t_imports d)) d) ;;;
      ret (c, response)
  end.
End Importing.
