(* ===== verification/Read.v ===== *)
(** * Reading a chain ([src/src/api/read.rs])

    Pages and cursors, the log, the object collections and the transparency log.
    A page is pinned to a cut, the [Chain] at its first request, which the cursor
    carries as JSON. *)
From S2P Require Import Prelude Error Json Verify Jcs Wire Query Routes Db Monad Config.
From S2P Require Import Store Auth Domain Retention.

Definition RESPONSE_MAX : Z := 8 * 1024 * 1024.
Definition PAGE_BYTES : Z := RESPONSE_MAX - 32768.

(** ** The serde encoding of [Chain] *)
Definition chain_json (c : Chain) : Value :=
  json [("chain_id", Str (chain_id c)); ("parameters", parameters c);
        ("epoch", epoch c); ("log_id", Str (log_id c)); ("head_seq", Num (head_seq c));
        ("head_hash", Str (head_hash c)); ("min_available_seq", Num (min_available_seq c));
        ("boundary_compaction_id", opt_str (boundary_compaction_id c));
        ("transparency_id", Str (transparency_id c));
        ("transparency_index", Num (transparency_index c));
        ("transparency_hash", Str (transparency_hash c));
        ("writable", Bool (writable c)); ("notice_id", Str (notice_id c))]%string.

Definition as_bool (v : Value) : option bool :=
  match v with Bool b => Some b | _ => None end.
(** [Option<String>] with [#[serde(default)]] *)
Definition as_opt_string (o : option Value) : option (option string) :=
  match o with
  | None | Some Null => Some None
  | Some (Str x) => Some (Some x)
  | Some _ => None
  end.
Definition chain_of_json (v : Value) : option Chain :=
  ci ← get_opt v "chain_id" ≫= as_str; pa ← get_opt v "parameters";
  ep ← get_opt v "epoch"; li ← get_opt v "log_id" ≫= as_str;
  hs ← get_opt v "head_seq" ≫= as_u64; hh ← get_opt v "head_hash" ≫= as_str;
  ma ← get_opt v "min_available_seq" ≫= as_u64;
  bc ← as_opt_string (get_opt v "boundary_compaction_id");
  ti ← get_opt v "transparency_id" ≫= as_str;
  tx ← get_opt v "transparency_index" ≫= as_u64;
  th ← get_opt v "transparency_hash" ≫= as_str;
  wr ← get_opt v "writable" ≫= as_bool; ni ← get_opt v "notice_id" ≫= as_str;
  Some (MkChain ci pa ep li hs hh ma bc ti tx th wr ni).

(** ** The SELECTs *)

(** [COALESCE(MAX(id),0)] over the history rows of the chain. *)
Definition history_version {A} (p : A -> bool) (h : History A) : Z :=
  foldr Z.max 0 (fst <$> List.filter (fun r => p (snd r)) (hist_rows h)).

(** [WHERE seq>pos AND seq<=through ORDER BY seq LIMIT limit] *)
Definition key_leb {A} (x y : Z * A) : bool := fst x <=? fst y.
Definition log_range (c log : string) (pos through : Z) (limit : nat) (d : Db)
    : list (Z * LogRow) :=
  take limit (sort_by key_leb
    (omap (fun '((x, l, i), row) =>
       if String.eqb x c && String.eqb l log && (pos <? i) && (i <=? through)
       then Some (i, row) else None) (map_to_list (t_log d)))).
Definition transparency_range (c t : string) (pos through : Z) (limit : nat) (d : Db)
    : list (Z * TransparencyRow) :=
  take limit (sort_by key_leb
    (omap (fun '((x, l, i), row) =>
       if String.eqb x c && String.eqb l t && (pos <? i) && (i <=? through)
       then Some (i, row) else None) (map_to_list (t_transparency d)))).

(** [CAST(x AS INTEGER)]: a sign and the longest prefix of digits. *)
Fixpoint digits_prefix (x : string) : string :=
  match x with
  | String c x => if is_digit c then String c (digits_prefix x) else EmptyString
  | EmptyString => EmptyString
  end.
Definition cast_integer (x : string) : Z :=
  match strip_prefix "-" x with
  | Some x => - parse_digits (digits_prefix x)
  | None => parse_digits (digits_prefix x)
  end.

(** Object ids compare as integers for epochs, as text otherwise. *)
Definition after_key (k : Kind) (key id : string) : bool :=
  if bool_decide (k = KEpoch) then cast_integer key <? cast_integer id
  else str_ltb key id.
Definition object_leb {A} (k : Kind) (x y : string * A) : bool :=
  if bool_decide (k = KEpoch) then cast_integer (fst x) <=? cast_integer (fst y)
  else str_leb (fst x) (fst y).

(** [log_id IS NULL OR log_id<>? OR relay_seq<=?] *)
Definition visible (log : string) (head : Z) (row : ObjectRow) : bool :=
  match o_log row with
  | None => true
  | Some l => negb (String.eqb l log)
              || match o_seq row with Some q => q <=? head | None => false end
  end.
Definition object_page (c : string) (k : Kind) (key log : string) (head : Z) (d : Db)
    : list (string * Value) :=
  sort_by (object_leb k)
    (omap (fun '((x, k', i), row) =>
       if String.eqb x c && bool_decide (k' = k) && after_key k key i && visible log head row
       then (fun body => (i, body)) <$> o_body row else None)
       (map_to_list (t_objects d))).

(** The state of a device at a version of the registry. *)
Definition device_at (c i : string) (version : Z) (d : Db) : option RegistryHistoryRow :=
  snd <$> last (List.filter (fun r => String.eqb (rh_chain (snd r)) c
    && String.eqb (rh_device (snd r)) i && (fst r <=? version))
    (hist_rows (t_registry_history d))).

(** The epoch's log entry and sequence number: [LEFT JOIN v3_log]. *)
Definition epoch_row (c i : string) (d : Db) : option (option Value * option Z) :=
  row ← t_objects d !! (c, KEpoch, i);
  Some (log ← o_log row; seq ← o_seq row; t_log d !! (c, log, seq) ≫= l_entry, o_seq row).

Record Page := MkPage {
  cut : Chain;
  position : Z;
  pg_key : string;
  pg_limit : Z;
  resource : string;
  filters : Value;
  pg_expires : Z;
  extra : Value;
}.
Definition set_position (z : Z) (p : Page) : Page :=
  MkPage (cut p) z (pg_key p) (pg_limit p) (resource p) (filters p) (pg_expires p) (extra p).
Definition set_key (k : string) (p : Page) : Page :=
  MkPage (cut p) (position p) k (pg_limit p) (resource p) (filters p) (pg_expires p) (extra p).
Definition set_extra (v : Value) (p : Page) : Page :=
  MkPage (cut p) (position p) (pg_key p) (pg_limit p) (resource p) (filters p)
    (pg_expires p) v.

(** [v.map(f).transpose()?] *)
Definition opt_res {A B} (f : A -> Result B) (o : option A) : Result (option B) :=
  match o with None => Ok None | Some x => let! y := f x in ret (Some y) end.

(** The resources are the route names of the source. *)
Definition route_str (r : Route) : string :=
  match r with
  | RHealth => "health" | RGenesis => "genesis" | RImport => "import"
  | RDelete => "delete" | RReseed => "reseed" | RParametersGet => "parameters_get"
  | REnroll => "enroll" | RDevices => "devices" | RRevoke => "revoke"
  | ROwnEnvelopes => "own_envelopes" | RAck => "ack" | RRecordsPost => "records_post"
  | RRecordsGet => "records_get" | RRepair => "repair" | ROffer => "offer"
  | RRequest => "request" | RRequestsGet => "requests_get" | RApprove => "approve"
  | RReject => "reject" | REpochsPost => "epochs_post" | REpochsGet => "epochs_get"
  | REpochGet => "epoch_get" | RRecovery => "recovery"
  | REnvelopesPost => "envelopes_post" | RLog => "log" | RHead => "head"
  | RPrune => "prune" | RSnapshot => "snapshot" | RSnapshotsGet => "snapshots_get"
  | RPartsPost => "parts_post" | RPartGet => "part_get" | RSnapshotGet => "snapshot_get"
  | RExport => "export" | RNotice => "notice" | RDeletion => "deletion"
  | RReceipt => "receipt" | RTransparencyHead => "transparency_head"
  | RTransparency => "transparency"
  end.

Section Read.
Context {X : Ext} {O : Oracle}.
Implicit Types (c : Chain) (cfg : RelayConfig).

Definition pruned (c : Chain) : ApiError :=
  let context := json [("min_available_seq", Num (min_available_seq c));
                       ("log_id", Str (log_id c))]%string in
  with_context (err LOG_PRUNED)
    match boundary_compaction_id c with
    | Some id => set_member context "compaction_id" (Str id)
    | None => context
    end.

Definition has_query (q : list (string * string)) (name : string) : bool :=
  bool_decide (is_Some (query q name)).
Definition page_limit (cfg : RelayConfig) : Z := n (limits cfg) "page_limit".

Definition cursor_binding (cfg : RelayConfig) (resource : string) (filters : Value)
    : Value :=
  json [("origin", Str (origin cfg)); ("resource", Str resource);
        ("filters", filters)]%string.

(** The page that a cursor continues. *)
Definition resume (c : Chain) (cfg : RelayConfig) (resource token : string)
    (filters : Value) (limit : Z) : M Page :=
  fail_if ((2048 <? str_len token) || bool_decide (decode token None = None))
    (err CURSOR_INVALID) ;;;
  let! row := select (fun d => t_cursors d !! token) in
  let! row := ok_or row (err CURSOR_INVALID) in
  fail_if (negb (String.eqb (cu_chain row) (chain_id c))
           || negb (veqb (cu_binding row) (cursor_binding cfg resource filters)))
    (err CURSOR_INVALID) ;;;
  let expires := cu_expires row mod 2 ^ 64 in
  let! t := now in
  fail_if (expires <? t) (err CURSOR_EXPIRED) ;;;
  let state := cu_state row in
  let! cut := unwrap (chain_of_json (get state "cut")) in
  fail_if (negb (String.eqb (log_id cut) (log_id c))
           || negb (generation cut =? generation c)) (err LOG_ID_MISMATCH) ;;;
  fail_if (negb (String.eqb (transparency_id cut) (transparency_id c)))
    (err TRANSPARENCY_ID_MISMATCH) ;;;
  ret (MkPage cut (n state "position") (s state "key") limit resource filters expires
         (get state "extra")).

Definition page (c : Chain) (cfg : RelayConfig) (resource : string)
    (q : list (string * string)) (filters : Value) : M Page :=
  let! limit := lift (opt_res (fun x => decimal x 1 (page_limit cfg)) (query q "limit")) in
  let limit := default (Z.min 200 (page_limit cfg)) limit in
  fail_if (has_query q "cursor" && has_query q "after_seq") (err CURSOR_INVALID) ;;;
  match query q "cursor" with
  | Some token => resume c cfg resource token filters limit
  | None =>
      let! position := lift (opt_res (fun x => decimal x 0 MAX_INTEGER)
                               (query q "after_seq")) in
      let! registry_version := select (fun d => history_version
        (fun r => String.eqb (rh_chain r) (chain_id c)) (t_registry_history d)) in
      let! offer_version := select (fun d => history_version
        (fun r => String.eqb (oh_chain r) (chain_id c)) (t_offer_history d)) in
      let! t := now in
      ret (MkPage c (default 0 position) EmptyString limit resource filters (t + 86400000)
             (json [("registry_version", Num registry_version);
                    ("offer_version", Num offer_version)]%string))
  end.

(** The bytes of [Uuid::new_v4()]. *)
Definition random_bytes : M string :=
  let! u := new_id in
  let! u := unwrap (uuid_parse u) in
  ret (uuid_bytes u).

Definition cursor_state (p : Page) : Value :=
  json [("cut", chain_json (cut p)); ("position", Num (position p));
        ("key", Str (pg_key p)); ("extra", extra p)]%string.

Definition cursor (cfg : RelayConfig) (p : Page) : M string :=
  let! b1 := random_bytes in
  let! b2 := random_bytes in
  let token := b64_encode (b1 +:+ b2) in
  exec (fun d =>
    m ← insert_new token
          (MkCursorRow (chain_id (cut p)) (cursor_binding cfg (resource p) (filters p))
             (cursor_state p) (pg_expires p)) (t_cursors d);
    Some (set_cursors m d)) ;;;
  quota (chain_id (cut p)) cfg ;;;
  ret token.

(** The cursor of the next page, when there is one. *)
Definition next_cursor (cfg : RelayConfig) (p : Page) (more : bool) : M (option string) :=
  if more then let! t := cursor cfg p in ret (Some t) else ret None.

Definition finish (cfg : RelayConfig) (p : Page) (items : list Value) (more log : bool)
    : M Value :=
  let! next := next_cursor cfg p more in
  let v := json [("items", Arr items); ("next_cursor", opt_str next);
                 ("has_more", Bool more); ("log_id", Str (log_id (cut p)));
                 ("generation", Num (generation (cut p)));
                 ("head_seq", Num (head_seq (cut p)))]%string in
  ret (if log
       then set_member (set_member v "head_hash" (Str (head_hash (cut p))))
              "scan_through_seq" (Num (position p))
       else v).

(** [fits]: the new total when the item still fits in the page. *)
Definition fits (bytes : Z) (v : Value) : option Z :=
  let size := text_len v + 1 in
  if PAGE_BYTES <? bytes + size then None else Some (bytes + size).

(** Which entries a route shows. *)
Definition include_entry (route : Route) (tag : option string) (ep : option Z)
    (entry : Value) : bool :=
  bool_decide (route = RLog)
  || (String.eqb (s entry "kind") "record"
      && match tag with
         | None => true
         | Some t => veqb (get (get entry "object") "collection_tag") (Str t)
                     && bool_decide (ep = Some (n (get entry "object") "epoch"))
         end).
Definition recovery_entry (entry : Value) : bool :=
  String.eqb (s entry "kind") "envelope"
  && veqb (get (get entry "object") "recipient_kind") (Str "recovery").

(** The loop over the rows: the items and the position reached. *)
Fixpoint log_loop (c : Chain) (auth : Auth) (route : Route) (tag : option string)
    (ep : option Z) (limit : Z) (rows : list (Z * LogRow)) (items : list Value)
    (bytes pos : Z) : Result (list Value * Z) :=
  match rows with
  | [] => Ok (items, pos)
  | (seq, row) :: rows =>
      let! entry := ok_or (l_entry row) (pruned c) in
      if include_entry route tag ep entry then
        if limit <=? Z.of_nat (length items) then Ok (items, pos)
        else
          match fits bytes entry with
          | None => Ok (items, pos)
          | Some bytes =>
              fail_if (negb (admin auth) && recovery_entry entry)
                (err ENVELOPE_ACCESS_DENIED) ;;;
              log_loop c auth route tag ep limit rows (items ++ [entry]) bytes seq
          end
      else log_loop c auth route tag ep limit rows items bytes seq
  end.

Definition log_row_size (r : Z * LogRow) : Z := default 0 (text_len <$> l_entry (snd r)).

Definition log_filters (route : Route) : list string :=
  if bool_decide (route = RRecordsGet)
  then ["after_seq"; "cursor"; "limit"; "collection_tag"; "epoch"]%string
  else ["after_seq"; "cursor"; "limit"]%string.

Definition log (c : Chain) (cfg : RelayConfig) (auth : Auth) (route : Route)
    (q : list (string * string)) : M Value :=
  lift (allowed q (log_filters route)) ;;;
  let tag := query q "collection_tag" in
  fail_if (negb (Bool.eqb (has_query q "collection_tag") (has_query q "epoch"))
           || (has_query q "collection_tag"
               && negb (veqb (get (policy c) "metadata_profile") (Str "queryable"))))
    (err FILTER_NOT_ALLOWED) ;;;
  fail_if match tag with
          | Some t => bool_decide (decode t (Some 16) = None)
          | None => false
          end invalid ;;;
  let! ep := lift (opt_res (fun x => decimal x 0 u32_max) (query q "epoch")) in
  let! p := page c cfg (route_str route) q
              (json [("collection_tag", opt_str tag); ("epoch", opt_num ep)]%string) in
  fail_if (position p <? min_available_seq c - 1) (pruned c) ;;;
  let! rows := select (log_range (chain_id c) (log_id c) (position p)
                         (head_seq (cut p)) 1000) in
  let! rows := lift (bounded_rows log_row_size rows) in
  let! ' (items, pos) := lift (log_loop c auth route tag ep (pg_limit p) rows [] 0
                                 (position p)) in
  let p := set_position pos p in
  finish cfg p items (position p <? head_seq (cut p)) true.

Definition epoch_wrapper (c : Chain) (epoch : Value) : M Value :=
  let! ' (entry, seq) := fetch_one (epoch_row (chain_id c) (dec (n epoch "epoch"))) in
  let! entry := ok_or entry (err REPAIR_PROOF_REQUIRED) in
  let! seq := unwrap seq in
  ret (json [("epoch", epoch); ("epoch_hash", Str (object_hash epoch));
             ("committed_at_ms", Num (n entry "committed_at_ms"));
             ("relay_seq", Num seq)]%string).

(** The kind of object a collection lists. *)
Definition collection (route : Route) : option Kind :=
  match route with
  | RDevices => Some KDevice | REpochsGet => Some KEpoch
  | RSnapshotsGet => Some KCompaction | ROwnEnvelopes => Some KEnvelope
  | _ => None
  end.

(** An envelope that [own_envelopes] passes over. *)
Definition skip_envelope (param : string) (ep : option Z) (body : Value) : bool :=
  negb (veqb (get body "recipient_kind") (Str "device"))
  || negb (String.eqb (s body "recipient_device_id") param)
  || match ep with Some e => negb (n body "epoch" =? e) | None => false end.

Definition device_item (c : Chain) (p : Page) (id : string) (body : Value) : M Value :=
  let! r := fetch_one (device_at (chain_id c) id (n (extra p) "registry_version")) in
  let revoked := match rh_revoked_seq r with
                 | Some q => if q mod 2 ^ 64 <=? head_seq (cut p) then Some q else None
                 | None => None
                 end in
  ret (json [("device_record", body);
             ("status", Str (if bool_decide (is_Some revoked) then "revoked"
                             else status_str (rh_status r)));
             ("enrolled_seq", Num (rh_enrolled_seq r));
             ("revoked_seq", opt_num revoked)]%string).

Definition item_of (c : Chain) (route : Route) (p : Page) (id : string) (body : Value)
    : M Value :=
  match route with
  | RDevices => device_item c p id body
  | REpochsGet => epoch_wrapper c body
  | _ => ret body
  end.

(** The loop over the rows: the items, the key reached, whether the page is full. *)
Fixpoint objects_loop (c : Chain) (route : Route) (param : string) (ep : option Z)
    (p : Page) (rows : list (string * Value)) (items : list Value) (bytes : Z)
    : M (Page * list Value * bool) :=
  match rows with
  | [] => ret (p, items, false)
  | (id, body) :: rows =>
      if bool_decide (route = ROwnEnvelopes) && skip_envelope param ep body
      then objects_loop c route param ep (set_key id p) rows items bytes
      else
        let! item := item_of c route p id body in
        match (if pg_limit p <=? Z.of_nat (length items) then None else fits bytes item) with
        | None =>
            fail_if (bool_decide (items = [])) (err PAYLOAD_TOO_LARGE) ;;;
            ret (p, items, true)
        | Some bytes =>
            objects_loop c route param ep (set_key id p) rows (items ++ [item]) bytes
        end
  end.

Definition objects (c : Chain) (cfg : RelayConfig) (auth : Auth) (route : Route)
    (param : string) (q : list (string * string)) : M Value :=
  lift (allowed q (if bool_decide (route = ROwnEnvelopes)
                   then ["epoch"; "cursor"; "limit"]%string
                   else ["cursor"; "limit"]%string)) ;;;
  fail_if (bool_decide (route = ROwnEnvelopes) && negb (owns auth param))
    (err ENVELOPE_ACCESS_DENIED) ;;;
  let! ep := lift (opt_res (fun x => decimal x 0 u32_max) (query q "epoch")) in
  match ep with
  | Some e =>
      let! gone := expired c e in
      fail_if gone (err HISTORY_KEY_EXPIRED)
  | None => ret tt
  end ;;;
  let! p := page c cfg (route_str route) q
    (json [("device_id", Str param); ("epoch", opt_num ep);
           ("requester", opt_str (if bool_decide (route = RRequestsGet)
                                  then Auth.device auth else None))]%string) in
  let p := if bool_decide (route = REpochsGet) && String.eqb (pg_key p) EmptyString
           then set_key "-1" p else p in
  let! kind := unwrap (collection route) in
  let rows_from p :=
    select (object_page (chain_id c) kind (pg_key p) (log_id c) (head_seq (cut p))) in
  let! rows := rows_from p in
  let! rows := lift (bounded_rows (fun r => text_len (snd r)) (take 1001 rows)) in
  let! ' (p, items, more) := objects_loop c route param ep p rows [] 0 in
  let! more :=
    if more then ret true
    else let! left := rows_from p in ret (negb (bool_decide (left = []))) in
  finish cfg p items more false.

(** The items that fit, and the position reached. *)
Fixpoint transparency_loop (rows : list (Z * TransparencyRow)) (items : list Value)
    (bytes pos : Z) : list Value * Z :=
  match rows with
  | [] => (items, pos)
  | (_, row) :: rows =>
      match fits bytes (tr_entry row) with
      | None => (items, pos)
      | Some bytes =>
          transparency_loop rows (items ++ [tr_entry row]) bytes
            (n (tr_entry row) "entry_index")
      end
  end.

Definition range_error : ApiError := err TRANSPARENCY_RANGE_UNAVAILABLE.

(** The first page: the range is checked and the published head pinned. *)
Definition first_range (c : Chain) (p : Page) (after : Z) (through : option Z) : M Page :=
  let through := default (transparency_index c) through in
  fail_if ((through <? after) || (transparency_index c <? through)) range_error ;;;
  let! head := select (fun d => t_heads d !! (chain_id c, transparency_id c, through)) in
  let! head := ok_or head range_error in
  ret (set_position after (set_extra head p)).

Definition anchor_of (c : Chain) (cfg : RelayConfig) (anchor : Z) : M string :=
  if anchor =? 0 then
    unwrap (initial_hash TRANSPARENCY_CTX (chain_id c) (transparency_id c)
              (Some (key_id cfg)))
  else
    let! h := select (fun d => tr_hash <$>
      t_transparency d !! (chain_id c, transparency_id c, anchor)) in
    ok_or h range_error.

(** [read::transparency] *)
Definition transparency_page (c : Chain) (cfg : RelayConfig)
    (q : list (string * string)) : M Value :=
  lift (allowed q ["transparency_id"; "after_index"; "through_index"; "cursor";
                   "limit"]%string) ;;;
  let! id := ok_or (query q "transparency_id") invalid in
  fail_if (negb (uuid id)) invalid ;;;
  fail_if (negb (String.eqb id (transparency_id c))) (err TRANSPARENCY_ID_MISMATCH) ;;;
  let! after := lift (opt_res (fun x => decimal x 0 MAX_INTEGER) (query q "after_index")) in
  let after := default 0 after in
  let! through := lift (opt_res (fun x => decimal x 0 MAX_INTEGER)
                          (query q "through_index")) in
  let! p := page c cfg "transparency" q
    (json [("transparency_id", Str id); ("after_index", Num after);
           ("through_index", opt_num through)]%string) in
  let! p := if has_query q "cursor" then ret p else first_range c p after through in
  let anchor := position p in
  let! anchor_hash := anchor_of c cfg anchor in
  let end_ := n (extra p) "entry_index" in
  let! rows := select (transparency_range (chain_id c) id (position p) end_
                         (Z.to_nat (pg_limit p))) in
  let '(items, pos) := transparency_loop rows [] 0 (position p) in
  let p := set_position pos p in
  fail_if (bool_decide (items = []) && (position p <? end_)) range_error ;;;
  let more := position p <? end_ in
  let! next := next_cursor cfg p more in
  ret (json [("items", Arr items); ("head", extra p); ("anchor_index", Num anchor);
             ("anchor_hash", Str anchor_hash); ("next_cursor", opt_str next);
             ("has_more", Bool more)]%string).
End Read.
