(* ===== verification/Export.v ===== *)
(** * The export stream ([src/src/api/export.rs])

    A chain as JSON lines, in ten groups of rows in a stable order, cut at the page
    limit and resumed from a cursor that pins both logs. *)
From S2P Require Import Prelude Error Json Verify Jcs Wire Query Routes Db Monad Config.
From S2P Require Import Store Auth Domain Retention Read.

Definition newline : string := String (ascii_of_Z 10) EmptyString.

(** A row of a group: its key, the size of the column that bounds the query, its item. *)
Definition ExportRow : Type := string * Z * Value.
Definition row_key (r : ExportRow) : string := fst (fst r).
Definition row_size (r : ExportRow) : Z := snd (fst r).

(** [ORDER BY key LIMIT limit] on the rows after [key]. *)
Definition page_rows (key : string) (limit : nat) (l : list ExportRow) : list ExportRow :=
  take limit (sort_by (fun x y => str_leb (row_key x) (row_key y))
    (List.filter (fun r => str_ltb key (row_key r)) l)).

(** [printf('%016d',seq)] *)
Fixpoint zeros (k : nat) : string :=
  match k with 0%nat => EmptyString | S k => String "0" (zeros k) end.
Definition pad16 (z : Z) : string :=
  let x := dec z in zeros (16 - String.length x) +:+ x.

(** [json_extract(v,'$.k')<=bound]: NULL, so false, without the member. *)
Definition member_le (v : Value) (k : string) (bound : Z) : bool :=
  match get v k with Num z => z <=? bound | _ => false end.

Section Exporting.
Context {X : Ext} {O : Oracle}.
Implicit Types (c : Chain) (cfg : RelayConfig).

(** Groups 1, 2 and 5: compactions and snapshot parts visible at the cut. *)
Definition object_rows (c : Chain) (k : Kind) (boundary : bool) (item : Value -> Value)
    (d : Db) : list ExportRow :=
  omap (fun '((x, k', i), row) =>
    if String.eqb x (chain_id c) && bool_decide (k' = k)
       && match t_receipts d !! (x, k', i) with
          | None => true
          | Some r => member_le (rc_receipt r) "transparency_index" (transparency_index c)
          end
       && (negb boundary || bool_decide (boundary_compaction_id c = Some i))
    then body ← o_body row;
         if member_le body "generation" (generation c)
         then Some (i, text_len body, item body) else None
    else None) (map_to_list (t_objects d)).

(** Group 3: the control objects of other logs. *)
Definition control_kind (k : Kind) : bool :=
  match k with KParameters | KDevice | KEpoch | KEnvelope | KAdmin => true | _ => false end.
Definition control_rows (c : Chain) (d : Db) : list ExportRow :=
  omap (fun '((x, k, i), row) =>
    if String.eqb x (chain_id c) && control_kind k
       && negb (bool_decide (o_log row = Some (log_id c)))
    then body ← o_body row;
         if member_le body "generation" (generation c)
         then Some ((kind_str k +:+ ":" +:+ i)%string, text_len body,
                    json [("kind", Str "control"); ("object_type", Str (kind_str k));
                          ("object", body)]%string) else None
    else None) (map_to_list (t_objects d)).

(** Group 4: the records whose bodies are gone. *)
Definition removed_rows (c : Chain) (d : Db) : list ExportRow :=
  omap (fun '((x, k, i), row) =>
    if String.eqb x (chain_id c) && bool_decide (k = KRecord)
       && bool_decide (o_body row = None)
    then Some (i, str_len (o_hash row),
               json [("kind", Str "removed_id"); ("record_id", Str i);
                     ("record_hash", Str (o_hash row))]%string)
    else None) (map_to_list (t_objects d)).

(** Group 6: the entries of other logs, by entry hash. *)
Definition source_rows (c : Chain) (d : Db) : list ExportRow :=
  omap (fun '((x, _, _), r) =>
    if String.eqb x (chain_id c) && negb (String.eqb (rc_log r) (log_id c))
       && member_le (rc_receipt r) "transparency_index" (transparency_index c)
    then seq ← rc_seq r; l ← t_log d !! (x, rc_log r, seq); entry ← l_entry l;
         hash ← as_str (get (rc_receipt r) "entry_hash");
         Some (hash, text_len entry,
               json [("kind", Str "source_receipt"); ("receipt", entry)]%string)
    else None) (map_to_list (t_receipts d)).

(** Group 7: the receipts. *)
Definition receipt_key (r : ReceiptRow) : option string :=
  match rc_seq r with
  | Some seq => Some (pad16 seq +:+ ":" +:+ rc_log r)%string
  | None => i ← as_str (get (rc_receipt r) "receipt_id"); Some ("z" +:+ i)%string
  end.
Definition receipt_rows (c : Chain) (d : Db) : list ExportRow :=
  omap (fun '((x, _, _), r) =>
    if String.eqb x (chain_id c)
       && member_le (rc_receipt r) "transparency_index" (transparency_index c)
    then k ← receipt_key r;
         Some (k, text_len (rc_receipt r),
               json [("kind", Str "upload_receipt"); ("receipt", rc_receipt r)]%string)
    else None) (map_to_list (t_receipts d)).

(** [if p.key.is_empty() { 0 } else { p.key.parse::<u64>().unwrap() }] *)
Definition numeric_key (p : Page) : M Z :=
  if String.eqb (pg_key p) EmptyString then ret 0 else unwrap (parse_u64 (pg_key p)).

Definition log_items (l : list (Z * LogRow)) : list ExportRow :=
  omap (fun '(i, row) => entry ← l_entry row;
    Some (dec i, text_len entry, json [("kind", Str "log"); ("entry", entry)]%string)) l.
Definition transparency_items (l : list (Z * TransparencyRow)) : list ExportRow :=
  (fun '(i, row) => (dec i, text_len (tr_entry row),
     json [("kind", Str "transparency_entry"); ("entry", tr_entry row)]%string)) <$> l.

Definition boundary_item (body : Value) : Value :=
  json [("kind", Str "boundary"); ("compaction", body)]%string.
Definition compaction_item (body : Value) : Value :=
  json [("kind", Str "compaction"); ("compaction", body)]%string.
Definition part_item (body : Value) : Value :=
  json [("kind", Str "snapshot_part"); ("record", body)]%string.

(** The query of a group, before [bounded_rows].  In groups 0 and 8 the LIMIT is
    taken after the erased entries are left out. *)
Definition group_query (p : Page) (phase : Z) : M (list ExportRow) :=
  let c := cut p in
  let limit := S (Z.to_nat (pg_limit p)) in
  let rows f := select (fun d => page_rows (pg_key p) limit (f d)) in
  match phase with
  | 0 =>
      let! seq := numeric_key p in
      select (fun d => take limit (log_items
        (log_range (chain_id c) (log_id c) seq (head_seq c) (size (t_log d)) d)))
  | 1 => rows (object_rows c KCompaction true boundary_item)
  | 2 => rows (object_rows c KCompaction false compaction_item)
  | 3 => rows (control_rows c)
  | 4 => rows (removed_rows c)
  | 5 => rows (object_rows c KSnapshotPart false part_item)
  | 6 => rows (source_rows c)
  | 7 => rows (receipt_rows c)
  | 8 =>
      let! index := numeric_key p in
      select (fun d => transparency_items
        (transparency_range (chain_id c) (transparency_id c) index
           (transparency_index c) limit d))
  | _ => panic
  end.

Definition group (p : Page) (phase : Z) : M (list (string * Value)) :=
  if phase =? 9 then
    ret (if String.eqb (pg_key p) EmptyString
         then [("head", json [("kind", Str "transparency_head");
                              ("head", get (extra p) "head")])]%string
         else [])
  else
    let! rows := group_query p phase in
    let! rows := lift (bounded_rows row_size rows) in
    ret ((fun r => (row_key r, snd r)) <$> rows).

(** The object an item shows; recovery envelopes are withheld unless [include]. *)
Definition protected_object (item : Value) : option Value :=
  if String.eqb (s item "kind") "log" then Some (get (get item "entry") "object")
  else if String.eqb (s item "kind") "control" then Some (get item "object")
  else if String.eqb (s item "kind") "source_receipt"
  then Some (get (get item "receipt") "object")
  else None.
Definition protect (item : Value) (include : bool) : option Value :=
  if negb include
     && match protected_object item with
        | Some v => veqb (get v "recipient_kind") (Str "recovery")
        | None => false
        end
  then
    if String.eqb (s item "kind") "log" then
      Some (json [("kind", Str "omitted");
                  ("relay_seq", get (get item "entry") "relay_seq");
                  ("object_hash", Str (object_hash (get (get item "entry") "object")));
                  ("reason", Str "recovery_authority")]%string)
    else None
  else Some item.

(** The state of the loop: page, output, lines written. *)
Record Stream := MkStream { st_page : Page; st_out : string; st_count : Z }.

(** The rows of one group: [false] when the output is full. *)
Fixpoint emit_rows (include : bool) (rows : list (string * Value)) (st : Stream)
    : Stream * bool :=
  match rows with
  | [] => (st, true)
  | (key, item) :: rows =>
      match protect item include with
      | None =>
          emit_rows include rows
            (MkStream (set_key key (st_page st)) (st_out st) (st_count st))
      | Some v =>
          let line := text v +:+ newline in
          if (pg_limit (st_page st) <=? st_count st)
             || (RESPONSE_MAX - 4096 <? str_len (st_out st) + str_len line)
          then (st, false)
          else emit_rows include rows
                 (MkStream (set_key key (st_page st)) (st_out st +:+ line) (st_count st + 1))
      end
  end.

Definition phase_of (p : Page) : Z := n (extra p) "phase".
Definition full (st : Stream) : bool := pg_limit (st_page st) <=? st_count st.

(** One iteration; [false] is [break]. *)
Definition export_step (include : bool) (st : Stream) : M (bool * Stream) :=
  let phase := phase_of (st_page st) in
  if 10 <=? phase then ret (false, st)
  else
    let! rows := group (st_page st) phase in
    let '(st, all) := emit_rows include rows st in
    if negb all then ret (false, st)
    else
      let! more := group (st_page st) phase in
      match more with
      | _ :: _ => ret (negb (full st), st)
      | [] =>
          let p := st_page st in
          (if settable (extra p) then ret tt else panic) ;;;
          let st := MkStream
            (set_key EmptyString
               (set_extra (set_member (extra p) "phase" (Num (phase + 1))) p))
            (st_out st) (st_count st) in
          ret (negb (full st), st)
      end.

(** [panic] on lack of fuel. *)
Fixpoint export_loop (fuel : nat) (include : bool) (st : Stream) : M Stream :=
  match fuel with
  | 0%nat => panic
  | S fuel =>
      let! ' (continue, st) := export_step include st in
      if continue then export_loop fuel include st else ret st
  end.

(** A step that continues passes a group or at least one of its rows. *)
Definition export_fuel (d : Db) : nat :=
  12 + size (t_log d) + 5 * size (t_objects d) + 2 * size (t_receipts d)
  + size (t_transparency d).

Definition export_stream (include : bool) (st : Stream) : M Stream :=
  fun w => export_loop (export_fuel (db w)) include st w.

Definition export_header (c : Chain) (cfg : RelayConfig) (cut : Chain) (include : bool)
    : Value :=
  json [("kind", Str "header"); ("protocol", Str "pallasync/3");
        ("chain_id", Str (chain_id c)); ("generation", Num (generation cut));
        ("log_id", Str (log_id cut)); ("head_seq", Num (head_seq cut));
        ("head_hash", Str (head_hash cut)); ("include_recovery", Bool include);
        ("relay_public_key", Str (b64_encode (verifying_key (key cfg))));
        ("relay_key_id", Str (key_id cfg));
        ("transparency_id", Str (transparency_id cut));
        ("transparency_head_index", Num (transparency_index cut));
        ("transparency_head_hash", Str (transparency_hash cut))]%string.

Definition include_flag (q : list (string * string)) : Result bool :=
  match query q "include_recovery" with
  | None => Ok false
  | Some x => if String.eqb x "true" then Ok true
              else if String.eqb x "false" then Ok false else Err invalid
  end.

Definition export (c : Chain) (cfg : RelayConfig) (auth : Auth)
    (q : list (string * string)) : M string :=
  lift (allowed q ["cursor"; "limit"; "include_recovery"]%string) ;;;
  let! include := lift (include_flag q) in
  fail_if (include && negb (admin auth)) (err ENVELOPE_ACCESS_DENIED) ;;;
  let! p := page c cfg "export" q (json [("include_recovery", Bool include)]%string) in
  fail_if (min_available_seq (cut p) <? min_available_seq c) (pruned c) ;;;
  let! p :=
    if has_query q "cursor" then ret p
    else
      let! head := fetch_one (fun d =>
        t_heads d !! (chain_id c, transparency_id c, transparency_index c)) in
      ret (set_extra (json [("phase", Num 0); ("head", head)]%string) p) in
  let out := text (export_header c cfg (cut p) include) +:+ newline in
  let! st := export_stream include (MkStream p out 0) in
  let more := phase_of (st_page st) <? 10 in
  let! next := next_cursor cfg (st_page st) more in
  let out := st_out st +:+
    text (json [("kind", Str "continuation"); ("next_cursor", opt_str next);
                ("has_more", Bool more)]%string) +:+ newline in
  fail_if (RESPONSE_MAX <? str_len out) (err PAYLOAD_TOO_LARGE) ;;;
  ret out.
End Exporting.
