(* ===== verification/Sync.v ===== *)
(** * The service ([src/src/api/sync.rs])

    The life of a request: the endpoint, authentication in a transaction of its
    own, the handler in a second one, the audit of a rejection in a third; the
    start of the service; and the loop of [main].  HTTP framing is reduced to the fields
    of [Request]. *)
From S2P Require Import Prelude Error Json Verify Jcs Wire Query Routes Db Monad Config.
From S2P Require Import Store Auth Domain Retention Mutation Deletion Batch Import Read.
From S2P Require Import Export.

Definition VENDOR_MEDIA_TYPE : string := "application/vnd.palleria.sync.v3+json".
Definition EXPORT_MEDIA_TYPE : string := "application/vnd.palleria.sync.export.v3+jsonl".

(** A JSON answer, or raw bytes with their content type. *)
Inductive Response :=
  | JsonResponse (status : Z) (body : Value)
  | RawResponse (status : Z) (content_type : string) (bytes : string).

(** The routes whose handlers check the query themselves. *)
Definition own_query (r : Route) : bool :=
  match r with
  | RDevices | REpochsGet | ROwnEnvelopes | RSnapshotsGet | RRequestsGet | RRecordsGet
  | RLog | RExport | RTransparency | RReceipt => true
  | _ => false
  end.

(** ** The SELECTs of the read routes *)
Definition envelope_with_hash (c hash : string) (d : Db) : option Value :=
  hd_error (omap (fun '((x, k, _), row) =>
    if String.eqb x c && bool_decide (k = KEnvelope) && String.eqb (o_hash row) hash
    then Some (o_body row) else None) (map_to_list (t_objects d))) ≫= (fun body => body).

(** The receipt at a position, with the entry of its log row if there is one. *)
Definition receipt_at (c log : string) (seq : Z) (d : Db) : option (Value * option Value) :=
  hd_error (omap (fun '((x, _, _), r) =>
    if String.eqb x c && String.eqb (rc_log r) log && bool_decide (rc_seq r = Some seq)
    then Some (rc_receipt r, t_log d !! (c, log, seq) ≫= l_entry) else None)
    (map_to_list (t_receipts d))).

(** The last version of an offer: [MAX(id)] among its rows up to [version]. *)
Definition latest_offer (c i : string) (version : Z) (l : list (Z * OfferHistoryRow))
    : option Z :=
  fst <$> last (List.filter (fun r => String.eqb (oh_chain (snd r)) c
    && String.eqb (oh_request_id (snd r)) i && (fst r <=? version)) l).
Definition offer_page (c key device : string) (version g : Z) (is_admin : bool)
    (limit : nat) (d : Db) : list OfferHistoryRow :=
  let l := hist_rows (t_offer_history d) in
  take limit (sort_by (fun x y => str_leb (oh_request_id x) (oh_request_id y))
    (snd <$> List.filter (fun r =>
       String.eqb (oh_chain (snd r)) c && str_ltb key (oh_request_id (snd r))
       && bool_decide (is_Some (oh_request (snd r)))
       && bool_decide (latest_offer c (oh_request_id (snd r)) version l = Some (fst r))
       && veqb (get (oh_offer (snd r)) "generation") (Num g)
       && (veqb (get (oh_offer (snd r)) "offering_device_id") (Str device) || is_admin)) l)).

Definition to_lower (c : ascii) : ascii :=
  if is_upper c then ascii_of_Z (byte_of c + 32) else c.
Fixpoint lower (x : string) : string :=
  match x with
  | EmptyString => EmptyString
  | String c x => String (to_lower c) (lower x)
  end.
Definition eq_ignore_ascii_case (x y : string) : bool := String.eqb (lower x) (lower y).

(** What [handle] reads of an HTTP request; [Some None] is a header that is not
    visible ASCII.  [permit] tells whether a transfer slot of the chain is free. *)
Record Request := MkRequest {
  method : string;
  path : string;
  raw_query : option string;
  h_authorization : option (option string);
  h_content_type : option (option string);
  h_content_encoding : option (option string);
  source : string;
  timed_out : bool;
  rq_bytes : string;
  permit : bool;
}.

Section Sync.
Context {X : Ext} {O : Oracle}.
(** The [mime] crate: the essence and the charset of a media type. *)
Context (mime_parse : string -> option (string * option string)).
Implicit Types (c : Chain) (cfg : RelayConfig).

Definition requests (c : Chain) (cfg : RelayConfig) (auth : Auth)
    (q : list (string * string)) : M Value :=
  lift (allowed q ["cursor"; "limit"]%string) ;;;
  let! p := page c cfg "requests_get" q
              (json [("device_id", opt_str (Auth.device auth))]%string) in
  let! rows := select (offer_page (chain_id c) (pg_key p)
    (default EmptyString (Auth.device auth)) (n (extra p) "offer_version")
    (generation c) (admin auth) (S (Z.to_nat (pg_limit p)))) in
  let more := (Z.to_nat (pg_limit p) <? length rows)%nat in
  let shown := take (Z.to_nat (pg_limit p)) rows in
  let p := match last shown with
           | Some r => set_key (oh_request_id r) p
           | None => p
           end in
  let items := (fun r =>
    let request := default Null (oh_request r) in
    json [("request_hash", Str (object_hash request)); ("request", request);
          ("status", Str (oh_status r));
          ("offering_device_id", get (oh_offer r) "offering_device_id")]%string) <$> shown in
  let! next := next_cursor cfg p more in
  ret (json [("items", Arr items); ("next_cursor", opt_str next); ("has_more", Bool more);
             ("log_id", Str (log_id (cut p))); ("generation", Num (generation (cut p)));
             ("head_seq", Num (head_seq (cut p)))]%string).

Definition parameters_get (c : Chain) (cfg : RelayConfig) : M Value :=
  let! t := now in
  let! bytes := used (chain_id c) in
  ret (json [("parameters", parameters c); ("parameters_hash", Str (parameters_hash c));
             ("epoch_hash", Str (epoch_hash c)); ("log_id", Str (log_id c));
             ("generation", Num (generation c)); ("head_seq", Num (head_seq c));
             ("head_hash", Str (head_hash c)); ("server_time_ms", Num t);
             ("quota", json [("used_bytes", Num bytes);
                             ("max_bytes", opt_num (max_bytes cfg))])]%string).

Definition notice (c : Chain) : M Value :=
  let! published := select (fun d => t_notices d !! chain_id c) in
  match published with
  | Some v => ret v
  | None =>
      let! t := now in
      ret (json [("shutdown_at_ms", Null); ("migration_origin", Null);
                 ("notice_id", Str (notice_id c)); ("server_time_ms", Num t)]%string)
  end.

Definition recovery (c : Chain) (auth : Auth) (param : string) : M Value :=
  fail_if (negb (admin auth)) (err ENVELOPE_ACCESS_DENIED) ;;;
  let! e := unwrap (parse_u64 param) in
  let! gone := expired c e in
  fail_if gone (err HISTORY_KEY_EXPIRED) ;;;
  let! epoch := object (chain_id c) KEpoch param in
  let! epoch := ok_or epoch (err EPOCH_NOT_FOUND) in
  let! envelope := select (envelope_with_hash (chain_id c)
                             (s epoch "recovery_envelope_hash")) in
  let! envelope := ok_or envelope (err ENVELOPE_NOT_FOUND) in
  ret (json [("envelope", envelope)]%string).

Definition part_get (c : Chain) (param : string) : M Value :=
  let! record := object (chain_id c) KSnapshotPart param in
  let! record := ok_or record (err SNAPSHOT_PART_NOT_FOUND) in
  fail_if (generation c <? n record "generation") (err SNAPSHOT_PART_NOT_FOUND) ;;;
  let! r := receipt (chain_id c) KSnapshotPart param in
  ret (json [("record", record); ("upload_receipt", r)]%string).

Definition receipt_get (c : Chain) (auth : Auth) (q : list (string * string))
    (param : string) : M Value :=
  lift (allowed q ["log_id"]%string) ;;;
  let! id := ok_or (query q "log_id") invalid in
  fail_if (negb (uuid id)) invalid ;;;
  fail_if (negb (String.eqb id (log_id c))) (err LOG_ID_MISMATCH) ;;;
  let! seq := unwrap (parse_u64 param) in
  let! row := select (receipt_at (chain_id c) id seq) in
  let! ' (r, entry) := ok_or row (err RECEIPT_NOT_FOUND) in
  let entry := default Null entry in
  fail_if (negb (admin auth)
           && veqb (get (get entry "object") "recipient_kind") (Str "recovery"))
    (err ENVELOPE_ACCESS_DENIED) ;;;
  ret (json [("entry", entry); ("receipt", r)]%string).

(** The arms of [dispatch] that only read, all with status 200; [None] on the
    other routes. *)
Definition read_arm (c : Chain) (cfg : RelayConfig) (auth : Auth) (ep : Endpoint)
    (q : list (string * string)) : option (M Value) :=
  match ep_route ep with
  | RParametersGet => Some (parameters_get c cfg)
  | RHead => Some (ret (Store.head c))
  | RNotice => Some (notice c)
  | RDevices | REpochsGet | RSnapshotsGet | ROwnEnvelopes =>
      Some (objects c cfg auth (ep_route ep) (ep_param ep) q)
  | RRecordsGet | RLog => Some (log c cfg auth (ep_route ep) q)
  | REpochGet => Some (
      let! epoch := object (chain_id c) KEpoch (ep_param ep) in
      let! epoch := ok_or epoch (err EPOCH_NOT_FOUND) in
      epoch_wrapper c epoch)
  | RRecovery => Some (recovery c auth (ep_param ep))
  | RPartGet => Some (part_get c (ep_param ep))
  | RSnapshotGet => Some (
      let! comp := object (chain_id c) KCompaction (ep_param ep) in
      let! comp := ok_or comp (err SNAPSHOT_NOT_FOUND) in
      ret (json [("compaction", comp)]%string))
  | RTransparencyHead => Some (
      let! head := fetch_one (fun d =>
        t_heads d !! (chain_id c, transparency_id c, transparency_index c)) in
      ret (json [("head", head)]%string))
  | RTransparency => Some (transparency_page c cfg q)
  | RReceipt => Some (receipt_get c auth q (ep_param ep))
  | RDeletion => Some (fail (err CHAIN_NOT_FOUND))
  | RRequestsGet => Some (requests c cfg auth q)
  | _ => None
  end.

(** The arms that write.  The last is [unreachable!]: the routes it stands for
    are served elsewhere. *)
Definition write_arm (c : Chain) (cfg : RelayConfig) (auth : Auth) (ep : Endpoint)
    (v : Value) : M (Chain * (Z * Value)) :=
  let with_status code (m : M (Chain * Value)) :=
    let! ' (c, r) := m in ret (c, (code, r)) in
  let keep (m : M (Z * Value)) := let! r := m in ret (c, r) in
  match ep_route ep with
  | REnroll => enroll c cfg auth v None
  | REpochsPost => Mutation.epoch c cfg auth v None
  | RRevoke => Mutation.epoch c cfg auth v (Some (ep_param ep))
  | ROffer => keep (offer c auth v)
  | RApprove => approve c cfg auth (ep_param ep) v false
  | RReject => approve c cfg auth (ep_param ep) v true
  | RAck => keep (let! r := ack c auth (ep_param ep) v in ret (200, r))
  | RSnapshot => snapshot c cfg v
  | RPrune => with_status 200 (prune c cfg auth v)
  | RReseed => with_status 200 (reseed c cfg auth v)
  | RDelete => with_status 202 (Deletion.delete c cfg auth v)
  | _ => panic
  end.

Definition dispatch (c : Chain) (cfg : RelayConfig) (auth : Auth) (ep : Endpoint)
    (q : list (string * string)) (v : Value) : M (Chain * Response) :=
  (if own_query (ep_route ep) then ret tt else lift (allowed q [])) ;;;
  if bool_decide (ep_route ep = RExport) then
    let! bytes := export c cfg auth q in
    ret (c, RawResponse 200 EXPORT_MEDIA_TYPE bytes)
  else
    let! ' (c, (status, value)) :=
      match read_arm c cfg auth ep q with
      | Some m => let! v := m in ret (c, (200, v))
      | None => write_arm c cfg auth ep v
      end in
    fail_if (RESPONSE_MAX <? text_len value) (err PAYLOAD_TOO_LARGE) ;;;
    ret (c, JsonResponse status value).

(** ** The audit of a rejected request *)
Definition unaudited (co : Code) : bool :=
  match co with
  | RATE_LIMITED | QUOTA_EXCEEDED | STORAGE_UNAVAILABLE | INVALID_JSON => true
  | _ => false
  end.
Definition is_valid (v : Value) (k : Schema) : bool :=
  match validate v k with Ok _ => true | _ => false end.
Definition candidates (v : Value) : list Value :=
  omap (fun '(k, sc) => o ← get_opt v k; if is_valid o sc then Some o else None)
    [("parameters", SParameters); ("device_record", SDevice); ("epoch", SEpoch);
     ("compaction", SCompaction); ("admin_operation", SAdmin)]%string
  ++ List.filter (fun o => is_valid o SEnvelope) (a v "envelopes")
  ++ List.filter (fun o => is_valid o SDevice) (a v "device_records").

Definition reject_entry (cfg : RelayConfig) (co : Code) (c : Chain) (obj : Value)
    : M Chain :=
  let! ' (c, _) := transparency c cfg "reject" (object_hash obj) None (Str (code_str co)) in
  ret c.

Definition audit_entries (cfg : RelayConfig) (chain : string) (v : Value) (co : Code)
    : M bool :=
  let! c := load chain in
  match c with
  | Some c =>
      let! c := foldM (reject_entry cfg co) c (candidates v) in
      save c cfg ;;;
      ret true
  | None => ret false
  end.
(** Without the chain the transaction is dropped instead of committed. *)
Definition audit_request (cfg : RelayConfig) (chain : string) (v : Value) (co : Code)
    : M unit :=
  if unaudited co || bool_decide (candidates v = []) then ret tt
  else
    let! d0 := begin_tx in
    let! r := try_tx d0 (audit_entries cfg chain v co) in
    match r with
    | Ok true => commit_tx d0
    | Ok false => ret tt
    | Err e => fun w => (Err e, rollback (MkWorld d0 (tick w)) w)
    | Panic => panic
    end.

(** ** The transaction of a request *)
Definition chain_handler (cfg : RelayConfig) (auth : Auth) (method : string)
    (ep : Endpoint) (q : list (string * string)) (v : Value) : M Response :=
  let! c := load (ep_chain ep) in
  let! c := ok_or c (err CHAIN_NOT_FOUND) in
  fail_if (negb (writable c) && negb (admin auth && bool_decide (ep_route ep = RReseed)))
    (err CHAIN_NOT_FOUND) ;;;
  check_state c auth (ep_route ep) ;;;
  let! ' (c, r) := dispatch c cfg auth ep q v in
  (if String.eqb method "GET" then ret tt
   else save c cfg ;;; quota (chain_id c) cfg) ;;;
  ret r.
Definition run_handler (cfg : RelayConfig) (auth : Auth) (method : string) (ep : Endpoint)
    (q : list (string * string)) (v : Value) : M Response :=
  match ep_route ep with
  | RGenesis =>
      lift (allowed q []) ;;;
      let! ' (status, r, _) := genesis cfg v in
      ret (JsonResponse status r)
  | RImport =>
      lift (require_admin auth) ;;;
      lift (allowed q []) ;;;
      let! ' (r, _) := stage cfg v in
      ret (JsonResponse 202 r)
  | _ => chain_handler cfg auth method ep q v
  end.

(** The answer on a chain that has a deletion proof. *)
Definition deleted_answer (d0 : Db) (ep : Endpoint) (q : list (string * string))
    (v proof : Value) : M Response :=
  if bool_decide (ep_route ep = RDeletion) then
    lift (allowed q []) ;;;
    commit_tx d0 ;;;
    ret (JsonResponse 200 proof)
  else if bool_decide (ep_route ep = RDelete) then
    let! row := fetch_one (fun d => t_deletions d !! ep_chain ep) in
    if String.eqb (de_request_hash row) (object_hash v) then
      commit_tx d0 ;;;
      ret (JsonResponse 202 (de_outcome row))
    else fail (gone proof)
  else fail (gone proof).

Definition serve (cfg : RelayConfig) (auth : Auth) (method : string) (ep : Endpoint)
    (q : list (string * string)) (v : Value) : M Response :=
  let! d0 := begin_tx in
  let! p := proof (ep_chain ep) in
  match p with
  | Some p => deleted_answer d0 ep q v p
  | None =>
      let! r := try_tx d0 (run_handler cfg auth method ep q v) in
      match r with
      | Ok response =>
          commit_tx d0 ;;;
          (if bool_decide (ep_route ep = RDelete)
           then try_ (complete cfg) ;;; ret tt else ret tt) ;;;
          ret response
      | Err e =>
          rollback_tx d0 ;;;
          audit_request cfg (ep_chain ep) v (code e) ;;;
          fail e
      | Panic => panic
      end
  end.

(** ** The unauthenticated enrollment request *)
Definition offer_missing : ApiError := err OFFER_NOT_FOUND.
Definition candidate (cfg : RelayConfig) (chain : string) (q : list (string * string))
    (v : Value) : M (Z * Value) :=
  lift (allowed q []) ;;;
  let! p := proof chain in
  fail_if (bool_decide (is_Some p)) offer_missing ;;;
  let! c := load chain in
  let! c := ok_or c offer_missing in
  fail_if (negb (writable c)) offer_missing ;;;
  let! r := enrollment_request c v in
  quota chain cfg ;;;
  ret r.
(** [SAVEPOINT; m; ROLLBACK TO on an error; RELEASE] *)
Definition savepoint {A} (m : M A) : M A :=
  let! d0 := begin_tx in
  let! r := try_ m in
  match r with Err _ => exec_ (fun _ => d0) | _ => ret tt end ;;;
  select (fun _ => tt) ;;;
  lift r.
Definition enrollment_source (cfg : RelayConfig) (source chain : string)
    (q : list (string * string)) (v : Value) : M Response :=
  map_err offer_missing (write_guard cfg) ;;;
  let! ' (status, r) := transaction true (
    rate cfg "enrollment_source_ip" (hash_bytes source) ;;;
    rate cfg "enrollment_offer" (chain +:+ ":" +:+ s v "request_id") ;;;
    savepoint (candidate cfg chain q v)) in
  ret (JsonResponse status r).

(** ** The request *)
Definition is_batch (r : Route) : bool :=
  match r with RRecordsPost | RPartsPost | RRepair | REnvelopesPost => true | _ => false end.

Definition upload_batch (cfg : RelayConfig) (auth : Auth) (ep : Endpoint)
    (q : list (string * string)) (v : Value) : M Response :=
  lift (allowed q []) ;;;
  (if bool_decide (ep_route ep = RRecordsPost) || bool_decide (ep_route ep = RPartsPost)
   then transaction true (rate cfg "record_upload_device"
          (ep_chain ep +:+ ":" +:+ default "admin"%string (Auth.device auth)))
   else ret tt) ;;;
  let! r := upload cfg auth (ep_chain ep) (ep_route ep) (ep_param ep) v in
  ret (JsonResponse 200 r).

Definition parsed_body (rq : Request) : Result Value :=
  if String.eqb (method rq) "GET" then
    if String.eqb (rq_bytes rq) EmptyString then Ok Null else Err invalid
  else
    let ct := match h_content_type rq with Some (Some x) => x | _ => EmptyString end in
    if match mime_parse ct with
       | Some (essence, charset) =>
           eq_ignore_ascii_case essence VENDOR_MEDIA_TYPE
           && match charset with Some x => eq_ignore_ascii_case x "utf-8" | None => true end
       | None => false
       end
    then match parse (rq_bytes rq) with
         | Ok v => Ok v | Err _ => Err (err INVALID_JSON) | Panic => Panic
         end
    else Err (err UNSUPPORTED_MEDIA_TYPE).

Definition document (cfg : RelayConfig) (rq : Request) (q : list (string * string))
    : M Response :=
  fail_if (negb (String.eqb (method rq) "GET")) (err METHOD_NOT_ALLOWED) ;;;
  fail_if (negb (bool_decide (q = [])) || negb (String.eqb (rq_bytes rq) EmptyString))
    invalid ;;;
  transaction true (rate cfg "public_document_ip" (hash_bytes (source rq))) ;;;
  ret (if String.eqb (path rq) "/privacy.md"
       then RawResponse 200 "text/markdown;charset=utf-8" (markdown cfg)
       else RawResponse 200 "application/json" (canonicalize_json (privacy cfg))).

Definition auth_request (rq : Request) (ep : Endpoint) (proposed : option Value)
    : AuthRequest :=
  MkAuthRequest (h_authorization rq) (method rq) (path rq) (raw_query rq) (rq_bytes rq)
    (ep_chain ep) ((fun p => s p "admin_public_key") <$> proposed) (ep_route ep).

(** From the authentication on. *)
Definition authenticated (cfg : RelayConfig) (rq : Request) (ep : Endpoint)
    (q : list (string * string)) (parsed : Result Value) (proposed : option Value)
    : M Response :=
  let! auth := transaction true (authenticate cfg (auth_request rq ep proposed)) in
  let! v := lift parsed in
  (if negb (String.eqb (method rq) "GET") && negb (bool_decide (ep_route ep = RDelete))
   then write_guard cfg else ret tt) ;;;
  if is_batch (ep_route ep) then upload_batch cfg auth ep q v
  else
    fail_if ((bool_decide (ep_route ep = RExport) || bool_decide (ep_route ep = RPartGet))
             && negb (permit rq))
      (with_context (err RATE_LIMITED)
        (json [("retry_after_ms", Num 1000); ("scope", Str "concurrent_transfers")]%string)) ;;;
    serve cfg auth (method rq) ep q v.

Definition bootstrap_route (r : Route) : bool :=
  match r with RGenesis | RImport | RRequest => true | _ => false end.

(** Genesis and import authenticate under the parameters they propose. *)
Definition proposed_parameters (r : Route) (bootstrap : Value) : option Value :=
  match r with
  | RGenesis => Some (get bootstrap "parameters")
  | RImport => last (a bootstrap "parameters_history")
  | _ => None
  end.
Definition with_proposed (ep : Endpoint) (proposed : option Value) : M Endpoint :=
  match proposed with
  | Some p =>
      lift (validate p SParameters) ;;;
      ret (MkEndpoint (ep_route ep) (s p "chain_id") (ep_param ep) (ep_allow ep))
  | None => ret ep
  end.

Definition handle (cfg : RelayConfig) (rq : Request) : M Response :=
  fail_if (timed_out rq) (err REQUEST_TIMEOUT) ;;;
  fail_if (n (limits cfg) "max_request_bytes" <? str_len (rq_bytes rq))
    (err PAYLOAD_TOO_LARGE) ;;;
  fail_if match h_content_encoding rq with
          | Some (Some x) => negb (eq_ignore_ascii_case x "identity")
          | Some None => true
          | None => false
          end invalid ;;;
  let! q := lift (canonical_query (default EmptyString (raw_query rq))) in
  if String.eqb (path rq) "/privacy.md" || String.eqb (path rq) "/privacy.json"
  then document cfg rq q
  else
    let! ep := lift (endpoint (path rq) (method rq)) in
    if bool_decide (ep_route ep = RHealth) then
      fail_if (negb (bool_decide (q = [])) || negb (String.eqb (rq_bytes rq) EmptyString))
        (err FILTER_NOT_ALLOWED) ;;;
      let! h := health cfg in
      ret (JsonResponse 200 h)
    else
      let parsed := parsed_body rq in
      let! bootstrap := if bootstrap_route (ep_route ep) then lift parsed else ret Null in
      let proposed := proposed_parameters (ep_route ep) bootstrap in
      let! ep := with_proposed ep proposed in
      fail_if (String.eqb (ep_chain ep) EmptyString) invalid ;;;
      if bool_decide (ep_route ep = RRequest)
      then enrollment_source cfg (source rq) (ep_chain ep) q bootstrap
      else authenticated cfg rq ep q parsed proposed.

(** ** Start: [AppState::new] *)
Definition operator_conflict (cfg : RelayConfig) (row : OperatorRow) : bool :=
  let revision := op_revision row mod 2 ^ 64 in
  negb (String.eqb (op_origin row) (origin cfg))
  || negb (String.eqb (op_key_id row) (key_id cfg))
  || (n (privacy cfg) "revision" <? revision)
  || ((revision =? n (privacy cfg) "revision")
      && negb (String.eqb (op_disclosure_hash row) (object_hash (privacy cfg)))).

(** [INSERT .. ON CONFLICT(id) DO UPDATE SET revision, disclosure_hash] *)
Definition upsert_operator (cfg : RelayConfig) (d : Db) : Db :=
  let new := MkOperatorRow (origin cfg) (key_id cfg) (n (privacy cfg) "revision")
               (object_hash (privacy cfg)) in
  set_operator (Some match t_operator d with
                     | Some old => MkOperatorRow (op_origin old) (op_key_id old)
                                     (op_revision new) (op_disclosure_hash new)
                     | None => new
                     end) d.
Definition raise_barrier (b : Z) (d : Db) : Db :=
  set_restart_barrier (Some match t_restart_barrier d with
                            | Some old => Z.max old b | None => b end) d.

Definition live_chains (d : Db) : list string :=
  fst <$> filter (fun kv => t_deletions d !! fst kv = None) (map_to_list (t_chains d)).
Definition renotice (cfg : RelayConfig) (id : string) : M unit :=
  let! c := load id in
  match c with
  | Some c => let! c := publish_notice c cfg in save c cfg
  | None => ret tt
  end.

(** The first transaction: the barrier, and the row of the operator. *)
Definition operator_tx (cfg : RelayConfig) : M unit :=
  transaction false (
    (if veqb (get (get (privacy cfg) "replay_protection") "mode") (Str "restart_barrier")
     then let! t := now in exec_ (raise_barrier (t + 60000)) else ret tt) ;;;
    let! row := select t_operator in
    fail_if match row with Some row => operator_conflict cfg row | None => false end
      invalid ;;;
    exec_ (upsert_operator cfg)).
Definition renotice_tx (cfg : RelayConfig) : M unit :=
  transaction false (
    let! ids := select live_chains in
    forM (renotice cfg) ids).
Definition startup (cfg : RelayConfig) : M unit :=
  operator_tx cfg ;;;
  complete cfg ;;;
  renotice_tx cfg.

(** ** The finished response: [Allow] on status 405 *)
Definition response_status (r : Result Response) : option Z :=
  match r with
  | Ok (JsonResponse st _) | Ok (RawResponse st _ _) => Some st
  | Err e => Some (status e)
  | Panic => None
  end.
Definition allow_of (path : string) : list string :=
  let or_else m k := match endpoint path m with Ok ep => ep_allow ep | _ => k end in
  or_else "GET" (or_else "POST" (or_else "PUT" (or_else "DELETE" ["GET"])))%string.
Definition allow_header (path : string) (r : Result Response) : option (list string) :=
  if bool_decide (response_status r = Some 405) then Some (allow_of path) else None.

(** ** The loop of [main]: every second both are run, their outcomes ignored. *)
Definition upkeep (cfg : RelayConfig) : M unit :=
  try_ (complete cfg) ;;;
  try_ (maintenance cfg) ;;;
  ret tt.
Fixpoint upkeep_loop (cfg : RelayConfig) (turns : nat) : M unit :=
  match turns with
  | 0%nat => ret tt
  | S turns => upkeep_loop cfg turns ;;; upkeep cfg
  end.
End Sync.
