(* ===== verification/Concurrent.v ===== *)
(** * Requests at the same time ([src/src/api/sync.rs], [batch.rs], [deletion.rs], [main.rs])

    SQLite runs one write transaction at a time, but a request takes several, and
    those of other requests come in between.  Here a request is the tree of the
    transactions that it takes; the process is a pool of such trees over one
    database, which may be killed, and any of whose clients may go away, between two
    transactions.  An atomic action holds at most one transaction. *)
From S2P Require Import Prelude Error Json Verify Jcs Wire Query Routes Db Monad Config.
From S2P Require Import Store Auth Domain Retention Mutation Deletion Batch Import Read.
From S2P Require Import Export Sync.

(** ** Programs *)

(** A program stops, takes an atomic action, or asks for a transfer slot of a chain. *)
Inductive Prog (A : Type) : Type :=
  | Stop (r : Result A)
  | Tx {B : Type} (m : M B) (k : Result B -> Prog A)
  | Acquire (chain : string) (k : bool -> Prog A).
Arguments Stop {A} _.
Arguments Tx {A B} _ _.
Arguments Acquire {A} _ _.

Fixpoint prog_bind {A B} (p : Prog A) (f : A -> Prog B) : Prog B :=
  match p with
  | Stop (Ok x) => f x
  | Stop (Err e) => Stop (Err e)
  | Stop Panic => Stop Panic
  | Tx m k => Tx m (fun r => prog_bind (k r) f)
  | Acquire x k => Acquire x (fun b => prog_bind (k b) f)
  end.
#[export] Instance Prog_monad : ErrMonad ApiError Prog := {|
  ret _ x := Stop (Ok x);
  bind _ _ := prog_bind;
  fail _ e := Stop (Err e);
  panic _ := Stop Panic;
|}.

Definition atomic {A} (m : M A) : Prog A := Tx m Stop.
(** [let _ = p.await], with the outcome as a value. *)
Fixpoint outcome_of {A} (p : Prog A) : Prog (Result A) :=
  match p with
  | Stop Panic => Stop Panic
  | Stop r => Stop (Ok r)
  | Tx m k => Tx m (fun r => outcome_of (k r))
  | Acquire x k => Acquire x (fun b => outcome_of (k b))
  end.

(** A program on its own, with the answer to the question for a slot. *)
Fixpoint run (free : bool) {A} (p : Prog A) : M A :=
  match p with
  | Stop r => lift r
  | Tx m k => fun w => let '(r, w) := m w in run free (k r) w
  | Acquire _ k => run free (k free)
  end.

Section Concurrent.
Context {X : Ext} {O : Oracle}.
Context (mime_parse : string -> option (string * option string)).
Implicit Types (c : Chain) (cfg : RelayConfig).

(** ** Deletion *)
Definition complete_prog (cfg : RelayConfig) : Prog unit :=
  atomic erase ;;; atomic (complete_ledgers cfg).

(** ** Batches *)

(** What the transaction of an item comes to: it failed, before or after the chain
    was loaded; the item was accepted; or it was rolled back. *)
Inductive Item :=
  | Failed (seen : option Chain) (e : ApiError)
  | Accepted (seen c : Chain) (item receipt : Value)
  | Rejected (seen : Chain) (e : ApiError).

Definition item_tx (cfg : RelayConfig) (auth : Auth) (chain : string) (route : Route)
    (param : string) (v : Value) (index : nat) (r : Value) : M Item :=
  let! begun := try_ begin_tx in
  match begun with
  | Err e => ret (Failed None e)
  | Panic => panic
  | Ok d0 =>
      let! loaded := try_ (let! c := load chain in ok_or c (err CHAIN_NOT_FOUND)) in
      match loaded with
      | Err e => try_ (rollback_tx d0) ;;; ret (Failed None e)
      | Panic => panic
      | Ok seen =>
          let! result := try_tx d0
            (attempt_and_save seen cfg auth chain route param v index r) in
          match result with
          | Ok (c, (item, receipt)) =>
              let! committed := try_ (commit_tx d0) in
              match committed with
              | Err e => ret (Failed (Some seen) e)
              | _ => ret (Accepted seen c item receipt)
              end
          | Err e =>
              let! rolled := try_ (rollback_tx d0) in
              match rolled with
              | Err failure => ret (Failed (Some seen) failure)
              | _ => ret (Rejected seen e)
              end
          | Panic => panic
          end
      end
  end.

Definition stop_prog (route : Route) (e : ApiError) (rs : list Value) (b : Batch)
    : Prog (bool * Batch) :=
  if bool_decide (accepted b = []) then fail e
  else ret (false, reject_items (id_key route) e rs b).
Definition reject_prog (cfg : RelayConfig) (chain : string) (route : Route)
    (e : ApiError) (r : Value) (rest : list Value) (b : Batch) : Prog (bool * Batch) :=
  fail_if (bool_decide (accepted b = []) && storage_code (code e)) e ;;;
  if negb (unaudited_code (code e))
     && match validate r (batch_schema route) with Ok _ => true | _ => false end then
    let! audited := outcome_of (atomic (Batch.audit_reject cfg chain r (code e))) in
    match audited with
    | Ok c => ret (true, with_chain c (reject_items (id_key route) e [r] b))
    | Err failure => stop_prog route failure (r :: rest) b
    | Panic => panic
    end
  else ret (true, reject_items (id_key route) e [r] b).
Definition step_prog (cfg : RelayConfig) (auth : Auth) (chain : string) (route : Route)
    (param : string) (v : Value) (index : nat) (r : Value) (rest : list Value)
    (b : Batch) : Prog (bool * Batch) :=
  let! it := atomic (item_tx cfg auth chain route param v index r) in
  match it with
  | Failed seen e =>
      stop_prog route e (r :: rest) match seen with Some c => first_chain c b | None => b end
  | Accepted seen c item receipt => ret (true, accept_item item receipt c (first_chain seen b))
  | Rejected seen e => reject_prog cfg chain route e r rest (first_chain seen b)
  end.
Fixpoint loop_prog (cfg : RelayConfig) (auth : Auth) (chain : string) (route : Route)
    (param : string) (v : Value) (index : nat) (rs : list Value) (b : Batch) : Prog Batch :=
  match rs with
  | [] => ret b
  | r :: rest =>
      let! st := step_prog cfg auth chain route param v index r rest b in
      match st with
      | (true, b) => loop_prog cfg auth chain route param v (S index) rest b
      | (false, b) => ret b
      end
  end.
(** The statements outside of transactions only read. *)
Definition upload_prog (cfg : RelayConfig) (auth : Auth) (chain : string) (route : Route)
    (param : string) (v : Value) : Prog Value :=
  Stop (upload_checks cfg auth route v) ;;;
  atomic (select (fun _ => tt) ;;;
          fail_if (bool_decide (max_bytes cfg = Some 0)) (err QUOTA_EXCEEDED) ;;;
          quota chain cfg) ;;;
  let records := a v (batch_key route) in
  let! b := loop_prog cfg auth chain route param v 0 records (MkBatch [] [] [] None) in
  let! rs := Stop (sort_receipts route records (receipts b)) in
  if is_snapshot route || is_envelope_route route then
    ret (upload_response route b rs None)
  else
    let! c :=
      match final_chain b with
      | Some c => ret c
      | None => atomic (select (fun _ => tt) ;;; let! c := load chain in unwrap c)
      end in
    ret (upload_response route b rs (Some c)).

(** ** The transaction of a request *)
Inductive Served :=
  | Answered (r : Response)     (* the chain has a deletion proof *)
  | Committed (r : Response)
  | Refused (e : ApiError).     (* rolled back *)

Definition serve_tx (cfg : RelayConfig) (auth : Auth) (method : string) (ep : Endpoint)
    (q : list (string * string)) (v : Value) : M Served :=
  let! d0 := begin_tx in
  let! p := proof (ep_chain ep) in
  match p with
  | Some p => let! r := deleted_answer d0 ep q v p in ret (Answered r)
  | None =>
      let! r := try_tx d0 (run_handler cfg auth method ep q v) in
      match r with
      | Ok response => commit_tx d0 ;;; ret (Committed response)
      | Err e => rollback_tx d0 ;;; ret (Refused e)
      | Panic => panic
      end
  end.
Definition serve_prog (cfg : RelayConfig) (auth : Auth) (method : string) (ep : Endpoint)
    (q : list (string * string)) (v : Value) : Prog Response :=
  let! served := atomic (serve_tx cfg auth method ep q v) in
  match served with
  | Answered r => ret r
  | Committed r =>
      (if bool_decide (ep_route ep = RDelete)
       then outcome_of (complete_prog cfg) ;;; ret tt else ret tt) ;;;
      ret r
  | Refused e => atomic (audit_request cfg (ep_chain ep) v (code e)) ;;; fail e
  end.

(** ** The request *)
Definition batch_prog (cfg : RelayConfig) (auth : Auth) (ep : Endpoint)
    (q : list (string * string)) (v : Value) : Prog Response :=
  Stop (allowed q []) ;;;
  (if bool_decide (ep_route ep = RRecordsPost) || bool_decide (ep_route ep = RPartsPost)
   then atomic (transaction true (rate cfg "record_upload_device"
          (ep_chain ep +:+ ":" +:+ default "admin"%string (Auth.device auth))))
   else ret tt) ;;;
  let! r := upload_prog cfg auth (ep_chain ep) (ep_route ep) (ep_param ep) v in
  ret (JsonResponse 200 r).

(** [state.transfers]: two transfers of a chain at a time. *)
Definition transfer_slots : nat := 2.
Definition busy : ApiError :=
  with_context (err RATE_LIMITED)
    (json [("retry_after_ms", Num 1000); ("scope", Str "concurrent_transfers")]%string).
Definition transfer_route (r : Route) : bool :=
  bool_decide (r = RExport) || bool_decide (r = RPartGet).

Definition authenticated_prog (cfg : RelayConfig) (rq : Request) (ep : Endpoint)
    (q : list (string * string)) (parsed : Result Value) (proposed : option Value)
    : Prog Response :=
  let! auth := atomic (transaction true (authenticate cfg (auth_request rq ep proposed))) in
  let! v := Stop parsed in
  (if negb (String.eqb (method rq) "GET") && negb (bool_decide (ep_route ep = RDelete))
   then atomic (write_guard cfg) else ret tt) ;;;
  if is_batch (ep_route ep) then batch_prog cfg auth ep q v
  else
    (if transfer_route (ep_route ep)
     then Acquire (ep_chain ep) (fun free => fail_if (negb free) busy) else ret tt) ;;;
    serve_prog cfg auth (method rq) ep q v.

Definition handle_prog (cfg : RelayConfig) (rq : Request) : Prog Response :=
  fail_if (timed_out rq) (err REQUEST_TIMEOUT) ;;;
  fail_if (n (limits cfg) "max_request_bytes" <? str_len (rq_bytes rq))
    (err PAYLOAD_TOO_LARGE) ;;;
  fail_if match h_content_encoding rq with
          | Some (Some x) => negb (eq_ignore_ascii_case x "identity")
          | Some None => true
          | None => false
          end invalid ;;;
  let! q := Stop (canonical_query (default EmptyString (raw_query rq))) in
  if String.eqb (path rq) "/privacy.md" || String.eqb (path rq) "/privacy.json"
  then atomic (document cfg rq q)
  else
    let! ep := Stop (endpoint (path rq) (method rq)) in
    if bool_decide (ep_route ep = RHealth) then
      fail_if (negb (bool_decide (q = [])) || negb (String.eqb (rq_bytes rq) EmptyString))
        (err FILTER_NOT_ALLOWED) ;;;
      let! h := atomic (health cfg) in
      ret (JsonResponse 200 h)
    else
      let parsed := parsed_body mime_parse rq in
      let! bootstrap := if bootstrap_route (ep_route ep) then Stop parsed else ret Null in
      let proposed := proposed_parameters (ep_route ep) bootstrap in
      let! ep := atomic (with_proposed ep proposed) in
      fail_if (String.eqb (ep_chain ep) EmptyString) invalid ;;;
      if bool_decide (ep_route ep = RRequest)
      then atomic (enrollment_source cfg (source rq) (ep_chain ep) q bootstrap)
      else authenticated_prog cfg rq ep q parsed proposed.

(** ** Start and upkeep *)
Definition startup_prog (cfg : RelayConfig) : Prog unit :=
  atomic (operator_tx cfg) ;;;
  complete_prog cfg ;;;
  atomic (renotice_tx cfg).
Definition upkeep_prog (cfg : RelayConfig) : Prog unit :=
  outcome_of (complete_prog cfg) ;;;
  outcome_of (atomic (maintenance cfg)) ;;;
  ret tt.
End Concurrent.

(** ** The process *)

(** A request, or a turn of the loop of [main], with the transfer slots it holds:
    those of a request are given back when its answer is sent, or dropped. *)
Record Thread := MkThread { held : list string; todo : Prog unit }.
Inductive Process {X : Ext} :=
  | Down
  | Starting (cfg : RelayConfig) (p : Prog unit)
  | Serving (cfg : RelayConfig) (threads : list Thread) (slots : gmap string nat).
Record System {X : Ext} := MkSystem { world : World; process : Process }.

Arguments MkSystem {X} _ _.

Definition free_slots (slots : gmap string nat) (x : string) : nat :=
  default transfer_slots (slots !! x).
Definition take_slot (slots : gmap string nat) (x : string) : gmap string nat :=
  <[x := pred (free_slots slots x)]> slots.
Definition give_slot (slots : gmap string nat) (x : string) : gmap string nat :=
  <[x := S (free_slots slots x)]> slots.

Section Process.
Context {X : Ext} {O : Oracle}.
Context (mime_parse : string -> option (string * option string)).
Implicit Types (cfg : RelayConfig).

Definition serving cfg (rq : Request) : Thread :=
  MkThread [] (handle_prog mime_parse cfg rq ;;; ret tt).
Definition timer cfg : Thread := MkThread [] (upkeep_prog cfg).

(** Each launch has a configuration of its own.  The process can be killed at any
    time, and a thread can end at any time, by its answer or because the client is
    gone; a transaction that is cut off is as if it had not begun. *)
Inductive step : System -> System -> Prop :=
  | step_launch w cfg :
      step (MkSystem w Down) (MkSystem w (Starting cfg (startup_prog cfg)))
  | step_start w w' cfg B (m : M B) k r : m w = (r, w') ->
      step (MkSystem w (Starting cfg (Tx m k))) (MkSystem w' (Starting cfg (k r)))
  | step_listen w cfg :
      step (MkSystem w (Starting cfg (Stop (Ok tt)))) (MkSystem w (Serving cfg [] ∅))
  | step_exit w p : step (MkSystem w p) (MkSystem w Down)
  | step_arrive w cfg ts sl rq :
      step (MkSystem w (Serving cfg ts sl)) (MkSystem w (Serving cfg (ts ++ [serving cfg rq]) sl))
  | step_timer w cfg ts sl :
      step (MkSystem w (Serving cfg ts sl)) (MkSystem w (Serving cfg (ts ++ [timer cfg]) sl))
  | step_run w w' cfg ts sl i h B (m : M B) k r :
      ts !! i = Some (MkThread h (Tx m k)) -> m w = (r, w') ->
      step (MkSystem w (Serving cfg ts sl))
        (MkSystem w' (Serving cfg (<[i := MkThread h (k r)]> ts) sl))
  | step_acquire w cfg ts sl i h x k :
      ts !! i = Some (MkThread h (Acquire x k)) -> free_slots sl x <> 0%nat ->
      step (MkSystem w (Serving cfg ts sl))
        (MkSystem w (Serving cfg (<[i := MkThread (x :: h) (k true)]> ts) (take_slot sl x)))
  | step_busy w cfg ts sl i h x k :
      ts !! i = Some (MkThread h (Acquire x k)) -> free_slots sl x = 0%nat ->
      step (MkSystem w (Serving cfg ts sl))
        (MkSystem w (Serving cfg (<[i := MkThread h (k false)]> ts) sl))
  | step_leave w cfg ts sl i th :
      ts !! i = Some th ->
      step (MkSystem w (Serving cfg ts sl))
        (MkSystem w (Serving cfg (base.delete i ts) (fold_left give_slot (held th) sl))).

(** The same, as a function: what is done next, and by which thread. *)
Inductive Action :=
  | Launch (cfg : RelayConfig)
  | Boot                          (* the next transaction of the start, or listening *)
  | Exit
  | Arrive (rq : Request)
  | Timer
  | Run (i : nat)                 (* the next transaction of thread [i], or its question *)
  | Leave (i : nat).
Definition act_thread cfg (w : World) (ts : list Thread) (sl : gmap string nat) (i : nat)
    : option System :=
  th ← ts !! i;
  match todo th with
  | Stop _ => None
  | Tx m k =>
      let '(r, w') := m w in
      Some (MkSystem w' (Serving cfg (<[i := MkThread (held th) (k r)]> ts) sl))
  | Acquire x k =>
      Some (MkSystem w (
        if (free_slots sl x =? 0)%nat
        then Serving cfg (<[i := MkThread (held th) (k false)]> ts) sl
        else Serving cfg (<[i := MkThread (x :: held th) (k true)]> ts) (take_slot sl x)))
  end.
Definition act (a : Action) (s : System) : option System :=
  let w := world s in
  match a, process s with
  | Exit, _ => Some (MkSystem w Down)
  | Launch cfg, Down => Some (MkSystem w (Starting cfg (startup_prog cfg)))
  | Boot, Starting cfg (Tx m k) => let '(r, w') := m w in Some (MkSystem w' (Starting cfg (k r)))
  | Boot, Starting cfg (Stop (Ok tt)) => Some (MkSystem w (Serving cfg [] ∅))
  | Arrive rq, Serving cfg ts sl => Some (MkSystem w (Serving cfg (ts ++ [serving cfg rq]) sl))
  | Timer, Serving cfg ts sl => Some (MkSystem w (Serving cfg (ts ++ [timer cfg]) sl))
  | Run i, Serving cfg ts sl => act_thread cfg w ts sl i
  | Leave i, Serving cfg ts sl =>
      th ← ts !! i;
      Some (MkSystem w (Serving cfg (base.delete i ts) (fold_left give_slot (held th) sl)))
  | _, _ => None
  end.
Fixpoint schedule (l : list Action) (s : System) : option System :=
  match l with
  | [] => Some s
  | a :: l => act a s ≫= schedule l
  end.

Lemma act_thread_step cfg w ts sl i s' :
  act_thread cfg w ts sl i = Some s' -> step (MkSystem w (Serving cfg ts sl)) s'.
Proof.
  unfold act_thread. destruct (ts !! i) as [[h p]|] eqn:Hi; [|done]. simpl.
  destruct p as [r|B m k|x k]; [done| |].
  - destruct (m w) as [r w'] eqn:Hm. intros [= <-]. by eapply step_run.
  - destruct (Nat.eqb_spec (free_slots sl x) 0); intros [= <-];
      [by eapply step_busy|by eapply step_acquire].
Qed.
Lemma act_step s s' : step s s' <-> exists a, act a s = Some s'.
Proof.
  split.
  - intros []; [exists (Launch cfg)|exists Boot|exists Boot|exists Exit|exists (Arrive rq)
      |exists Timer|exists (Run i)|exists (Run i)|exists (Run i)|exists (Leave i)]; simpl;
      unfold act_thread; try match goal with H : _ !! _ = Some _ |- _ => rewrite H end; simpl;
      try match goal with H : ?m ?w = _ |- context [?m ?w] => rewrite H end; try done.
    by rewrite (proj2 (Nat.eqb_neq _ _)).
  - intros [a H]. destruct s as [w p]. unfold act in H. simpl in H.
    destruct a, p as [|cfg' p|cfg' ts sl]; try done; try (injection H as <-; by constructor).
    + destruct p as [[[]|e|]|B m k|x k]; try done; [injection H as <-; constructor|].
      destruct (m w) as [r w'] eqn:Hm. injection H as <-. by constructor.
    + by eapply act_thread_step.
    + destruct (ts !! i) as [th|] eqn:Hi; [|done]. injection H as <-. by apply step_leave.
Qed.
End Process.
