(* ===== verification/Legacy.v ===== *)
(** * The frozen v2.1 interface ([src/src/api/legacy.rs])

    Reads of the tables of an earlier version, the explicit deletion of a legacy chain,
    and the operator's restoration of original parameters.  The tables are those the
    statements name ([chains], [devices], [sync_records], [replay_nonces], [cursors],
    [v2_parameter_evidence]); a request also draws on the rate buckets of v3. *)
From S2P Require Import Prelude Error Json Verify Jcs Wire Query Db Monad Config Auth Sync.

(** ** The legacy tables *)
Record LChainRow := MkLChain {
  lc_salt : string;
  lc_admin_key : string;
  lc_created : Z;
  lc_creator : string;
  lc_creator_key : string;
  lc_deleted : option Z;
}.
Record LDeviceRow := MkLDevice {
  ld_key : string;
  ld_name : string;
  ld_name_nonce : string;
  ld_status : string;
  ld_created : Z;
  ld_updated : Z;
  ld_signature : string;
}.
Record LRecordRow := MkLRecord {
  lr_chain : string;
  lr_id : string;
  lr_protocol : string;
  lr_epoch : Z;
  lr_collection : string;
  lr_action : string;
  lr_payload : string;
  lr_nonce : string;
  lr_device : string;
  lr_lamport : Z;
  lr_created : Z;
  lr_signature : string;
}.
Record LegacyDb := MkLegacy {
  l_present : bool;                                 (* sqlite_master lists chains *)
  l_chains : gmap string LChainRow;
  l_devices : gmap (string * string) LDeviceRow;
  l_records : gmap Z LRecordRow;                    (* by server_sequence *)
  l_nonces : gmap (string * string * string) Z;     (* chain, device, nonce *)
  l_cursors : gmap string string;                   (* cursor, its chain *)
  l_parameters : gmap string string;                (* chain, signed_json *)
}.
Definition set_l_chains m d := MkLegacy (l_present d) m (l_devices d) (l_records d)
  (l_nonces d) (l_cursors d) (l_parameters d).
Definition set_l_devices m d := MkLegacy (l_present d) (l_chains d) m (l_records d)
  (l_nonces d) (l_cursors d) (l_parameters d).
Definition set_l_records m d := MkLegacy (l_present d) (l_chains d) (l_devices d) m
  (l_nonces d) (l_cursors d) (l_parameters d).
Definition set_l_nonces m d := MkLegacy (l_present d) (l_chains d) (l_devices d)
  (l_records d) m (l_cursors d) (l_parameters d).
Definition set_l_cursors m d := MkLegacy (l_present d) (l_chains d) (l_devices d)
  (l_records d) (l_nonces d) m (l_parameters d).
Definition set_l_parameters m d := MkLegacy (l_present d) (l_chains d) (l_devices d)
  (l_records d) (l_nonces d) (l_cursors d) m.

(** ** Effects

    The state is the v3 world and the legacy tables; an error is an HTTP status, or a
    text in the operator's command. *)
Record LWorld := MkLWorld { v3 : World; legacy : LegacyDb }.
Definition L (E A : Type) : Type := LWorld -> Res E A * LWorld.
#[export] Instance L_monad (E : Type) : ErrMonad E (L E) := {|
  ret _ x := fun w => (Ok x, w);
  bind _ _ m f := fun w =>
    match m w with
    | (Ok x, w') => f x w'
    | (Err e, w') => (Err e, w')
    | (Panic, w') => (Panic, w')
    end;
  fail _ e := fun w => (Err e, w);
  panic _ := fun w => (Panic, w);
|}.

Section Effects.
Context {O : Oracle} {E : Type}.

(** A computation of v3 in the same transaction: [.map_err(f)?]. *)
Definition on_v3 {A} (f : ApiError -> E) (m : M A) : L E A := fun w =>
  let '(r, w3) := m (v3 w) in
  (match r with Ok x => Ok x | Err e => Err (f e) | Panic => Panic end,
   MkLWorld w3 (legacy w)).
Definition l_now : L E Z := fun w =>
  (Ok (Z.max 0 (clock (tick (v3 w)))), MkLWorld (next (v3 w)) (legacy w)).
(** A statement on the legacy tables; [e] stands for an [sqlx::Error]. *)
Definition l_sql {A} (e : E) (f : LegacyDb -> option (A * LegacyDb)) : L E A := fun w =>
  let w3 := next (v3 w) in
  if sql_fails (tick (v3 w)) then (Err e, MkLWorld w3 (legacy w))
  else match f (legacy w) with
       | Some (x, d) => (Ok x, MkLWorld w3 d)
       | None => (Err e, MkLWorld w3 (legacy w))
       end.
Definition l_select {A} (e : E) (f : LegacyDb -> A) : L E A :=
  l_sql e (fun d => Some (f d, d)).
Definition l_exec (e : E) (f : LegacyDb -> LegacyDb) : L E unit :=
  l_sql e (fun d => Some (tt, f d)).

(** [BEGIN IMMEDIATE; m; COMMIT], with the errors of the first and the last; the
    transaction is rolled back when it is dropped. *)
Definition l_back (w0 w : LWorld) : LWorld :=
  MkLWorld (MkWorld (db (v3 w0)) (S (tick (v3 w)))) (legacy w0).
Definition l_transaction {A} (begin_error commit_error : E) (m : L E A) : L E A := fun w =>
  let w0 := MkLWorld (next (v3 w)) (legacy w) in
  if sql_fails (tick (v3 w)) then (Err begin_error, w0)
  else match m w0 with
       | (Ok x, w1) =>
           if sql_fails (tick (v3 w1)) then (Err commit_error, l_back w w1)
           else (Ok x, MkLWorld (next (v3 w1)) (legacy w1))
       | (Err e, w1) => (Err e, l_back w w1)
       | (Panic, w1) => (Panic, l_back w w1)
       end.
(** [let r = m.await], the outcome as a value. *)
Definition l_try {A} (m : L E A) : L E (Res E A) := fun w =>
  match m w with
  | (Panic, w') => (Panic, w')
  | (r, w') => (Ok r, w')
  end.
End Effects.

Definition l_pure {E A} (r : Res E A) : L E A := fun w => (r, w).
(** A pure fallible computation, its error replaced: [.map_err(|_| e)?]. *)
Definition l_lift {E E' A} (e : E) (r : Res E' A) : L E A := fun w =>
  (match r with Ok x => Ok x | Err _ => Err e | Panic => Panic end, w).

(** ** Responses *)
Definition S_BAD_REQUEST : Z := 400.
Definition S_UNAUTHORIZED : Z := 401.
Definition S_FORBIDDEN : Z := 403.
Definition S_NOT_FOUND : Z := 404.
Definition S_METHOD_NOT_ALLOWED : Z := 405.
Definition S_REQUEST_TIMEOUT : Z := 408.
Definition S_GONE : Z := 410.
Definition S_PAYLOAD_TOO_LARGE : Z := 413.
Definition S_TOO_MANY_REQUESTS : Z := 429.
Definition S_INTERNAL : Z := 500.
Definition S_UNAVAILABLE : Z := 503.

(** The status, the canonical body, and the headers that are not constant. *)
Record LResponse := MkLResponse {
  lp_status : Z;
  lp_body : option Value;
  lp_retry_after : option string;
  lp_next_seq : option string;
  lp_has_more : option bool;
}.
Definition response (status : Z) (value : option Value) : LResponse :=
  MkLResponse status value
    (if status =? S_TOO_MANY_REQUESTS then Some "3600"%string else None) None None.

Definition is_legacy (path : string) : bool :=
  String.eqb path "/health" || bool_decide (is_Some (strip_prefix "/pallasync/v2/" path)).

Inductive LRoute := LParameters | LDevices | LRecords | LDelete.
#[export] Instance LRoute_eq_dec : EqDecision LRoute.
Proof. solve_decision. Defined.

Definition route_of (path : string) : option (string * LRoute) :=
  rest ← strip_prefix "/pallasync/v2/chains/" path;
  match split_on "/" rest with
  | [chain; name] =>
      if String.eqb name "parameters" then Some (chain, LParameters)
      else if String.eqb name "devices" then Some (chain, LDevices)
      else if String.eqb name "records" then Some (chain, LRecords)
      else None
  | [chain] => Some (chain, LDelete)
  | _ => None
  end.

(** Exactly these members: [object.len() != fields.len() || fields.any(missing)]. *)
Definition exact_members (v : Value) (names : list string) : bool :=
  match as_object v with
  | Some o => Nat.eqb (length o) (length names)
              && forallb (fun k => bool_decide (is_Some (obj_get o k))) names
  | None => false
  end.
Definition is_str (v : Value) (x : string) : bool := veqb v (Str x).

Section Legacy.
Context {X : Ext} {O : Oracle}.
Implicit Types (cfg : RelayConfig).

Definition check_original_parameters (chain : string) (raw : option string)
    : Res Z string :=
  let! raw := ok_or raw S_INTERNAL in
  let! value := match parse raw with
                | Ok v => Ok v | Err _ => Err S_INTERNAL | Panic => Panic end in
  fail_if (negb (is_str (get value "protocol_version") "2.1")
           || negb (is_str (get value "chain_id") chain)
           || negb match as_str (get value "signature") with
                   | Some x => bool_decide (is_Some (decode x (Some 64)))
                   | None => false
                   end) S_INTERNAL ;;;
  ret raw.

(** ** Capability tokens of v2.1 *)
Definition TOKEN_CONTEXT : string := zstr "PALLASYNC-CAPABILITY-v2.1".
Definition token_members : list string :=
  ["v"; "chain_id"; "device_id"; "method"; "path"; "query"; "body_sha256"; "issued_at_ms";
   "expires_at_ms"; "nonce"; "signature"]%string.
Definition token_of (rq : Request) : option Value :=
  h ← h_authorization rq; h ← h; raw ← strip_prefix "PallaSync " h;
  bytes ← decode raw None;
  match parse bytes with Ok v => Some v | _ => None end.
Definition token_bound (chain : string) (rq : Request) (token : Value) : bool :=
  exact_members token token_members
  && veqb (get token "v") (Num 1)
  && is_str (get token "chain_id") chain
  && is_str (get token "method") (method rq)
  && is_str (get token "path") (path rq)
  && is_str (get token "query") (default EmptyString (raw_query rq))
  && is_str (get token "body_sha256") (hash_bytes EmptyString).

(** [issued > now() || expires <= now() || ..]: each [now()] is a reading. *)
Definition outside_window (issued expires : Z) : L Z bool :=
  let! t := l_now in
  if t <? issued then ret true
  else
    let! t := l_now in
    ret ((expires <=? t) || (expires <=? issued) || (MAX_INTEGER <? expires)).
Definition take_nonce (k : string * string * string) (expires : Z) : L Z bool :=
  l_sql S_UNAVAILABLE (fun d =>
    match l_nonces d !! k with
    | Some _ => Some (false, d)
    | None => Some (true, set_l_nonces (<[k := expires]> (l_nonces d)) d)
    end).
Definition sweep (t : Z) (d : LegacyDb) : LegacyDb :=
  set_l_nonces (filter (fun kv => ~ (snd kv <= t)) (l_nonces d)) d.

Definition authenticate (chain : string) (rq : Request) : L Z string :=
  let! token := ok_or (token_of rq) S_UNAUTHORIZED in
  fail_if (negb (token_bound chain rq token)) S_UNAUTHORIZED ;;;
  let! issued := ok_or (as_u64 (get token "issued_at_ms")) S_UNAUTHORIZED in
  let! expires := ok_or (as_u64 (get token "expires_at_ms")) S_UNAUTHORIZED in
  let! outside := outside_window issued expires in
  fail_if outside S_UNAUTHORIZED ;;;
  let! id := ok_or (as_str (get token "device_id")) S_UNAUTHORIZED in
  let! nonce := ok_or (as_str (get token "nonce")) S_UNAUTHORIZED in
  ok_or (decode nonce (Some 16)) S_UNAUTHORIZED ;;;
  let! row := l_select S_UNAVAILABLE (fun d => l_devices d !! (chain, id)) in
  let! row := ok_or row S_FORBIDDEN in
  fail_if (negb (String.eqb (ld_status row) "active")) S_FORBIDDEN ;;;
  let! signature := ok_or (as_str (get token "signature")) S_UNAUTHORIZED in
  fail_if (negb (default false
             (verify_signed_json (ld_key row) signature token TOKEN_CONTEXT)))
    S_UNAUTHORIZED ;;;
  let! t := l_now in
  l_exec S_UNAVAILABLE (sweep t) ;;;
  let! inserted := take_nonce (chain, id, nonce) expires in
  fail_if (negb inserted) S_UNAUTHORIZED ;;;
  ret id.

(** ** Devices *)
Definition device_json (chain : string) (kr : string * LDeviceRow) : Value :=
  let r := snd kr in json
  [("protocol_version", Str "2.1"); ("chain_id", Str chain); ("device_id", Str (fst kr));
   ("device_public_key", Str (ld_key r)); ("encrypted_device_name", Str (ld_name r));
   ("device_name_nonce", Str (ld_name_nonce r)); ("status", Str (ld_status r));
   ("created_at_ms", Num (ld_created r)); ("updated_at_ms", Num (ld_updated r));
   ("signature", Str (ld_signature r))]%string.
Definition device_rows (chain : string) (d : LegacyDb) : list (string * LDeviceRow) :=
  sort_by (fun x y => str_leb (fst x) (fst y))
    (omap (fun '((c, i), r) => if String.eqb c chain then Some (i, r) else None)
       (map_to_list (l_devices d))).
Definition devices (chain : string) : L Z LResponse :=
  let! rows := l_select S_UNAVAILABLE (device_rows chain) in
  ret (response 200 (Some (json
    [("devices", Arr (map (device_json chain) rows)); ("next_cursor", Null)]%string))).

(** ** Records *)
Definition decimal (input : string) : Res Z Z :=
  fail_if (String.eqb input EmptyString || negb (str_forallb is_digit input))
    S_BAD_REQUEST ;;;
  ok_or (z ← parse_u64 input; if z <=? MAX_INTEGER then Some z else None) S_BAD_REQUEST.

Definition legacy_record (chain : string) (sequence : Z) (r : LRecordRow) : Value := json
  [("chain_id", Str chain); ("protocol_version", Str (lr_protocol r));
   ("record_id", Str (lr_id r)); ("collection_name", Str (lr_collection r));
   ("action", Str (lr_action r)); ("encrypted_payload", Str (lr_payload r));
   ("payload_nonce", Str (lr_nonce r)); ("device_id", Str (lr_device r));
   ("signature", Str (lr_signature r)); ("epoch", Num (lr_epoch r));
   ("lamport", Num (lr_lamport r)); ("created_at_ms", Num (lr_created r));
   ("relay_seq", Num sequence); ("server_sequence", Num sequence)]%string.
Definition string_bytes (r : LRecordRow) : Z :=
  str_len (lr_payload r) + str_len (lr_signature r) + str_len (lr_nonce r)
  + str_len (lr_id r) + str_len (lr_device r) + str_len (lr_collection r)
  + str_len (lr_action r) + str_len (lr_protocol r).

(** [WHERE chain_id=? AND server_sequence>? ORDER BY server_sequence LIMIT 1] *)
Definition rows_after (chain : string) (pos : Z) (d : LegacyDb) : list (Z * LRecordRow) :=
  sort_by (fun x y => fst x <=? fst y)
    (List.filter (fun kr => String.eqb (lr_chain (snd kr)) chain && (pos <? fst kr))
       (map_to_list (l_records d))).
Definition next_row (chain : string) (pos : Z) (d : LegacyDb) : option (Z * LRecordRow) :=
  head (rows_after chain pos d).
Definition row_at (chain : string) (sequence : Z) (d : LegacyDb) : option LRecordRow :=
  r ← l_records d !! sequence; if String.eqb (lr_chain r) chain then Some r else None.

(** The loop over the rows: what it breaks with, the rows, and the position. *)
Fixpoint records_loop (fuel : nat) (chain : string) (limit byte_limit : Z)
    (records : list Value) (pos used : Z) : L Z (bool * list Value * Z) :=
  match fuel with
  | 0%nat => panic
  | S fuel =>
      let! meta := l_select S_UNAVAILABLE (next_row chain pos) in
      match meta with
      | None => ret (false, records, pos)
      | Some (sequence, meta) =>
          if Z.of_nat (length records) =? limit then ret (true, records, pos)
          else
            let room := Z.max 0 (byte_limit - used) in
            if room <? string_bytes meta then
              fail_if (Nat.eqb (length records) 0) S_PAYLOAD_TOO_LARGE ;;;
              ret (true, records, pos)
            else
              let! row := l_sql S_UNAVAILABLE (fun d =>
                            r ← row_at chain sequence d; Some (r, d)) in
              let value := legacy_record chain sequence row in
              let bytes := str_len (canonicalize_json value) + 1 in
              if room <? bytes then
                fail_if (Nat.eqb (length records) 0) S_PAYLOAD_TOO_LARGE ;;;
                ret (true, records, pos)
              else records_loop fuel chain limit byte_limit (records ++ [value]) sequence
                     (used + bytes)
      end
  end.
(** Every turn moves past a row, so the rows bound the turns. *)
Definition all_records (chain : string) (limit byte_limit after : Z)
    : L Z (bool * list Value * Z) := fun w =>
  records_loop (S (size (l_records (legacy w)))) chain limit byte_limit [] after 128 w.

Definition records (chain : string) (q : list (string * string)) (maximum byte_limit : Z)
    : L Z LResponse :=
  let member k := snd <$> List.find (fun kv => String.eqb (fst kv) k) q in
  let first := match member "cursor"%string with
               | Some x => Some x | None => member "after_seq"%string end in
  let! after := l_pure (decimal (default "0"%string first)) in
  let! limit := l_pure (decimal (default "200"%string (member "limit"%string))) in
  fail_if ((limit =? 0) || (maximum <? limit)) S_BAD_REQUEST ;;;
  let! ' (more, rows, pos) := all_records chain limit byte_limit after in
  let! t := l_now in
  ret (MkLResponse 200 (Some (json
    [("records", Arr rows);
     ("next_cursor", if more : bool then Str (dec pos) else Null);
     ("server_time_ms", Num t)]%string)) None (Some (dec pos)) (Some more)).

(** ** Deletion *)
Definition forget_records (chain : string) (d : LegacyDb) : LegacyDb :=
  set_l_records (filter (fun kv => lr_chain (snd kv) <> chain) (l_records d)) d.
Definition forget_devices (chain : string) (d : LegacyDb) : LegacyDb :=
  set_l_devices (filter (fun kv => fst (fst kv) <> chain) (l_devices d)) d.
Definition forget_nonces (chain : string) (d : LegacyDb) : LegacyDb :=
  set_l_nonces (filter (fun kv => fst (fst (fst kv)) <> chain) (l_nonces d)) d.
Definition forget_cursors (chain : string) (d : LegacyDb) : LegacyDb :=
  set_l_cursors (filter (fun kv => snd kv <> chain) (l_cursors d)) d.
Definition forget_parameters (chain : string) (d : LegacyDb) : LegacyDb :=
  set_l_parameters (base.delete chain (l_parameters d)) d.
Definition mark_deleted (chain : string) (t : Z) (d : LegacyDb) : LegacyDb :=
  set_l_chains (alter (fun r => match lc_deleted r with
    | Some _ => r
    | None => MkLChain (lc_salt r) (lc_admin_key r) (lc_created r) (lc_creator r)
                (lc_creator_key r) (Some t)
    end) chain (l_chains d)) d.
Definition legacy_delete (chain : string) : L Z LResponse :=
  forM (fun f => l_exec S_UNAVAILABLE (f chain))
    [forget_records; forget_devices; forget_nonces; forget_cursors; forget_parameters] ;;;
  let! t := l_now in
  l_exec S_UNAVAILABLE (mark_deleted chain t) ;;;
  ret (response 200 None).

(** ** A request *)
Definition l_rate cfg (scope identity : string) : L Z unit :=
  on_v3 Error.status (rate cfg scope identity).

(** The documents without a token are rated by their source, in a transaction that
    is committed before the outcome is looked at. *)
Definition rate_source cfg (rq : Request) : L Z unit :=
  if ends_with "/health" (path rq) || ends_with "/parameters" (path rq) then
    let! limited := l_transaction S_UNAVAILABLE S_UNAVAILABLE
      (l_try (l_rate cfg "public_document_ip" (hash_bytes (source rq)))) in
    l_pure limited
  else ret tt.

Definition allowed_members (route : LRoute) (q : list (string * string)) : bool :=
  match route with
  | LRecords =>
      forallb (fun kv => mem (fst kv) ["after_seq"; "cursor"; "limit"]%string) q
      && negb (mem "after_seq" q.*1 && mem "cursor" q.*1)
  | _ => bool_decide (q = [])
  end.

(** The transaction on a chain. *)
Definition chain_request cfg (rq : Request) (chain : string) (route : LRoute)
    (q : list (string * string)) : L Z LResponse :=
  let! exists_ := l_select S_UNAVAILABLE l_present in
  fail_if (negb exists_) S_NOT_FOUND ;;;
  let! row := l_select S_UNAVAILABLE (fun d => l_chains d !! chain) in
  let! row := ok_or row S_NOT_FOUND in
  fail_if (bool_decide (is_Some (lc_deleted row))) S_GONE ;;;
  match route with
  | LParameters =>
      let! raw := l_select S_UNAVAILABLE (fun d => l_parameters d !! chain) in
      let! original := l_pure (check_original_parameters chain raw) in
      let! value := l_lift S_INTERNAL (parse original) in
      ret (response 200 (Some value))
  | _ =>
      let! id := authenticate chain rq in
      l_rate cfg "authorized_signer"
        (hash_bytes ("legacy:" +:+ chain +:+ ":" +:+ id)%string) ;;;
      match route with
      | LDevices => devices chain
      | LRecords =>
          let! maximum := unwrap (as_u64 (get (limits cfg) "page_limit")) in
          let! byte_limit := unwrap (as_u64 (get (limits cfg) "max_request_bytes")) in
          records chain q maximum byte_limit
      | _ => legacy_delete chain
      end
  end.

Definition run cfg (rq : Request) : L Z LResponse :=
  fail_if (negb (mem (method rq) ["GET"; "DELETE"]%string)) S_METHOD_NOT_ALLOWED ;;;
  let! max_bytes := unwrap (as_u64 (get (limits cfg) "max_request_bytes")) in
  fail_if (timed_out rq) S_REQUEST_TIMEOUT ;;;
  fail_if (max_bytes <? str_len (rq_bytes rq)) S_PAYLOAD_TOO_LARGE ;;;
  fail_if (negb (String.eqb (rq_bytes rq) EmptyString)
           || match h_content_encoding rq with
              | Some (Some x) => negb (String.eqb x "identity")
              | Some None => true
              | None => false
              end) S_BAD_REQUEST ;;;
  rate_source cfg rq ;;;
  let! q := l_lift S_BAD_REQUEST (canonical_query (default EmptyString (raw_query rq))) in
  if String.eqb (path rq) "/health" || String.eqb (path rq) "/pallasync/v2/health" then
    fail_if (negb (String.eqb (method rq) "GET")) S_METHOD_NOT_ALLOWED ;;;
    fail_if (negb (bool_decide (q = []))) S_BAD_REQUEST ;;;
    ret (response 200 (Some (json
      [("status", Str "ok"); ("protocol_version", Str "2.1")]%string)))
  else
    let! ' (chain, route) := ok_or (route_of (path rq)) S_NOT_FOUND in
    fail_if (if bool_decide (route = LDelete) then negb (String.eqb (method rq) "DELETE")
             else negb (String.eqb (method rq) "GET")) S_METHOD_NOT_ALLOWED ;;;
    ok_or (decode chain (Some 32)) S_BAD_REQUEST ;;;
    fail_if (negb (allowed_members route q)) S_BAD_REQUEST ;;;
    l_transaction S_UNAVAILABLE S_UNAVAILABLE (chain_request cfg rq chain route q).

Definition handle cfg (rq : Request) (w : LWorld) : Res Z LResponse * LWorld :=
  match run cfg rq w with
  | (Err status, w) => (Ok (response status None), w)
  | r => r
  end.

(** ** The operator's restoration of original parameters *)
Definition original_members : list string :=
  ["protocol_version"; "chain_id"; "chain_salt"; "created_at_ms"; "creator_device_id";
   "creator_public_key"; "admin_public_key"; "signature"]%string.
Definition check_binary (value : Value) (field : string) : Res string unit :=
  let message := "Invalid legacy binary field"%string in
  let! x := ok_or (as_str (get value field)) message in
  ok_or (decode x (Some (if String.eqb field "signature" then 64 else 32))) message ;;;
  ret tt.
Definition conflicts (value : Value) (row : LChainRow) : bool :=
  negb (is_str (get value "chain_salt") (lc_salt row))
  || negb (is_str (get value "admin_public_key") (lc_admin_key row))
  || negb (is_str (get value "creator_device_id") (lc_creator row))
  || negb (is_str (get value "creator_public_key") (lc_creator_key row)).

(** The document as far as it is judged alone, and its chain. *)
Definition original_document (raw : string) : Res string (Value * string) :=
  let! value := match parse raw with
                | Ok v => Ok v
                | Err _ => Err "Invalid original legacy JSON"%string
                | Panic => Panic
                end in
  ok_or (as_object value) "Legacy parameters must be an object"%string ;;;
  fail_if (negb (exact_members value original_members)
           || negb (is_str (get value "protocol_version") "2.1"))
    "Invalid original legacy parameter fields"%string ;;;
  forM (check_binary value)
    ["chain_id"; "chain_salt"; "creator_public_key"; "admin_public_key"; "signature"]%string ;;;
  let! chain := ok_or (as_str (get value "chain_id")) "Missing legacy chain"%string in
  fail_if (negb match as_str (get value "creator_device_id") with
                | Some x => bool_decide (is_Some (uuid_parse x))
                | None => false
                end
           || negb (match as_u64 (get value "created_at_ms") with
                    | Some z => z <=? MAX_INTEGER | None => false end))
    "Invalid legacy creator/time"%string ;;;
  ret (value, chain).

(** [INSERT .. ON CONFLICT DO NOTHING] *)
Definition keep_parameters (chain canonical : string) (d : LegacyDb) : LegacyDb :=
  set_l_parameters (match l_parameters d !! chain with
                    | Some _ => l_parameters d
                    | None => <[chain := canonical]> (l_parameters d)
                    end) d.

Definition retain_parameters (raw : string) : L string unit :=
  let! ' (value, chain) := l_pure (original_document raw) in
  l_transaction "Legacy store unavailable"%string "Legacy evidence commit failed"%string (
    let! row := l_select "Original legacy authority fields unavailable"%string
                  (fun d => l_chains d !! chain) in
    let! row := ok_or row "Original legacy chain not found"%string in
    fail_if (bool_decide (is_Some (lc_deleted row)))
      "Cannot restore parameters of a deleted legacy chain"%string ;;;
    fail_if (conflicts value row)
      "Original parameters conflict with preserved legacy authority"%string ;;;
    fail_if (negb (veqb (get value "created_at_ms") (Num (lc_created row))))
      "Original creation time conflicts with preserved legacy authority"%string ;;;
    let canonical := canonicalize_json value in
    fail_if (negb (utf8_valid (str_bytes canonical))) "Invalid legacy UTF-8"%string ;;;
    l_exec "Legacy evidence unavailable"%string (keep_parameters chain canonical) ;;;
    let! saved := l_sql "Legacy evidence unavailable"%string (fun d =>
                    x ← l_parameters d !! chain; Some (x, d)) in
    fail_if (negb match parse saved with Ok v => veqb v value | _ => false end)
      "Refusing to replace original legacy parameter evidence"%string).

(** ** The two interfaces side by side *)
Inductive Answer :=
  | AnswerV3 (r : Result Response)
  | AnswerV2 (r : Res Z LResponse).
Definition serve_any (mime_parse : string -> option (string * option string)) cfg
    (rq : Request) (w : LWorld) : Answer * LWorld :=
  if is_legacy (path rq) then let '(r, w) := handle cfg rq w in (AnswerV2 r, w)
  else let '(r, w3) := Sync.handle mime_parse cfg rq (v3 w) in
       (AnswerV3 r, MkLWorld w3 (legacy w)).
End Legacy.
