(* ===== verification/Main.v ===== *)
(** * The start of the process ([src/src/main.rs], [src/src/db/mod.rs])

    The configuration, the store, and [AppState::new], up to the point where the
    process listens.  The pool, the schema that is already there, and the listener
    are input and output. *)
From S2P Require Import Prelude Error Json Verify Jcs Wire Db Monad Config Disclosure Sync.

(** The file that a database URL names. *)
Definition database_file (url : string) : string :=
  let path := match strip_prefix "sqlite://" url with
              | Some x => x
              | None => default url (strip_prefix "sqlite:" url)
              end in
  default EmptyString (head (split_on "?" path)).
Definition memory_path : string := ":memory:".
(** [str::contains] *)
Fixpoint has_substring (p x : string) : bool :=
  bool_decide (is_Some (strip_prefix p x))
  || match x with String _ x => has_substring p x | EmptyString => false end.
(** [resolve] is the absolute and canonical path. *)
Definition resolved_path (resolve : string -> string) (url : string) : string :=
  if has_substring memory_path url then memory_path else resolve (database_file url).

Section Main.
Context {X : Ext} {C : ConfigExt X} {O : Oracle}.
Context (env : string -> option string) (read : string -> string + string).
Context (resolve : string -> string) (db_error : string).

(** [init_db]: opening the pool fails with an [sqlx::Error], here its text. *)
Definition database_url : string := default "sqlite:pallasync.sqlite"%string (env "DATABASE_URL").
Definition init_db (w : World) : Res string string * World :=
  if sql_fails (tick w) then (Err db_error, next w)
  else (Ok (resolved_path resolve database_url), next w).

Definition start (fuel : nat) (schema : Value) (w : World) : Res string RelayConfig * World :=
  match from_env env read fuel schema w with
  | (Ok cfg, w) =>
      match init_db w with
      | (Ok path, w) =>
          if String.eqb path memory_path
          then (Err "Public use requires persistent storage (§17.1)"%string, w)
          else match startup cfg w with
               | (Ok _, w) => (Ok cfg, w)
               | (Err e, w) => (Err (code_str (Error.code e)), w)
               | (Panic, w) => (Panic, w)
               end
      | (Err e, w) => (Err e, w)
      | (Panic, w) => (Panic, w)
      end
  | r => r
  end.
End Main.
