(* ===== verification/Operator.v ===== *)
(** * The operator's command ([src/src/bin/pallasync-operator.rs])

    [sign] turns a draft into a signed policy directory, [verify] checks one, and
    [retain-legacy-parameters] restores original v2.1 parameters.  The file system is
    a map of directories; a directory that is moved is new and has no directories
    below it.  Parsing of paths, dates, printing of JSON and the failures of the
    system are the class [OperatorExt]. *)
From S2P Require Import Prelude Error Json Verify Jcs Wire Db Monad Config Disclosure.
From S2P Require Import Sync Legacy.

(** ** The file system *)
Notation Path := (list string) (only parsing).
Record Dir := MkDir {
  d_mode : Z;
  d_files : gmap string (Z * string);     (* name, its mode and bytes *)
}.
Notation Fs := (gmap (list string) Dir) (only parsing).

(** [Path::parent], with the name that is left out. *)
Definition split_path (p : Path) : option (Path * string) :=
  match rev p with
  | [] => None
  | name :: up => if String.eqb name "/" then None else Some (rev up, name)
  end.
Definition parent (p : Path) : option Path := fst <$> split_path p.
Definition join (p : Path) (name : string) : Path := p ++ [name].
Definition file_at (fs : Fs) (p : Path) : option (Z * string) :=
  '(up, name) ← split_path p; dir ← fs !! up; d_files dir !! name.
Definition present_at (fs : Fs) (p : Path) : bool :=
  bool_decide (is_Some (fs !! p)) || bool_decide (is_Some (file_at fs p)).

Class OperatorExt := {
  path_new : string -> Path;                (* Path::new, its components *)
  to_vec_pretty : Value -> string;          (* serde_json *)
  value_text : Value -> string;             (* impl Display for Value *)
  rfc3339 : Z -> option string;             (* from_timestamp_millis, to_rfc3339 *)
  io_error : nat -> option string;          (* a failure of the system, as text *)
  io_refused : string;                      (* a path that does not fit the call, as text *)
  io_partial : nat -> string -> string;     (* what a failed write leaves *)
  file_mode : Z;                            (* 0o666 and 0o777 under the umask *)
  dir_mode : Z;
}.

(** ** Effects: the store, the file system, and the printed lines *)
Record OWorld := MkOWorld { o_store : LWorld; o_fs : Fs; o_out : list string }.
Definition Op (A : Type) : Type := OWorld -> Res string A * OWorld.
#[export] Instance Op_monad : ErrMonad string Op := {|
  ret _ x := fun w => (Ok x, w);
  bind _ _ m f := fun w =>
    match m w with
    | (Ok x, w') => f x w'
    | (Err e, w') => (Err e, w')
    | (Panic, w') => (Panic, w')
    end;
  fail _ e := fun w => (Err e, w);
  panic _ := fun w => (Panic, w);
|}.

Definition o_pure {A} (r : Res string A) : Op A := fun w => (r, w).
Definition on_store {A} (m : L string A) : Op A := fun w =>
  let '(r, s) := m (o_store w) in (r, MkOWorld s (o_fs w) (o_out w)).
Definition on_relay {A} (f : ApiError -> string) (m : M A) : Op A := on_store (on_v3 f m).
Definition println (line : string) : Op unit := fun w =>
  (Ok tt, MkOWorld (o_store w) (o_fs w) (o_out w ++ [line])).

Section Operator.
Context {X : Ext} {C : ConfigExt X} {O : Oracle} {P : OperatorExt}.

Definition o_tick (w : OWorld) : nat := tick (v3 (o_store w)).
Definition o_next (fs : Fs) (w : OWorld) : OWorld :=
  MkOWorld (MkLWorld (next (v3 (o_store w))) (legacy (o_store w))) fs (o_out w).
(** A call of the system: it fails, is refused ([None]), or does its work. *)
Definition io {A} (f : Fs -> option (A * Fs)) : Op A := fun w =>
  match io_error (o_tick w) with
  | Some e => (Err e, o_next (o_fs w) w)
  | None => match f (o_fs w) with
            | Some (x, fs) => (Ok x, o_next fs w)
            | None => (Err io_refused, o_next (o_fs w) w)
            end
  end.
(** [Path::exists]: a failure is [false]. *)
Definition exists_ (p : Path) : Op bool := fun w =>
  (Ok (bool_decide (io_error (o_tick w) = None) && present_at (o_fs w) p), o_next (o_fs w) w).
Definition create_dir (p : Path) : Op unit := io (fun fs =>
  up ← parent p; _ ← fs !! up;
  if present_at fs p then None else Some (tt, <[p := MkDir dir_mode ∅]> fs)).
(** [fs::write]: the file is created or truncated, then written. *)
Definition put_file (up : Path) (name bytes : string) (fs : Fs) : option Fs :=
  dir ← fs !! up;
  if bool_decide (is_Some (fs !! join up name)) then None
  else Some (<[up := MkDir (d_mode dir)
          (<[name := (default file_mode (fst <$> d_files dir !! name), bytes)]> (d_files dir))]>
        fs).
Definition write (p : Path) (bytes : string) : Op unit :=
  let at_ (b : string) (fs : Fs) :=
    '(up, name) ← split_path p; fs' ← put_file up name b fs; Some (tt, fs') in
  io (at_ EmptyString) ;;;
  fun w =>
    match io_error (o_tick w) with
    | Some e => (Err e, o_next (default (o_fs w)
                          (snd <$> at_ (io_partial (o_tick w) bytes) (o_fs w))) w)
    | None => io (at_ bytes) w
    end.
Definition set_permissions (p : Path) (mode : Z) : Op unit := io (fun fs =>
  match fs !! p with
  | Some dir => Some (tt, <[p := MkDir mode (d_files dir)]> fs)
  | None =>
      '(up, name) ← split_path p; dir ← fs !! up; '(_, bytes) ← d_files dir !! name;
      Some (tt, <[up := MkDir (d_mode dir) (<[name := (mode, bytes)]> (d_files dir))]> fs)
  end).
(** The target of [fs::rename] may be an empty directory. *)
Definition below (fs : Fs) (p : Path) : bool :=
  existsb (fun kv => bool_decide (parent (fst kv) = Some p)) (map_to_list fs).
Definition rename (p q : Path) : Op unit := io (fun fs =>
  dir ← fs !! p; up ← parent q; _ ← fs !! up;
  if bool_decide (p = q) then Some (tt, fs) else
  match fs !! q with
  | Some old =>
      if bool_decide (d_files old = ∅) && negb (below fs q)
      then Some (tt, <[q := dir]> (base.delete p fs)) else None
  | None => if bool_decide (is_Some (file_at fs q)) then None
            else Some (tt, <[q := dir]> (base.delete p fs))
  end).
(** [let _ = fs::remove_dir_all(..)]: a failure may leave the directory. *)
Definition remove_dir_all (p : Path) : Op unit := fun w =>
  match io_error (o_tick w) with
  | Some _ => (Ok tt, o_next (o_fs w) w)
  | None => (Ok tt, o_next (base.delete p (o_fs w)) w)
  end.

(** [take(1048577)] and the test of the length accept what has at most 1048576. *)
Definition read_public (p : Path) : Op string :=
  let! bytes := io (fun fs => '(_, bytes) ← file_at fs p; Some (bytes, fs)) in
  fail_if (MAX_DOCUMENT <? str_len bytes) "Policy exceeds 1 MiB"%string ;;;
  ret bytes.

Fixpoint trim_end (x : string) : string :=
  match x with
  | EmptyString => EmptyString
  | String c x =>
      match trim_end x with
      | EmptyString => if (byte_of c =? 13) || (byte_of c =? 10) then EmptyString
                       else String c EmptyString
      | y => String c y
      end
  end.
(** The key that [stdin], what is waiting on the standard input, is the seed of. *)
Definition seed_key (stdin : string) : Res string SigningKey :=
  let input := String.substring 0 65 stdin in
  fail_if (negb (utf8_valid (str_bytes input))) "Invalid seed input"%string ;;;
  let! bytes := ok_or (decode (trim_end input) (Some 32))
    "Expected a canonical Base64URL 32-byte seed on stdin"%string in
  ret (key_from_seed bytes).
(** A call that opens or reads something, with the text of its error replaced. *)
Definition io_text (message : string) : Op unit := fun w =>
  match io_error (o_tick w) with
  | Some _ => (Err message, o_next (o_fs w) w)
  | None => (Ok tt, o_next (o_fs w) w)
  end.
Definition key_from_stdin (stdin : string) : Op SigningKey :=
  io_text "Invalid seed input" ;;;
  o_pure (seed_key stdin).
(** [Uuid::new_v4().to_string()] *)
Definition new_uuid_text : Op string := on_relay (fun _ => EmptyString) new_id.

Definition quota_of (x : string) : Res string (option Z) :=
  if String.eqb x "none" then ret None
  else let! z := ok_or (from_str_u64 x) "Invalid quota"%string in ret (Some z).

Section Commands.
Context (fuel : nat) (schema : Value) (stdin : string).

Definition validate (key : SigningKey) (md : string) (p : Value) (quota : option Z)
    : Op RelayConfig :=
  on_relay (fun e => "Policy rejected by server validator: " +:+ code_str (Error.code e))%string
    (new fuel schema key md p quota).

Definition derived_fields : list string :=
  ["relay_signature"; "relay_key_id"; "disclosure_id"; "revision"; "published_at_ms";
   "effective_at_ms"; "markdown_sha256"]%string.
Definition check_draft (p : Value) : Res string unit :=
  fail_if (negb (is_object p)) "Policy draft must be an object"%string ;;;
  forM (fun name => fail_if (bool_decide (is_Some (get_opt p name)))
    ("Draft must not supply derived field: " +:+ name)%string) derived_fields.

Definition nl : string := String (ascii_of_Z 10) EmptyString.
Definition header (id date : string) (timestamp : Z) (key_id : string) : string :=
  "# Relay privacy policy" +:+ nl +:+ nl +:+ "Revision: 1  " +:+ nl
  +:+ "Disclosure ID: " +:+ id +:+ "  " +:+ nl
  +:+ "Published / effective (UTC): " +:+ date +:+ "  " +:+ nl
  +:+ "Published / effective (Unix milliseconds): " +:+ dec timestamp +:+ "  " +:+ nl
  +:+ "Relay key ID: " +:+ key_id +:+ nl +:+ nl.
Definition derive (p : Value) (id : string) (timestamp : Z) (key_id md : string) : Value :=
  fold_left (fun p kv => set_member p (fst kv) (snd kv))
    [("revision", Num 1); ("disclosure_id", Str id); ("published_at_ms", Num timestamp);
     ("effective_at_ms", Num timestamp); ("relay_key_id", Str key_id);
     ("markdown_sha256", Str (hash_bytes md))]%string p.
(** The texts of [sign_relay]'s errors. *)
Definition sign_message (key : SigningKey) (p : Value) : string :=
  match input ← signing_bytes p CTX_PRIVACY "relay_signature";
        verify_signature (b64_encode (verifying_key key)) (b64_encode (ed_sign key input)) input
  with
  | Some _ => "Degenerate relay signature"
  | None => "Invalid key"
  end.
Definition sign_policy (key : SigningKey) (p : Value) : Res string Value :=
  match sign_relay key p CTX_PRIVACY with
  | Ok p => Ok p
  | Err _ => Err (sign_message key p)
  | Panic => Panic
  end.

(** The documents are public: the directory is readable for all. *)
Definition fill (temporary : Path) (cfg : RelayConfig) (public_key : string) : Op unit :=
  write (join temporary "privacy.md") (markdown cfg) ;;;
  write (join temporary "privacy.json") (to_vec_pretty (privacy cfg)) ;;;
  write (join temporary "relay-public-key.txt") (public_key +:+ nl) ;;;
  set_permissions temporary 493 ;;;
  forM (fun name => set_permissions (join temporary name) 420)
    ["privacy.md"; "privacy.json"; "relay-public-key.txt"]%string.
Definition publish (temporary output : Path) (cfg : RelayConfig) (public_key : string)
    : Op unit :=
  fill temporary cfg public_key ;;;
  rename temporary output.
Definition publish_or_remove (temporary output : Path) (cfg : RelayConfig)
    (public_key : string) : Op unit := fun w =>
  match publish temporary output cfg public_key w with
  | (Err e, w) => (remove_dir_all temporary ;;; fail e) w
  | r => r
  end.

(** What is signed, the public key, and the temporary directory. *)
Definition prepare (draft output : Path) (quota : option Z)
    : Op (RelayConfig * string * list string) :=
  let! there := exists_ output in
  fail_if there
    "Policy directory already exists; refusing to overwrite a published revision"%string ;;;
  let! key := key_from_stdin stdin in
  let! draft_md := read_public (join draft "privacy.md") in
  let! bytes := read_public (join draft "privacy.json") in
  let! p := o_pure (parse bytes) in
  o_pure (check_draft p) ;;;
  let! timestamp := on_store l_now in
  let! id := new_uuid_text in
  let key_id := hash_bytes (verifying_key key) in
  let public_key := b64_encode (verifying_key key) in
  let! date := unwrap (rfc3339 timestamp) in
  let md := header id date timestamp key_id +:+ draft_md in
  let! p := o_pure (sign_policy key (derive p id timestamp key_id md)) in
  let! cfg := validate key md p quota in
  let! up := ok_or (parent output) "Output directory needs a parent"%string in
  let! name := new_uuid_text in
  ret (cfg, public_key, join up (".policy-" +:+ name)).
Definition sign (draft output : Path) (quota : option Z) : Op unit :=
  let! ' (cfg, public_key, temporary) := prepare draft output quota in
  create_dir temporary ;;;
  publish_or_remove temporary output cfg public_key ;;;
  println ("Signed revision 1; relay_key_id=" +:+ Config.key_id cfg).

Definition verify (path : Path) (q : string) : Op unit :=
  let! key := key_from_stdin stdin in
  let! bytes := read_public (join path "privacy.json") in
  let! p := o_pure (parse bytes) in
  let! md := read_public (join path "privacy.md") in
  let! quota := o_pure (quota_of q) in
  let! cfg := validate key md p quota in
  println ("Verified revision " +:+ value_text (get (privacy cfg) "revision")
           +:+ "; relay_key_id=" +:+ Config.key_id cfg).

Definition retain_legacy (input : Path) : Op unit :=
  let! bytes := read_public input in
  io_text "Operator runtime unavailable" ;;;
  io_text "Legacy store unavailable" ;;;
  on_store (retain_parameters bytes) ;;;
  println "Original public legacy parameter bytes retained; the migration client must verify input identity and provenance.".

Definition usage : string :=
  "Usage: pallasync-operator sign DRAFT_DIR POLICY_DIR QUOTA|none" +:+ nl
  +:+ "       pallasync-operator verify POLICY_DIR QUOTA|none" +:+ nl
  +:+ "       pallasync-operator retain-legacy-parameters ORIGINAL_JSON DATABASE_URL" +:+ nl
  +:+ "Policy seed is read from stdin only; legacy restoration uses public bytes only.".
Definition run (args : list string) : Op unit :=
  match args with
  | [command; x; y; z] =>
      if String.eqb command "sign" then
        let! quota := o_pure (quota_of z) in
        sign (path_new x) (path_new y) quota
      else fail usage
  | [command; x; y] =>
      if String.eqb command "retain-legacy-parameters" then retain_legacy (path_new x)
      else if String.eqb command "verify" then verify (path_new x) y
      else fail usage
  | _ => fail usage
  end.
(** The exit code; the error is printed on the standard error. *)
Definition main (args : list string) (w : OWorld) : option Z * OWorld :=
  match run args w with
  | (Ok _, w) => (Some 0, w)
  | (Err _, w) => (Some 1, w)
  | (Panic, w) => (None, w)
  end.
End Commands.
End Operator.
