(* ===== verification/StoreFacts.v ===== *)
(** * Facts about the evidence store

    Every operation of [Store] writes only in the vocabulary of [db_step] (so
    isolation and immutability of evidence apply to it), keeps the chain's
    identity, and keeps the two hash chains of a well-formed chain. *)
From S2P Require Import Prelude Error Json Verify Jcs Wire Db Monad Config Store.
From S2P Require Import HashChain Steps.

(** Facts about what an operation [yields], for the [respects] proofs. *)
Create HintDb yields discriminated.

Section StoreFacts.
Context {X : Ext} {O : Oracle}.
Implicit Types (c : Chain) (cfg : RelayConfig).

(** ** What the operations return and store *)
Lemma insert_new_ok {K V} `{Countable K} (k : K) (v : V) m m' :
  insert_new k v m = Some m' -> m !! k = None /\ m' = <[k := v]> m.
Proof. unfold insert_new. case_match; naive_solver. Qed.

Lemma insert_receipt_ok x k i row d d' :
  insert_receipt x k i row d = Some d' ->
  t_receipts d !! (x, k, i) = None /\
  d' = set_receipts (<[(x, k, i) := row]> (t_receipts d)) d.
Proof.
  unfold insert_receipt. case_match; [done|].
  destruct (insert_new _ _ _) eqn:E; [|done]. apply insert_new_ok in E as [? ->].
  intros [= <-]. done.
Qed.

Lemma sign_ok cfg l ctx v :
  sign cfg (Obj l) ctx = Ok v -> sign_relay (key cfg) (Obj l) ctx = Ok v.
Proof. unfold sign. destruct (sign_relay _ _ _); naive_solver. Qed.

Lemma sign_get cfg l ctx v k :
  sign cfg (Obj l) ctx = Ok v -> k <> "relay_signature"%string ->
  get v k = get (Obj l) k.
Proof. intros H%sign_ok. by apply (sign_relay_get _ _ _ _ k H). Qed.

(** [v] carries a valid relay signature for the context [ctx]. *)
Definition relay_signed cfg (v : Value) (ctx : string) : Prop :=
  exists m, signing_bytes v ctx "relay_signature" = Some m /\
    verify_signature (b64_encode (verifying_key (key cfg))) (s v "relay_signature") m
      = Some true.

Lemma sign_signed cfg l ctx v :
  obj_get l "relay_signature" = None ->
  sign cfg (Obj l) ctx = Ok v -> relay_signed cfg v ctx.
Proof.
  intros Ha H%sign_ok. apply sign_relay_ok in H as (sig & -> & Hv).
  eexists. split; [reflexivity|].
  assert (Hs : s (set_member (Obj l) "relay_signature" (Str sig)) "relay_signature" = sig)
    by (unfold s; by rewrite get_set_member).
  rewrite Hs. simpl. by rewrite obj_remove_insert.
Qed.

Lemma transparency_ok c cfg op digest seq co w c' e h w' :
  transparency c cfg op digest seq co w = (Ok (c', (e, h)), w') ->
  let i := transparency_index c + 1 in
  let k := (chain_id c, transparency_id c, i) in
  transparency_index c < MAX_INTEGER /\
  (exists t, sign cfg (transparency_entry c cfg i op digest seq co t)
               CTX_TRANSPARENCY = Ok e) /\
  link_hash (transparency_hash c) i e LINK_CTX = Some h /\
  c' = set_transparency_head i h c /\
  t_transparency (db w) !! k = None /\
  db w' = set_transparency (<[k := MkTransparencyRow e h]> (t_transparency (db w))) (db w).
Proof.
  unfold transparency. intros H. m_inv H. simplify_eq.
  unfold insert_new in *. repeat case_match; simplify_eq/=.
  split_and!; try done; [lia | eauto].
Qed.

Lemma put_object_ok x kind v log w b w' :
  put_object x kind v log w = (Ok b, w') ->
  let k := (x, kind, object_id v kind) in
  (b = false /\ db w' = db w /\ o_hash <$> t_objects (db w) !! k = Some (object_hash v)) \/
  (b = true /\ t_objects (db w) !! k = None /\
   (forall k', record_twin kind = Some k' -> t_objects (db w) !! (x, k', object_id v kind) = None) /\
   db w' = set_objects (<[k := MkObjectRow (object_hash v) (Some v) (fst <$> log)
                                 (snd <$> log)]> (t_objects (db w))) (db w)).
Proof.
  unfold put_object, object_digest, insert_object, insert_new.
  intros H. cbv zeta in H. m_inv H; simplify_eq/=; bsimp.
  - left. split_and!; done.
  - right. assert (Ho : t_objects (db w) !! (x, kind, object_id v kind) = None)
      by (by destruct (t_objects (db w) !! _)).
    repeat case_match; simplify_eq/=; split_and!; try done. intros ? [= <-]. done.
  - right. assert (Ho : t_objects (db w) !! (x, kind, object_id v kind) = None)
      by (by destruct (t_objects (db w) !! _)).
    repeat case_match; simplify_eq/=; split_and!; done.
Qed.

(** ** Every operation writes in the vocabulary of its chain *)
Lemma put_object_respects x y kind v log :
  y = x -> respects (db_steps x) (put_object y kind v log).
Proof. intros ->. unfold put_object, object_digest. respects_tac db_stmt. Qed.

Lemma transparency_respects x c cfg op digest seq co :
  chain_id c = x -> respects (db_steps x) (transparency c cfg op digest seq co).
Proof. unfold transparency. respects_tac db_stmt. Qed.

Lemma transparency_yields c cfg op digest seq co c' p :
  yields (transparency c cfg op digest seq co) (c', p) ->
  chain_id c' = chain_id c /\ log_id c' = log_id c /\ parameters c' = parameters c /\
  epoch c' = epoch c.
Proof. intros (w & w' & H). destruct p. by apply transparency_ok in H as (_&_&_&->&_). Qed.
Lemma transparency_yields_id x c cfg op digest seq co c' p :
  yields (transparency c cfg op digest seq co) (c', p) ->
  chain_id c = x -> chain_id c' = x.
Proof. intros [-> _]%transparency_yields. done. Qed.
End StoreFacts.

#[export] Hint Resolve put_object_respects transparency_respects : respects.

Ltac transparency_step :=
  match goal with
  | H : yields (transparency _ _ _ _ _ _) (?c', _) |- chain_id ?c' = _ =>
      apply (transparency_yields_id _ _ _ _ _ _ _ _ _ H)
  end.
Ltac chain_step ::= transparency_step.

Section StoreSteps.
Context {X : Ext} {O : Oracle}.
Implicit Types (c : Chain) (cfg : RelayConfig).

Lemma store_receipt_respects x c kind id r :
  chain_id c = x -> respects (db_steps x) (store_receipt c kind id r).
Proof. unfold store_receipt. respects_tac db_stmt. Qed.

Lemma save_respects x c cfg : chain_id c = x -> respects (db_steps x) (save c cfg).
Proof. unfold save, quota, used. respects_tac db_stmt. Qed.

Lemma make_receipt_respects R `{!PreOrder R} c cfg v link :
  respects R (make_receipt c cfg v link).
Proof. unfold make_receipt. respects_tac idtac. Qed.

Lemma publish_notice_respects x c cfg :
  chain_id c = x -> respects (db_steps x) (publish_notice c cfg).
Proof. unfold publish_notice. respects_tac db_stmt. Qed.

Lemma append_new_respects x c cfg kind v :
  chain_id c = x -> respects (db_steps x) (append_new c cfg kind v).
Proof. unfold append_new, store_receipt, make_receipt. respects_tac db_stmt. Qed.

Lemma append_respects x c cfg kind v :
  chain_id c = x -> respects (db_steps x) (append c cfg kind v).
Proof.
  intros. unfold append, object_digest.
  respects_tac db_stmt; by apply append_new_respects.
Qed.

Lemma snapshot_part_respects x c cfg v :
  chain_id c = x -> respects (db_steps x) (snapshot_part c cfg v).
Proof. unfold snapshot_part, receipt, store_receipt, make_receipt. respects_tac db_stmt. Qed.

Lemma outcomes_respects R `{!PreOrder R} y sc i v : respects R (outcomes y sc i v).
Proof. unfold outcomes. respects_tac idtac. Qed.

Lemma outcome_respects x y sc i v r :
  y = x -> respects (db_steps x) (outcome y sc i v r).
Proof. intros ->. unfold outcome. respects_tac db_stmt. Qed.
End StoreSteps.

#[export] Hint Resolve store_receipt_respects save_respects make_receipt_respects
  publish_notice_respects append_new_respects append_respects snapshot_part_respects
  outcomes_respects outcome_respects : respects.

(** ** Appending to the log *)
Section Append.
Context {X : Ext} {O : Oracle}.
Implicit Types (c : Chain) (cfg : RelayConfig).

(** The object row after [append]: fresh, or an imported one that gets its
    position. *)
Definition object_after (c : Chain) (kind : Kind) (v : Value) (d : Db)
    : gmap (string * Kind * string) ObjectRow :=
  let k := (chain_id c, kind, object_id v kind) in
  let seq := head_seq c + 1 in
  match t_objects d !! k with
  | Some _ => alter (adopt (log_id c) seq) k (t_objects d)
  | None => <[k := MkObjectRow (object_hash v) (Some v) (Some (log_id c)) (Some seq)]>
              (t_objects d)
  end.

(** What one run of [append_new] draws and computes. *)
Record AppendTrace := MkTrace {
  ap_received : Z;      (* the clock *)
  ap_link : string;     (* the new head hash *)
  ap_tentry : Value;    (* the signed transparency entry *)
  ap_tlink : string;    (* its link hash *)
  ap_time : Z;          (* the clock, in the transparency entry *)
  ap_receipt_id : string;
}.

(** The specification of a successful [append_new]. *)
Record appended (x : AppendTrace) (c : Chain) (cfg : RelayConfig) (kind : Kind)
    (v : Value) (d : Db) (c' : Chain) (entry r : Value) (d' : Db) : Prop := {
  ap_bound : head_seq c < MAX_INTEGER;
  ap_tbound : transparency_index c < MAX_INTEGER;
  ap_entry : entry = log_entry kind v (head_seq c + 1) (ap_received x);
  ap_link_hash :
    link_hash (head_hash c) (head_seq c + 1) entry EmptyString = Some (ap_link x);
  ap_transparency :
    sign cfg (transparency_entry (set_log_head (head_seq c + 1) (ap_link x) c) cfg
                (transparency_index c + 1) "accept" (object_hash v)
                (Some (head_seq c + 1)) Null (ap_time x)) CTX_TRANSPARENCY
    = Ok (ap_tentry x);
  ap_tlink_hash :
    link_hash (transparency_hash c) (transparency_index c + 1) (ap_tentry x) LINK_CTX
    = Some (ap_tlink x);
  ap_chain :
    c' = set_transparency_head (transparency_index c + 1) (ap_tlink x)
           (set_log_head (head_seq c + 1) (ap_link x) c);
  ap_receipt :
    sign cfg (receipt_body c' cfg v
      (MkLink (Some (head_seq c + 1)) (Some (object_hash entry)) (head_hash c)
         (ap_received x) (ap_tlink x)) (ap_receipt_id x)) CTX_RECEIPT = Ok r;
  ap_fresh_log : t_log d !! (chain_id c, log_id c, head_seq c + 1) = None;
  ap_fresh_transparency :
    t_transparency d !! (chain_id c, transparency_id c, transparency_index c + 1) = None;
  ap_fresh_receipt : t_receipts d !! (chain_id c, kind, object_id v kind) = None;
  ap_db :
    d' = set_receipts
           (<[(chain_id c, kind, object_id v kind) :=
                MkReceiptRow (log_id c) (as_u64 (get r "relay_seq")) r]> (t_receipts d))
        (set_transparency
           (<[(chain_id c, transparency_id c, transparency_index c + 1) :=
                MkTransparencyRow (ap_tentry x) (ap_tlink x)]> (t_transparency d))
        (set_log
           (<[(chain_id c, log_id c, head_seq c + 1) :=
                MkLogRow (Some entry) (ap_link x)]> (t_log d))
        (set_objects (object_after c kind v d) d)));
}.

Lemma put_object_after c kind v w b w' :
  put_object (chain_id c) kind v (Some (log_id c, head_seq c + 1)) w = (Ok b, w') ->
  set_objects (alter (adopt (log_id c) (head_seq c + 1))
                 (chain_id c, kind, object_id v kind) (t_objects (db w'))) (db w')
  = set_objects (object_after c kind v (db w)) (db w).
Proof.
  intros [(_ & -> & Ho)|(_ & Ho & _ & ->)]%put_object_ok; unfold object_after.
  - by destruct (t_objects (db w) !! _).
  - rewrite Ho. cbn [t_objects set_objects]. by rewrite alter_insert_eq.
Qed.

Lemma append_new_ok c cfg kind v w c' entry r w' :
  append_new c cfg kind v w = (Ok (c', (entry, r)), w') ->
  exists x, appended x c cfg kind v (db w) c' entry r (db w').
Proof.
  unfold append_new, store_receipt, make_receipt. intros H.
  m_inv H; simplify_eq; bsimp.
  destruct (insert_new _ _ _) as [m|] eqn:Em; [|done]. simplify_eq/=.
  apply insert_new_ok in Em as [Hlog ->].
  apply transparency_ok in Hm3 as (Hti & [t Ht] & Htl & -> & Htr & Hdb1).
  apply insert_receipt_ok in Hm5 as [Hrc ->]. cbn in *.
  apply put_object_after in Hm0.
  exists (MkTrace (0 `max` clock (tick w)) x2 v0 s t (new_uuid (tick w1))).
  rewrite Hdb1 in *. cbn in *. rewrite Hm0.
  injection Hm0 as ? Hobj. constructor; cbn; congruence.
Qed.
End Append.
