(* ===== verification/StoreSpec.v ===== *)
(** * The contract of the evidence store

    [chain_ok] is the well-formedness invariant of a chain: its log and its
    transparency log are hash chains from the chain's genesis hashes to the heads
    that the [Chain] record names.  The theorems state what [append] and [save]
    promise to the handlers. *)
From S2P Require Import Prelude Error Json Verify Jcs Wire Db Monad Config Store.
From S2P Require Import HashChain Steps StoreFacts.

Section Invariant.
Context {X : Ext} {O : Oracle}.
Implicit Types (c : Chain) (cfg : RelayConfig).

(** The data log and the transparency log of a chain as sequences of rows. *)
Definition log_rows (d : Db) (c : Chain) (i : Z) : option (option Value * string) :=
  (fun r => (l_entry r, l_head_hash r)) <$> t_log d !! (chain_id c, log_id c, i).
Definition transparency_rows (d : Db) (c : Chain) (i : Z)
    : option (option Value * string) :=
  (fun r => (Some (tr_entry r), tr_hash r))
    <$> t_transparency d !! (chain_id c, transparency_id c, i).

Record chain_ok (cfg : RelayConfig) (d : Db) (c : Chain) : Prop := {
  ok_log : exists h0,
    initial_hash LOG_CTX (chain_id c) (log_id c) None = Some h0 /\
    hash_chain EmptyString h0 (log_rows d c) (head_seq c) (head_hash c);
  ok_transparency : exists h0,
    initial_hash TRANSPARENCY_CTX (chain_id c) (transparency_id c) (Some (key_id cfg))
      = Some h0 /\
    hash_chain LINK_CTX h0 (transparency_rows d c) (transparency_index c)
      (transparency_hash c);
  ok_log_bound : head_seq c <= MAX_INTEGER;
  ok_transparency_bound : transparency_index c <= MAX_INTEGER;
  ok_log_hash : decodable (head_hash c);
  ok_transparency_hash : decodable (transparency_hash c);
  ok_available : 1 <= min_available_seq c <= head_seq c + 1;
  ok_entries : forall i, min_available_seq c <= i <= head_seq c ->
    exists e h, log_rows d c i = Some (Some e, h);
}.

(** The two fields of the invariant that a statement can break. *)
Lemma chain_ok_frame cfg d d' c :
  chain_ok cfg d c ->
  (forall i, t_log d' !! (chain_id c, log_id c, i) = t_log d !! (chain_id c, log_id c, i)) ->
  (forall i, t_transparency d' !! (chain_id c, transparency_id c, i)
             = t_transparency d !! (chain_id c, transparency_id c, i)) ->
  chain_ok cfg d' c.
Proof.
  intros [[h0 [H1 H2]] [h1 [H3 H4]] ? ? ? ? ? He] Hl Ht.
  assert (Hlr : forall i, log_rows d' c i = log_rows d c i)
    by (intros i; unfold log_rows; by rewrite Hl).
  constructor; try done; [exists h0 | exists h1|].
  - split; [done|]. by eapply hash_chain_ext.
  - split; [done|]. eapply hash_chain_ext; [done|]. intros i.
    unfold transparency_rows. by rewrite Ht.
  - intros i Hi. rewrite Hlr. by apply He.
Qed.

Context {XL : ExtLaws X}.

Lemma link_hash_decodable p i e ctx h : link_hash p i e ctx = Some h -> decodable h.
Proof.
  unfold link_hash, decodable. destruct (link_preimage _ _ _ _); [|done].
  intros [= <-]. rewrite decode_hash. eauto.
Qed.
Lemma link_hash_total p i e ctx : decodable p -> is_Some (link_hash p i e ctx).
Proof.
  intros [b Hb]. unfold link_hash, link_preimage. rewrite Hb, decode_object_hash. eauto.
Qed.

Lemma transparency_chain_ok cfg c op digest seq co w c' p w' :
  chain_ok cfg (db w) c ->
  transparency c cfg op digest seq co w = (Ok (c', p), w') ->
  chain_ok cfg (db w') c'.
Proof.
  intros [Hlog [h0 [Hi Ht]] ? ? ? ? ? He]. destruct p as [e h].
  intros (Hb & _ & Hl & -> & _ & ->)%transparency_ok.
  constructor; cbn; try done; [|lia | by eapply link_hash_decodable].
  exists h0. split; [done|]. eapply hash_chain_extend; [done..| |]; unfold transparency_rows;
    cbn; [by rewrite lookup_insert_eq|].
  intros i Hi'. by rewrite lookup_insert_ne by congruence.
Qed.

Lemma appended_chain_ok x cfg c kind v d c' entry r d' :
  chain_ok cfg d c -> appended x c cfg kind v d c' entry r d' -> chain_ok cfg d' c'.
Proof.
  intros [[h0 [Hi Hlog]] [h1 [Hi' Ht]] ? ? ? ? ? He] [].
  subst c' d'. constructor; cbn; try lia; try (by eapply link_hash_decodable).
  - exists h0. split; [done|]. eapply hash_chain_extend; [done..| |]; unfold log_rows; cbn.
    + by rewrite lookup_insert_eq.
    + intros i Hne. by rewrite lookup_insert_ne by congruence.
  - exists h1. split; [done|].
    eapply hash_chain_extend; [done..| |]; unfold transparency_rows; cbn.
    + by rewrite lookup_insert_eq.
    + intros i Hne. by rewrite lookup_insert_ne by congruence.
  - intros i Hr. unfold log_rows; cbn. destruct (decide (i = head_seq c + 1)) as [->|].
    + rewrite lookup_insert_eq. eauto.
    + rewrite lookup_insert_ne by congruence. apply He. lia.
Qed.
End Invariant.

(** ** What [append] promises *)
Section AppendSpec.
Context {X : Ext} {O : Oracle}.
Implicit Types (c : Chain) (cfg : RelayConfig).

(** The object of [kind] and [id] is stored with its receipt: [append] will
    answer from the store. *)
Definition received (d : Db) (c : Chain) (kind : Kind) (v : Value) : Prop :=
  is_Some (t_objects d !! (chain_id c, kind, object_id v kind)) /\
  is_Some (t_receipts d !! (chain_id c, kind, object_id v kind)).

Lemma append_ok c cfg kind v w c' entry r w' :
  append c cfg kind v w = (Ok (c', (entry, r)), w') ->
  (exists x, appended x c cfg kind v (db w) c' entry r (db w')) \/
  (received (db w) c kind v /\ c' = c /\ db w' = db w).
Proof.
  unfold append, object_digest, received. intros H. cbv zeta in H. m_inv H; simplify_eq/=.
  - right. split_and!; try done; eapply fmap_is_Some; eauto.
  - left. by apply append_new_ok in H.
  - left. by apply append_new_ok in H.
Qed.

Lemma append_fresh c cfg kind v w c' entry r w' :
  ~ received (db w) c kind v ->
  append c cfg kind v w = (Ok (c', (entry, r)), w') ->
  exists x, appended x c cfg kind v (db w) c' entry r (db w').
Proof. by intros Hr [?|[? _]]%append_ok. Qed.

Lemma append_yields x c cfg kind v c' p :
  yields (append c cfg kind v) (c', p) -> chain_id c = x -> chain_id c' = x.
Proof.
  intros (w & w' & H) <-. destruct p as [e r].
  apply append_ok in H as [[t []]|(_&->&_)]; by subst.
Qed.

(** The members of a receipt are those of its draft. *)
Lemma receipt_member c cfg v link id r k :
  sign cfg (receipt_body c cfg v link id) CTX_RECEIPT = Ok r ->
  k <> "relay_signature"%string -> get r k = get (receipt_body c cfg v link id) k.
Proof. intros H. by apply (sign_get _ _ _ _ _ H). Qed.

Lemma log_entry_object kind v seq t : get (log_entry kind v seq t) "object" = v.
Proof. unfold log_entry. by case_match. Qed.
Lemma log_entry_seq kind v seq t : get (log_entry kind v seq t) "relay_seq" = Num seq.
Proof. unfold log_entry. by case_match. Qed.

Context {XL : ExtLaws X}.

(** ** No panic *)
Definition chain_safe (c : Chain) : Prop :=
  decodable (head_hash c) /\ decodable (transparency_hash c).

Lemma chain_ok_safe cfg d c : chain_ok cfg d c -> chain_safe c.
Proof. by intros []. Qed.

Lemma sign_no_panic cfg l ctx : sign cfg (Obj l) ctx <> Panic.
Proof.
  unfold sign, sign_relay, signing_bytes. simpl. autorewrite with relay.
  destruct (verify_signature _ _ _) as [[]|]; done.
Qed.

Lemma transparency_safe c cfg op digest seq co c' p :
  chain_safe c -> yields (transparency c cfg op digest seq co) (c', p) -> chain_safe c'.
Proof.
  intros [H1 H2] (w & w' & H). destruct p as [e h].
  apply transparency_ok in H as (_ & _ & H & -> & _).
  split; [done|]. by eapply link_hash_decodable.
Qed.

Lemma transparency_no_panic c cfg op digest seq co :
  chain_safe c -> never_panics (transparency c cfg op digest seq co).
Proof.
  intros [_ ?]. unfold transparency. np_tac; [apply sign_no_panic | by apply link_hash_total].
Qed.

Lemma make_receipt_no_panic c cfg v link : never_panics (make_receipt c cfg v link).
Proof. unfold make_receipt. np_tac. apply sign_no_panic. Qed.

Lemma put_object_no_panic x kind v log : never_panics (put_object x kind v log).
Proof. unfold put_object, object_digest. np_tac. Qed.

Hint Resolve make_receipt_no_panic put_object_no_panic : panics.

Lemma append_new_no_panic c cfg kind v :
  chain_safe c -> never_panics (append_new c cfg kind v).
Proof.
  intros [Hh Ht]. unfold append_new, store_receipt. np_tac; [by apply link_hash_total|].
  apply transparency_no_panic. split; [|done].
  match goal with H : yields (unwrap _) _ |- _ => destruct H as (?&?&Hu); m_inv Hu end.
  by eapply link_hash_decodable.
Qed.
Hint Resolve append_new_no_panic : panics.

Lemma append_no_panic' c cfg kind v : chain_safe c -> never_panics (append c cfg kind v).
Proof. intros. unfold append, object_digest. np_tac. Qed.

(** (C2) Accepting an object that has no receipt yet extends both hash chains by
    exactly one row, which carries the object, and stores a receipt, signed by
    the relay, that binds the object to its position and to the heads before
    and after it. *)
Theorem append_accepts cfg c kind v w c' entry r w' :
  chain_ok cfg (db w) c ->
  ~ received (db w) c kind v ->
  append c cfg kind v w = (Ok (c', (entry, r)), w') ->
  let d' := db w' in
  chain_ok cfg d' c' /\
  head_seq c' = head_seq c + 1 /\ transparency_index c' = transparency_index c + 1 /\
  t_log d' !! (chain_id c, log_id c, head_seq c + 1)
    = Some (MkLogRow (Some entry) (head_hash c')) /\
  get entry "object" = v /\ get entry "relay_seq" = Num (head_seq c + 1) /\
  (rc_receipt <$> t_receipts d' !! (chain_id c, kind, object_id v kind)) = Some r /\
  get r "object_hash" = Str (object_hash v) /\
  get r "entry_hash" = Str (object_hash entry) /\
  get r "relay_seq" = Num (head_seq c + 1) /\
  get r "previous_head_hash" = Str (head_hash c) /\
  get r "resulting_head_hash" = Str (head_hash c') /\
  get r "transparency_index" = Num (transparency_index c') /\
  get r "transparency_hash" = Str (transparency_hash c') /\
  relay_signed cfg r CTX_RECEIPT.
Proof.
  intros Hok Hnew H. apply append_fresh in H as [x H]; [|done].
  pose proof (appended_chain_ok _ _ _ _ _ _ _ _ _ _ Hok H) as Hok'.
  destruct H. cbv zeta.
  assert (Hr : relay_signed cfg r CTX_RECEIPT) by (eapply sign_signed; [|exact ap_receipt]; reflexivity).
  repeat rewrite (receipt_member _ _ _ _ _ _ _ ap_receipt) by done.
  split_and!; try done; subst c' entry; try done.
  - rewrite ap_db. cbn. by rewrite lookup_insert_eq.
  - apply log_entry_object.
  - apply log_entry_seq.
  - rewrite ap_db. cbn. by rewrite lookup_insert_eq.
Qed.

(** Retrying an accepted object writes nothing and returns the entry and the
    receipt of the first time; only the storage can make it fail. *)
Theorem append_retry c cfg kind v w orow rrow lrow :
  t_objects (db w) !! (chain_id c, kind, object_id v kind) = Some orow ->
  o_hash orow = object_hash v ->
  t_receipts (db w) !! (chain_id c, kind, object_id v kind) = Some rrow ->
  t_log (db w) !! (chain_id c, s (rc_receipt rrow) "log_id",
                   n (rc_receipt rrow) "relay_seq") = Some lrow ->
  exists r w', append c cfg kind v w = (r, w') /\ db w' = db w /\
    (r = Ok (c, (default Null (l_entry lrow), rc_receipt rrow)) \/ r = Err storage_error).
Proof.
  intros Ho Hh Hr Hl. unfold append, object_digest. m_run; [eauto 10|].
  rewrite Ho. cbn. rewrite Hh, String.eqb_refl. cbn. m_run; [eauto 10|].
  rewrite Hr. cbn. m_run; [eauto 10|]. rewrite Hl. cbn. eauto 10.
Qed.

(** An object whose id is taken by different bytes is refused, and nothing is
    written. *)
Theorem append_conflict c cfg kind v w orow :
  t_objects (db w) !! (chain_id c, kind, object_id v kind) = Some orow ->
  o_hash orow <> object_hash v ->
  exists e w', append c cfg kind v w = (Err e, w') /\ db w' = db w /\
    (e = conflict kind \/ e = storage_error).
Proof.
  intros Ho Hh. unfold append, object_digest. m_run; [eauto 10|].
  rewrite Ho. cbn. apply String.eqb_neq in Hh. rewrite Hh. cbn. eauto 10.
Qed.

(** On a well-formed chain [append] never panics: it accepts or returns an
    error of the catalogue. *)
Theorem append_no_panic c cfg kind v w :
  chain_ok cfg (db w) c -> fst (append c cfg kind v w) <> Panic.
Proof.
  intros Hok. destruct (append c cfg kind v w) as [r w'] eqn:E. cbn. intros ->.
  eapply append_no_panic', E. by eapply chain_ok_safe.
Qed.
End AppendSpec.

(** ** Saving, quotas, outcomes, pages *)
Section SaveSpec.
Context {X : Ext} {O : Oracle}.
Implicit Types (c : Chain) (cfg : RelayConfig).

(** (C17) A chain is only saved within its quota: when [save] succeeds the row is
    stored, a head of its transparency log is published, and the bytes the
    chain occupies do not exceed the configured maximum. *)
Theorem save_within_quota c cfg w u w' :
  save c cfg w = (Ok u, w') ->
  t_chains (db w') !! chain_id c = Some c /\
  is_Some (t_heads (db w') !! (chain_id c, transparency_id c, transparency_index c)) /\
  forall m, max_bytes cfg = Some m -> used_of (chain_id c) (db w') <= m.
Proof.
  unfold save, quota, used. intros H. m_inv H. subst. cbn. split_and!.
  - by rewrite lookup_insert_eq.
  - unfold insert_ignore. destruct (t_heads _ !! _) eqn:E; [by rewrite E|]. by rewrite lookup_insert_eq.
  - intros m Hmax. destruct (max_bytes cfg); simplify_eq/=; bsimp. lia.
Qed.

(** The idempotency record: after [outcome] stores a response, [outcomes]
    with the same request returns it, and with another request under the same
    operation id is refused. *)
Theorem outcome_recorded x sc i payload payload' response w u w1 r w2 :
  outcome x sc i payload response w = (Ok u, w1) ->
  outcomes x sc i payload' w1 = (r, w2) ->
  db w2 = db w1 /\
  (r = Err storage_error \/
   (object_hash payload' = object_hash payload /\ r = Ok (Some response)) \/
   (object_hash payload' <> object_hash payload /\
    r = Err (err (if String.eqb sc "genesis" then CHAIN_EXISTS
                  else OPERATION_ID_CONFLICT)))).
Proof.
  unfold outcome. intros H. m_inv H.
  destruct (insert_new _ _ _) eqn:E; [|done]. apply insert_new_ok in E as [_ ->].
  simplify_eq/=. unfold outcomes. m_run; [naive_solver|]. cbn.
  rewrite lookup_insert_eq. cbn.
  destruct (String.eqb_spec (object_hash payload) (object_hash payload')); cbn; naive_solver.
Qed.

(** Total size of a page. *)
Definition page_size {A} (size : A -> Z) (l : list A) : Z :=
  foldr (fun x acc => size x + acc) 0 l.

(** What [bounded_loop] returns, the rows of [acc] being taken already. *)
Definition page_of {A} (size : A -> Z) (bytes : Z) (acc rows : list A)
    (r : Result (list A)) : Prop :=
  match r with
  | Ok page => exists p rest, page = acc ++ p /\ rows = p ++ rest /\
      bytes + page_size size p <= 8388608 /\
      match rest with
      | [] => True
      | row :: _ => 8388608 < bytes + page_size size p + size row /\ page <> []
      end
  | Err e => e = err PAYLOAD_TOO_LARGE /\ acc = [] /\
      match rows with [] => False | row :: _ => 8388608 < bytes + size row end
  | Panic => False
  end.

Lemma bounded_loop_page {A} (size : A -> Z) bytes acc rows :
  bytes <= 8388608 -> page_of size bytes acc rows (bounded_loop size bytes acc rows).
Proof.
  revert bytes acc. induction rows as [|row rows IH]; intros bytes acc Hb; simpl.
  - exists [], []. rewrite !app_nil_r. unfold page_size. simpl. split_and!; done || lia.
  - destruct (8388608 <? bytes + size row) eqn:E; bsimp.
    + destruct acc as [|x acc]; [done|]. exists [], (row :: rows).
      rewrite app_nil_r. unfold page_size. simpl. split_and!; done || lia.
    + specialize (IH (bytes + size row) (acc ++ [row]) E). unfold page_of in *.
      destruct (bounded_loop _ _ _ _) as [page|e|]; [| |done].
      * destruct IH as (p & rest & -> & -> & Hle & Hrest).
        exists (row :: p), rest. rewrite <-app_assoc. unfold page_size in *. simpl.
        split_and!; try done; [lia|]. destruct rest; [done|]. split; [lia|].
        by destruct acc.
      * destruct IH as (_ & IH & _). by destruct acc.
Qed.

(** A page is the longest prefix of the rows that fits in 8 MiB, and it makes
    progress: it is empty only when there are no rows, since a first row that does
    not fit is an error. *)
Theorem bounded_rows_page {A} (size : A -> Z) (rows : list A) :
  match bounded_rows size rows with
  | Ok page => exists rest, rows = page ++ rest /\ page_size size page <= 8388608 /\
      match rest with
      | [] => True
      | row :: _ => 8388608 < page_size size page + size row /\ page <> []
      end
  | Err e => e = err PAYLOAD_TOO_LARGE /\
      match rows with [] => False | row :: _ => 8388608 < size row end
  | Panic => False
  end.
Proof.
  pose proof (bounded_loop_page size 0 [] rows ltac:(lia)) as H.
  unfold bounded_rows, page_of in *. destruct (bounded_loop _ _ _ _) as [page|e|].
  - destruct H as (p & rest & -> & -> & H). exists rest. simpl app.
    rewrite Z.add_0_l in H. destruct H. done.
  - by destruct H as (-> & _ & H).
  - done.
Qed.
End SaveSpec.

(** ** Tamper evidence *)
Section Tamper.
Context {X : Ext} {XL : ExtLaws X}.

(** (C10) Two relays, or one relay at two times, that show the same head of the same
    log hold the same canonical entries at every position that neither has
    pruned, and the same hash below: unless the two histories exhibit a collision
    of SHA-256. *)
Theorem log_tamper_evident cfg cfg' d d' c c' lo :
  chain_ok cfg d c -> chain_ok cfg' d' c' ->
  chain_id c' = chain_id c -> log_id c' = log_id c ->
  head_seq c' = head_seq c -> head_hash c' = head_hash c ->
  Z.max (min_available_seq c) (min_available_seq c') - 1 <= lo <= head_seq c ->
  exists h0, initial_hash LOG_CTX (chain_id c) (log_id c) None = Some h0 /\
  ((exists i, lo < i <= head_seq c /\
      link_collision EmptyString h0 (log_rows d c) (log_rows d' c') i) \/
   (hash_at h0 (log_rows d c) lo = hash_at h0 (log_rows d' c') lo /\
    forall i e e' h h', lo < i <= head_seq c ->
      log_rows d c i = Some (Some e, h) -> log_rows d' c' i = Some (Some e', h') ->
      h = h' /\ jcs_to_vec e = jcs_to_vec e')).
Proof.
  intros [[h0 [Hi Hc]] _ _ _ _ _ Ha He] [[h0' [Hi' Hc']] _ _ _ _ _ Ha' He'] E1 E2 E3 E4 Hlo.
  rewrite E1, E2, Hi in Hi'. injection Hi' as <-. rewrite E3, E4 in Hc'.
  exists h0. split; [done|]. eapply hash_chain_unique; try done; [lia| |];
    intros i Hr; [apply He | apply He']; lia.
Qed.
End Tamper.
