(* ===== verification/AuthFacts.v ===== *)
(** * Capability tokens: what acceptance means, and single use

    A token is accepted only under the authority's key, for exactly the request it
    is bound to and within its window; and, the clock being monotone, a nonce that has
    been reserved is refused for as long as the token could pass (TokenSpec.v). *)
From Stdlib Require Import SpecFloat.
From S2P Require Import Prelude Error Json Verify Jcs Wire Query Routes Db Monad Config.
From S2P Require Import Store HashChain Steps StoreFacts StoreSpec Auth.

(** ** The tick only advances *)
Section Advances.
Context {O : Oracle}.

Definition advances {A} (m : M A) : Prop :=
  forall w r w', m w = (r, w') -> (tick w <= tick w')%nat.

Lemma adv_bind {A B} (m : M A) (f : A -> M B) :
  advances m -> (forall x, advances (f x)) -> advances (bind m f).
Proof.
  intros Hm Hf w r w'. cbv [bind M_monad]. destruct (m w) as [[x|e|] w1] eqn:E;
    apply Hm in E; [intros H; apply Hf in H; lia | by intros [= _ <-]..].
Qed.
Lemma adv_pure {A} (r : World -> Result A) : advances (fun w => (r w, w)).
Proof. by intros w x w' [= _ <-]. Qed.
Lemma adv_sql {A} (f : Db -> option (A * Db)) : advances (sql f).
Proof.
  intros w r w'. unfold sql. destruct (sql_fails _); [intros [= _ <-]; simpl; lia|].
  destruct (f (db w)) as [[]|]; intros [= _ <-]; simpl; lia.
Qed.
Lemma adv_now : advances now.
Proof. intros w r w' [= _ <-]. simpl. lia. Qed.
Lemma adv_fail_if b e : advances (fail_if b e).
Proof. destruct b; apply adv_pure. Qed.
Lemma adv_ok_or {A} (o : option A) e : advances (ok_or o e).
Proof. destruct o; apply adv_pure. Qed.
Lemma adv_unwrap {A} (o : option A) : advances (unwrap o).
Proof. destruct o; apply adv_pure. Qed.
Lemma adv_lift {A} (r : Result A) : advances (lift r).
Proof. apply adv_pure. Qed.
Lemma adv_ret {A} (x : A) : advances (ret x).
Proof. apply adv_pure. Qed.
Lemma adv_fail {A} e : advances (fail (A:=A) e).
Proof. apply adv_pure. Qed.
Lemma adv_forM {A} (f : A -> M unit) l : (forall x, advances (f x)) -> advances (forM f l).
Proof.
  intros Hf. induction l as [|x l IH]; simpl; [apply adv_pure|]. by apply adv_bind.
Qed.
(** A transaction takes at least the step that begins it. *)
Lemma transaction_tick {A} keep (m : M A) w r w' :
  advances m -> transaction keep m w = (r, w') -> (tick w < tick w')%nat.
Proof.
  intros Hm. unfold transaction, commit. destruct (sql_fails _); [intros [= _ <-]; simpl; lia|].
  destruct (m (next w)) as [r1 w1] eqn:E. apply Hm in E. simpl in E.
  destruct r1; repeat case_match; intros [= _ <-]; simpl; lia.
Qed.
Lemma adv_transaction {A} keep (m : M A) : advances m -> advances (transaction keep m).
Proof. intros Hm w r w' H. apply transaction_tick in H; [lia|done]. Qed.
End Advances.

Ltac adv_tac :=
  intros; cbv zeta;
  lazymatch goal with
  | |- advances (@bind _ M _ _ _ _ _) => apply adv_bind; adv_tac
  | |- advances (sql _) => apply adv_sql
  | |- advances (select _) => apply adv_sql
  | |- advances (forM _ _) => apply adv_forM; adv_tac
  | |- advances (transaction _ _) => apply adv_transaction; adv_tac
  | |- advances (fetch_one _) => apply adv_sql
  | |- advances (exec_ _) => apply adv_sql
  | |- advances now => apply adv_now
  | |- advances (fail_if _ _) => apply adv_fail_if
  | |- advances (ok_or _ _) => apply adv_ok_or
  | |- advances (unwrap _) => apply adv_unwrap
  | |- advances (lift _) => apply adv_lift
  | |- advances (@ret _ M _ _ _) => apply adv_ret
  | |- advances (@fail _ M _ _ _) => apply adv_fail
  | |- advances (match ?x with _ => _ end) => destruct x; adv_tac
  end.

Section AuthFacts.
Context {X : Ext} {O : Oracle}.

(** The row of [v3_nonces] that a token occupies, and its expiry. *)
Definition nonce_key (chain : string) (token : Value) : string * string * string * string :=
  (chain, s token "signer_kind", default EmptyString (as_str (get token "device_id")),
   s token "nonce").
Definition nonce_expiry (token : Value) : Z := n token "expires_at_ms" + 60000.

Lemma authorize_advances cfg rq token t : advances (authorize cfg rq token t).
Proof.
  unfold authorize, load, capability_key, object, reserve_nonce, rate. adv_tac.
Qed.

(** Rows that have not expired at [t] survive. *)
Definition keeps_nonces (t : Z) (d d' : Db) : Prop :=
  forall k e, t_nonces d !! k = Some e -> t <= e -> t_nonces d' !! k = Some e.
#[export] Instance keeps_nonces_preorder t : PreOrder (keeps_nonces t).
Proof. split; [by intros d k e|]. intros d1 d2 d3 H1 H2 k e Hk He. eauto. Qed.

Lemma authorize_keeps cfg rq token t :
  respects (keeps_nonces t) (authorize cfg rq token t).
Proof.
  unfold authorize, load, capability_key, object, rate.
  respects_tac ltac:(intros k e Hk He; simpl).
  - unfold sweep_nonces. simpl. by apply map_lookup_filter_Some_2.
  - unfold reserve_nonce. apply respects_sql; [exact _|]. intros d f d'.
    destruct (t_nonces d !! _) eqn:E; intros [= _ <-]; [done|].
    intros k e Hk He. simpl. rewrite lookup_insert_ne by congruence. done.
  - done.
Qed.

(** ** Whose key a token must verify under *)
Inductive authority (d : Db) (rq : AuthRequest) : option string -> string -> Prop :=
  | au_deleted_admin row :
      t_deletions d !! rq_chain_id rq = Some row ->
      authority d rq None (de_admin_key row)
  | au_deleted_device row id k :
      t_deletions d !! rq_chain_id rq = Some row ->
      de_device row = Some id -> de_device_key row = Some k ->
      authority d rq (Some id) k
  | au_admin c :
      t_deletions d !! rq_chain_id rq = None -> t_chains d !! rq_chain_id rq = Some c ->
      authority d rq None (s (parameters c) "admin_public_key")
  | au_device c id row cert r :
      t_deletions d !! rq_chain_id rq = None -> t_chains d !! rq_chain_id rq = Some c ->
      t_objects d !! (rq_chain_id rq, KDevice, id) = Some row -> o_body row = Some cert ->
      n cert "generation" = generation c ->
      t_registry d !! (rq_chain_id rq, id) = Some r ->
      (r_status r = Active \/ (r_status r = PendingKeys /\ pending_route (rq_route rq) = true)) ->
      authority d rq (Some id) (s cert "device_public_key")
  | au_proposed k :
      t_deletions d !! rq_chain_id rq = None -> t_chains d !! rq_chain_id rq = None ->
      proposed_key rq = Some k ->
      authority d rq None k.

(** Before the lifecycle check: the key and the state that remains to be checked. *)
Definition candidate_authority (d : Db) (rq : AuthRequest) (dev : option string)
    (k : string) (st : option (Value * option Status)) : Prop :=
  match st with
  | None => authority d rq dev k
  | Some (cert, status) =>
      (exists id row, dev = Some id /\ t_deletions d !! rq_chain_id rq = None /\
         t_objects d !! (rq_chain_id rq, KDevice, id) = Some row /\ o_body row = Some cert /\
         status = r_status <$> t_registry d !! (rq_chain_id rq, id) /\
         k = s cert "device_public_key") /\
      is_Some (t_chains d !! rq_chain_id rq)
  end.

Lemma capability_key_ok rq dev w k st w' :
  (is_Some (proposed_key rq) -> dev = None) ->
  capability_key (rq_chain_id rq) (t_chains (db w) !! rq_chain_id rq) dev (proposed_key rq) w
    = (Ok (k, st), w') ->
  db w' = db w /\ candidate_authority (db w) rq dev k st.
Proof.
  intros Hp. unfold capability_key, object. intros H. m_inv H; simplify_eq; bsimp;
    (split; [done|]); simpl.
  - apply dec_stable in Hm. by eapply au_deleted_device.
  - by eapply au_deleted_admin.
  - destruct (t_objects (db w) !! _) as [row|] eqn:Eo; [|done]. simpl in *. split; [|eauto].
    do 2 eexists. split_and!; try done.
  - by eapply au_admin.
  - rewrite Hp by eauto. by apply au_proposed.
Qed.

Lemma device_state_check_ok rt c cert st u :
  device_state_check rt c (cert, st) = Ok u ->
  n cert "generation" = generation c /\
  exists r, st = Some r /\ (r = Active \/ (r = PendingKeys /\ pending_route rt = true)).
Proof.
  unfold device_state_check. intros H. res_inv H. bsimp.
  destruct st as [[]|]; try done; cbv [ret fail res_monad] in H; simplify_eq; eauto 10.
  res_inv H. bsimp. eauto 10.
Qed.

(** Everything a successful [authorize] establishes. *)
Record authorized (cfg : RelayConfig) (rq : AuthRequest) (token : Value) (t : Z)
    (d : Db) (au : Auth) (d' : Db) : Prop := {
  az_window : check_window token t = Ok tt;
  az_auth : au = MkAuth token (as_str (get token "device_id"));
  az_key : exists k, authority d rq (device au) k /\
    verify_signed_json k (s token "signature") token CTX_CAPABILITY = Some true;
  az_fresh : forall e,
    t_nonces d !! nonce_key (rq_chain_id rq) token = Some e -> e < t;
  az_reserved :
    t_nonces d' !! nonce_key (rq_chain_id rq) token = Some (nonce_expiry token);
}.

Lemma reserve_nonce_ok k e w w' b :
  reserve_nonce k e w = (Ok b, w') -> negb b = false ->
  t_nonces (db w) !! k = None /\ db w' = set_nonces (<[k := e]> (t_nonces (db w))) (db w).
Proof.
  unfold reserve_nonce. intros (d & Hd & ->)%sql_ok. case_match; simplify_eq/=; done.
Qed.

Definition same_nonces (d d' : Db) : Prop := t_nonces d' = t_nonces d.
#[export] Instance same_nonces_preorder : PreOrder same_nonces.
Proof. split; [done|]. unfold same_nonces. intros ???. congruence. Qed.
Lemma rate_nonces cfg sc i : respects same_nonces (rate cfg sc i).
Proof. unfold rate. respects_tac ltac:(done). Qed.

Lemma sweep_lookup t d k :
  t_nonces (sweep_nonces t d) !! k = None ->
  forall e, t_nonces d !! k = Some e -> e < t.
Proof.
  unfold sweep_nonces. simpl. intros [Hn|Hn]%map_lookup_filter_None e He; [congruence|].
  apply Hn in He. simpl in He. lia.
Qed.

Lemma candidate_device d rq dev k cert st c u :
  candidate_authority d rq dev k (Some (cert, st)) ->
  t_chains d !! rq_chain_id rq = Some c ->
  device_state_check (rq_route rq) c (cert, st) = Ok u -> authority d rq dev k.
Proof.
  intros [(id & row & -> & Hd & Ho & Hb & -> & ->) _] Hc [Hg (r & Hr & Hs)]%device_state_check_ok.
  destruct (t_registry d !! _) as [rr|] eqn:Er; simplify_eq/=.
  by eapply au_device.
Qed.

Lemma authorize_ok cfg rq token t w au w' :
  authorize cfg rq token t w = (Ok au, w') ->
  authorized cfg rq token t (db w) au (db w').
Proof.
  unfold authorize, load. intros H. m_inv H; simplify_eq.
  all: match goal with H : capability_key _ _ _ _ _ = _ |- _ =>
         apply (capability_key_ok _ _ (next w)) in H as [Hd Hk];
           [|intros Hp; bsimp; destruct (as_str _); [|done];
             apply andb_false_iff in Hm0 as [?|?]; bsimp; naive_solver] end.
  all: match goal with H : reserve_nonce _ _ _ = _ |- _ =>
         eapply reserve_nonce_ok in H as [Hnone Hres]; [|done] end.
  all: match goal with H : rate _ _ _ _ = _ |- _ => apply rate_nonces in H end.
  all: simpl in *; rewrite Hd in *; constructor; simpl; try done;
    [by destruct x | eexists; split;
       [first [exact Hk | by destruct p; eapply candidate_device]
       | bsimp; by destruct (verify_signed_json _ _ _ _) as [[]|]]
    | by eapply sweep_lookup | ].
  all: unfold same_nonces in *; match goal with H : t_nonces _ = t_nonces _ |- _ => rewrite H end;
    rewrite Hres; simpl; apply lookup_insert_eq.
Qed.

Arguments strip_prefix : simpl never.

(** What a token that [parse_token] returns is bound to. *)
Record token_binds (cfg : RelayConfig) (rq : AuthRequest) (token : Value) : Prop := {
  tb_header : exists raw, authorization rq = Some (Some ("PallaSync " +:+ raw)%string) /\
    decode raw None = Some (canonicalize_json token);
  tb_origin : s token "aud" = origin cfg;
  tb_chain : s token "chain_id" = rq_chain_id rq;
  tb_method : s token "method" = rq_method rq;
  tb_path : s token "path" = uri_path rq;
  tb_query : exists q, canonical_query (default EmptyString (uri_query rq)) = Ok q /\
    s token "query" = query_string q;
  tb_body : s token "body_sha256" = hash_bytes (rq_body rq);
}.

Lemma parse_token_ok cfg rq token :
  parse_token cfg rq = Ok token -> token_binds cfg rq token.
Proof.
  unfold parse_token. intros H. res_inv H. bsimp.
  repeat match goal with
  | H : strip_prefix _ _ = Some _ |- _ => apply strip_prefix_ok in H; subst
  | H : match parse _ with _ => _ end = Ok _ |- _ =>
      let E := fresh "E" in destruct (parse _) eqn:E; simplify_eq
  end.
  constructor; eauto.
Qed.

Lemma check_window_ok token t u :
  check_window token t = Ok u ->
  n token "issued_at_ms" < n token "expires_at_ms" <= n token "issued_at_ms" + 300000 /\
  n token "issued_at_ms" <= t + 60000 /\ t <= nonce_expiry token.
Proof. unfold check_window, nonce_expiry. intros H. res_inv H. bsimp. lia. Qed.

(** (C6) An accepted capability token is bound to this very request (origin, chain,
    method, path, canonical query and body hash), is inside its window of at most
    five minutes, is signed by the authority of the chain (its admin, or a device
    that is enrolled, of the current generation and not revoked), and its nonce
    was unused and is now reserved. *)
Theorem authenticate_sound cfg rq w au w' :
  authenticate cfg rq w = (Ok au, w') ->
  let t := Z.max 0 (clock (tick w)) in
  let tok := token au in
  parse_token cfg rq = Ok tok /\ token_binds cfg rq tok /\
  (n tok "issued_at_ms" < n tok "expires_at_ms" <= n tok "issued_at_ms" + 300000 /\
   n tok "issued_at_ms" <= t + 60000 /\ t <= n tok "expires_at_ms" + 60000) /\
  (exists k, authority (db w) rq (device au) k /\
     verify_signed_json k (s tok "signature") tok CTX_CAPABILITY = Some true) /\
  (forall e, t_nonces (db w) !! nonce_key (rq_chain_id rq) tok = Some e -> e < t) /\
  t_nonces (db w') !! nonce_key (rq_chain_id rq) tok = Some (nonce_expiry tok).
Proof.
  unfold authenticate. intros H. m_inv H. subst.
  apply authorize_ok in H as [Hw -> Hk Hf Hr]. simpl in *.
  apply check_window_ok in Hw. unfold nonce_expiry in *.
  split_and!; try done; try lia. by apply parse_token_ok.
Qed.

(** ** Single use *)

(** The nonce [k] is reserved until [e], or the clock has passed [e]. *)
Definition spent (k : string * string * string * string) (e : Z) (w : World) : Prop :=
  t_nonces (db w) !! k = Some e \/
  forall i, (tick w <= i)%nat -> e < Z.max 0 (clock i).

Definition monotone_clock : Prop :=
  forall i j, (i <= j)%nat -> clock i <= clock j.

Lemma authenticate_spent cfg rq w r w' k e :
  monotone_clock -> spent k e w -> authenticate cfg rq w = (r, w') ->
  (tick w <= tick w')%nat /\ spent k e w'.
Proof.
  intros Hm Hs. unfold authenticate. cbv [bind lift M_monad].
  destruct (parse_token cfg rq) as [tok|e0|]; [|by intros [= _ <-]..].
  unfold now. simpl. intros H. pose proof (authorize_advances _ _ _ _ _ _ _ H) as Ht.
  pose proof (authorize_keeps _ _ _ _ _ _ _ H) as Hk. simpl in *. split; [lia|].
  destruct Hs as [Hs|Hs]; [|right; intros i Hi; apply Hs; lia].
  destruct (decide (Z.max 0 (clock (tick w)) <= e)); [left; by apply Hk|].
  right. intros i Hi. pose proof (Hm (tick w) i ltac:(lia)). lia.
Qed.

Lemma transaction_spent cfg rq w r w' k e :
  monotone_clock -> spent k e w -> transaction true (authenticate cfg rq) w = (r, w') ->
  spent k e w'.
Proof.
  intros Hm Hs. unfold transaction, commit, rollback.
  assert (Hn : forall i, (tick w <= i)%nat -> spent k e (MkWorld (db w) i)).
  { intros i Hi. destruct Hs as [Hs|Hs]; [by left|]. right. simpl. intros j Hj.
    apply Hs. lia. }
  destruct (sql_fails _); [intros [= _ <-]; apply Hn; lia|].
  destruct (authenticate cfg rq (next w)) as [r0 w1] eqn:E.
  apply (authenticate_spent _ _ _ _ _ k e) in E as [Ht Hs1]; [|done|apply Hn; lia].
  simpl in Ht.
  assert (Hn1 : spent k e (next w1)).
  { destruct Hs1 as [Hs1|Hs1]; [by left|]. right. simpl. intros j Hj. apply Hs1. lia. }
  destruct r0; repeat case_match; intros [= _ <-]; try done; apply Hn; lia.
Qed.

Lemma spent_rejects cfg rq tok w r w' :
  spent (nonce_key (rq_chain_id rq) tok) (nonce_expiry tok) w ->
  parse_token cfg rq = Ok tok ->
  transaction true (authenticate cfg rq) w = (r, w') -> forall au, r <> Ok au.
Proof.
  intros Hs Hp. unfold transaction, commit, rollback.
  destruct (sql_fails (tick w)); [by intros [= <- _]|].
  destruct (authenticate cfg rq (next w)) as [[au'|e|] w1] eqn:E;
    [|repeat case_match; by intros [= <- _]..].
  exfalso. unfold authenticate in E. m_inv E. simplify_eq/=.
  assert (x = tok) as -> by congruence.
  apply authorize_ok in E as [Hw -> _ Hf _]. apply check_window_ok in Hw as (_ & _ & Hw).
  simpl in *. destruct Hs as [Hs|Hs]; [apply Hf in Hs; lia|].
  specialize (Hs (S (tick w)) ltac:(lia)). lia.
Qed.
End AuthFacts.
