(* ===== verification/HandlerTicks.v ===== *)
(** * Time passes

    Every transaction of the process reads the environment forwards: the tick after
    it is not smaller, whatever its outcome. *)
From S2P Require Import Prelude Error Json Verify Jcs Wire Query Routes Db Monad Config.
From S2P Require Import Store HashChain Steps StoreFacts StoreSpec Auth AuthFacts Domain.
From S2P Require Import Retention Mutation Deletion Batch Import Read Export Sync Concurrent.

(** ** The remaining combinators *)
Section Combinators.
Context {O : Oracle}.

Lemma adv_new_id : advances new_id.
Proof. intros w r w' [= _ <-]. simpl. lia. Qed.
Lemma adv_begin : advances begin_tx.
Proof. apply adv_sql. Qed.
Lemma adv_rollback d : advances (rollback_tx d).
Proof. intros w r w' [= _ <-]. simpl. lia. Qed.
Lemma adv_commit d : advances (commit_tx d).
Proof. intros w r w'. unfold commit_tx. destruct (sql_fails _); intros [= _ <-]; simpl; lia. Qed.
Lemma adv_try {A} (m : M A) : advances m -> advances (try_ m).
Proof.
  intros Hm w r w'. unfold try_. destruct (m w) as [r1 w1] eqn:E. apply Hm in E.
  destruct r1; by intros [= _ <-].
Qed.
Lemma adv_try_tx {A} d (m : M A) : advances m -> advances (try_tx d m).
Proof.
  intros Hm w r w'. unfold try_tx. destruct (m w) as [r1 w1] eqn:E. apply Hm in E.
  destruct r1; intros [= _ <-]; simpl; lia.
Qed.
Lemma adv_map_err {A} e (m : M A) : advances m -> advances (map_err e m).
Proof.
  intros Hm w r w'. unfold map_err. destruct (m w) as [r1 w1] eqn:E. apply Hm in E.
  destruct r1; by intros [= _ <-].
Qed.
Lemma adv_foldM {A B} (f : B -> A -> M B) l b :
  (forall b x, advances (f b x)) -> advances (foldM f b l).
Proof.
  intros Hf. revert b. induction l as [|x l IH]; intros b; simpl; [apply adv_pure|].
  by apply adv_bind.
Qed.
End Combinators.

Create HintDb advances.
Ltac head_of t := lazymatch t with ?f _ => head_of f | _ => t end.
(** [adv_go] unfolds a handler down to the combinators and the hints. *)
Ltac adv_go :=
  intros; cbv zeta beta;
  lazymatch goal with
  | |- advances (@bind _ M _ _ _ _ _) => apply adv_bind; adv_go
  | |- advances (sql _) => apply adv_sql
  | |- advances (select _) => apply adv_sql
  | |- advances (fetch_one _) => apply adv_sql
  | |- advances (exec _) => apply adv_sql
  | |- advances (exec_ _) => apply adv_sql
  | |- advances (forM _ _) => apply adv_forM; adv_go
  | |- advances (foldM _ _ _) => apply adv_foldM; adv_go
  | |- advances (transaction _ _) => apply adv_transaction; adv_go
  | |- advances (try_ _) => apply adv_try; adv_go
  | |- advances (try_tx _ _) => apply adv_try_tx; adv_go
  | |- advances (map_err _ _) => apply adv_map_err; adv_go
  | |- advances begin_tx => apply adv_begin
  | |- advances (rollback_tx _) => apply adv_rollback
  | |- advances (commit_tx _) => apply adv_commit
  | |- advances now => apply adv_now
  | |- advances new_id => apply adv_new_id
  | |- advances (fail_if _ _) => apply adv_fail_if
  | |- advances (ok_or _ _) => apply adv_ok_or
  | |- advances (unwrap _) => apply adv_unwrap
  | |- advances (lift _) => apply adv_lift
  | |- advances (@ret _ M _ _ _) => apply adv_ret
  | |- advances (@fail _ M _ _ _) => apply adv_fail
  | |- advances (@panic _ M _ _) => apply adv_pure
  | |- advances (match ?x with _ => _ end) => destruct x; adv_go
  | |- advances (fun w => (@?r w, w)) => apply (adv_pure r)
  | |- advances ?m =>
      first [ solve [auto 1 with advances nocore]
            | let h := head_of m in unfold h; adv_go | idtac ]
  end.

Section Ticks.
Context {X : Ext} {O : Oracle}.
Implicit Types (c : Chain) (cfg : RelayConfig).

(** The store. *)
Lemma save_adv c cfg : advances (save c cfg).
Proof. adv_go. Qed.
Lemma transparency_adv c cfg k o r x : advances (transparency c cfg k o r x).
Proof. adv_go. Qed.
Hint Resolve save_adv transparency_adv : advances.
Lemma append_adv c cfg k v : advances (append c cfg k v).
Proof. adv_go. Qed.
Hint Resolve append_adv : advances.

(** The loops. *)
Lemma certificates_adv x i : advances (certificates_of x i).
Proof.
  assert (H : forall fuel seen cur k l, advances (enrollment_chain fuel x seen cur k l)).
  { induction fuel as [|fuel IH]; intros; cbn [enrollment_chain]; [adv_go|].
    repeat (apply adv_bind; [adv_go|]; intros ?). case_match; [adv_go|apply IH]. }
  unfold certificates_of. destruct i; [|adv_go].
  intros w r w'. apply H.
Qed.
Lemma resolve_devices_adv fuel x admin l m : advances (resolve_devices fuel x admin l m).
Proof.
  revert l m. induction fuel as [|fuel IH]; intros [|v l] m; cbn [resolve_devices]; [adv_go..|].
  apply adv_bind; [adv_go|]. intros [next verified]. apply adv_bind; [adv_go|]. intros _. apply IH.
Qed.
Lemma objects_loop_adv c rt pa ep p rows items bytes :
  advances (objects_loop c rt pa ep p rows items bytes).
Proof.
  revert p items bytes. induction rows as [|[id body] rows IH]; intros; cbn [objects_loop]; [adv_go|].
  case_match; [apply IH|]. apply adv_bind; [adv_go|]. intros item. case_match; [apply IH|adv_go].
Qed.
Lemma export_step_adv include st : advances (export_step include st).
Proof. adv_go. Qed.
Lemma export_stream_adv include st : advances (export_stream include st).
Proof.
  assert (H : forall fuel st, advances (export_loop fuel include st)).
  { induction fuel as [|fuel IH]; intros; cbn [export_loop]; [adv_go|].
    apply adv_bind; [apply export_step_adv|]. intros [[] st']; [apply IH|adv_go]. }
  intros w r w'. apply H.
Qed.
Hint Resolve certificates_adv resolve_devices_adv objects_loop_adv export_stream_adv : advances.

(** The handlers. *)
Lemma read_arm_adv c cfg au ep q m : read_arm c cfg au ep q = Some m -> advances m.
Proof. unfold read_arm. intros H. destruct (ep_route ep); try done; injection H as <-; adv_go. Qed.
Lemma write_arm_adv c cfg au ep v : advances (write_arm c cfg au ep v).
Proof. adv_go. Qed.
Lemma dispatch_adv c cfg au ep q v : advances (dispatch c cfg au ep q v).
Proof.
  unfold dispatch. apply adv_bind; [adv_go|]. intros _. case_match; [adv_go|].
  apply adv_bind; [|intros [? []]; adv_go].
  destruct (read_arm c cfg au ep q) as [m|] eqn:E; [|apply write_arm_adv].
  apply adv_bind; [by eapply read_arm_adv|adv_go].
Qed.
Hint Resolve dispatch_adv : advances.
Lemma run_handler_adv cfg au me ep q v : advances (run_handler cfg au me ep q v).
Proof. adv_go. Qed.
Hint Resolve run_handler_adv : advances.

(** The transactions. *)
Lemma serve_tx_adv cfg au me ep q v : advances (serve_tx cfg au me ep q v).
Proof. adv_go. Qed.
Lemma item_tx_adv cfg au x rt pa v i r : advances (item_tx cfg au x rt pa v i r).
Proof. adv_go. Qed.
Lemma audit_request_adv cfg x v co : advances (audit_request cfg x v co).
Proof.
  unfold audit_request. case_match; [adv_go|]. apply adv_bind; [adv_go|]. intros d0.
  apply adv_bind; [adv_go|]. intros [[]|e|]; [adv_go..| |adv_go].
  intros w r w' [= _ <-]. simpl. lia.
Qed.
Lemma erase_adv : advances erase.
Proof.
  unfold erase. apply adv_bind; [adv_go|]. intros []; [adv_go|].
  do 2 (apply adv_bind; [adv_go|]; intros _).
  intros w r w' H. apply adv_fail_if in H. simpl in H. lia.
Qed.
Lemma enrollment_source_adv cfg src x q v : advances (enrollment_source cfg src x q v).
Proof. adv_go. Qed.
Lemma transactions_adv cfg :
  (forall rq q, advances (document cfg rq q)) /\
  (forall sc i, advances (rate cfg sc i)) /\
  (forall rq, advances (authenticate cfg rq)) /\
  (forall x r co, advances (Batch.audit_reject cfg x r co)) /\
  advances (complete_ledgers cfg) /\ advances (operator_tx cfg) /\
  advances (renotice_tx cfg) /\ advances (maintenance cfg).
Proof. split_and!; adv_go. Qed.
End Ticks.
