(* ===== verification/HandlerFacts.v ===== *)
(** * The handlers write in the vocabulary of their chain

    [respects (db_steps x)] for every handler of chain [x]: whatever its outcome,
    success, error or panic, the writes it made before the transaction ends are
    steps of [x]. *)
From S2P Require Import Prelude Error Json Verify Jcs Wire Query Routes Db Monad Config.
From S2P Require Import Store HashChain Steps StoreFacts StoreSpec Auth Domain.
From S2P Require Import Retention Mutation Deletion Batch.

(** ** Checks that only read *)
Section Reads.
Context {X : Ext} {O : Oracle}.
Context (R : Db -> Db -> Prop) `{!PreOrder R}.

Lemma object_respects x k i : respects R (object x k i).
Proof. unfold object. respects_tac idtac. Qed.
Lemma object_digest_respects x k i : respects R (object_digest x k i).
Proof. unfold object_digest. respects_tac idtac. Qed.
Lemma load_respects x : respects R (load x).
Proof. unfold load. respects_tac idtac. Qed.
Lemma quota_respects x cfg : respects R (quota x cfg).
Proof. unfold quota, used. respects_tac idtac. Qed.
Lemma write_guard_respects cfg : respects R (write_guard cfg).
Proof. unfold write_guard. respects_tac idtac. Qed.
Hint Resolve object_respects object_digest_respects load_respects : respects.

Lemma active_device_respects c i : respects R (active_device c i).
Proof. unfold active_device. respects_tac idtac. Qed.
Hint Resolve active_device_respects : respects.
Lemma signing_key_respects c v : respects R (signing_key c v).
Proof. unfold signing_key. respects_tac idtac. Qed.
Hint Resolve signing_key_respects : respects.
Lemma check_state_respects c au r : respects R (check_state c au r).
Proof. unfold check_state. respects_tac idtac. Qed.
Lemma admin_operation_respects c op ac t : respects R (admin_operation c op ac t).
Proof. unfold admin_operation. respects_tac idtac. Qed.
Lemma device_respects c d r g : respects R (device c d r g).
Proof. unfold device, device_key_of. respects_tac idtac. Qed.
Lemma envelope_respects c e ep st : respects R (envelope c e ep st).
Proof. unfold envelope. respects_tac idtac. Qed.
Hint Resolve envelope_respects : respects.
Lemma bundle_envelope_respects c e st m b x : respects R (bundle_envelope c e st m b x).
Proof. unfold bundle_envelope. respects_tac idtac. Qed.
Lemma bundle_respects c e es st g r : respects R (bundle c e es st g r).
Proof.
  unfold bundle. respects_tac idtac.
  apply (respects_foldM _ (fun _ => True)); [done| |done].
  intros. apply bundle_envelope_respects.
Qed.
Lemma record_respects c v au sn st : respects R (record c v au sn st).
Proof. unfold record. respects_tac idtac. Qed.
Lemma staged_key_respects c i st : respects R (staged_key c i st).
Proof. unfold staged_key. respects_tac idtac. Qed.
Hint Resolve staged_key_respects : respects.
Lemma compaction_respects c v st : respects R (compaction c v st).
Proof. unfold compaction, compaction_part. respects_tac idtac. Qed.
Lemma proof_respects x : respects R (proof x).
Proof. unfold proof. respects_tac idtac. Qed.
Lemma expired_respects c e : respects R (expired c e).
Proof. unfold expired. respects_tac idtac. Qed.
End Reads.

#[export] Hint Resolve object_respects object_digest_respects load_respects
  quota_respects write_guard_respects active_device_respects signing_key_respects
  check_state_respects admin_operation_respects device_respects envelope_respects
  bundle_respects record_respects staged_key_respects compaction_respects proof_respects
  expired_respects : respects.

(** ** Identity of the chain along the updates *)

(** [chain_tac H] proves [chain_id c' = x] from the run [H] that returns [c']. *)
Ltac to_yields :=
  repeat match goal with
  | H : ?m ?w = (Ok ?r, ?w1) |- _ =>
      assert (yields m r) by (by do 2 eexists); clear H
  end.
Ltac chain_tac H := m_inv H; simplify_eq; to_yields; chain_solve.

Ltac chain_step ::=
  first [transparency_step | match goal with
  | H : yields (append _ _ _ _) (?c', _) |- chain_id ?c' = _ =>
      apply (append_yields _ _ _ _ _ _ _ H)
  end].

Section Identity.
Context {X : Ext} {O : Oracle}.


Lemma commit_object_yields x cfg k st v st' :
  yields (commit_object cfg k st v) st' -> chain_id (fst st) = x -> chain_id (fst st') = x.
Proof.
  destruct st as [c rs]. intros (w & w' & H) Hx. unfold commit_object in H. chain_tac H.
Qed.
Lemma commit_device_yields x cfg g st v st' :
  yields (commit_device cfg g st v) st' -> chain_id (fst st) = x -> chain_id (fst st') = x.
Proof.
  destruct st as [c rs]. intros (w & w' & H) Hx. unfold commit_device in H. chain_tac H.
Qed.
Lemma commit_objects_yields x cfg k c rs l c' rs' :
  yields (foldM (commit_object cfg k) (c, rs) l) (c', rs') ->
  chain_id c = x -> chain_id c' = x.
Proof.
  intros H Hc. eapply (foldM_yields (fun st => chain_id (fst st) = x)) in H; [done|done|].
  intros; by eapply commit_object_yields.
Qed.
Lemma commit_devices_yields x cfg g c rs l c' rs' :
  yields (foldM (commit_device cfg g) (c, rs) l) (c', rs') ->
  chain_id c = x -> chain_id c' = x.
Proof.
  intros H Hc. eapply (foldM_yields (fun st => chain_id (fst st) = x)) in H; [done|done|].
  intros; by eapply commit_device_yields.
Qed.
Lemma commit_object_yields' x cfg k c rs v c' rs' :
  yields (commit_object cfg k (c, rs) v) (c', rs') -> chain_id c = x -> chain_id c' = x.
Proof. apply commit_object_yields. Qed.

Ltac chain_step ::=
  first [transparency_step | match goal with
  | H : yields (append _ _ _ _) (?c', _) |- chain_id ?c' = _ =>
      apply (append_yields _ _ _ _ _ _ _ H)
  | H : yields (commit_object _ _ _ _) (?c', _) |- chain_id ?c' = _ =>
      apply (commit_object_yields' _ _ _ _ _ _ _ _ H)
  | H : yields (foldM (commit_object _ _) _ _) (?c', _) |- chain_id ?c' = _ =>
      apply (commit_objects_yields _ _ _ _ _ _ _ _ H)
  | H : yields (foldM (commit_device _ _) _ _) (?c', _) |- chain_id ?c' = _ =>
      apply (commit_devices_yields _ _ _ _ _ _ _ _ H)
  end].

Lemma commit_epoch_yields x c cfg ec c' p :
  yields (commit_epoch c cfg ec) (c', p) -> chain_id c = x -> chain_id c' = x.
Proof. intros (w & w' & H) Hc. unfold commit_epoch in H. chain_tac H. Qed.
Lemma snapshot_part_yields x c cfg v c' r :
  yields (snapshot_part c cfg v) (c', r) -> chain_id c = x -> chain_id c' = x.
Proof. intros (w & w' & H) Hc. unfold snapshot_part in H. chain_tac H. Qed.
Lemma publish_notice_yields x c cfg c' :
  yields (publish_notice c cfg) c' -> chain_id c = x -> chain_id c' = x.
Proof. intros (w & w' & H) Hc. unfold publish_notice in H. chain_tac H. Qed.
End Identity.

Ltac handler_step :=
  first [transparency_step | match goal with
  | H : yields (append _ _ _ _) (?c', _) |- chain_id ?c' = _ =>
      apply (append_yields _ _ _ _ _ _ _ H)
  | H : yields (commit_object _ _ _ _) (?c', _) |- chain_id ?c' = _ =>
      apply (commit_object_yields' _ _ _ _ _ _ _ _ H)
  | H : yields (foldM (commit_object _ _) _ _) (?c', _) |- chain_id ?c' = _ =>
      apply (commit_objects_yields _ _ _ _ _ _ _ _ H)
  | H : yields (foldM (commit_device _ _) _ _) (?c', _) |- chain_id ?c' = _ =>
      apply (commit_devices_yields _ _ _ _ _ _ _ _ H)
  | H : yields (commit_epoch _ _ _) (?c', _) |- chain_id ?c' = _ =>
      apply (commit_epoch_yields _ _ _ _ _ _ H)
  | H : yields (snapshot_part _ _ _) (?c', _) |- chain_id ?c' = _ =>
      apply (snapshot_part_yields _ _ _ _ _ _ H)
  | H : yields (publish_notice _ _) ?c' |- chain_id ?c' = _ =>
      apply (publish_notice_yields _ _ _ _ H)
  end].
Ltac chain_step ::= handler_step.

(** ** The writing operations *)
Section Writes.
Context {X : Ext} {O : Oracle}.

Lemma registry_insert_step x i r d d' :
  registry_insert x i r d = Some d' -> db_steps x d d'.
Proof.
  unfold registry_insert. destruct (insert_new _ _ _) as [m|] eqn:E; [|done].
  apply insert_new_ok in E as [E ->]. intros [= <-].
  apply rtc_once, st_registry; [done|]. congruence.
Qed.
Lemma registry_update_step x i f d :
  (forall r r', f r = Some r' -> moves_forward r r') -> db_steps x d (registry_update x i f d).
Proof.
  intros Hf. unfold registry_update. destruct (t_registry d !! (x, i)) as [r|] eqn:E; cbn;
    [|reflexivity]. destruct (f r) eqn:Ef; cbn; [|reflexivity].
  apply rtc_once, st_registry; [done|]. rewrite E. intros ? [= <-]. eauto.
Qed.
Lemma revoke_row_forward q r r' : Some (revoke_row q r) = Some r' -> moves_forward r r'.
Proof. intros [= <-]. constructor; try done. simpl. by destruct (r_status r). Qed.
Lemma activate_row_forward r r' : activate_row r = Some r' -> moves_forward r r'.
Proof.
  unfold activate_row. case_bool_decide as H; [done|]. intros [= <-].
  constructor; try done. simpl. by destruct (r_status r).
Qed.
Lemma offer_insert_step x i r d d' :
  offer_insert x i r d = Some d' -> db_steps x d d'.
Proof.
  unfold offer_insert. destruct (insert_new _ _ _) as [m|] eqn:E; [|done].
  apply insert_new_ok in E as [_ ->]. intros [= <-]. by apply rtc_once, st_offer.
Qed.
Lemma offer_update_step x i f d : db_steps x d (offer_update x i f d).
Proof.
  unfold offer_update. destruct (t_offers d !! _); [|reflexivity].
  by apply rtc_once, st_offer.
Qed.

Lemma register_respects x c d q st :
  chain_id c = x -> respects (db_steps x) (register c d q st).
Proof. intros <-. unfold register. respects_tac ltac:(by eapply registry_insert_step). Qed.
Hint Resolve register_respects : respects.

Lemma commit_device_respects x cfg g st v :
  chain_id (fst st) = x -> respects (db_steps x) (commit_device cfg g st v).
Proof. unfold commit_device. respects_tac idtac. Qed.
Lemma commit_object_respects x cfg k st v :
  chain_id (fst st) = x -> respects (db_steps x) (commit_object cfg k st v).
Proof. unfold commit_object. respects_tac idtac. Qed.
Hint Resolve commit_object_respects : respects.
Lemma commit_objects_respects x cfg k c rs l :
  chain_id c = x -> respects (db_steps x) (foldM (commit_object cfg k) (c, rs) l).
Proof.
  intros Hc. apply (respects_foldM _ (fun st => chain_id (fst st) = x)); [done| |].
  - intros. by apply commit_object_respects.
  - intros. by eapply commit_object_yields.
Qed.
Lemma commit_devices_respects x cfg g c rs l :
  chain_id c = x -> respects (db_steps x) (foldM (commit_device cfg g) (c, rs) l).
Proof.
  intros Hc. apply (respects_foldM _ (fun st => chain_id (fst st) = x)); [done| |].
  - intros. by apply commit_device_respects.
  - intros. by eapply commit_device_yields.
Qed.
Hint Resolve commit_objects_respects commit_devices_respects : respects.

Lemma commit_epoch_respects x c cfg ec :
  chain_id c = x -> respects (db_steps x) (commit_epoch c cfg ec).
Proof.
  unfold commit_epoch. respects_tac ltac:(chain_rw x; apply registry_update_step, revoke_row_forward).
Qed.
End Writes.

#[export] Hint Resolve register_respects commit_object_respects commit_objects_respects
  commit_devices_respects commit_epoch_respects : respects.

(** ** Retention and pruning *)
Section Erasures.
Context {X : Ext} {O : Oracle}.

Lemma expire_epoch_respects x c e :
  chain_id c = x -> respects (db_steps x) (expire_epoch c e).
Proof.
  intros <-. unfold expire_epoch. respects_tac ltac:(apply rtc_once).
  - apply st_erase_log. unfold envelope_entry_of. intros k r Hp. bsimp.
    split; [done|]. destruct (l_entry r); [|done]. bsimp. unfold erasable_entry.
    apply orb_true_iff. by right.
  - apply st_erase_objects. unfold envelope_body_of. intros [[? k] i] r Hp. bsimp. done.
  - apply st_handoff. intros [y k] Hk. simpl in Hk. by rewrite lookup_alter_ne by congruence.
Qed.
Hint Resolve expire_epoch_respects : respects.
Lemma expire_respects x c : chain_id c = x -> respects (db_steps x) (expire c).
Proof. unfold expire. respects_tac idtac. Qed.
Hint Resolve expire_respects : respects.

Lemma handoff_epoch_respects x c comp q e :
  chain_id c = x -> respects (db_steps x) (handoff_epoch c comp q e).
Proof.
  intros <-. unfold handoff_epoch. respects_tac ltac:(apply rtc_once, st_handoff).
  all: intros [y k] Hk; simpl in Hk; by rewrite insert_ignore_lookup_ne by congruence.
Qed.
Hint Resolve handoff_epoch_respects : respects.
Lemma handoff_respects x c comp q :
  chain_id c = x -> respects (db_steps x) (handoff c comp q).
Proof. unfold handoff. respects_tac idtac. Qed.

Lemma prune_log_respects x c comp q :
  chain_id c = x -> respects (db_steps x) (prune_log c comp q).
Proof.
  intros <-. unfold prune_log. respects_tac ltac:(apply rtc_once).
  - apply st_erase_objects. unfold pruned_object. intros [[? k] i] r Hp. bsimp. done.
  - apply st_erase_log. unfold pruned_entry. intros k r Hp. bsimp.
    split; [done|]. destruct (l_entry r); [|done]. unfold erasable_entry.
    apply orb_true_iff. by left.
Qed.
Lemma prune_log_yields x c comp q c' :
  yields (prune_log c comp q) c' -> chain_id c = x -> chain_id c' = x.
Proof. intros (w & w' & H) Hc. unfold prune_log in H. by m_inv H. Qed.
End Erasures.

#[export] Hint Resolve expire_respects handoff_respects prune_log_respects : respects.

(** ** The handlers *)
Ltac prune_step :=
  match goal with
  | H : yields (prune_log _ _ _) ?c' |- chain_id ?c' = _ =>
      apply (prune_log_yields _ _ _ _ _ H)
  end.
Ltac chain_step ::= first [handler_step | prune_step].

Section Handlers.
Context {X : Ext} {O : Oracle}.

Lemma enroll_envelope_respects R `{!PreOrder R} c d st e :
  respects R (enroll_envelope c d st e).
Proof. unfold enroll_envelope. respects_tac idtac. Qed.
Lemma enroll_envelopes_respects R `{!PreOrder R} c d st es :
  respects R (foldM (enroll_envelope c d) st es).
Proof.
  apply (respects_foldM _ (fun _ => True)); [done| |done].
  intros. by apply enroll_envelope_respects.
Qed.
Hint Resolve enroll_envelopes_respects : respects.

Lemma enroll_respects x c cfg au v r :
  chain_id c = x -> respects (db_steps x) (enroll c cfg au v r).
Proof. unfold enroll. respects_tac idtac. Qed.
Lemma enroll_yields x c cfg au v r c' p :
  yields (enroll c cfg au v r) (c', p) -> chain_id c = x -> chain_id c' = x.
Proof. intros (w & w' & H) Hc. unfold enroll in H. chain_tac H. Qed.
Hint Resolve enroll_respects : respects.

Lemma staged_device_respects R `{!PreOrder R} c d : respects R (staged_device c d).
Proof. unfold staged_device. respects_tac idtac. Qed.
Hint Resolve staged_device_respects : respects.
Lemma epoch_respects x c cfg au v t :
  chain_id c = x -> respects (db_steps x) (epoch c cfg au v t).
Proof. unfold epoch. respects_tac idtac. Qed.

Lemma offer_respects x c au v :
  chain_id c = x -> respects (db_steps x) (offer c au v).
Proof.
  intros <-. unfold offer. respects_tac ltac:(by eapply offer_insert_step).
Qed.
Lemma enrollment_request_respects x c v :
  chain_id c = x -> respects (db_steps x) (enrollment_request c v).
Proof.
  intros <-. unfold enrollment_request. respects_tac ltac:(apply offer_update_step).
Qed.

Ltac chain_step ::= first [handler_step | prune_step | match goal with
  | H : yields (enroll _ _ _ _ _) (?c', _) |- chain_id ?c' = _ =>
      apply (enroll_yields _ _ _ _ _ _ _ _ H)
  end].
Lemma approve_respects x c cfg au i v rj :
  chain_id c = x -> respects (db_steps x) (approve c cfg au i v rj).
Proof.
  unfold approve. respects_tac ltac:(chain_rw x; apply offer_update_step).
Qed.
Lemma ack_respects x c au i v : chain_id c = x -> respects (db_steps x) (ack c au i v).
Proof. intros <-. unfold ack. respects_tac ltac:(apply registry_update_step, activate_row_forward). Qed.
Lemma snapshot_respects x c cfg v :
  chain_id c = x -> respects (db_steps x) (snapshot c cfg v).
Proof. unfold snapshot. respects_tac idtac. Qed.
Lemma prune_respects x c cfg au v :
  chain_id c = x -> respects (db_steps x) (prune c cfg au v).
Proof. unfold prune. respects_tac idtac. Qed.

(** Genesis works on the chain that its parameters name. *)
Lemma Chain_new_yields x p e cfg l c :
  yields (Chain_new p e cfg l) c -> s p "chain_id" = x -> chain_id c = x.
Proof. intros (w & w' & H) <-. unfold Chain_new in H. by m_inv H. Qed.
Lemma Chain_new_respects R `{!PreOrder R} p e cfg l : respects R (Chain_new p e cfg l).
Proof. unfold Chain_new. respects_tac idtac. Qed.
Hint Resolve Chain_new_respects : respects.

Ltac chain_step ::= first [handler_step | match goal with
  | H : yields (Chain_new _ _ _ _) ?c' |- chain_id ?c' = _ =>
      apply (Chain_new_yields _ _ _ _ _ _ H)
  end].
Lemma genesis_respects x cfg v :
  s (get v "parameters") "chain_id" = x -> respects (db_steps x) (genesis cfg v).
Proof. unfold genesis. respects_tac idtac. Qed.
End Handlers.

Ltac chain_step ::= handler_step.

#[export] Hint Resolve enroll_respects epoch_respects offer_respects
  enrollment_request_respects approve_respects ack_respects snapshot_respects
  prune_respects genesis_respects enroll_envelopes_respects staged_device_respects
  Chain_new_respects : respects.

(** ** Deletion *)
Section DeletionFacts.
Context {X : Ext} {O : Oracle}.

Lemma enrollment_chain_respects R `{!PreOrder R} fuel x seen cur k cs :
  respects R (enrollment_chain fuel x seen cur k cs).
Proof.
  revert seen cur k cs. induction fuel as [|fuel IH]; intros; cbn [enrollment_chain];
    [by apply respects_panic|].
  respects_tac idtac.
Qed.
Lemma certificates_of_respects R `{!PreOrder R} x au : respects R (certificates_of x au).
Proof.
  destruct au; [|by apply respects_ret].
  intros w r w' H. by eapply enrollment_chain_respects in H.
Qed.
Hint Resolve certificates_of_respects : respects.

Lemma delete_respects x c cfg au v :
  chain_id c = x -> respects (db_steps x) (delete c cfg au v).
Proof. unfold delete. respects_tac db_stmt. Qed.
End DeletionFacts.

#[export] Hint Resolve delete_respects certificates_of_respects : respects.

(** ** One item of a batch *)
Section AttemptFacts.
Context {X : Ext} {O : Oracle}.

Lemma reserve_payload_nonce_respects x c v :
  chain_id c = x -> respects (db_steps x) (reserve_payload_nonce c v).
Proof. unfold reserve_payload_nonce. respects_tac db_stmt. Qed.
Hint Resolve reserve_payload_nonce_respects : respects.

Lemma attempt_respects x c cfg au y rt pa v i r :
  chain_id c = x -> respects (db_steps x) (attempt c cfg au y rt pa v i r).
Proof.
  unfold attempt, attempt_envelope, attempt_repair, attempt_record. respects_tac idtac.
Qed.
Lemma attempt_yields x c cfg au y rt pa v i r c' p :
  yields (attempt c cfg au y rt pa v i r) (c', p) -> chain_id c = x -> chain_id c' = x.
Proof.
  intros (w & w' & H) Hc.
  unfold attempt, attempt_envelope, attempt_repair, attempt_record in H. chain_tac H.
Qed.
Hint Resolve attempt_respects : respects.
Ltac chain_step ::= first [handler_step | match goal with
  | H : yields (attempt _ _ _ _ _ _ _ _ _) (?c', _) |- chain_id ?c' = _ =>
      apply (attempt_yields _ _ _ _ _ _ _ _ _ _ _ _ H)
  end].
Lemma attempt_and_save_respects x c cfg au y rt pa v i r :
  chain_id c = x -> respects (db_steps x) (attempt_and_save c cfg au y rt pa v i r).
Proof. unfold attempt_and_save. respects_tac idtac. Qed.
End AttemptFacts.

Ltac chain_step ::= handler_step.
