(* ===== verification/BatchFacts.v ===== *)
(** * Batches: every item is answered once, and an error accepts nothing

    The case analysis of one iteration is an inductive relation, [step_outcome];
    the properties of a batch follow by induction on its items. *)
From S2P Require Import Prelude Error Json Verify Jcs Wire Query Routes Db Monad Config.
From S2P Require Import Store HashChain Steps StoreFacts StoreSpec Auth Domain.
From S2P Require Import Retention Mutation Deletion Batch HandlerFacts.

Section Transactions.
Context {O : Oracle}.

(** A transaction that ends in an error or a panic leaves the database as it was. *)
Lemma transaction_atomic {A} (m : M A) w r w' :
  transaction false m w = (r, w') ->
  db w' = db w \/
  exists x w1, r = Ok x /\ m (next w) = (Ok x, w1) /\ db w' = db w1.
Proof.
  unfold transaction, commit. destruct (sql_fails _); [intros [= _ <-]; by left|].
  destruct (m (next w)) as [[x|e|] w1].
  - destruct (sql_fails _); intros [= <- <-]; [by left|]. right. eauto 10.
  - intros [= _ <-]. by left.
  - intros [= _ <-]. by left.
Qed.
End Transactions.

Section BatchFacts.
Context {X : Ext} {O : Oracle}.
Implicit Types (c : Chain) (cfg : RelayConfig) (b : Batch).

(** A rejected item leaves at most an audit entry: the tables of objects, log and
    receipts are as before. *)
Record audit_only (d d' : Db) : Prop := {
  ao_objects : t_objects d' = t_objects d;
  ao_log : t_log d' = t_log d;
  ao_receipts : t_receipts d' = t_receipts d;
  ao_registry : t_registry d' = t_registry d;
  ao_payload_nonces : t_payload_nonces d' = t_payload_nonces d;
  ao_deletions : t_deletions d' = t_deletions d;
}.
#[export] Instance audit_only_preorder : PreOrder audit_only.
Proof. constructor; [by constructor|]. intros ??? [] []. constructor; congruence. Qed.

Lemma audit_reject_only cfg x r co : respects audit_only (audit_reject cfg x r co).
Proof.
  unfold audit_reject, transparency, save, insert_new.
  respects_tac ltac:(repeat case_match; simplify_eq/=; constructor; done).
Qed.

(** The same answers so far; the chain of the response may differ. *)
Definition same_items b b' : Prop :=
  accepted b' = accepted b /\ rejected b' = rejected b /\ receipts b' = receipts b /\
  (is_Some (final_chain b) -> is_Some (final_chain b')).

Inductive step_outcome cfg au x rt pa v i r rest b (w : World)
    : Result (bool * Batch) -> World -> Prop :=
  | so_accept c c' item receipt b' w0 w1 w' :
      t_chains (db w) !! x = Some c -> db w0 = db w ->
      attempt_and_save c cfg au x rt pa v i r w0 = (Ok (c', (item, receipt)), w1) ->
      db w' = db w1 -> b' = accept_item item receipt c' b ->
      step_outcome cfg au x rt pa v i r rest b w (Ok (true, b')) w'
  | so_reject e b' w' :
      same_items (reject_items (id_key rt) e [r] b) b' ->
      is_Some (final_chain b') -> audit_only (db w) (db w') ->
      step_outcome cfg au x rt pa v i r rest b w (Ok (true, b')) w'
  | so_stop e b' w' :
      accepted b <> [] -> same_items (reject_items (id_key rt) e (r :: rest) b) b' ->
      audit_only (db w) (db w') ->
      step_outcome cfg au x rt pa v i r rest b w (Ok (false, b')) w'
  | so_fail res w' :
      accepted b = [] \/ res = Panic -> (forall y, res <> Ok y) ->
      audit_only (db w) (db w') ->
      step_outcome cfg au x rt pa v i r rest b w res w'.

Lemma first_chain_same c b : same_items b (first_chain c b).
Proof. unfold same_items, first_chain. destruct (final_chain b) eqn:E; simpl; eauto. Qed.

Lemma stop_outcome cfg au x rt pa v i r rest b b0 w w1 e res w' :
  same_items b b0 -> audit_only (db w) (db w1) ->
  stop rt e (r :: rest) b0 w1 = (res, w') ->
  step_outcome cfg au x rt pa v i r rest b w res w'.
Proof.
  intros (Ha & Hr & Hc & Hf) Hd. unfold stop. case_bool_decide.
  - intros [= <- <-]. apply so_fail; [left; congruence | done | done].
  - intros [= <- <-]. apply so_stop with e; [congruence | | done].
    unfold same_items. simpl. split_and!; first [congruence | by eauto].
Qed.

Lemma reject_step_outcome cfg au x rt pa v i e r rest b b0 w w1 res w' :
  same_items b b0 -> is_Some (final_chain b0) -> audit_only (db w) (db w1) ->
  reject_step cfg x rt e r rest b0 w1 = (res, w') ->
  step_outcome cfg au x rt pa v i r rest b w res w'.
Proof.
  intros (Ha & Hr & Hc & Hf) Hs Hd. unfold reject_step. cbv [bind M_monad].
  destruct (bool_decide (accepted b0 = []) && storage_code (code e)) eqn:E1; cbn.
  { bsimp. intros [= <- <-]. apply so_fail; [left; congruence | done | done]. }
  clear E1. destruct (_ && _).
  - unfold try_. destruct (audit_reject _ _ _ _ w1) as [[c|f|] w2] eqn:Ea;
      apply audit_reject_only in Ea.
    + intros [= <- <-]. apply so_reject with e; [| |by transitivity (db w1)].
      * unfold same_items. simpl. split_and!; first [congruence | by eauto].
      * simpl. eauto.
    + intros H. eapply stop_outcome; [| |exact H]; [done|]. by transitivity (db w1).
    + intros [= <- <-]. apply so_fail; [by right | done | by transitivity (db w1)].
  - intros [= <- <-]. apply so_reject with e; [|done|done].
    unfold same_items. simpl. split_and!; first [congruence | by eauto].
Qed.

Arguments stop : simpl never.
Arguments reject_step : simpl never.
Arguments attempt_and_save : simpl never.

Lemma upload_step_outcome cfg au x rt pa v i r rest b w res w' :
  upload_step cfg au x rt pa v i r rest b w = (res, w') ->
  step_outcome cfg au x rt pa v i r rest b w res w'.
Proof.
  unfold upload_step. cbv [bind M_monad]. unfold try_ at 1, begin_tx, sql.
  pose proof (fun b0 w1 e (H1 : same_items b b0) (H2 : audit_only (db w) (db w1)) =>
    stop_outcome cfg au x rt pa v i r rest b b0 w w1 e res w' H1 H2) as Hstop.
  assert (Hb : same_items b b) by done.
  destruct (sql_fails (tick w)); cbn; [by apply Hstop|].
  unfold try_ at 1, load, select, sql. cbn.
  destruct (sql_fails (S (tick w))); cbn;
    [unfold try_, rollback_tx; destruct (sql_fails _); by apply Hstop|].
  destruct (t_chains (db w) !! x) as [c|] eqn:Ec; cbn;
    [|unfold try_, rollback_tx; destruct (sql_fails _); by apply Hstop].
  unfold try_tx. set (w0 := with_db _ _).
  pose proof (first_chain_same c b) as Hsame.
  destruct (attempt_and_save _ _ _ _ _ _ _ _ _ w0) as [[(c' & item & receipt)|e|] w1] eqn:Ea.
  - unfold try_, commit_tx. destruct (sql_fails (tick w1)); [by apply Hstop|].
    intros [= <- <-]. eapply so_accept; [done| |exact Ea|done|]; [done|].
    unfold accept_item. destruct Hsame as (-> & -> & -> & _). done.
  - unfold try_, rollback_tx. destruct (sql_fails (tick w1)); [by apply Hstop|].
    intros H. eapply reject_step_outcome; [exact Hsame| | |exact H]; [|done].
    unfold first_chain. destruct (final_chain b) eqn:E; [by rewrite E|]. simpl. eauto.
  - intros [= <- <-]. apply so_fail; [by right | done | done].
Qed.

(** ** The answers of a batch *)
Definition item_id (rt : Route) (item : Value) : string :=
  match item with Str i => i | v => s v (id_key rt) end.

Lemma attempt_item c cfg au x rt pa v i r w c' item receipt w' :
  attempt_and_save c cfg au x rt pa v i r w = (Ok (c', (item, receipt)), w') ->
  item_id rt item = s r (id_key rt).
Proof.
  unfold attempt_and_save, attempt, item_id, id_key. intros H. m_inv H; simplify_eq.
  all: repeat match goal with
    | E : is_envelope_route ?q = _ |- _ => rewrite E in *; clear E
    | H : attempt_envelope _ _ _ _ _ _ _ = _ |- _ => unfold attempt_envelope in H; m_inv H
    | H : attempt_repair _ _ _ _ _ _ _ = _ |- _ => unfold attempt_repair in H; m_inv H
    | H : attempt_record _ _ _ _ _ _ _ = _ |- _ => unfold attempt_record in H; m_inv H
    end; simplify_eq; done.
Qed.

Lemma rejection_id rt r e : item_id rt (rejection r (id_key rt) e) = s r (id_key rt).
Proof. unfold item_id, id_key. by destruct (is_envelope_route rt). Qed.

Definition answers rt b : list string :=
  (item_id rt <$> accepted b) ++ (item_id rt <$> rejected b).

Lemma answers_reject rt e rs b b' :
  same_items (reject_items (id_key rt) e rs b) b' ->
  answers rt b' ≡ₚ answers rt b ++ ((fun r => s r (id_key rt)) <$> rs).
Proof.
  intros (Ha & Hr & _). unfold answers. rewrite Ha, Hr. simpl.
  rewrite fmap_app, <-list_fmap_compose, app_assoc.
  rewrite (list_fmap_ext _ (fun r => s r (id_key rt)) rs); [done|].
  intros ? r' _. apply rejection_id.
Qed.

Lemma upload_loop_answers cfg au x rt pa v i rs b w b' w' :
  upload_loop cfg au x rt pa v i rs b w = (Ok b', w') ->
  answers rt b' ≡ₚ answers rt b ++ ((fun r => s r (id_key rt)) <$> rs) /\
  (length (receipts b) = length (accepted b) ->
   length (receipts b') = length (accepted b')).
Proof.
  revert i b w. induction rs as [|r rs IH]; intros i b w H; cbn [upload_loop] in H; m_inv H.
  - rewrite app_nil_r. done.
  - apply upload_step_outcome in Hm. apply IH in H as [H Hlen].
    inversion Hm; subst; simpl.
    + split; [|intros; apply Hlen; simpl; rewrite !length_app; simpl; lia].
      rewrite H. unfold answers. simpl. rewrite fmap_app. simpl.
      erewrite attempt_item by done. solve_Permutation.
    + rewrite H, answers_reject by done. rewrite <-app_assoc. simpl.
      split; [done|]. intros. apply Hlen.
      match goal with H : same_items _ _ |- _ => destruct H as (-> & _ & -> & _) end. done.
    + naive_solver.
  - apply upload_step_outcome in Hm. inversion Hm; subst; [|naive_solver].
    match goal with H : same_items _ _ |- _ =>
      split; [by rewrite answers_reject by done | destruct H as (-> & _ & -> & _)] end. done.
Qed.

(** ** An error answer *)
Lemma upload_loop_error cfg au x rt pa v i rs b w e w' :
  upload_loop cfg au x rt pa v i rs b w = (Err e, w') ->
  accepted b = [] /\ audit_only (db w) (db w').
Proof.
  revert i b w. induction rs as [|r rs IH]; intros i b w; cbn [upload_loop];
    cbv [bind ret M_monad]; [done|].
  destruct (upload_step _ _ _ _ _ _ _ _ _ _ w) as [[[go b1]|e1|] w1] eqn:E; [| |done];
    apply upload_step_outcome in E.
  - destruct go; [|done]. intros H. apply IH in H as [Ha Hd].
    inversion E; subst; [| |naive_solver].
    + simpl in Ha. by destruct (accepted b).
    + match goal with H : same_items _ _ |- _ => destruct H as (Hs & _) end.
      simpl in Hs. split; [congruence|]. by transitivity (db w1).
  - intros [= -> ->]. inversion E; subst. naive_solver.
Qed.

Lemma upload_loop_chain cfg au x rt pa v i rs b w b' w' :
  upload_loop cfg au x rt pa v i rs b w = (Ok b', w') ->
  rs <> [] \/ is_Some (final_chain b) ->
  (accepted b <> [] -> is_Some (final_chain b)) -> is_Some (final_chain b').
Proof.
  revert i b w. induction rs as [|r rs IH]; intros i b w H Hne Hb;
    cbn [upload_loop] in H; m_inv H.
  - by destruct Hne.
  - apply upload_step_outcome in Hm. inversion Hm; subst; [| |naive_solver].
    + eapply IH; [done| |]; simpl; eauto.
    + eapply IH; [done| |]; eauto.
  - apply upload_step_outcome in Hm. inversion Hm; subst; [|naive_solver].
    match goal with H : same_items _ _ |- _ => destruct H as (_ & _ & _ & H); apply H end.
    simpl. auto.
Qed.

Lemma upload_checks_nonempty cfg au rt v :
  upload_checks cfg au rt v = Ok tt -> a v (batch_key rt) <> [].
Proof.
  unfold upload_checks. intros H. res_inv H. bsimp.
  match goal with H : _ || _ = false |- _ => idtac | _ => idtac end. intros Hn.
  repeat match goal with H : fail_if _ _ = Ok _ |- _ => res_inv H; bsimp end; done.
Qed.
End BatchFacts.

Section BatchSpec.
Context {X : Ext} {O : Oracle}.

Lemma response_members rt b rs c :
  a (upload_response rt b rs c) "accepted" = accepted b /\
  a (upload_response rt b rs c) "rejected" = rejected b /\
  a (upload_response rt b rs c) "upload_receipts" = rs.
Proof.
  unfold upload_response. destruct c as [c|]; [|done]. by destruct (is_repair rt).
Qed.

Lemma mapM_length {A B} (f : A -> option B) l k : mapM f l = Some k -> length k = length l.
Proof. intros H%mapM_Some. symmetry. by eapply Forall2_length. Qed.

Lemma sort_receipts_perm rt records rs rs' :
  sort_receipts rt records rs = Ok rs' -> rs' ≡ₚ rs.
Proof.
  unfold sort_receipts. destruct (is_snapshot rt); intros H; res_inv H.
  - match goal with H : mapM _ _ = Some _ |- _ => apply mapM_length in H as Hl end.
    rewrite sort_by_perm, snd_zip by lia. done.
  - apply sort_by_perm.
Qed.
Lemma sort_receipts_no_error rt records rs e : sort_receipts rt records rs <> Err e.
Proof.
  unfold sort_receipts. destruct (is_snapshot rt); [|done].
  cbv [bind res_monad unwrap]. by destruct (mapM _ _).
Qed.

(** (C11) Every item of a batch is answered exactly once: the ids of the accepted
    and of the rejected items are, together, the ids of the uploaded items; and
    there is one receipt per accepted item. *)
Theorem upload_answers_each_item_once cfg au x rt pa v w response w' :
  upload cfg au x rt pa v w = (Ok response, w') ->
  (item_id rt <$> a response "accepted") ++ (item_id rt <$> a response "rejected")
    ≡ₚ ((fun r => s r (id_key rt)) <$> a v (batch_key rt)) /\
  length (a response "upload_receipts") = length (a response "accepted").
Proof.
  unfold upload. intros H. m_inv H; simplify_eq.
  all: match goal with |- context [upload_response ?q ?b ?rs ?c] =>
    destruct (response_members q b rs c) as (-> & -> & ->) end;
    apply upload_loop_answers in Hm2 as [Hm2 Hlen];
    apply sort_receipts_perm in Hm3; split; [exact Hm2|];
    rewrite Hm3; by apply Hlen.
Qed.

(** An error answer to a batch means that nothing was accepted: objects,
    log, receipts, registry and payload nonces are as before the upload, whatever
    the storage did meanwhile. *)
Theorem upload_error_accepts_nothing cfg au x rt pa v w e w' :
  upload cfg au x rt pa v w = (Err e, w') -> audit_only (db w) (db w').
Proof.
  unfold upload. cbv [bind lift M_monad fail_if fail ret].
  destruct (upload_checks cfg au rt v) as [[]|e0|] eqn:Ec; [|by intros [= _ <-]|done].
  apply upload_checks_nonempty in Ec.
  destruct (select _ w) as [[[]|e0|] w1] eqn:E1; [| |done];
    apply (respects_select audit_only) in E1; try exact _; [|by intros [= _ <-]].
  destruct (bool_decide _); [by intros [= _ <-]|].
  destruct (quota x cfg w1) as [[[]|e0|] w2] eqn:E2; [| |done];
    apply (quota_respects audit_only) in E2; try exact _;
    [|intros [= _ <-]; by transitivity (db w1)].
  destruct (upload_loop _ _ _ _ _ _ _ _ _ w2) as [[b|e0|] w3] eqn:E3; [| |done]; cycle 1.
  { apply upload_loop_error in E3 as [_ E3]. intros [= _ <-].
    transitivity (db w1); [done|]. by transitivity (db w2). }
  apply upload_loop_chain in E3 as [c Hc]; [|by left|done]. rewrite Hc.
  destruct (sort_receipts _ _ _) eqn:Es; [|by apply sort_receipts_no_error in Es | done].
  by destruct (_ || _).
Qed.
End BatchSpec.

(** ** A relation that every item respects

    The loop commits the transactions of the accepted items and of the audits. *)
Section UploadRespects.
Context {X : Ext} {O : Oracle}.
Context (R : Db -> Db -> Prop) `{!PreOrder R} (cfg : RelayConfig) (au : Auth) (x : string).
Context (rt : Route) (pa : string) (v : Value).
Context (attempt_R : forall i r c w c' p w',
  t_chains (db w) !! x = Some c ->
  attempt_and_save c cfg au x rt pa v i r w = (Ok (c', p), w') -> R (db w) (db w')).
Context (audit_R : forall r co, respects R (audit_reject cfg x r co)).

Lemma stop_respects e rs b : respects R (stop rt e rs b).
Proof. unfold stop. respects_tac idtac. Qed.
Lemma reject_step_respects e r rest b : respects R (reject_step cfg x rt e r rest b).
Proof.
  unfold reject_step. respects_tac idtac; first [apply audit_R | apply stop_respects].
Qed.
Ltac stopped := let H := fresh in intros H; exact (stop_respects _ _ _ _ _ _ H).
Lemma upload_step_respects i r rest b :
  respects R (upload_step cfg au x rt pa v i r rest b).
Proof.
  intros w res w'. unfold upload_step. rewrite try_run. unfold begin_tx, sql.
  destruct (sql_fails (tick w)); [stopped|].
  rewrite try_run. unfold load. rewrite select_run. cbn [db tick with_db next].
  destruct (sql_fails (S (tick w))).
  { rewrite try_run. unfold rollback_tx. destruct (sql_fails _); stopped. }
  destruct (t_chains (db w) !! x) as [c|] eqn:Hc; cbn [ok_or ret fail M_monad].
  2:{ rewrite try_run. unfold rollback_tx. destruct (sql_fails _); stopped. }
  cbv zeta. rewrite try_tx_run.
  match goal with |- context [attempt_and_save _ _ _ _ _ _ _ _ _ ?w1] => set (w0 := w1) end.
  destruct (attempt_and_save _ _ _ _ _ _ _ _ _ w0) as [[[c' [item receipt]]|e|] w1] eqn:Ea.
  - rewrite try_run. unfold commit_tx. destruct (sql_fails (tick w1)); [stopped|].
    intros [= _ <-]. exact (attempt_R i r c w0 _ _ w1 Hc Ea).
  - rewrite try_run. unfold rollback_tx. destruct (sql_fails (tick w1));
      [stopped|]. intros H. exact (reject_step_respects _ _ _ _ _ _ _ H).
  - by intros [= _ <-].
Qed.
Lemma upload_loop_respects i rs b : respects R (upload_loop cfg au x rt pa v i rs b).
Proof.
  revert i b. induction rs as [|r rs IH]; intros; cbn [upload_loop]; respects_tac idtac.
  apply upload_step_respects.
Qed.
Lemma upload_respects : respects R (upload cfg au x rt pa v).
Proof. unfold upload. respects_tac idtac. apply upload_loop_respects. Qed.
End UploadRespects.
