(* ===== verification/ChainInv.v ===== *)
(** * Every handler keeps the hash chains

    [chain_ok], the invariant of [StoreSpec], is established by genesis and
    preserved by every handler that succeeds: enrollment, epochs, offers,
    acknowledgements, snapshots, pruning, deletion and each item of a batch. *)
From S2P Require Import Prelude Error Json Verify Jcs Wire Query Routes Db Monad Config.
From S2P Require Import Store HashChain Steps StoreFacts StoreSpec Auth Domain.
From S2P Require Import Retention Mutation Deletion Batch HandlerFacts.

(** ** Writes outside the two logs *)
Definition same_logs (d d' : Db) : Prop :=
  t_log d' = t_log d /\ t_transparency d' = t_transparency d.
#[export] Instance same_logs_preorder : PreOrder same_logs.
Proof.
  split; [by intros d|]. intros d1 d2 d3 [? ?] [? ?]. split; congruence.
Qed.

Section SameLogs.
Context {X : Ext} {O : Oracle}.

Lemma registry_insert_logs x i r d d' : registry_insert x i r d = Some d' -> same_logs d d'.
Proof.
  unfold registry_insert. destruct (insert_new _ _ _); [|done]. by intros [= <-].
Qed.
Lemma registry_update_logs x i f d : same_logs d (registry_update x i f d).
Proof. unfold registry_update. by case_match. Qed.
Lemma offer_insert_logs x i r d d' : offer_insert x i r d = Some d' -> same_logs d d'.
Proof. unfold offer_insert. destruct (insert_new _ _ _); [|done]. by intros [= <-]. Qed.
Lemma offer_update_logs x i f d : same_logs d (offer_update x i f d).
Proof. unfold offer_update. by case_match. Qed.

Lemma put_object_logs x k v l : respects same_logs (put_object x k v l).
Proof.
  unfold put_object, object_digest, insert_object, insert_new.
  respects_tac ltac:(repeat case_match; by simplify_eq/=).
Qed.
Lemma store_receipt_logs c k i r : respects same_logs (store_receipt c k i r).
Proof.
  unfold store_receipt, insert_receipt, insert_new.
  respects_tac ltac:(repeat case_match; by simplify_eq/=).
Qed.
Lemma outcome_logs x sc i v r : respects same_logs (outcome x sc i v r).
Proof.
  unfold outcome, insert_new. respects_tac ltac:(repeat case_match; by simplify_eq/=).
Qed.
Lemma register_logs c d q st : respects same_logs (register c d q st).
Proof. unfold register. respects_tac ltac:(by eapply registry_insert_logs). Qed.
Lemma save_logs c cfg : respects same_logs (save c cfg).
Proof. unfold save. respects_tac ltac:(done). Qed.
Lemma reserve_payload_nonce_logs c v : respects same_logs (reserve_payload_nonce c v).
Proof. unfold reserve_payload_nonce. respects_tac ltac:(done). Qed.
Lemma revoke_loop_logs (c : Chain) q l :
  respects same_logs (forM (fun id => let! id := unwrap (as_str id) in
    exec_ (registry_update (chain_id c) id (fun r => Some (revoke_row q r)))) l).
Proof. respects_tac ltac:(apply registry_update_logs). Qed.
End SameLogs.

#[export] Hint Resolve put_object_logs store_receipt_logs outcome_logs register_logs
  save_logs reserve_payload_nonce_logs revoke_loop_logs : respects.

Section Frames.
Context {X : Ext} {O : Oracle}.
Implicit Types (c : Chain) (cfg : RelayConfig).

Lemma chain_ok_logs cfg d d' c : chain_ok cfg d c -> same_logs d d' -> chain_ok cfg d' c.
Proof. intros H [Hl Ht]. eapply chain_ok_frame; [done|..]; congruence. Qed.

Lemma chain_ok_run {A} (m : M A) cfg c w r w' :
  respects same_logs m -> m w = (r, w') -> chain_ok cfg (db w) c -> chain_ok cfg (db w') c.
Proof. intros Hm H Hok. eapply chain_ok_logs; [done|]. by eapply Hm. Qed.

Lemma chain_ok_epoch cfg d c e : chain_ok cfg d c -> chain_ok cfg d (set_epoch e c).
Proof. by intros []. Qed.

(** Raising the horizon. *)
Lemma chain_ok_pruned cfg d c q b :
  chain_ok cfg d c -> min_available_seq c <= q <= head_seq c + 1 ->
  chain_ok cfg d (set_pruned q b c).
Proof.
  intros [] Hq. constructor; try done; simpl; [lia|]. intros i Hi. apply ok_entries. lia.
Qed.

(** Erasing entries below the horizon. *)
Lemma chain_ok_erase cfg d c p :
  chain_ok cfg d c ->
  (forall i r, p (chain_id c, log_id c, i) r = true -> i < min_available_seq c) ->
  chain_ok cfg (set_log (erase_log p (t_log d)) d) c.
Proof.
  intros [[h0 [Hi Hl]] Ht ? ? ? ? ? He] Hp.
  assert (Hrow : forall i, log_rows (set_log (erase_log p (t_log d)) d) c i =
    (fun r => (if p (chain_id c, log_id c, i) r then None else l_entry r, l_head_hash r))
      <$> t_log d !! (chain_id c, log_id c, i)).
  { intros i. unfold log_rows. simpl. rewrite erase_log_lookup.
    destruct (t_log d !! _); simpl; [|done]. by destruct (p _ _). }
  constructor; try done.
  - exists h0. split; [done|]. eapply hash_chain_erase; [exact Hl| |].
    + intros i. rewrite Hrow. unfold log_rows. by destruct (t_log d !! _).
    + intros i e h. rewrite Hrow. unfold log_rows. destruct (t_log d !! _) as [r|]; simpl; [|done].
      by destruct (p _ _).
  - intros i Hi'. destruct (He i Hi') as (e & h & Hr). rewrite Hrow.
    unfold log_rows in Hr. destruct (t_log d !! _) as [r|] eqn:E; [|done].
    injection Hr as Hr1 Hr2. simpl.
    destruct (p _ r) eqn:Ep; [apply Hp in Ep; lia|]. rewrite Hr1. eauto.
Qed.
End Frames.

(** [ok_run] carries [chain_ok] forward over the runs in the context, in order. *)
Ltac ok_frame :=
  match goal with
  | Hok : chain_ok ?cfg ?d ?c, H : ?m ?w = (Ok ?r, ?w') |- _ =>
      unify d (db w);
      let Hok' := fresh "Hok" in
      assert (Hok' : chain_ok cfg (db w') c)
        by (eapply (chain_ok_run m); [|exact H|exact Hok]; eauto 3 with respects);
      clear Hok H
  end.
Ltac ok_chain lem :=
  match goal with
  | Hok : chain_ok ?cfg ?d ?c, H : ?m ?w = (Ok (?c', ?p), ?w') |- _ =>
      unify d (db w);
      let Hok' := fresh "Hok" in
      assert (Hok' : chain_ok cfg (db w') c') by (eapply lem; [try exact _ .. | | exact H]; exact Hok);
      clear Hok H
  end.

Ltac ok_end :=
  first [ done
        | match goal with Hok : chain_ok _ _ ?c |- chain_ok _ _ ?c =>
            eapply chain_ok_logs; [exact Hok|] end;
          simpl; first [ by split | apply offer_update_logs | apply registry_update_logs ] ].

Section Preserve.
Context {X : Ext} {XL : ExtLaws X} {O : Oracle}.
Implicit Types (c : Chain) (cfg : RelayConfig).

Lemma transparency_chain_ok' cfg c op dg sq co w c' p w' :
  chain_ok cfg (db w) c -> transparency c cfg op dg sq co w = (Ok (c', p), w') ->
  chain_ok cfg (db w') c'.
Proof. apply transparency_chain_ok. Qed.
Lemma append_chain_ok cfg c k v w c' p w' :
  chain_ok cfg (db w) c -> append c cfg k v w = (Ok (c', p), w') ->
  chain_ok cfg (db w') c'.
Proof.
  intros Hok H. destruct p as [e r]. apply append_ok in H as [[x H]|(_ & -> & ->)]; [|done].
  by eapply appended_chain_ok.
Qed.
Ltac ok_run := repeat first
  [ ok_chain append_chain_ok | ok_chain transparency_chain_ok' | ok_frame ].

Lemma snapshot_part_chain_ok cfg c v w c' r w' :
  chain_ok cfg (db w) c -> snapshot_part c cfg v w = (Ok (c', r), w') ->
  chain_ok cfg (db w') c'.
Proof.
  intros Hok H. unfold snapshot_part, receipt, make_receipt in H. m_inv H; simplify_eq; ok_run; ok_end.
Qed.
Lemma publish_notice_chain_ok cfg c w c' w' :
  chain_ok cfg (db w) c -> publish_notice c cfg w = (Ok c', w') -> chain_ok cfg (db w') c'.
Proof.
  intros Hok H. unfold publish_notice in H. m_inv H; simplify_eq; ok_run; ok_end.
Qed.

Lemma commit_object_chain_ok cfg k st v w st' w' :
  chain_ok cfg (db w) (fst st) -> commit_object cfg k st v w = (Ok st', w') ->
  chain_ok cfg (db w') (fst st').
Proof.
  destruct st as [c rs]. intros Hok H. unfold commit_object in H. simpl in Hok.
  m_inv H; simplify_eq; ok_run; ok_end.
Qed.
Lemma commit_device_chain_ok cfg g st v w st' w' :
  chain_ok cfg (db w) (fst st) -> commit_device cfg g st v w = (Ok st', w') ->
  chain_ok cfg (db w') (fst st').
Proof.
  destruct st as [c rs]. intros Hok H. unfold commit_device in H. simpl in Hok.
  m_inv H; simplify_eq; ok_run; ok_end.
Qed.

(** Along a loop whose state carries the chain. *)
Lemma foldM_chain_ok {A} cfg (f : Chain * list Value -> A -> M (Chain * list Value)) l :
  (forall st x w st' w', chain_ok cfg (db w) (fst st) -> f st x w = (Ok st', w') ->
     chain_ok cfg (db w') (fst st')) ->
  forall st w st' w', chain_ok cfg (db w) (fst st) -> foldM f st l w = (Ok st', w') ->
    chain_ok cfg (db w') (fst st').
Proof.
  intros Hf. induction l as [|x l IH]; intros st w st' w' Hok H; cbn [foldM] in H; m_inv H;
    [done|]. eapply IH; [|done]. by eapply Hf.
Qed.
Lemma commit_objects_chain_ok cfg k c rs l w c' rs' w' :
  chain_ok cfg (db w) c -> foldM (commit_object cfg k) (c, rs) l w = (Ok (c', rs'), w') ->
  chain_ok cfg (db w') c'.
Proof.
  intros Hok H. eapply (foldM_chain_ok cfg _ l) in H; [exact H| |exact Hok].
  intros; by eapply commit_object_chain_ok.
Qed.
Lemma commit_devices_chain_ok cfg g c rs l w c' rs' w' :
  chain_ok cfg (db w) c -> foldM (commit_device cfg g) (c, rs) l w = (Ok (c', rs'), w') ->
  chain_ok cfg (db w') c'.
Proof.
  intros Hok H. eapply (foldM_chain_ok cfg _ l) in H; [exact H| |exact Hok].
  intros; by eapply commit_device_chain_ok.
Qed.
Lemma commit_object_chain_ok' cfg k c rs v w c' rs' w' :
  chain_ok cfg (db w) c -> commit_object cfg k (c, rs) v w = (Ok (c', rs'), w') ->
  chain_ok cfg (db w') c'.
Proof. intros Hok H. by eapply commit_object_chain_ok in H. Qed.

Ltac ok_run ::= repeat first
  [ ok_chain append_chain_ok | ok_chain transparency_chain_ok'
  | ok_chain commit_object_chain_ok' | ok_chain commit_objects_chain_ok
  | ok_chain commit_devices_chain_ok | ok_chain snapshot_part_chain_ok | ok_frame ].

Lemma commit_epoch_chain_ok cfg c ec w c' p w' :
  chain_ok cfg (db w) c -> commit_epoch c cfg ec w = (Ok (c', p), w') ->
  chain_ok cfg (db w') c'.
Proof.
  intros Hok H. unfold commit_epoch in H. m_inv H; simplify_eq; ok_run;
    by apply chain_ok_epoch.
Qed.

(** A compaction covers an existing prefix of the log, with its hash. *)
Lemma compaction_covers c v st w u w' :
  compaction c v st w = (Ok u, w') ->
  n v "covered_through_seq" <= head_seq c /\
  (n v "covered_through_seq" <> 0 ->
   l_head_hash <$> t_log (db w) !! (chain_id c, log_id c, n v "covered_through_seq")
     = Some (s v "covered_log_hash")).
Proof.
  unfold compaction. intros H. m_inv H; bsimp; split; try lia; intros Hn; try lia.
  assert (Hw : db w = db w0) by (by eapply (staged_key_respects eq)).
  simpl in *. congruence.
Qed.

Ltac ok_run ::= repeat first
  [ ok_chain append_chain_ok | ok_chain transparency_chain_ok'
  | ok_chain commit_object_chain_ok' | ok_chain commit_objects_chain_ok
  | ok_chain commit_devices_chain_ok | ok_chain snapshot_part_chain_ok
  | ok_chain commit_epoch_chain_ok | ok_frame ].

Lemma enroll_chain_ok cfg c au v r w c' p w' :
  chain_ok cfg (db w) c -> enroll c cfg au v r w = (Ok (c', p), w') ->
  chain_ok cfg (db w') c'.
Proof.
  intros Hok H. unfold enroll in H. m_inv H; simplify_eq; ok_run; ok_end.
Qed.

Lemma staged_loop_logs c l : respects same_logs (forM (staged_device c) l).
Proof. respects_tac idtac. Qed.
Hint Resolve staged_loop_logs : respects.

Lemma epoch_chain_ok cfg c au v t w c' p w' :
  chain_ok cfg (db w) c -> epoch c cfg au v t w = (Ok (c', p), w') ->
  chain_ok cfg (db w') c'.
Proof.
  intros Hok H. unfold epoch in H. m_inv H; simplify_eq; ok_run; ok_end.
Qed.

Lemma snapshot_chain_ok cfg c v w c' p w' :
  chain_ok cfg (db w) c -> snapshot c cfg v w = (Ok (c', p), w') ->
  chain_ok cfg (db w') c'.
Proof.
  intros Hok H. unfold snapshot in H. m_inv H; simplify_eq; ok_run; ok_end.
Qed.

Lemma offer_chain_ok cfg c au v w r w' :
  chain_ok cfg (db w) c -> offer c au v w = (Ok r, w') -> chain_ok cfg (db w') c.
Proof.
  intros Hok H. eapply chain_ok_run; [|exact H|exact Hok].
  unfold offer. respects_tac ltac:(by eapply offer_insert_logs).
Qed.
Lemma ack_chain_ok cfg c au i v w r w' :
  chain_ok cfg (db w) c -> ack c au i v w = (Ok r, w') -> chain_ok cfg (db w') c.
Proof.
  intros Hok H. eapply chain_ok_run; [|exact H|exact Hok].
  unfold ack. respects_tac ltac:(apply registry_update_logs).
Qed.
Lemma enrollment_request_chain_ok cfg c v w r w' :
  chain_ok cfg (db w) c -> enrollment_request c v w = (Ok r, w') -> chain_ok cfg (db w') c.
Proof.
  intros Hok H. eapply chain_ok_run; [|exact H|exact Hok].
  unfold enrollment_request. respects_tac ltac:(apply offer_update_logs).
Qed.

Ltac ok_run ::= repeat first
  [ ok_chain append_chain_ok | ok_chain transparency_chain_ok'
  | ok_chain commit_object_chain_ok' | ok_chain enroll_chain_ok | ok_frame ].
Lemma approve_chain_ok cfg c au i v rj w c' p w' :
  chain_ok cfg (db w) c -> approve c cfg au i v rj w = (Ok (c', p), w') ->
  chain_ok cfg (db w') c'.
Proof.
  intros Hok H. unfold approve in H. m_inv H; simplify_eq; ok_run; try ok_end.
  all: match goal with
    Hok : chain_ok _ ?d _, H : outcome _ _ _ _ _ (with_db (offer_update _ _ _ _) _) = _ |- _ =>
      eapply (chain_ok_run _ _ _ _ _ _ (outcome_logs _ _ _ _ _) H); simpl;
      (eapply chain_ok_logs; [exact Hok | apply offer_update_logs]) end.
Qed.

(** Keeping the invariant of a fixed chain value is a preorder, so it follows from
    the statements. *)
Definition keeps_ok cfg c (d d' : Db) : Prop := chain_ok cfg d c -> chain_ok cfg d' c.
#[export] Instance keeps_ok_preorder cfg c : PreOrder (keeps_ok cfg c).
Proof. unfold keeps_ok. split; [by intros d|]. intros d1 d2 d3. auto. Qed.

Lemma expire_keeps cfg c : respects (keeps_ok cfg c) (expire c).
Proof.
  unfold expire, expire_epoch. respects_tac ltac:(intros Hok).
  - apply chain_ok_erase; [done|]. unfold envelope_entry_of. simpl. intros i r Hp. bsimp. done.
  - by eapply chain_ok_logs.
  - by eapply chain_ok_logs.
Qed.
Hint Resolve expire_keeps : respects.
Lemma handoff_keeps cfg c comp q : respects (keeps_ok cfg c) (handoff c comp q).
Proof.
  unfold handoff, handoff_epoch. respects_tac ltac:(intros Hok; by eapply chain_ok_logs).
Qed.

Lemma prune_log_chain_ok cfg c comp q w c' w' :
  chain_ok cfg (db w) c -> min_available_seq c - 1 <= q <= head_seq c ->
  prune_log c comp q w = (Ok c', w') ->
  chain_ok cfg (db w') c' /\ min_available_seq c' = q + 1 /\ head_seq c' = head_seq c.
Proof.
  intros Hok Hq H. unfold prune_log in H. m_inv H. simpl. split_and!; [|done..].
  apply (chain_ok_pruned _ _ _ (q + 1) (Some (s comp "compaction_id"))) in Hok; [|lia].
  apply (chain_ok_erase _ (set_objects (erase_objects (pruned_object c q) (t_objects (db w)))
    (db w)) _ (pruned_entry c q)).
  - by eapply chain_ok_logs.
  - unfold pruned_entry. simpl. intros i r Hp. bsimp. lia.
Qed.

Lemma append_head cfg c k v w c' p w' :
  append c cfg k v w = (Ok (c', p), w') ->
  head_seq c <= head_seq c' /\ min_available_seq c' = min_available_seq c.
Proof.
  intros H. destruct p as [e r]. apply append_ok in H as [[x []]|(_ & -> & _)]; [|done].
  subst c'. simpl. split; [lia|done].
Qed.

Lemma prune_chain_ok cfg c au v w c' r w' :
  chain_ok cfg (db w) c -> prune c cfg au v w = (Ok (c', r), w') -> chain_ok cfg (db w') c'.
Proof.
  intros Hok H. unfold prune in H. m_inv H; simplify_eq; [ok_run; done|].
  match goal with H : compaction _ _ _ _ = _ |- _ => apply compaction_covers in H as Hc end.
  match goal with H : append _ _ _ _ _ = _ |- _ => apply append_head in H as Hh end.
  ok_run. bsimp.
  match goal with H : prune_log _ _ _ _ = _ |- _ =>
    eapply prune_log_chain_ok in H as (Hok' & _); [|done|lia] end.
  match goal with H : handoff _ _ _ _ = _ |- _ => 
    pose proof (handoff_keeps cfg _ _ _ _ _ _ H Hok') as Hok; clear H Hok' end.
  ok_run. done.
Qed.

Ltac ok_run ::= repeat first
  [ ok_chain append_chain_ok | ok_chain transparency_chain_ok'
  | ok_chain commit_object_chain_ok' | ok_chain snapshot_part_chain_ok | ok_frame ].

Lemma delete_chain_ok cfg c au v w c' r w' :
  chain_ok cfg (db w) c -> delete c cfg au v w = (Ok (c', r), w') -> chain_ok cfg (db w') c'.
Proof.
  intros Hok H. unfold delete in H. m_inv H; simplify_eq; ok_run.
  all: unfold insert_new in *; repeat case_match; simplify_eq/=; by eapply chain_ok_logs.
Qed.

Lemma attempt_chain_ok cfg c au y rt pa v i r w c' p w' :
  chain_ok cfg (db w) c -> attempt_and_save c cfg au y rt pa v i r w = (Ok (c', p), w') ->
  chain_ok cfg (db w') c'.
Proof.
  intros Hok H.
  unfold attempt_and_save, attempt in H. m_inv H; simplify_eq.
  all: repeat match goal with
    | H : attempt_envelope _ _ _ _ _ _ _ = _ |- _ => unfold attempt_envelope in H; m_inv H
    | H : attempt_repair _ _ _ _ _ _ _ = _ |- _ => unfold attempt_repair in H; m_inv H
    | H : attempt_record _ _ _ _ _ _ _ = _ |- _ => unfold attempt_record in H; m_inv H
    end; simplify_eq; ok_run; done.
Qed.

(** ** Genesis establishes the invariant *)
Definition fresh_chain (d : Db) (x : string) : Prop :=
  (forall l i, t_log d !! (x, l, i) = None) /\
  (forall t i, t_transparency d !! (x, t, i) = None).

Lemma initial_hash_decodable ctx x l k h : initial_hash ctx x l k = Some h -> decodable h.
Proof.
  unfold initial_hash, decodable. intros H.
  destruct (decode x _); simpl in H; [|done]. destruct (uuid_parse l); simpl in H; [|done].
  destruct k as [k|]; [destruct (decode k _); simpl in H; [|done]|];
    injection H as <-; rewrite decode_hash; eauto.
Qed.

Lemma Chain_new_chain_ok cfg p e l w c w' :
  fresh_chain (db w) (s p "chain_id") -> Chain_new p e cfg l w = (Ok c, w') ->
  chain_ok cfg (db w') c /\ chain_id c = s p "chain_id".
Proof.
  intros [Hl Ht] H. unfold Chain_new in H. m_inv H; (split; [|done]);
    (constructor; cbn; [eexists; split; [eassumption|]; apply hash_chain_empty; intros i;
                       unfold log_rows; cbn; by rewrite Hl
                     | eexists; split; [eassumption|]; apply hash_chain_empty; intros i;
                       unfold transparency_rows; cbn; by rewrite Ht
                     | done | done | by eapply initial_hash_decodable
                     | by eapply initial_hash_decodable | lia | lia]).
Qed.

Lemma save_stores c cfg w u w' :
  save c cfg w = (Ok u, w') -> t_chains (db w') !! chain_id c = Some c.
Proof.
  unfold save, quota, used. intros H. m_inv H. cbn. by rewrite lookup_insert_eq.
Qed.

Ltac chain_step ::= handler_step.
Lemma genesis_id cfg v w r c w' :
  genesis cfg v w = (Ok (201, r, c), w') ->
  chain_id c = s (get v "parameters") "chain_id" /\ t_chains (db w') !! chain_id c = Some c.
Proof.
  intros H. unfold genesis in H. m_inv H; simplify_eq.
  match goal with H : save _ _ _ = _ |- _ => apply save_stores in H as Hs end.
  split; [|done]. match goal with H : Chain_new _ _ _ _ _ = (Ok ?c0, _) |- _ =>
    assert (Hc : chain_id c0 = s (get v "parameters") "chain_id")
      by (eapply Chain_new_yields; [by do 2 eexists | done]) end.
  to_yields. chain_solve.
Qed.

Ltac ok_run ::= repeat first
  [ ok_chain append_chain_ok | ok_chain commit_epoch_chain_ok
  | match goal with
    | Hok : chain_ok ?cfg ?d ?c, H : publish_notice ?c ?cfg ?w = (Ok ?c', ?w') |- _ =>
        apply (publish_notice_chain_ok _ _ _ _ _ Hok) in H; clear Hok
    end
  | ok_frame ].

Lemma genesis_chain_ok cfg v w r c w' :
  fresh_chain (db w) (s (get v "parameters") "chain_id") ->
  genesis cfg v w = (Ok (201, r, c), w') -> chain_ok cfg (db w') c.
Proof.
  intros Hf H. unfold genesis in H. m_inv H; simplify_eq.
  match goal with H : outcomes _ _ _ _ _ = _ |- _ => apply (outcomes_respects eq) in H end.
  match goal with H : load _ _ = _ |- _ => apply (load_respects eq) in H end.
  match goal with H : Chain_new _ _ _ _ _ = _ |- _ =>
    apply Chain_new_chain_ok in H as [Hok _]; [|congruence] end.
  ok_run. done.
Qed.
End Preserve.
