(* ===== verification/EpochSpec.v ===== *)
(** * What an epoch promises

    The envelopes of an accepted epoch reach exactly its members, and after the
    commit the live devices of the registry are exactly its members. *)
From S2P Require Import Prelude Error Json Verify Jcs Wire Query Routes Db Monad Config.
From S2P Require Import Store HashChain Steps StoreFacts StoreSpec Auth Domain.
From S2P Require Import Retention Mutation HandlerFacts.

Lemma mem_spec x l : mem x l = true <-> x ∈ l.
Proof.
  unfold mem. rewrite existsb_exists. split.
  - intros (y & Hy & ->%String.eqb_eq). by apply list_elem_of_In.
  - intros H. exists x. by rewrite <-list_elem_of_In, String.eqb_refl.
Qed.
Lemma mem_false x l : mem x l = false <-> x ∉ l.
Proof. rewrite <-mem_spec. by destruct (mem x l). Qed.

Ltac mem_norm :=
  repeat match goal with
  | H : mem _ _ = false |- _ => apply mem_false in H
  | H : mem _ _ = true |- _ => apply mem_spec in H
  end.

Section Bundle.
Context {X : Ext} {O : Oracle}.
Implicit Types (c : Chain) (cfg : RelayConfig).

Definition is_recovery (e : Value) : bool := String.eqb (s e "recipient_kind") "recovery".
Definition recipients_of (es : list Value) : list string :=
  (fun e => s e "recipient_device_id") <$> List.filter (fun e => negb (is_recovery e)) es.
Definition recoveries_of (es : list Value) : list Value := List.filter is_recovery es.
Definition ids_of (es : list Value) : list string := (fun e => s e "envelope_id") <$> es.

(** The state of the loop over the envelopes, given those it has passed. *)
Record loop_state (epoch : Value) (members : list string) (es : list Value)
    (st : list string * list string * bool) : Prop := {
  ls_ids : fst (fst st) ≡ₚ ids_of es;
  ls_recipients : snd (fst st) ≡ₚ recipients_of es;
  ls_ids_nodup : NoDup (fst (fst st));
  ls_recipients_nodup : NoDup (snd (fst st));
  ls_members : forall r, r ∈ snd (fst st) -> r ∈ members;
  ls_recovery : if snd st
    then exists e, recoveries_of es = [e] /\ object_hash e = s epoch "recovery_envelope_hash"
    else recoveries_of es = [];
}.

Lemma bundle_envelope_state c epoch staged members es st e w st' w' :
  loop_state epoch members es st ->
  bundle_envelope c epoch staged members st e w = (Ok st', w') ->
  loop_state epoch members (es ++ [e]) st'.
Proof.
  destruct st as [[ids rs] rec]. intros [H1 H2 H3 H4 H5 H6] H. unfold bundle_envelope in H.
  simpl in *. m_inv H; bsimp; mem_norm.
  - assert (Hr : is_recovery e = true) by by apply String.eqb_eq.
    constructor; simpl; try done; unfold ids_of, recipients_of, recoveries_of in *.
    + rewrite fmap_app. simpl. rewrite H1. solve_Permutation.
    + rewrite List.filter_app. simpl. rewrite Hr. simpl. by rewrite app_nil_r.
    + by constructor.
    + exists e. rewrite List.filter_app, H6. simpl. rewrite Hr. by split.
  - assert (Hr : is_recovery e = false) by by apply String.eqb_neq.
    constructor; simpl; unfold ids_of, recipients_of, recoveries_of in *.
    + rewrite fmap_app. simpl. rewrite H1. solve_Permutation.
    + rewrite List.filter_app, fmap_app. simpl. rewrite Hr. simpl. rewrite H2. solve_Permutation.
    + by constructor.
    + by constructor.
    + intros r [->|Hr']%elem_of_cons; auto.
    + rewrite List.filter_app. simpl. rewrite Hr. rewrite app_nil_r. done.
Qed.

Lemma bundle_loop_state c epoch staged members es st l w st' w' :
  loop_state epoch members es st ->
  foldM (bundle_envelope c epoch staged members) st l w = (Ok st', w') ->
  loop_state epoch members (es ++ l) st'.
Proof.
  revert es st w. induction l as [|e l IH]; intros es st w Hs H; cbn [foldM] in H; m_inv H.
  - by rewrite app_nil_r.
  - replace (es ++ e :: l) with ((es ++ [e]) ++ l) by by rewrite <-app_assoc.
    eapply IH, H. by eapply bundle_envelope_state.
Qed.

(** What an accepted bundle is: [kept] members of the registry and the staged
    devices, each with one envelope, and one recovery envelope. *)
Record complete_bundle (c : Chain) (d : Db) (epoch : Value) (es staged : list Value)
    (genesis reseed : bool) (members revoked : list string) : Prop := {
  cb_members : mapM as_str (a epoch "members") = Some members;
  cb_revoked : mapM as_str (a epoch "revoked_device_ids") = Some revoked;
  cb_known : forall i, i ∈ revoked -> i ∈ existing_members c genesis reseed d;
  cb_set : forall i, i ∈ members <->
    (reseed = false /\ i ∈ existing_members c genesis reseed d /\ i ∉ revoked) \/
    i ∈ (fun v => s v "device_id") <$> staged;
  cb_recipients : recipients_of es ≡ₚ members;
  cb_nodup : NoDup members;
  cb_recovery : exists e, recoveries_of es = [e] /\
    object_hash e = s epoch "recovery_envelope_hash";
  cb_ids : NoDup (ids_of es);
  cb_bound : Z.of_nat (length members) <= 128;
}.

Lemma add_staged_elem members staged l :
  add_staged members staged = Ok l ->
  l = members ++ ((fun v => s v "device_id") <$> staged).
Proof.
  revert members. induction staged as [|d staged IH]; intros members; simpl.
  - intros [= <-]. by rewrite app_nil_r.
  - destruct (mem _ _); [done|]. intros ->%IH. by rewrite <-app_assoc.
Qed.

Lemma recipients_count es :
  (length (recipients_of es) + length (recoveries_of es))%nat = length es.
Proof.
  unfold recipients_of, recoveries_of. rewrite length_fmap.
  induction es as [|e es IH]; simpl; [done|]. destruct (is_recovery e); simpl; lia.
Qed.

Lemma elem_of_list_filter (p : string -> bool) x l :
  x ∈ List.filter p l <-> x ∈ l /\ p x = true.
Proof. by rewrite !list_elem_of_In, filter_In. Qed.

Lemma recipients_members epoch (members : list string) es ids rs :
  loop_state epoch members es (ids, rs, true) ->
  length es = (length members + 1)%nat -> recipients_of es ≡ₚ members /\ NoDup members.
Proof.
  intros [_ Hr _ Hn Hm (e & Hrec & _)] Hl; simpl in *.
  pose proof (recipients_count es) as Hc. rewrite Hrec in Hc. simpl in Hc.
  assert (Hp : rs ≡ₚ members).
  { apply submseteq_length_Permutation; [by apply NoDup_submseteq|]. rewrite Hr. lia. }
  split; [by rewrite <-Hr | by rewrite <-Hp].
Qed.

Lemma bundle_complete c epoch es staged g rs w u w' :
  bundle c epoch es staged g rs w = (Ok u, w') ->
  epoch_position c epoch g rs = Ok tt /\ bound epoch c = Ok tt /\
  exists members revoked, complete_bundle c (db w) epoch es staged g rs members revoked.
Proof.
  unfold bundle. intros H. m_inv H.
  match goal with H : signing_key _ _ _ = _ |- _ =>
    apply (signing_key_respects eq) in H; rewrite <-H in *; clear H end.
  match goal with H : foldM _ _ _ _ = (Ok (_, _, ?r), _) |- _ =>
    apply (bundle_loop_state _ _ _ _ []) in H; [|by constructor; try constructor; intros ? ?%elem_of_nil] end.
  repeat match goal with x : unit |- _ => destruct x end.
  bsimp. apply Nat.eqb_eq in Hm9. split_and!; try done.
  apply add_staged_elem in Hm6. destruct (recipients_members _ _ _ _ _ Hm10 Hm9) as [Hp Hn].
  exists (sort_by str_leb x6), x4. constructor; try done.
  - intros i Hi. apply mem_spec. destruct (mem i _) eqn:E; [done|]. exfalso.
    enough (existsb (fun id => negb (mem id (existing_members c g rs (db w)))) x4 = true) by congruence.
    apply existsb_exists. exists i. by rewrite E, <-list_elem_of_In.
  - intros i. rewrite elem_of_sort_by, Hm6, elem_of_app. f_equiv. destruct rs.
    + rewrite elem_of_nil. naive_solver.
    + rewrite elem_of_list_filter, negb_true_iff, mem_false. naive_solver.
  - destruct Hm10 as [_ _ _ _ _ H]. done.
  - destruct Hm10 as [H _ Hnd _ _ _]. simpl in *. by rewrite <-H.
Qed.
End Bundle.

(** ** The registry across a commit *)
Definition same_registry (d d' : Db) : Prop := t_registry d' = t_registry d.
#[export] Instance same_registry_preorder : PreOrder same_registry.
Proof. unfold same_registry. split; congruence. Qed.

(** A live device: not revoked, and of generation [g]. *)
Definition live (x : string) (g : Z) (d : Db) (i : string) : Prop :=
  exists r, t_registry d !! (x, i) = Some r /\ r_status r <> Revoked /\
    r_generation r mod 2 ^ 64 = g.

Lemma live_same x g d d' i : same_registry d d' -> live x g d' i <-> live x g d i.
Proof. unfold same_registry, live. by intros ->. Qed.

Section Commit.
Context {X : Ext} {O : Oracle}.
Implicit Types (c : Chain) (cfg : RelayConfig).

Lemma existing_members_spec c d i :
  i ∈ existing_members c false false d <-> live (chain_id c) (generation c) d i.
Proof.
  unfold existing_members, registry_rows, live. simpl.
  rewrite list_elem_of_fmap. split.
  - intros ([j r] & -> & [[Hs Hg] Hr]%list_elem_of_filter).
    rewrite elem_of_sort_by in Hr. apply list_elem_of_fmap in Hr as ([[y k] r'] & [= -> ->] & Hr).
    apply list_elem_of_filter in Hr as [Hy Hr]. simpl in *. subst.
    apply elem_of_map_to_list in Hr. exists r'. split_and!; try done. lia.
  - intros (r & Hr & Hs & Hg). exists (i, r). split; [done|].
    apply list_elem_of_filter. split; [split; [done|]; simpl in *; lia|].
    rewrite elem_of_sort_by. apply list_elem_of_fmap. exists ((chain_id c, i), r).
    split; [done|]. apply list_elem_of_filter. split; [done|].
    by apply elem_of_map_to_list.
Qed.

Lemma append_registry c cfg k v : respects same_registry (append c cfg k v).
Proof.
  unfold append, append_new, put_object, object_digest, store_receipt, make_receipt,
    transparency, insert_object, insert_receipt, insert_new.
  respects_tac ltac:(repeat case_match; simplify_eq/=; done).
Qed.

(** A chain keeps its identity, parameters and epoch while it is appended to. *)
Record same_head_of (c c' : Chain) : Prop := {
  sh_id : chain_id c' = chain_id c;
  sh_parameters : parameters c' = parameters c;
  sh_epoch : Db.epoch c' = Db.epoch c;
}.
#[export] Instance same_head_of_preorder : PreOrder same_head_of.
Proof. split; [by intros c|]. intros ??? [] []. constructor; congruence. Qed.

Lemma append_head_of c cfg k v w c' p w' :
  append c cfg k v w = (Ok (c', p), w') -> same_head_of c c'.
Proof.
  destruct p as [e r]. intros [[t []]|(_&->&_)]%append_ok; [by subst|reflexivity].
Qed.

Lemma registry_insert_live x g i r d d' j :
  registry_insert x i r d = Some d' ->
  r_status r <> Revoked -> r_generation r mod 2 ^ 64 = g ->
  ~ live x g d i /\ (live x g d' j <-> live x g d j \/ j = i).
Proof.
  unfold registry_insert. intros H Hs Hg.
  destruct (insert_new _ _ _) as [m|] eqn:E; [|done]. simplify_eq/=.
  apply insert_new_ok in E as [Hn ->]. unfold live. cbn. split.
  - intros (r' & Hr & _). congruence.
  - destruct (decide (i = j)) as [->|Hij].
    + rewrite lookup_insert_eq. naive_solver.
    + rewrite lookup_insert_ne by congruence. naive_solver.
Qed.

Lemma registry_update_live x g i q d j :
  live x g (registry_update x i (fun r => Some (revoke_row q r)) d) j <->
  live x g d j /\ j <> i.
Proof.
  unfold registry_update, live. destruct (t_registry d !! (x, i)) as [r|] eqn:E; cbn.
  - destruct (decide (i = j)) as [->|Hij].
    + rewrite lookup_insert_eq. split; [|naive_solver]. by intros (? & [= <-] & ? & _).
    + rewrite lookup_insert_ne by congruence. naive_solver.
  - split; [|naive_solver]. intros (r & Hr & ?). split; [eauto|]. congruence.
Qed.

Lemma fmap_sort_by {A B} le (f : A -> B) l x : x ∈ f <$> sort_by le l <-> x ∈ f <$> l.
Proof. by rewrite sort_by_perm. Qed.

Lemma commit_device_live cfg c rs v w c' rs' w' j :
  commit_device cfg false (c, rs) v w = (Ok (c', rs'), w') ->
  n v "generation" = generation c ->
  same_head_of c c' /\ ~ live (chain_id c) (generation c) (db w) (s v "device_id") /\
  (live (chain_id c) (generation c) (db w') j <->
   live (chain_id c) (generation c) (db w) j \/ j = s v "device_id").
Proof.
  unfold commit_device, register. intros H Hg. m_inv H. simplify_eq.
  match goal with H : append _ _ _ _ _ = _ |- _ =>
    pose proof (append_head_of _ _ _ _ _ _ _ _ H) as Hc;
    apply append_registry in H as Hr end.
  split; [done|]. destruct Hc as [Hc _ _].
  rewrite <-!(live_same _ _ _ _ _ Hr). cbn [db with_db].
  rewrite <-Hc. eapply registry_insert_live; [eassumption | done |].
  cbn. rewrite Hg. unfold generation. pose proof (n_bounds (parameters c) "generation") as Hb.
  unfold u64_max in Hb. apply Z.mod_small. lia.
Qed.

Lemma commit_devices_live cfg c rs l w c' rs' w' :
  foldM (commit_device cfg false) (c, rs) l w = (Ok (c', rs'), w') ->
  Forall (fun v => n v "generation" = generation c) l ->
  same_head_of c c' /\
  (forall i, i ∈ ((fun v => s v "device_id") <$> l) -> ~ live (chain_id c) (generation c) (db w) i) /\
  (forall j, live (chain_id c) (generation c) (db w') j <->
    live (chain_id c) (generation c) (db w) j \/ j ∈ (fun v => s v "device_id") <$> l).
Proof.
  revert c rs w. induction l as [|v l IH]; intros c rs w H Hl; cbn [foldM] in H; m_inv H.
  - simplify_eq. split_and!; [reflexivity | by intros i ?%elem_of_nil |].
    intros j. rewrite elem_of_nil. naive_solver.
  - apply Forall_cons in Hl as [Hg Hl]. destruct x as [c1 rs1].
    pose proof (fun j => commit_device_live _ _ _ _ _ _ _ _ j Hm Hg) as Hd.
    destruct (Hd EmptyString) as (Hc1 & Hn & _).
    pose proof Hc1 as [Hid Hp _].
    assert (Hgen : generation c1 = generation c) by (unfold generation; by rewrite Hp).
    apply IH in H as (Hc2 & Hns & Hlv); [|by rewrite Hgen].
    rewrite Hid, Hgen in Hns, Hlv. split; [by transitivity c1|].
    assert (Hdj : forall j, live (chain_id c) (generation c) (db w0) j <->
      live (chain_id c) (generation c) (db w) j \/ j = s v "device_id") by apply Hd.
    split.
    + intros i. rewrite fmap_cons, elem_of_cons. intros [->|Hi]; [done|].
      intros Hlive. apply (Hns i Hi), Hdj. by left.
    + intros j. rewrite Hlv, Hdj, fmap_cons, elem_of_cons. tauto.
Qed.

Lemma commit_object_registry cfg k st v w st' w' :
  commit_object cfg k st v w = (Ok st', w') ->
  same_registry (db w) (db w') /\ same_head_of (fst st) (fst st').
Proof.
  destruct st as [c rs]. unfold commit_object. intros H. m_inv H. simplify_eq.
  split; [by eapply append_registry | by eapply append_head_of].
Qed.

Lemma commit_objects_registry cfg k st l w st' w' :
  foldM (commit_object cfg k) st l w = (Ok st', w') ->
  same_registry (db w) (db w') /\ same_head_of (fst st) (fst st').
Proof.
  revert st w. induction l as [|v l IH]; intros st w H; cbn [foldM] in H; m_inv H.
  - split; reflexivity.
  - apply commit_object_registry in Hm as [H1 H2]. apply IH in H as [H3 H4].
    split; etransitivity; eauto.
Qed.

Lemma revoke_loop_live x g q (l : list string) w u w' :
  forM (fun id => let! id := unwrap (as_str id) in
    exec_ (registry_update x id (fun r => Some (revoke_row q r)))) (Str <$> l) w = (Ok u, w') ->
  forall j, live x g (db w') j <-> live x g (db w) j /\ j ∉ l.
Proof.
  revert w. induction l as [|i l IH]; intros w H j.
  - cbn [fmap list_fmap forM] in H. m_inv H. rewrite elem_of_nil. tauto.
  - rewrite fmap_cons in H. cbn [forM] in H. m_inv H. simplify_eq/=.
    rewrite (IH _ H j). cbn. rewrite registry_update_live, not_elem_of_cons. tauto.
Qed.

Lemma mapM_as_str l k : mapM as_str l = Some k -> l = Str <$> k.
Proof.
  intros H%mapM_Some. induction H as [|v i l k Hv _ IH]; [done|].
  rewrite fmap_cons, <-IH. destruct v; naive_solver.
Qed.

Ltac commit_norm :=
  simplify_eq; repeat match goal with
  | H : foldM (commit_object _ _) _ _ _ = _ |- _ =>
      apply commit_objects_registry in H as [? []]
  | H : commit_object _ _ _ _ _ = _ |- _ => apply commit_object_registry in H as [? []]
  | H : append _ _ _ _ _ = _ |- _ =>
      pose proof (append_registry _ _ _ _ _ _ _ H); apply append_head_of in H as []
  end; cbn [fst] in *.

Lemma commit_epoch_live c cfg e es staged op revoked w c' p w' :
  commit_epoch c cfg (MkEpochCommit e es staged op false) w = (Ok (c', p), w') ->
  Forall (fun v => n v "generation" = generation c) staged ->
  mapM as_str (a e "revoked_device_ids") = Some revoked ->
  same_head_of c (set_epoch (Db.epoch c) c') /\ Db.epoch c' = e /\
  (forall i, i ∈ ((fun v => s v "device_id") <$> staged) ->
     ~ live (chain_id c) (generation c) (db w) i) /\
  (forall j, live (chain_id c) (generation c) (db w') j <->
    (live (chain_id c) (generation c) (db w) j \/ j ∈ (fun v => s v "device_id") <$> staged)
    /\ j ∉ revoked).
Proof.
  unfold commit_epoch. cbn [ec_epoch ec_envelopes ec_staged ec_admin ec_genesis].
  intros H Hg Hrev. rewrite (mapM_as_str _ _ Hrev) in H. m_inv H.
  all: commit_norm.
  all: match goal with
    | Hd : foldM (commit_device _ _) _ _ _ = (Ok (?c0, _), ?w0),
      Hl : forM _ _ ?w3 = _ |- context [set_epoch _ ?c3] =>
        assert (Hr : same_registry (db w0) (db w3)) by (unfold same_registry in *; congruence);
        assert (Hh : same_head_of c0 c3) by (constructor; congruence)
    end.
  all: match goal with H : foldM (commit_device _ _) _ _ _ = _ |- _ =>
         apply commit_devices_live in H as (Hc & Hn & Hlv); [|by rewrite sort_by_perm] end.
  all: match goal with H : forM _ _ _ = _ |- _ =>
         pose proof (fun g => revoke_loop_live _ g _ _ _ _ _ H) as Hk end.
  all: destruct Hc as [Hi Hp He], Hh as [Hi' Hp' He'].
  all: split; [constructor; cbn; congruence|]; split; [done|]; split.
  all: intros i; first
    [ intros Hs; apply Hn; by rewrite fmap_sort_by
    | setoid_rewrite Hi' in Hk; setoid_rewrite Hi in Hk; rewrite Hk, (live_same _ _ _ _ _ Hr), Hlv, fmap_sort_by;
      reflexivity ].
Qed.

Lemma staged_devices_generation c l w u w' :
  forM (staged_device c) l w = (Ok u, w') ->
  Forall (fun v => n v "generation" = generation c) l /\ db w' = db w.
Proof.
  revert w. induction l as [|v l IH]; intros w H; cbn [forM] in H; m_inv H; [done|].
  apply IH in H as [H ->].
  assert (Hs : db w0 = db w) by (symmetry; by apply (staged_device_respects eq) in Hm).
  split; [|done]. constructor; [|done].
  unfold staged_device, device, bound in Hm. m_inv Hm.
  all: repeat match goal with H : bind _ _ = Ok _ |- _ => res_inv H end; bsimp; done.
Qed.

Lemma registry_rows_elem x d i r :
  (i, r) ∈ registry_rows x d <-> t_registry d !! (x, i) = Some r.
Proof.
  unfold registry_rows. rewrite elem_of_sort_by, list_elem_of_fmap. split.
  - intros ([[y j] r'] & [= -> ->] & [Hy Hr]%list_elem_of_filter). simpl in *. subst.
    by apply elem_of_map_to_list.
  - intros Hr. exists ((x, i), r). split; [done|]. apply list_elem_of_filter.
    split; [done|]. by apply elem_of_map_to_list.
Qed.

Lemma existing_members_nodup c g rs d : NoDup (existing_members c g rs d).
Proof.
  unfold existing_members. apply NoDup_fmap_2_strong.
  - intros [i r] [j r'] [_ Hi]%list_elem_of_filter [_ Hj]%list_elem_of_filter.
    cbn. intros ->. apply registry_rows_elem in Hi, Hj. congruence.
  - apply NoDup_filter. unfold registry_rows. rewrite sort_by_perm.
    apply NoDup_fmap_2_strong; [|apply NoDup_filter, NoDup_map_to_list].
    intros [[x i] r] [[y j] r'] [Hx _]%list_elem_of_filter [Hy _]%list_elem_of_filter.
    cbn in *. intros [= -> ->]. congruence.
Qed.

(** The run of an accepted epoch request that was not seen before. *)
Record epoch_run (c : Chain) cfg (v : Value) (w : World) (c' : Chain) (w' : World) : Prop := {
  er_cas : s v "expected_epoch_hash" = epoch_hash c;
  er_staged : Forall (fun d => n d "generation" = generation c) (a v "device_records");
  er_bundle : exists w1 u w2, db w1 = db w /\
    bundle c (get v "epoch") (a v "envelopes") (a v "device_records") false false w1
      = (Ok u, w2);
  er_commit : exists op w2 p w3, db w2 = db w /\ same_registry (db w3) (db w') /\
    commit_epoch c cfg (MkEpochCommit (get v "epoch") (a v "envelopes")
      (a v "device_records") op false) w2 = (Ok (c', p), w3);
}.

Lemma outcome_registry x sc i v r : respects same_registry (outcome x sc i v r).
Proof.
  unfold outcome, insert_new. respects_tac ltac:(repeat case_match; simplify_eq/=; done).
Qed.

Ltac reads :=
  repeat match goal with
  | H : forM (staged_device _) _ _ = _ |- _ => apply staged_devices_generation in H as [? ?]
  | H : admin_operation _ _ _ _ _ = _ |- _ => apply (admin_operation_respects eq) in H
  | H : bundle _ _ _ _ _ _ ?w = (_, ?w') |- _ =>
      lazymatch goal with
      | _ : db w = db w' |- _ => fail
      | _ => pose proof (bundle_respects eq _ _ _ _ _ _ _ _ _ H)
      end
  | H : outcome _ _ _ _ _ _ = _ |- _ => apply outcome_registry in H
  end; cbn [db next] in *.

Lemma epoch_accepted c cfg au v tgt w c' p w' :
  Mutation.epoch c cfg au v tgt w = (Ok (c', p), w') ->
  t_outcomes (db w) !! (chain_id c, "epoch", object_hash (get v "epoch"))%string = None ->
  epoch_run c cfg v w c' w'.
Proof.
  unfold Mutation.epoch, outcomes. intros H Ho. m_inv H; simplify_eq; reads.
  all: bsimp; constructor; try done;
    [ do 3 eexists; split; cycle 1; [eassumption | congruence]
    | do 4 eexists; split_and!; cycle 2; [eassumption | congruence | eassumption] ].
Qed.

(** (C7) An accepted epoch is the successor of the current one: the request named
    the current epoch, the new number is the next one and the new epoch is
    chained to the old by hash.  Its envelopes go to exactly the members, one
    each, plus one recovery envelope; and after the commit the live devices of
    the registry are exactly the members. *)
Theorem epoch_advances c cfg au v tgt w c' st r w' :
  Mutation.epoch c cfg au v tgt w = (Ok (c', (st, r)), w') ->
  t_outcomes (db w) !! (chain_id c, "epoch", object_hash (get v "epoch"))%string = None ->
  let e := get v "epoch" in
  s v "expected_epoch_hash" = epoch_hash c /\
  Db.epoch c' = e /\ parameters c' = parameters c /\ chain_id c' = chain_id c /\
  n e "epoch" = n (Db.epoch c) "epoch" + 1 /\
  s e "previous_epoch_hash" = epoch_hash c /\
  exists members, a e "members" = Str <$> members /\
    recipients_of (a v "envelopes") ≡ₚ members /\
    (exists rec, recoveries_of (a v "envelopes") = [rec] /\
       object_hash rec = s e "recovery_envelope_hash") /\
    existing_members c' false false (db w') ≡ₚ members.
Proof.
  intros H Ho. apply epoch_accepted in H as [Hcas Hg (w1 & u & w2 & Hd1 & Hb)
    (op & w3 & p & w4 & Hd3 & Hr & Hc)]; [|done].
  apply bundle_complete in Hb as (Hpos & _ & members & revoked & Hb).
  rewrite Hd1 in Hb. destruct Hb as [Hm Hrev Hk Hset Hrec Hn Hrc _ _].
  eapply commit_epoch_live in Hc as ([Hi Hp He] & Hep & Hfresh & Hlive); [|done..].
  rewrite Hd3 in Hfresh, Hlive. cbn in Hi, Hp.
  unfold epoch_position in Hpos. res_inv Hpos. bsimp.
  split_and!; try done. exists members. split_and!; try done; [by apply mapM_as_str|].
  apply NoDup_Permutation; [apply existing_members_nodup | done|]. intros i.
  rewrite existing_members_spec, (live_same _ _ _ _ _ Hr). unfold generation at 1.
  rewrite Hi, Hp. fold (generation c). rewrite Hlive, Hset, existing_members_spec.
  specialize (Hk i). rewrite existing_members_spec in Hk. specialize (Hfresh i).
  destruct (decide (i ∈ revoked)); naive_solver.
Qed.
End Commit.
