(* ===== verification/ServiceFacts.v ===== *)
(** * The whole service writes in the vocabulary of the request's chain

    The [respects] lemmas of the remaining handlers (import, reseed, the read
    routes and the export) and of the dispatcher, on top of [HandlerFacts]. *)
From S2P Require Import Prelude Error Json Verify Jcs Wire Query Routes Db Monad Config.
From S2P Require Import Store HashChain Steps StoreFacts StoreSpec Auth Domain.
From S2P Require Import Retention Mutation Deletion Batch Import Read Export Sync.
From S2P Require Import HandlerFacts.

(** ** Import *)
Section ImportReads.
Context {X : Ext} {O : Oracle}.
Context (R : Db -> Db -> Prop) `{!PreOrder R}.

Lemma historical_key_respects x ad v : respects R (historical_key x ad v).
Proof. unfold historical_key. respects_tac idtac. Qed.
Lemma check_previous_respects x k v nu ke e : respects R (check_previous x k v nu ke e).
Proof. unfold check_previous. respects_tac idtac. Qed.
Lemma check_members_respects x e : respects R (check_members x e).
Proof. unfold check_members. respects_tac idtac. Qed.
Hint Resolve historical_key_respects check_previous_respects check_members_respects
  : respects.
Lemma recheck_staged_respects x : respects R (recheck_staged x).
Proof. unfold recheck_staged. respects_tac idtac. Qed.
Lemma staged_admin_device_respects c d : respects R (staged_admin_device c d).
Proof. unfold staged_admin_device. respects_tac idtac. Qed.
End ImportReads.
#[export] Hint Resolve historical_key_respects check_previous_respects
  check_members_respects recheck_staged_respects staged_admin_device_respects : respects.

(** [import_tac R]: the import statements under a relation that [put_object] respects. *)
Section ImportWrites.
Context {X : Ext} {O : Oracle}.
Context (R : Db -> Db -> Prop) `{!PreOrder R} (x : string).
Context (put_R : forall k v, respects R (put_object x k v None)).
Hint Resolve put_R : respects.

Lemma stage_parameters_respects ad p : respects R (stage_parameters x ad p).
Proof. unfold stage_parameters. respects_tac idtac. Qed.
Lemma resolve_device_respects ad st d : respects R (resolve_device x ad st d).
Proof. unfold resolve_device. respects_tac idtac. Qed.
Lemma resolve_devices_respects fuel ad u ve : respects R (resolve_devices fuel x ad u ve).
Proof.
  revert u ve. induction fuel as [|fuel IH]; intros [|d u] ve; cbn [resolve_devices];
    respects_tac idtac.
  apply (respects_foldM _ (fun _ => True)); [done| |done].
  intros. apply resolve_device_respects.
Qed.
Lemma stage_epoch_respects ad e : respects R (stage_epoch x ad e).
Proof. unfold stage_epoch. respects_tac idtac. Qed.
Lemma stage_envelope_respects ad e : respects R (stage_envelope x ad e).
Proof. unfold stage_envelope. respects_tac idtac. Qed.
Lemma stage_compaction_respects v : respects R (stage_compaction x v).
Proof. unfold stage_compaction. respects_tac idtac. Qed.
Hint Resolve stage_parameters_respects resolve_devices_respects stage_epoch_respects
  stage_envelope_respects stage_compaction_respects : respects.
Lemma stage_history_respects ad v : respects R (stage_history x ad v).
Proof. unfold stage_history. respects_tac idtac. Qed.
End ImportWrites.

(** ** The chain row under a key names that key

    With this invariant a handler that loads its chain writes in that chain's
    vocabulary. *)
Definition chains_keyed (d : Db) : Prop :=
  forall x c, t_chains d !! x = Some c -> chain_id c = x.
Definition keyed_steps (x : string) (d d' : Db) : Prop :=
  chains_keyed d -> db_steps x d d' /\ chains_keyed d'.

#[export] Instance keyed_steps_preorder x : PreOrder (keyed_steps x).
Proof.
  split; [by intros d; split|]. intros d1 d2 d3 H1 H2 Hk.
  destruct (H1 Hk) as [? Hk2]. destruct (H2 Hk2). split; [by etransitivity|done].
Qed.

Lemma db_step_keyed x d d' : db_step x d d' -> chains_keyed d -> chains_keyed d'.
Proof.
  intros H Hk. destruct H; try exact Hk. subst. intros y c'. cbn.
  destruct (decide (chain_id c = y)) as [<-|]; [|rewrite lookup_insert_ne by done; apply Hk].
  rewrite lookup_insert_eq. by intros [= <-].
Qed.
Lemma db_steps_keyed x d d' : db_steps x d d' -> keyed_steps x d d'.
Proof.
  intros H Hk. split; [done|]. induction H as [|d1 d2 d3 Hs _ IH]; [done|].
  apply IH. by eapply db_step_keyed.
Qed.

Section Keyed.
Context {X : Ext} {O : Oracle}.

Lemma respects_keyed {A} x (m : M A) :
  respects (db_steps x) m -> respects (keyed_steps x) m.
Proof. intros H w r w' E. by eapply db_steps_keyed, H. Qed.

Lemma respects_load {A} x (f : option Chain -> M A) :
  (forall o, (forall c, o = Some c -> chain_id c = x) -> respects (keyed_steps x) (f o)) ->
  respects (keyed_steps x) (bind (load x) f).
Proof.
  intros Hf w r w'. cbv [bind M_monad]. unfold load, select, sql.
  destruct (sql_fails _); [intros [= _ <-]; by apply db_steps_keyed|].
  intros H Hk. eapply (Hf (t_chains (db w) !! x)) in H; [by apply H|]. apply Hk.
Qed.
End Keyed.

(** [respects_tac] through the loads of the chain. *)
Ltac keyed_tac stmt :=
  intros;
  lazymatch goal with
  | |- respects (keyed_steps ?x) (bind (load ?x) _) =>
      apply respects_load; let Hc := fresh "Hc" in intros ? Hc; keyed_tac stmt
  | |- respects (keyed_steps _) (@bind _ M _ _ _ _ _) =>
      apply respects_bind; [exact _| |]; keyed_tac stmt
  | |- respects (keyed_steps _) (let _ := _ in _) => cbv zeta; keyed_tac stmt
  | |- respects (keyed_steps _) (match ?x with _ => _ end) => destruct x eqn:?; keyed_tac stmt
  | |- respects (keyed_steps _) (transaction _ _) =>
      apply respects_transaction; [exact _|]; keyed_tac stmt
  | |- respects (keyed_steps _) _ => apply respects_keyed; respects_tac stmt
  | |- _ => stmt
  end.

Section Importing.
Context {X : Ext} {O : Oracle}.

Ltac chain_step ::= first [handler_step | match goal with
  | H : yields (Chain_new _ _ _ _) ?c' |- chain_id ?c' = _ =>
      apply (Chain_new_yields _ _ _ _ _ _ H)
  end].

(** The chain an import works on. *)
Definition import_chain (v : Value) : string :=
  default EmptyString ((fun p => s p "chain_id") <$> last (a v "parameters_history")).

Lemma stage_chain_respects x cfg cur p e l :
  (forall c, cur = Some c -> chain_id c = x) -> s p "chain_id" = x ->
  respects (db_steps x) (stage_chain cfg cur x p e l).
Proof.
  intros Hc Hp. unfold stage_chain. respects_tac idtac.
  apply save_respects. cbn. destruct cur; yields_norm; first [by apply Hc | chain_solve].
Qed.
Lemma stage_respects x cfg v :
  import_chain v = x -> respects (keyed_steps x) (stage cfg v).
Proof.
  unfold import_chain, stage. intros Hx.
  do 3 (apply respects_bind; [exact _|apply respects_keyed; respects_tac idtac|];
    let H := fresh "Hp" in intros ? H).
  apply yields_unwrap in Hp1. rewrite Hp1 in Hx. cbn in Hx. cbv zeta. rewrite Hx.
  keyed_tac idtac.
  - apply stage_history_respects; [exact _|]. auto with respects.
  - apply rtc_once, st_import.
  - by apply stage_chain_respects.
Qed.

Lemma reseed_object_respects x cfg old k st i :
  chain_id old = x -> chain_id (fst st) = x ->
  respects (db_steps x) (reseed_object cfg old k st i).
Proof. destruct st as [c rs]. unfold reseed_object. respects_tac idtac. Qed.
Lemma reseed_object_yields x cfg old k st i st' :
  yields (reseed_object cfg old k st i) st' -> chain_id (fst st) = x -> chain_id (fst st') = x.
Proof.
  destruct st as [c rs]. intros (w & w' & H) Hc. unfold reseed_object in H. chain_tac H.
Qed.
Lemma reseed_kind_respects x cfg old st k :
  chain_id old = x -> chain_id (fst st) = x ->
  respects (db_steps x) (reseed_kind cfg old st k).
Proof.
  intros Ho Hc. unfold reseed_kind. respects_tac idtac.
  apply (respects_foldM _ (fun st => chain_id (fst st) = x)); [done| |].
  - intros. by apply reseed_object_respects.
  - intros. by eapply reseed_object_yields.
Qed.
Lemma reseed_kind_yields x cfg old st k st' :
  yields (reseed_kind cfg old st k) st' -> chain_id (fst st) = x -> chain_id (fst st') = x.
Proof.
  intros (w & w' & H) <-. unfold reseed_kind in H. m_inv H.
  eapply (foldM_yields (fun st' => chain_id (fst st') = chain_id (fst st)));
    [done| |by do 2 eexists].
  intros. by eapply reseed_object_yields.
Qed.
Lemma reseed_kinds_yields x cfg old c rs l c' rs' :
  yields (foldM (reseed_kind cfg old) (c, rs) l) (c', rs') -> chain_id c = x ->
  chain_id c' = x.
Proof.
  intros H Hc. eapply (foldM_yields (fun st => chain_id (fst st) = x)) in H; [done|done|].
  intros. by eapply reseed_kind_yields.
Qed.

Ltac chain_step ::= first [handler_step | match goal with
  | H : yields (foldM (reseed_kind _ _) _ _) (?c', _) |- chain_id ?c' = _ =>
      apply (reseed_kinds_yields _ _ _ _ _ _ _ _ H)
  | H : yields (Chain_new _ _ _ _) ?c' |- chain_id ?c' = _ =>
      apply (Chain_new_yields _ _ _ _ _ _ H)
  end].

(** The new chain value has the identity of the old one. *)
Ltac reseed_id :=
  match goal with
  | H : yields (fail_if (negb (String.eqb (s ?p "chain_id") (chain_id ?old)) || _ || _ || _) _) _,
    HN : yields (Chain_new ?p _ _ _) ?c |- _ =>
      apply yields_fail_if in H; do 3 (apply orb_false_iff in H as [H _]);
      apply negb_false_iff, String.eqb_eq in H;
      apply (Chain_new_yields _ _ _ _ _ _ HN) in H
  end.

Lemma reseed_respects x old cfg au v :
  chain_id old = x -> respects (db_steps x) (reseed old cfg au v).
Proof.
  unfold reseed. intros <-. respects_tac idtac.
  all: reseed_id.
  - apply (respects_foldM _ (fun st => chain_id (fst st) = chain_id old)); [done| |].
    + intros. by apply reseed_kind_respects.
    + intros. by eapply reseed_kind_yields.
  - apply append_respects. chain_solve.
  - apply commit_epoch_respects. chain_solve.
  - apply append_respects. chain_solve.
  - apply outcome_respects. chain_solve.
  - chain_rw (chain_id old). apply rtc_once, st_import_done.
Qed.
End Importing.

(** ** The read routes write cursors only *)
Section ReadFacts.
Context {X : Ext} {O : Oracle}.
Context (R : Db -> Db -> Prop) `{!PreOrder R}.
Context (cursor_R : forall d t row, t_cursors d !! t = None ->
  R d (set_cursors (<[t := row]> (t_cursors d)) d)).

Lemma page_respects c cfg re q f : respects R (page c cfg re q f).
Proof. unfold page, resume. respects_tac idtac. Qed.
Lemma cursor_respects cfg p : respects R (cursor cfg p).
Proof.
  unfold cursor, random_bytes. respects_tac idtac.
  unfold insert_new in *. case_match; simplify_eq/=. by apply cursor_R.
Qed.
Hint Resolve page_respects cursor_respects : respects.
Lemma next_cursor_respects cfg p m : respects R (next_cursor cfg p m).
Proof. unfold next_cursor. respects_tac idtac. Qed.
Hint Resolve next_cursor_respects : respects.
Lemma finish_respects cfg p l m g : respects R (finish cfg p l m g).
Proof. unfold finish. respects_tac idtac. Qed.
Hint Resolve finish_respects : respects.
Lemma log_respects c cfg au rt q : respects R (log c cfg au rt q).
Proof. unfold log. respects_tac idtac. Qed.
Lemma epoch_wrapper_respects c e : respects R (epoch_wrapper c e).
Proof. unfold epoch_wrapper. respects_tac idtac. Qed.
Hint Resolve log_respects epoch_wrapper_respects : respects.
Lemma item_of_respects c rt p i b : respects R (item_of c rt p i b).
Proof. unfold item_of, device_item. respects_tac idtac. Qed.
Hint Resolve item_of_respects : respects.
Lemma objects_loop_respects c rt pa ep p rows items b :
  respects R (objects_loop c rt pa ep p rows items b).
Proof.
  revert p items b. induction rows as [|[i body] rows IH]; intros; cbn [objects_loop];
    respects_tac idtac; auto.
Qed.
Hint Resolve objects_loop_respects : respects.
Lemma objects_respects c cfg au rt pa q : respects R (objects c cfg au rt pa q).
Proof. unfold objects. respects_tac idtac. Qed.
Lemma transparency_page_respects c cfg q : respects R (transparency_page c cfg q).
Proof. unfold transparency_page, first_range, anchor_of. respects_tac idtac. Qed.
Hint Resolve objects_respects transparency_page_respects : respects.

(** Export *)
Lemma group_respects p ph : respects R (group p ph).
Proof. unfold group, group_query, numeric_key. respects_tac idtac. Qed.
Hint Resolve group_respects : respects.
Lemma export_step_respects i st : respects R (export_step i st).
Proof. unfold export_step. respects_tac idtac. Qed.
Hint Resolve export_step_respects : respects.
Lemma export_loop_respects fuel i st : respects R (export_loop fuel i st).
Proof.
  revert st. induction fuel as [|fuel IH]; intros; cbn [export_loop]; respects_tac idtac.
Qed.
Lemma export_stream_respects i st : respects R (export_stream i st).
Proof. intros w r w'. apply export_loop_respects. Qed.
Hint Resolve export_stream_respects : respects.
Lemma export_respects c cfg au q : respects R (export c cfg au q).
Proof. unfold export. respects_tac idtac. Qed.

(** Every read arm of [dispatch] *)
Lemma requests_respects c cfg au q : respects R (requests c cfg au q).
Proof. unfold requests. respects_tac idtac. Qed.
Hint Resolve requests_respects : respects.
Lemma receipt_respects' x k i : respects R (receipt x k i).
Proof. unfold receipt. respects_tac idtac. Qed.
Hint Resolve receipt_respects' : respects.
Lemma read_arm_respects c cfg au ep q m :
  read_arm c cfg au ep q = Some m -> respects R m.
Proof.
  unfold read_arm. intros H. destruct (ep_route ep); try done;
    injection H as <-; try (unfold parameters_get, used, notice, recovery, part_get,
      receipt_get; respects_tac idtac).
  all: intros w r w' [= _ <-]; reflexivity.
Qed.
End ReadFacts.

#[export] Hint Resolve stage_respects reseed_respects : respects.

(** ** The dispatcher *)
Section Dispatch.
Context {X : Ext} {O : Oracle}.
Implicit Types (c : Chain) (cfg : RelayConfig).

Ltac chain_step ::= first [handler_step | prune_step | match goal with
  | H : yields (enroll _ _ _ _ _) (?c', _) |- chain_id ?c' = _ =>
      apply (enroll_yields _ _ _ _ _ _ _ _ H)
  | H : yields (foldM (reseed_kind _ _) _ _) (?c', _) |- chain_id ?c' = _ =>
      apply (reseed_kinds_yields _ _ _ _ _ _ _ _ H)
  | H : yields (Chain_new _ _ _ _) ?c' |- chain_id ?c' = _ =>
      apply (Chain_new_yields _ _ _ _ _ _ H)
  end].

Lemma epoch_yields x c cfg au v t c' p :
  yields (Mutation.epoch c cfg au v t) (c', p) -> chain_id c = x -> chain_id c' = x.
Proof. intros (w & w' & H) Hc. unfold Mutation.epoch in H. chain_tac H. Qed.
Lemma approve_yields x c cfg au i v rj c' p :
  yields (approve c cfg au i v rj) (c', p) -> chain_id c = x -> chain_id c' = x.
Proof. intros (w & w' & H) Hc. unfold approve in H. chain_tac H. Qed.
Lemma snapshot_yields x c cfg v c' p :
  yields (snapshot c cfg v) (c', p) -> chain_id c = x -> chain_id c' = x.
Proof. intros (w & w' & H) Hc. unfold snapshot in H. chain_tac H. Qed.
Lemma prune_yields x c cfg au v c' r :
  yields (prune c cfg au v) (c', r) -> chain_id c = x -> chain_id c' = x.
Proof. intros (w & w' & H) Hc. unfold prune in H. chain_tac H. Qed.
Lemma delete_yields x c cfg au v c' r :
  yields (Deletion.delete c cfg au v) (c', r) -> chain_id c = x -> chain_id c' = x.
Proof. intros (w & w' & H) Hc. unfold Deletion.delete in H. chain_tac H. Qed.
Lemma reseed_yields x c cfg au v c' r :
  yields (reseed c cfg au v) (c', r) -> chain_id c = x -> chain_id c' = x.
Proof.
  intros (w & w' & H) <-. unfold reseed in H. m_inv H; simplify_eq; [done|].
  match goal with E : negb (String.eqb _ _) || _ || _ || _ = false |- _ =>
    do 3 (apply orb_false_iff in E as [E _]); apply negb_false_iff, String.eqb_eq in E; to_yields;
    match goal with HN : yields (Chain_new _ _ _ _) _ |- _ =>
      apply (Chain_new_yields _ _ _ _ _ _ HN) in E end end.
  chain_solve.
Qed.

Lemma write_arm_yields x c cfg au ep v c' p :
  yields (write_arm c cfg au ep v) (c', p) -> chain_id c = x -> chain_id c' = x.
Proof.
  intros H Hc. unfold write_arm in H. destruct (ep_route ep); yields_norm;
    try (by destruct H as (?&?&?)); try done;
    eauto using enroll_yields, epoch_yields, approve_yields, snapshot_yields, prune_yields,
      delete_yields, reseed_yields.
Qed.
Lemma write_arm_respects x c cfg au ep v :
  chain_id c = x -> respects (db_steps x) (write_arm c cfg au ep v).
Proof. intros Hc. unfold write_arm. destruct (ep_route ep); respects_tac idtac. Qed.
Hint Resolve write_arm_respects : respects.

Lemma cursor_step x d t row : t_cursors d !! t = None ->
  db_steps x d (set_cursors (<[t := row]> (t_cursors d)) d).
Proof. intros H. by apply rtc_once, st_cursor. Qed.

Lemma dispatch_respects x c cfg au ep q v :
  chain_id c = x -> respects (db_steps x) (dispatch c cfg au ep q v).
Proof.
  intros Hc. unfold dispatch. respects_tac idtac.
  - apply export_respects; [exact _|]. apply cursor_step.
  - by eapply read_arm_respects; [exact _|apply cursor_step|].
Qed.
Lemma dispatch_yields x c cfg au ep q v c' r :
  yields (dispatch c cfg au ep q v) (c', r) -> chain_id c = x -> chain_id c' = x.
Proof.
  intros H Hc. unfold dispatch in H. yields_norm; first [done | by eapply write_arm_yields].
Qed.
End Dispatch.
#[export] Hint Resolve dispatch_respects : respects.

(** ** The handler of a request *)
Section RunHandler.
Context {X : Ext} {O : Oracle}.

(** The chain of the endpoint is the one the body names. *)
Definition names_chain (ep : Endpoint) (v : Value) : Prop :=
  match ep_route ep with
  | RGenesis => s (get v "parameters") "chain_id" = ep_chain ep
  | RImport => import_chain v = ep_chain ep
  | _ => True
  end.

Ltac chain_step ::= match goal with
  | H : yields (dispatch _ _ _ _ _ _) (?c', _) |- chain_id ?c' = _ =>
      apply (dispatch_yields _ _ _ _ _ _ _ _ _ H)
  end.
Lemma chain_handler_respects cfg au me ep q v :
  respects (keyed_steps (ep_chain ep)) (chain_handler cfg au me ep q v).
Proof.
  unfold chain_handler. keyed_tac idtac.
  all: match goal with H : yields (ok_or _ _) _ |- _ =>
         apply yields_ok_or in H; apply Hc in H end.
  - by apply dispatch_respects.
  - apply save_respects. chain_solve.
Qed.

Lemma run_handler_respects cfg au me ep q v :
  names_chain ep v ->
  respects (keyed_steps (ep_chain ep)) (run_handler cfg au me ep q v).
Proof.
  unfold names_chain, run_handler. intros Hn.
  destruct (ep_route ep); try apply chain_handler_respects.
  - keyed_tac idtac.
  - apply respects_bind; [exact _|keyed_tac idtac|]. intros _ _.
    apply respects_bind; [exact _|keyed_tac idtac|]. intros _ _.
    apply respects_bind; [exact _|by apply stage_respects|]. keyed_tac idtac.
Qed.
End RunHandler.
