(* ===== verification/ServiceInv.v ===== *)
(** * The invariant of the whole service

    [service_ok]: every chain that is not deleted is well formed ([chain_ok] of
    [StoreSpec]), and a chain id without a row has no evidence.  Every request keeps
    it, whatever its outcome; and so do the start of the service and its
    maintenance. *)
From S2P Require Import Prelude Error Json Verify Jcs Wire Query Routes Db Monad Config.
From S2P Require Import Store HashChain Steps StoreFacts StoreSpec Auth AuthFacts.
From S2P Require Import Domain Retention Mutation Deletion Batch Import Read Export.
From S2P Require Import Sync HandlerFacts BatchFacts ChainInv ServiceFacts.

(** ** Import and reseed *)
Section ReseedInv.
Context {X : Ext} {XL : ExtLaws X} {O : Oracle}.
Implicit Types (c : Chain) (cfg : RelayConfig).

(** A reseed starts an empty log and continues the transparency log. *)
Lemma reseeded_chain_ok cfg old p e l w c w' :
  chain_ok cfg (db w) old -> s p "chain_id" = chain_id old ->
  (forall i, t_log (db w) !! (chain_id old, l, i) = None) ->
  Chain_new p e cfg (Some l) w = (Ok c, w') ->
  chain_ok cfg (db w') (set_transparency_of old c).
Proof.
  intros [_ Ht _ Hb _ Hd _ _] Hp Hl H. unfold Chain_new in H. m_inv H.
  constructor; cbn; try lia; try done.
  - eexists; split; [eassumption|]. apply hash_chain_empty. intros i.
    unfold log_rows. cbn. by rewrite Hp, Hl.
  - destruct Ht as (h0 & Hh & Hc). exists h0. rewrite Hp. split; [done|].
    eapply hash_chain_ext; [exact Hc|]. intros i. unfold transparency_rows. cbn.
    by rewrite ?Hp.
  - by eapply initial_hash_decodable.
Qed.

Ltac ok_run := repeat first
  [ ok_chain @append_chain_ok | ok_chain @commit_object_chain_ok' | ok_frame ].
Lemma reseed_object_chain_ok cfg old k st i w st' w' :
  chain_ok cfg (db w) (fst st) -> reseed_object cfg old k st i w = (Ok st', w') ->
  chain_ok cfg (db w') (fst st').
Proof.
  destruct st as [c rs]. simpl. intros Hok H. unfold reseed_object in H.
  m_inv H; simplify_eq; ok_run; ok_end.
Qed.
Lemma reseed_kind_chain_ok cfg old st k w st' w' :
  chain_ok cfg (db w) (fst st) -> reseed_kind cfg old st k w = (Ok st', w') ->
  chain_ok cfg (db w') (fst st').
Proof.
  intros Hok H. unfold reseed_kind in H. m_inv H.
  eapply foldM_chain_ok in H; [exact H| |exact Hok].
  intros; by eapply reseed_object_chain_ok.
Qed.
Lemma reseed_kinds_chain_ok cfg old c rs l w c' rs' w' :
  chain_ok cfg (db w) c -> foldM (reseed_kind cfg old) (c, rs) l w = (Ok (c', rs'), w') ->
  chain_ok cfg (db w') c'.
Proof.
  intros Hok H. eapply (foldM_chain_ok cfg _ l) in H; [exact H| |exact Hok].
  intros; by eapply reseed_kind_chain_ok.
Qed.

Definition staged_log_unused (d : Db) : Prop :=
  forall x im i, t_imports d !! x = Some im -> t_log d !! (x, im_log im, i) = None.

Ltac ok_run ::= repeat first
  [ ok_chain @append_chain_ok | ok_chain @commit_epoch_chain_ok
  | ok_chain @reseed_kinds_chain_ok | ok_frame ].
Lemma staged_admin_devices_logs c l : respects same_logs (forM (staged_admin_device c) l).
Proof. respects_tac idtac. Qed.
Hint Resolve staged_admin_devices_logs : respects.
Lemma reseed_chain_ok cfg old au v w c r w' :
  chain_ok cfg (db w) old -> staged_log_unused (db w) ->
  reseed old cfg au v w = (Ok (c, r), w') -> chain_ok cfg (db w') c.
Proof.
  intros Hok Hun H. unfold reseed in H. m_inv H; simplify_eq; [by ok_run|].
  repeat match goal with
  | H : outcomes _ _ _ _ _ = _ |- _ => apply (outcomes_respects eq) in H
  | H : admin_operation _ _ _ _ _ = _ |- _ => apply (admin_operation_respects eq) in H
  end.
  match goal with E : negb (String.eqb _ _) || _ || _ || _ = false |- _ =>
    do 3 (apply orb_false_iff in E as [E _]); apply negb_false_iff, String.eqb_eq in E end.
  match goal with H : Chain_new _ _ _ _ ?w1 = _, Ho : db w = _, Ha : _ = db ?w2 |- _ =>
    rewrite Ho, Ha in Hok, Hun; clear Ho Ha end.
  match goal with H : Chain_new _ _ _ _ _ = (Ok ?c1, _) |- _ =>
    eapply reseeded_chain_ok in H; [|exact Hok|done|intros i; by apply Hun] end.
  clear Hok. ok_run; ok_end.
Qed.
End ReseedInv.

(** ** The invariant *)
Section ServiceOk.
Context {X : Ext} {XL : ExtLaws X} {O : Oracle}.
Implicit Types (c : Chain) (cfg : RelayConfig).

Definition live_ok (cfg : RelayConfig) (d : Db) (x : string) : Prop :=
  match t_chains d !! x with
  | Some c => chain_ok cfg d c
  | None => fresh_chain d x
  end.
Record service_ok (cfg : RelayConfig) (d : Db) : Prop := {
  so_keyed : chains_keyed d;
  so_live : forall x, t_deletions d !! x = None -> live_ok cfg d x;
}.

(** A relation that preserves the invariant, as a preorder. *)
Definition keeps (P : Db -> Prop) (d d' : Db) : Prop := P d -> P d'.
#[export] Instance keeps_preorder P : PreOrder (keeps P).
Proof. unfold keeps. split; [by intros d|]. intros d1 d2 d3. auto. Qed.

(** The tables that the invariant reads. *)
Record same_core (d d' : Db) : Prop := {
  sk_chains : t_chains d' = t_chains d;
  sk_log : t_log d' = t_log d;
  sk_transparency : t_transparency d' = t_transparency d;
  sk_deletions : t_deletions d' = t_deletions d;
  sk_imports : t_imports d' = t_imports d;
}.
#[export] Instance same_core_preorder : PreOrder same_core.
Proof. split; [by intros d|]. intros d1 d2 d3 [] []. constructor; congruence. Qed.

Lemma live_ok_core cfg d d' x : same_core d d' -> live_ok cfg d x -> live_ok cfg d' x.
Proof.
  intros [Hc Hl Ht _ _]. unfold live_ok, fresh_chain. rewrite Hc, Hl, Ht.
  destruct (t_chains d !! x); [|done]. intros. by eapply chain_ok_logs.
Qed.
Lemma service_ok_core cfg d d' : same_core d d' -> service_ok cfg d -> service_ok cfg d'.
Proof.
  intros Hs [Hk Hl]. pose proof Hs as [Hc _ _ Hd _]. split.
  - unfold chains_keyed. by rewrite Hc.
  - intros x. rewrite Hd. intros Hx. by eapply live_ok_core, Hl.
Qed.

Lemma live_ok_rows cfg d d' y :
  chains_keyed d -> same_chain_rows y d d' -> live_ok cfg d y -> live_ok cfg d' y.
Proof.
  intros Hk Hs. unfold live_ok, fresh_chain. rewrite (sc_chains _ _ _ Hs).
  destruct (t_chains d !! y) as [c|] eqn:E.
  - apply Hk in E as <-. intros Hok. eapply chain_ok_frame; [exact Hok|..];
      intros i; apply Hs.
  - intros [H1 H2]. split; intros l i; [rewrite (sc_log _ _ _ Hs)|
      rewrite (sc_transparency _ _ _ Hs)]; auto.
Qed.

(** Steps in the vocabulary of [x] can only break the invariant of [x]. *)
Lemma service_ok_steps cfg x d d' :
  service_ok cfg d -> db_steps x d d' ->
  (t_deletions d' !! x = None -> live_ok cfg d' x) -> service_ok cfg d'.
Proof.
  intros [Hk Hl] Hs Hx. split; [by eapply db_steps_keyed|]. intros y Hy.
  destruct (decide (x = y)) as [<-|Hne]; [auto|].
  pose proof (db_steps_isolated _ _ _ _ Hne Hs) as Hi.
  eapply live_ok_rows; [done|done|]. apply Hl. by rewrite <-(sc_deletions _ _ _ Hi).
Qed.

(** Saving a well-formed chain. *)
Lemma save_live_ok cfg c w u w' :
  chain_ok cfg (db w) c -> save c cfg w = (Ok u, w') -> live_ok cfg (db w') (chain_id c).
Proof.
  intros Hok H. unfold live_ok. rewrite (save_stores _ _ _ _ _ H).
  eapply chain_ok_run; [|exact H|exact Hok]. apply save_logs.
Qed.

(** A loaded chain of a live id is well formed. *)
Lemma service_ok_load cfg d x c :
  service_ok cfg d -> t_deletions d !! x = None -> t_chains d !! x = Some c ->
  chain_ok cfg d c /\ chain_id c = x.
Proof.
  intros [Hk Hl] Hd Hc. specialize (Hl x Hd). unfold live_ok in Hl. rewrite Hc in Hl.
  split; [done|]. by apply Hk.
Qed.
End ServiceOk.

(** ** Import *)
Section StageInv.
Context {X : Ext} {XL : ExtLaws X} {O : Oracle}.

(** Staging writes objects and the import row before it saves the chain. *)
Definition staging (d d' : Db) : Prop :=
  t_chains d' = t_chains d /\ t_log d' = t_log d /\ t_transparency d' = t_transparency d.
#[export] Instance staging_preorder : PreOrder staging.
Proof. split; [by intros d|]. intros d1 d2 d3 (?&?&?) (?&?&?). repeat split; congruence. Qed.
Lemma put_object_staging x k v l : respects staging (put_object x k v l).
Proof.
  unfold put_object, object_digest, insert_object, insert_new.
  respects_tac ltac:(repeat case_match; by simplify_eq/=).
Qed.
Hint Resolve put_object_staging : respects.
Lemma live_ok_staging cfg d d' x : staging d d' -> live_ok cfg d x -> live_ok cfg d' x.
Proof.
  intros (Hc & Hl & Ht). unfold live_ok, fresh_chain. rewrite Hc, Hl, Ht.
  destruct (t_chains d !! x); [|done]. intros. by eapply chain_ok_logs.
Qed.

Lemma stage_chain_live_ok cfg cur x p e l w c w' :
  cur = t_chains (db w) !! x -> s p "chain_id" = x -> live_ok cfg (db w) x ->
  stage_chain cfg cur x p e l w = (Ok c, w') -> live_ok cfg (db w') x.
Proof.
  intros -> Hp Hok H. unfold stage_chain, load in H. unfold live_ok in Hok.
  destruct (t_chains (db w) !! x) as [c0|] eqn:E; m_inv H; simplify_eq;
    [unfold live_ok; simpl; by simplify_option_eq|..].
  - match goal with H : Chain_new _ _ _ _ _ = _ |- _ =>
      apply (Chain_new_respects eq) in H; congruence end.
  - match goal with H : Chain_new _ _ _ _ _ = _ |- _ =>
      eapply Chain_new_chain_ok in H as [Hc <-]; [|done] end.
    match goal with H : save ?c _ _ = _ |- _ => eapply save_live_ok in H; [exact H|] end.
    destruct Hc. by constructor.
Qed.
Lemma stage_live_ok cfg v w r w' x :
  import_chain v = x -> live_ok cfg (db w) x -> stage cfg v w = (Ok r, w') ->
  live_ok cfg (db w') x.
Proof.
  unfold import_chain. intros Hx Hok H. unfold stage in H. m_inv H; simplify_eq.
  all: rewrite Hm1 in *; simpl in *; set (x' := s x1 "chain_id") in *.
  all: match goal with H : load _ _ = _ |- _ => unfold load in H; apply select_ok in H as [Hcur ->] end.
  all: match goal with H : stage_history _ _ _ _ = _ |- _ =>
         apply (stage_history_respects staging x' (fun k v => put_object_staging x' k v None)) in H
           as Hs end.
  all: match goal with H : quota _ _ _ = _ |- _ => apply (quota_respects staging) in H end.
  all: eapply live_ok_staging; [eassumption|].
  all: eapply stage_chain_live_ok; [|reflexivity| |eassumption]; simpl in *;
    [destruct Hs as [-> _]; by rewrite Hcur|].
  all: eapply live_ok_staging; [|exact Hok]; etransitivity; [exact Hs|done].
Qed.
End StageInv.

(** ** The dispatcher *)
Definition read_route (r : Route) : bool :=
  match r with
  | RHealth | RParametersGet | RDevices | ROwnEnvelopes | RRecordsGet | RRequestsGet
  | REpochsGet | REpochGet | RRecovery | RLog | RHead | RSnapshotsGet | RPartGet
  | RSnapshotGet | RExport | RNotice | RDeletion | RReceipt | RTransparencyHead
  | RTransparency => true
  | _ => false
  end.

(** A GET reaches read routes only. *)
Definition row_gets (row : list Seg * (string -> Route) * list string) : bool :=
  let '(_, route, allow) := row in
  negb (existsb (fun m => String.eqb m "GET") allow) || read_route (route "GET"%string).
Lemma catalogue_gets : forallb row_gets catalogue_rows = true.
Proof. reflexivity. Qed.
Arguments lookup_route : simpl never.
Arguments strip_prefix : simpl never.
Lemma endpoint_get `{X : Ext} path ep :
  endpoint path "GET" = Ok ep -> read_route (ep_route ep) = true.
Proof.
  unfold endpoint. intros H. res_inv H.
  destruct x0 as [[[rt ch] pa] al]. res_inv H; bsimp.
  all: match goal with H : lookup_route _ _ _ = _ |- _ =>
         apply lookup_route_row in H as (pat & f & Hin & -> & _) end.
  all: pose proof catalogue_gets as Hg; rewrite forallb_forall in Hg.
  all: apply list_elem_of_In, Hg in Hin; unfold row_gets in Hin.
  all: repeat match goal with H : existsb _ _ = true |- _ => rewrite H in Hin; clear H end; done.
Qed.

(** The import endpoint names no chain: the body does. *)
Definition has_chain (pat : list Seg) : bool :=
  existsb (fun x => match x with SChain => true | _ => false end) pat.
Lemma match_segs_chain pat parts x p x' p' :
  has_chain pat = false -> match_segs pat parts x p = Some (x', p') -> x' = x.
Proof.
  revert parts x p. induction pat as [|[l| |] pat IH]; intros [|y parts] x p Hc; simpl;
    try done; [by intros [= -> ->]|destruct (String.eqb l y); [by apply IH|done]|by apply IH].
Qed.
Lemma catalogue_import : Forall (fun row : list Seg * (string -> Route) * list string =>
  has_chain (fst (fst row)) = true -> forall m, snd (fst row) m <> RImport) catalogue_rows.
Proof.
  unfold catalogue_rows. repeat apply Forall_cons_2; try apply Forall_nil_2;
    intros Hc m; first [discriminate Hc | unfold always, on_method; cbn [fst snd];
      try destruct (String.eqb m _); discriminate].
Qed.
Lemma endpoint_import `{X : Ext} path m ep :
  endpoint path m = Ok ep -> ep_route ep = RImport -> ep_chain ep = EmptyString.
Proof.
  unfold endpoint. intros H. res_inv H.
  destruct x0 as [[[rt ch] pa] al]. res_inv H; simpl; intros Hr;
    match goal with H : lookup_route _ _ _ = _ |- _ =>
      apply lookup_route_row in H as (pat & f & Hin & -> & Hm) end.
  all: pose proof (proj1 (Forall_forall _ _) catalogue_import _ Hin) as Hc; simpl in Hc.
  all: destruct (has_chain pat) eqn:E; [by destruct (Hc eq_refl m)|].
  all: by eapply match_segs_chain.
Qed.

Section DispatchInv.
Context {X : Ext} {XL : ExtLaws X} {O : Oracle}.
Context (mime_parse : string -> option (string * option string)).
Implicit Types (c : Chain) (cfg : RelayConfig).

Lemma cursor_core d t row : t_cursors d !! t = None ->
  same_core d (set_cursors (<[t := row]> (t_cursors d)) d).
Proof. by constructor. Qed.
Lemma same_core_logs d d' : same_core d d' -> same_logs d d'.
Proof. by intros []. Qed.

Lemma write_arm_chain_ok cfg c au ep v w c' p w' :
  chain_ok cfg (db w) c -> staged_log_unused (db w) ->
  write_arm c cfg au ep v w = (Ok (c', p), w') -> chain_ok cfg (db w') c'.
Proof.
  intros Hok Hun H. unfold write_arm in H.
  destruct (ep_route ep); try discriminate H; m_inv H; simplify_eq;
    lazymatch goal with
    | H : enroll _ _ _ _ _ _ = _ |- _ => exact (enroll_chain_ok _ _ _ _ _ _ _ _ _ Hok H)
    | H : Mutation.epoch _ _ _ _ _ _ = _ |- _ =>
        exact (epoch_chain_ok _ _ _ _ _ _ _ _ _ Hok H)
    | H : approve _ _ _ _ _ _ _ = _ |- _ =>
        exact (approve_chain_ok _ _ _ _ _ _ _ _ _ _ Hok H)
    | H : snapshot _ _ _ _ = _ |- _ => exact (snapshot_chain_ok _ _ _ _ _ _ _ Hok H)
    | H : offer _ _ _ _ = _ |- _ => exact (offer_chain_ok _ _ _ _ _ _ _ Hok H)
    | H : ack _ _ _ _ _ = _ |- _ => exact (ack_chain_ok _ _ _ _ _ _ _ _ Hok H)
    | H : prune _ _ _ _ _ = _ |- _ => exact (prune_chain_ok _ _ _ _ _ _ _ _ Hok H)
    | H : Deletion.delete _ _ _ _ _ = _ |- _ =>
        exact (delete_chain_ok _ _ _ _ _ _ _ _ Hok H)
    | H : reseed _ _ _ _ _ = _ |- _ => exact (reseed_chain_ok _ _ _ _ _ _ _ _ Hok Hun H)
    end.
Qed.
Lemma dispatch_chain_ok cfg c au ep q v w c' r w' :
  chain_ok cfg (db w) c -> staged_log_unused (db w) ->
  dispatch c cfg au ep q v w = (Ok (c', r), w') -> chain_ok cfg (db w') c'.
Proof.
  intros Hok Hun H. unfold dispatch in H. m_inv H; simplify_eq.
  all: first
    [ match goal with H : export _ _ _ _ _ = _ |- _ =>
        eapply (export_respects same_core cursor_core), same_core_logs, chain_ok_logs in H;
        [exact H | exact Hok] end
    | match goal with E : read_arm _ _ _ _ _ = Some _, H : _ = (Ok _, _) |- _ =>
        eapply (read_arm_respects same_core cursor_core _ _ _ _ _ _ E), same_core_logs,
          chain_ok_logs in H; [exact H | exact Hok] end
    | by eapply write_arm_chain_ok ].
Qed.

(** A read route leaves the chain value and the core tables alone. *)
Lemma dispatch_read cfg c au ep q v w c' r w' :
  read_route (ep_route ep) = true -> dispatch c cfg au ep q v w = (Ok (c', r), w') ->
  same_core (db w) (db w').
Proof.
  intros Hr H. unfold dispatch in H. m_inv H; simplify_eq.
  all: first
    [ match goal with H : export _ _ _ _ _ = _ |- _ =>
        exact (export_respects same_core cursor_core _ _ _ _ _ _ _ H) end
    | match goal with E : read_arm _ _ _ _ _ = Some _, H : _ = (Ok _, _) |- _ =>
        exact (read_arm_respects same_core cursor_core _ _ _ _ _ _ E _ _ _ H) end
    | exfalso; unfold read_arm, write_arm in *; destruct (ep_route ep); done ].
Qed.
End DispatchInv.

(** ** The handler keeps the invariant *)
Section HandlerInv.
Context {X : Ext} {XL : ExtLaws X} {O : Oracle}.
Implicit Types (c : Chain) (cfg : RelayConfig).

Lemma chain_handler_live_ok cfg au me ep q v w r w' :
  service_ok cfg (db w) -> t_deletions (db w) !! ep_chain ep = None ->
  staged_log_unused (db w) ->
  (me = "GET"%string -> read_route (ep_route ep) = true) ->
  chain_handler cfg au me ep q v w = (Ok r, w') -> live_ok cfg (db w') (ep_chain ep).
Proof.
  intros Hs Hd Hun Hget H. unfold chain_handler in H. m_inv H; simplify_eq.
  all: match goal with H : load _ _ = _ |- _ =>
         unfold load in H; apply select_ok in H as [Hc ->]; symmetry in Hc end.
  all: match goal with H : check_state _ _ _ _ = _ |- _ =>
         apply (check_state_respects eq) in H as Hcs; simpl in Hcs end.
  all: destruct (service_ok_load _ _ _ _ Hs Hd Hc) as [Hok Hid].
  all: rewrite Hcs in Hok, Hun, Hs, Hd.
  - apply String.eqb_eq in E. match goal with H : dispatch _ _ _ _ _ _ _ = _ |- _ =>
      apply dispatch_read in H; [|by apply Hget] end.
    eapply live_ok_core; [eassumption|]. by apply (so_live _ _ Hs).
  - match goal with H : dispatch _ _ _ _ _ _ _ = (Ok (?c', _), _) |- _ =>
      assert (Hi : chain_id c' = ep_chain ep)
        by (eapply dispatch_yields; [by do 2 eexists | exact Hid]);
      apply (dispatch_chain_ok _ _ _ _ _ _ _ _ _ _ Hok Hun) in H end.
    match goal with H : quota _ _ _ = _ |- _ => apply (quota_respects eq) in H as <- end.
    rewrite <-Hi. by eapply save_live_ok.
Qed.

Lemma genesis_fresh cfg v w st r c w' :
  genesis cfg v w = (Ok (st, r, c), w') ->
  st = 201 /\ t_chains (db w) !! s (get v "parameters") "chain_id" = None \/ db w' = db w.
Proof.
  intros H. unfold genesis in H. m_inv H; simplify_eq; [right|left; split; [done|]];
    match goal with H : outcomes _ _ _ _ _ = _ |- _ => apply (outcomes_respects eq) in H end;
    match goal with H : load _ _ = _ |- _ =>
      unfold load in H; apply select_ok in H as [H ->] end; [done|].
  match goal with E : bool_decide (is_Some _) = false |- _ =>
    apply bool_decide_eq_false, eq_None_not_Some in E; congruence end.
Qed.
Lemma genesis_live_ok cfg v w p w' x :
  s (get v "parameters") "chain_id" = x -> live_ok cfg (db w) x ->
  genesis cfg v w = (Ok p, w') -> live_ok cfg (db w') x.
Proof.
  intros <- Hl H. destruct p as [[st r] c].
  destruct (genesis_fresh _ _ _ _ _ _ _ H) as [[-> Hn] | ->]; [|done].
  destruct (genesis_id _ _ _ _ _ _ H) as [Hi Hs].
  unfold live_ok in *. rewrite Hn in Hl. rewrite <-Hi, Hs. by eapply genesis_chain_ok.
Qed.

Lemma run_handler_live_ok cfg au me ep q v w r w' :
  service_ok cfg (db w) -> t_deletions (db w) !! ep_chain ep = None ->
  staged_log_unused (db w) -> names_chain ep v ->
  (me = "GET"%string -> read_route (ep_route ep) = true) ->
  run_handler cfg au me ep q v w = (Ok r, w') -> live_ok cfg (db w') (ep_chain ep).
Proof.
  unfold names_chain, run_handler. intros Hs Hd Hun Hn Hget H.
  pose proof (so_live _ _ Hs _ Hd) as Hl.
  destruct (ep_route ep) eqn:Er;
    try (rewrite <-Er in Hget; by eapply chain_handler_live_ok); m_inv H.
  - by eapply genesis_live_ok.
  - by eapply stage_live_ok.
Qed.

Lemma run_handler_service_ok cfg au me ep q v w r w' :
  service_ok cfg (db w) -> t_deletions (db w) !! ep_chain ep = None ->
  staged_log_unused (db w) -> names_chain ep v ->
  (me = "GET"%string -> read_route (ep_route ep) = true) ->
  run_handler cfg au me ep q v w = (Ok r, w') -> service_ok cfg (db w').
Proof.
  intros Hs Hd Hun Hn Hget H. eapply (service_ok_steps _ (ep_chain ep)); [exact Hs| |].
  - exact (proj1 (run_handler_respects _ _ _ _ _ _ Hn _ _ _ H (so_keyed _ _ Hs))).
  - intros _. by eapply run_handler_live_ok.
Qed.
End HandlerInv.

(** ** Transactions *)
Section TxInv.
Context {X : Ext} {XL : ExtLaws X} {O : Oracle}.
Implicit Types (c : Chain) (cfg : RelayConfig).

(** A transaction keeps what its body keeps when it succeeds. *)
Lemma transaction_keeps {A} (P : Db -> Prop) (m : M A) :
  (forall w x w', P (db w) -> m w = (Ok x, w') -> P (db w')) ->
  respects (keeps P) (transaction false m).
Proof.
  intros Hm w r w' H Hp. apply transaction_atomic in H as [-> | (x & w1 & _ & H & ->)]; [done|].
  by eapply Hm in H.
Qed.

(** Writing on a loaded chain and saving it. *)
Lemma service_ok_saved cfg x d c c' w u w' :
  service_ok cfg d -> t_chains d !! x = Some c -> chain_id c' = x ->
  db_steps x d (db w) -> (t_deletions d !! x = None -> chain_ok cfg (db w) c') ->
  save c' cfg w = (Ok u, w') -> service_ok cfg (db w').
Proof.
  intros Hs Hc Hi Hst Hok H. eapply (service_ok_steps _ x); [exact Hs| |].
  - transitivity (db w); [done|]. by eapply save_respects in H.
  - intros Hd'. rewrite <-Hi. eapply save_live_ok; [|exact H]. apply Hok.
    assert (Hse : db_steps x d (db w')).
    { transitivity (db w); [done|]. by eapply save_respects in H. }
    apply db_steps_evidence in Hse as [_ _ _ _ _ Hdel _ _].
    destruct (t_deletions d !! x) as [row|] eqn:E; [|done].
    eapply lookup_weaken in Hdel; [|exact E]. congruence.
Qed.

Lemma audit_reject_keeps cfg x r co :
  respects (keeps (service_ok cfg)) (Batch.audit_reject cfg x r co).
Proof.
  apply transaction_keeps. intros w c w' Hs H. m_inv H; simplify_eq.
  match goal with H : load _ _ = _ |- _ =>
    unfold load in H; apply select_ok in H as [Hc ->]; symmetry in Hc end.
  pose proof (so_keyed _ _ Hs _ _ Hc) as Hi.
  match goal with H : transparency _ _ _ _ _ _ _ = _ |- _ => rename H into Ht end.
  eapply service_ok_saved; [exact Hs|exact Hc| | | |eassumption].
  - destruct p. apply transparency_ok in Ht as (_&_&_&->&_). done.
  - by eapply (transparency_respects x) in Ht.
  - intros Hd. destruct (service_ok_load _ _ _ _ Hs Hd Hc) as [Hok _].
    by eapply transparency_chain_ok in Ht.
Qed.

Lemma reject_entry_ok cfg co x c o w c' w' :
  chain_id c = x -> reject_entry cfg co c o w = (Ok c', w') ->
  chain_id c' = x /\ db_steps x (db w) (db w') /\
  (chain_ok cfg (db w) c -> chain_ok cfg (db w') c').
Proof.
  intros Hi H. unfold reject_entry in H. m_inv H; simplify_eq. split_and!.
  - destruct p. by apply transparency_ok in Hm as (_&_&_&->&_).
  - by eapply (transparency_respects (chain_id c)) in Hm.
  - intros Hok. by eapply transparency_chain_ok in Hm.
Qed.
Lemma reject_entries_ok cfg co x l c w c' w' :
  chain_id c = x -> foldM (reject_entry cfg co) c l w = (Ok c', w') ->
  chain_id c' = x /\ db_steps x (db w) (db w') /\
  (chain_ok cfg (db w) c -> chain_ok cfg (db w') c').
Proof.
  revert c w. induction l as [|o l IH]; intros c w Hi H; cbn [foldM] in H; m_inv H; [done|].
  apply (reject_entry_ok _ _ x) in Hm as (Hi1 & Hs1 & Ho1); [|done].
  apply IH in H as (Hi2 & Hs2 & Ho2); [|done]. split_and!; [done|by etransitivity|auto].
Qed.

Lemma audit_entries_ok cfg x v co w b w' :
  service_ok cfg (db w) -> audit_entries cfg x v co w = (Ok b, w') ->
  service_ok cfg (db w').
Proof.
  intros Hs H. unfold audit_entries, load in H. m_inv H.
  - match goal with E : t_chains _ !! _ = Some ?c, H : foldM _ _ _ _ = _ |- _ =>
      apply (reject_entries_ok _ _ x) in H as (Hi & Hst & Hok);
        [|by apply (so_keyed _ _ Hs)];
      eapply service_ok_saved; [exact Hs|exact E|exact Hi|exact Hst| |eassumption];
      intros Hd; destruct (service_ok_load _ _ _ _ Hs Hd E); auto end.
  - done.
Qed.
Lemma audit_request_keeps cfg x v co :
  respects (keeps (service_ok cfg)) (audit_request cfg x v co).
Proof.
  unfold audit_request. case_match; [apply respects_ret; exact _|].
  intros w r w'. rewrite begin_tx_run.
  destruct (sql_fails (tick w)); [by intros [= _ <-]|]. rewrite try_tx_run.
  destruct (audit_entries cfg x v co (next w)) as [[b|e|] w1] eqn:E;
    [|by intros [= _ <-]..].
  destruct b; [unfold commit_tx; destruct (sql_fails _)|]; intros [= _ <-] Hs; try done;
    exact (audit_entries_ok _ _ _ _ (next w) _ w1 Hs E).
Qed.

(** ** Deletion *)

(** Erasure outside a set [S] of chains. *)
Record spares (S : string -> Prop) (d d' : Db) : Prop := {
  sp_chains : t_chains d' = t_chains d;
  sp_deletions : forall y, t_deletions d' !! y = None <-> t_deletions d !! y = None;
  sp_transparency : t_transparency d' = t_transparency d;
  sp_log : forall y l i, ~ S y -> t_log d' !! (y, l, i) = t_log d !! (y, l, i);
}.
#[export] Instance spares_preorder S : PreOrder (spares S).
Proof.
  split; [by intros d; constructor|]. intros d1 d2 d3 [A1 A2 A3 A4] [B1 B2 B3 B4].
  constructor; [congruence|intros y; by rewrite B2|congruence|].
  intros y l i Hy. by rewrite B4, A4.
Qed.
Lemma service_ok_spares cfg d d' :
  spares (fun y => is_Some (t_deletions d !! y)) d d' -> service_ok cfg d -> service_ok cfg d'.
Proof.
  intros [Hc Hd Ht Hl] [Hk Hok]. split; [unfold chains_keyed; by rewrite Hc|].
  intros x Hx. apply Hd in Hx. specialize (Hok x Hx).
  assert (Hn : ~ is_Some (t_deletions d !! x)) by (rewrite Hx; by intros []).
  unfold live_ok, fresh_chain in *. rewrite Hc, Ht. destruct (t_chains d !! x) as [c|] eqn:E.
  - apply Hk in E as <-. eapply chain_ok_frame; [exact Hok|..]; intros i; [by apply Hl|].
    by rewrite Ht.
  - destruct Hok as [H1 H2]. split; [|done]. intros l i. by rewrite Hl.
Qed.

Lemma erase_statement_spares (S : string -> Prop) x f d :
  S x -> f ∈ erase_statements x -> spares S d (f d).
Proof.
  intros Hx Hf. unfold erase_statements in Hf.
  repeat (apply elem_of_cons in Hf as [->|Hf]); [..|by inversion Hf];
    constructor; try done.
  intros y l i Hy. cbn. rewrite map_lookup_filter.
  destruct (t_log d !! (y, l, i)) as [r|]; [|done]. simpl.
  case_guard as Hg; [done|]. exfalso. simpl in Hg. subst. by apply Hy.
Qed.
Lemma erase_keeps cfg : respects (keeps (service_ok cfg)) erase.
Proof.
  unfold erase. apply respects_bind; [exact _| |respects_tac ltac:(done)].
  - apply transaction_keeps. intros w x w' Hs H. m_inv H.
    match goal with H : forM _ _ _ = _ |- _ =>
      eapply (respects_forM (spares (fun y => is_Some (t_deletions (db w) !! y)))) in H;
        [eapply service_ok_spares; [exact H|exact Hs]|] end.
    intros [x row] Hin. apply respects_forM; [exact _|]. intros f Hf.
    apply respects_exec_; [exact _|]. intros d. eapply erase_statement_spares; [|exact Hf].
    unfold incomplete_deletions in Hin. apply list_elem_of_filter in Hin as [_ Hin].
    apply elem_of_map_to_list in Hin. simpl. eauto.
  - intros w r w'. unfold fail_if. case_match; intros [= _ <-]; by intros ?.
Qed.
Lemma complete_row_spares cfg S kv : respects (spares S) (complete_row cfg kv).
Proof.
  destruct kv as [x row]. unfold complete_row. respects_tac ltac:(constructor; try done).
  intros y. cbn. destruct (decide (x = y)) as [<-|].
  - rewrite lookup_alter_eq. by destruct (t_deletions d !! _).
  - by rewrite lookup_alter_ne.
Qed.
Lemma ledgers_keeps cfg : respects (keeps (service_ok cfg)) (complete_ledgers cfg).
Proof.
  apply transaction_keeps. intros w x w' Hs H. m_inv H.
  eapply (respects_forM (spares (fun y => is_Some (t_deletions (db w) !! y)))) in H;
    [eapply service_ok_spares; [exact H|exact Hs]|].
  intros kv _. apply complete_row_spares.
Qed.
Lemma complete_keeps cfg : respects (keeps (service_ok cfg)) (complete cfg).
Proof. unfold complete. respects_tac idtac; [apply erase_keeps|apply ledgers_keeps]. Qed.
End TxInv.

(** ** Requests *)
Section RequestInv.
Context {X : Ext} {XL : ExtLaws X} {O : Oracle}.
Context (mime_parse : string -> option (string * option string)).
Implicit Types (c : Chain) (cfg : RelayConfig).

Lemma deleted_answer_core d0 ep q v p w r w' :
  d0 = db w -> deleted_answer d0 ep q v p w = (r, w') -> db w' = db w.
Proof.
  intros ->. unfold deleted_answer. repeat case_match; cbv [bind M_monad lift fail ret];
    unfold fetch_one, sql, commit_tx; repeat case_match; intros [= _ <-]; try by simplify_eq/=.
  all: destruct (t_deletions (db w) !! ep_chain ep); by simplify_eq/=.
Qed.

Lemma serve_ok cfg au me ep q v w r w' :
  service_ok cfg (db w) -> staged_log_unused (db w) -> names_chain ep v ->
  (me = "GET"%string -> read_route (ep_route ep) = true) ->
  serve cfg au me ep q v w = (r, w') -> service_ok cfg (db w').
Proof.
  intros Hs Hun Hn Hg. unfold serve. rewrite begin_tx_run.
  destruct (sql_fails (tick w)); [by intros [= _ <-]|].
  unfold proof. rewrite select_run.
  destruct (sql_fails (tick (next w))); [by intros [= _ <-]|].
  cbn [db next]. destruct (t_deletions (db w) !! ep_chain ep) as [row|] eqn:Hd; simpl.
  { intros H. by apply deleted_answer_core in H as ->. }
  rewrite try_tx_run.
  destruct (run_handler _ _ _ _ _ _ _) as [[r1|e|] w1] eqn:E; [| |by intros [= _ <-]].
  - apply (run_handler_service_ok cfg) in E; [|done..]. rewrite commit_tx_run.
    destruct (sql_fails (tick w1)); [by intros [= _ <-]|].
    assert (Ht : forall b : bool, respects (keeps (service_ok cfg))
      ((if b then try_ (complete cfg);;; ret tt else ret tt);;; ret r1)).
    { intros b. destruct b; respects_tac idtac. apply complete_keeps. }
    intros H. exact (Ht _ _ _ _ H E).
  - rewrite rollback_tx_run. destruct (sql_fails (tick w1)); [by intros [= _ <-]|].
    assert (Ht : respects (keeps (service_ok cfg))
      (audit_request cfg (ep_chain ep) v (code e);;; fail (A:=Response) e)).
    { respects_tac idtac. apply audit_request_keeps. }
    intros H. exact (Ht _ _ _ H Hs).
Qed.

(** Batches *)
Lemma attempt_service_ok cfg au x rt pa v i r c w c' p w' :
  service_ok cfg (db w) -> t_chains (db w) !! x = Some c ->
  attempt_and_save c cfg au x rt pa v i r w = (Ok (c', p), w') -> service_ok cfg (db w').
Proof.
  intros Hs Hc H. pose proof (so_keyed _ _ Hs _ _ Hc) as Hi.
  pose proof H as Hst. eapply (attempt_and_save_respects x) in Hst; [|done].
  eapply service_ok_steps; [exact Hs|exact Hst|]. intros Hd'.
  assert (Hd : t_deletions (db w) !! x = None).
  { apply db_steps_evidence in Hst as [_ _ _ _ _ Hdel _ _].
    destruct (t_deletions (db w) !! x) as [row|] eqn:E; [|done].
    eapply lookup_weaken in Hdel; [|exact E]. congruence. }
  destruct (service_ok_load _ _ _ _ Hs Hd Hc) as [Hok _].
  pose proof (attempt_chain_ok _ _ _ _ _ _ _ _ _ _ _ _ _ Hok H) as Hok'.
  unfold attempt_and_save in H. m_inv H. simplify_eq.
  match goal with H : save _ _ _ = _ |- _ => apply save_stores in H as Hst' end.
  assert (Hx : chain_id c' = chain_id c).
  { eapply attempt_yields; [by do 2 eexists|done]. }
  unfold live_ok. rewrite <-Hx, Hst'. done.
Qed.

Lemma upload_keeps cfg au x rt pa v :
  respects (keeps (service_ok cfg)) (upload cfg au x rt pa v).
Proof.
  apply upload_respects; [exact _| |].
  - intros i r c w c' p w' Hc H Hs. by eapply attempt_service_ok.
  - intros. apply audit_reject_keeps.
Qed.

(** Authentication and rates touch none of the tables of the invariant. *)
Lemma rate_core cfg sc i : respects same_core (rate cfg sc i).
Proof. unfold rate. respects_tac ltac:(by constructor). Qed.
Hint Resolve rate_core : respects.
Lemma authenticate_core cfg rq : respects same_core (authenticate cfg rq).
Proof.
  unfold authenticate, authorize, capability_key, load, object.
  respects_tac ltac:(by constructor).
  unfold reserve_nonce. apply respects_sql; [exact _|]. intros d f d'.
  destruct (t_nonces d !! _); intros [= _ <-]; by constructor.
Qed.
Hint Resolve authenticate_core : respects.
Lemma savepoint_core {A} (m : M A) : respects same_core m -> respects same_core (savepoint m).
Proof.
  intros Hm w r w'. unfold savepoint. rewrite begin_tx_run.
  destruct (sql_fails _); [by intros [= _ <-]|]. rewrite try_run.
  destruct (m (next w)) as [[x|e|] w1] eqn:E; apply Hm in E; simpl in E;
    [| |by intros [= _ <-]].
  - assert (Ht : respects same_core
      (ret tt;;; select (fun _ => tt);;; lift (Ok x))) by respects_tac idtac.
    intros H. apply Ht in H. by etransitivity.
  - cbv [bind M_monad]. unfold exec_ at 1, sql at 1.
    assert (Ht : respects same_core (select (fun _ => tt);;; lift (A:=A) (Err e)))
      by respects_tac idtac.
    destruct (sql_fails (tick w1)); [by intros [= _ <-]|].
    intros H. exact (Ht (with_db (db w) w1) _ _ H).
Qed.
Lemma enrollment_source_core cfg src x q v :
  respects same_core (enrollment_source cfg src x q v).
Proof.
  unfold enrollment_source, write_guard. respects_tac idtac.
  apply savepoint_core. unfold candidate, proof, load, quota, used, enrollment_request.
  respects_tac ltac:(unfold offer_update; destruct (t_offers d !! _); by constructor).
Qed.

Definition ready cfg (d : Db) : Prop := service_ok cfg d /\ staged_log_unused d.
Definition guarded {A} cfg (m : M A) : Prop :=
  forall w r w', ready cfg (db w) -> m w = (r, w') -> service_ok cfg (db w').
Lemma guarded_core {A} cfg (m : M A) : respects same_core m -> guarded cfg m.
Proof. intros Hm w r w' [Hs _] H. eapply service_ok_core; [by eapply Hm|done]. Qed.
Lemma guarded_keeps {A} cfg (m : M A) : respects (keeps (service_ok cfg)) m -> guarded cfg m.
Proof. intros Hm w r w' [Hs _] H. by eapply Hm. Qed.
Lemma guarded_bind {A B} cfg (m : M A) (f : A -> M B) :
  respects same_core m -> (forall x, yields m x -> guarded cfg (f x)) ->
  guarded cfg (bind m f).
Proof.
  intros Hm Hf w r w' Hr. cbv [bind M_monad]. destruct (m w) as [[x|e|] w1] eqn:E;
    pose proof (Hm _ _ _ E) as Hc.
  - apply (Hf x); [by do 2 eexists|]. destruct Hr as [Hs Hu].
    split; [by eapply service_ok_core|]. intros y im i. rewrite (sk_imports _ _ Hc),
      (sk_log _ _ Hc). apply Hu.
  - intros [= _ <-]. eapply service_ok_core; [done|apply Hr].
  - intros [= _ <-]. eapply service_ok_core; [done|apply Hr].
Qed.

Lemma authenticated_ok cfg rq ep q pb pr :
  (forall v, pb = Ok v -> names_chain ep v) ->
  (method rq = "GET"%string -> read_route (ep_route ep) = true) ->
  guarded cfg (authenticated cfg rq ep q pb pr).
Proof.
  intros Hn Hg. unfold authenticated.
  apply guarded_bind; [respects_tac idtac|]. intros au _.
  apply guarded_bind; [respects_tac idtac|]. intros v Hv.
  assert (Hnv : names_chain ep v).
  { apply Hn. destruct Hv as (w & w' & Hv). by m_inv Hv. }
  apply guarded_bind; [unfold write_guard; respects_tac idtac|]. intros _ _.
  destruct (is_batch _).
  - unfold upload_batch. do 2 (apply guarded_bind; [respects_tac idtac|]; intros _ _).
    apply guarded_keeps. respects_tac idtac. apply upload_keeps.
  - apply guarded_bind; [respects_tac idtac|]. intros _ _.
    intros w r w' [Hs Hu] H. by eapply serve_ok.
Qed.


(** The endpoint names the chain of the body. *)
Lemma with_proposed_names path m ep b ep' u v :
  endpoint path m = Ok ep ->
  yields (with_proposed ep (proposed_parameters (ep_route ep) b)) ep' ->
  yields (fail_if (String.eqb (ep_chain ep') EmptyString) invalid) u ->
  (bootstrap_route (ep_route ep) = true -> b = v) ->
  ep_route ep' = ep_route ep /\ names_chain ep' v.
Proof.
  intros He Hep' Hu Hb. apply yields_fail_if, String.eqb_neq in Hu.
  unfold with_proposed, proposed_parameters, names_chain in *.
  destruct (ep_route ep) eqn:Er; yields_norm; simpl; rewrite ?Er; try done.
  - by rewrite Hb.
  - rewrite <-Hb by done. unfold import_chain.
    match goal with H : last _ = Some _ |- _ => by rewrite H end.
  - exfalso. apply Hu. by eapply endpoint_import.
Qed.

Lemma handle_ok cfg rq : guarded cfg (handle mime_parse cfg rq).
Proof.
  unfold handle. do 3 (apply guarded_bind; [respects_tac idtac|]; intros _ _).
  apply guarded_bind; [respects_tac idtac|]. intros q _.
  case_match; [apply guarded_core; unfold document; respects_tac idtac|].
  apply guarded_bind; [respects_tac idtac|]. intros ep Hep.
  assert (He : endpoint (path rq) (method rq) = Ok ep).
  { destruct Hep as (w & w' & He). by m_inv He. }
  case_match; [apply guarded_core; unfold health; respects_tac idtac|]. cbv zeta.
  apply guarded_bind; [respects_tac idtac|]. intros b Hb.
  apply guarded_bind; [unfold with_proposed; respects_tac idtac|]. intros ep' Hep'.
  apply guarded_bind; [respects_tac idtac|]. intros u Hu.
  destruct (bool_decide (ep_route ep' = RRequest));
    [apply guarded_core, enrollment_source_core|].
  assert (Hn : forall v, parsed_body mime_parse rq = Ok v ->
    ep_route ep' = ep_route ep /\ names_chain ep' v).
  { intros v Hv. eapply with_proposed_names; [exact He|exact Hep'|exact Hu|].
    intros Hr. rewrite Hr in Hb. destruct Hb as (w & w' & Hb). m_inv Hb. congruence. }
  apply authenticated_ok; [intros v Hv; by apply Hn|].
  intros Hm. rewrite Hm in He.
  assert (Hr : ep_route ep' = ep_route ep).
  { unfold with_proposed in Hep'. by yields_norm. }
  rewrite Hr. by eapply endpoint_get.
Qed.

(** ** Start and maintenance *)
Lemma renotice_ok cfg x w u w' :
  service_ok cfg (db w) -> renotice cfg x w = (Ok u, w') -> service_ok cfg (db w').
Proof.
  intros Hs H. unfold renotice, load in H. m_inv H; [|done].
  match goal with E : t_chains _ !! _ = Some ?c, H : publish_notice _ _ _ = _ |- _ =>
    pose proof (so_keyed _ _ Hs _ _ E) as Hi; rename E into Hc; rename H into Hp end.
  eapply service_ok_saved; [exact Hs|exact Hc| | | |eassumption].
  - eapply publish_notice_yields; [by do 2 eexists|exact Hi].
  - by eapply (publish_notice_respects x) in Hp.
  - intros Hd. destruct (service_ok_load _ _ _ _ Hs Hd Hc) as [Hok _].
    by eapply publish_notice_chain_ok in Hp.
Qed.

Lemma forM_ok {A} (P : Db -> Prop) (f : A -> M unit) l :
  (forall x w u w', P (db w) -> f x w = (Ok u, w') -> P (db w')) ->
  forall w u w', P (db w) -> forM f l w = (Ok u, w') -> P (db w').
Proof.
  intros Hf. induction l as [|x l IH]; intros w u w' Hp H; cbn [forM] in H; m_inv H; [done|].
  eapply IH, H. by eapply Hf.
Qed.

Lemma operator_tx_core cfg : respects same_core (operator_tx cfg).
Proof. unfold operator_tx. respects_tac ltac:(by constructor). Qed.
Lemma operator_tx_keeps cfg : respects (keeps (service_ok cfg)) (operator_tx cfg).
Proof. intros w r w' H Hs. eapply service_ok_core, Hs. by eapply operator_tx_core. Qed.
Lemma renotice_tx_keeps cfg : respects (keeps (service_ok cfg)) (renotice_tx cfg).
Proof.
  apply transaction_keeps. intros w u w' Hs H. m_inv H.
  refine (forM_ok (service_ok cfg) _ _ _ (next _) _ _ Hs H).
  intros. by eapply renotice_ok.
Qed.
Lemma startup_keeps cfg : respects (keeps (service_ok cfg)) (startup cfg).
Proof.
  unfold startup.
  respects_tac idtac; [apply operator_tx_keeps|apply complete_keeps|apply renotice_tx_keeps].
Qed.

Definition same_chains (d d' : Db) : Prop := t_chains d' = t_chains d.
#[export] Instance same_chains_preorder : PreOrder same_chains.
Proof. split; [done|]. unfold same_chains. intros ???. congruence. Qed.
Lemma expire_chains c : respects same_chains (expire c).
Proof. unfold expire, expire_epoch. respects_tac ltac:(done). Qed.

Lemma maintenance_keeps cfg : respects (keeps (service_ok cfg)) (maintenance cfg).
Proof.
  apply transaction_keeps. intros w u w' Hs H. m_inv H.
  refine (forM_ok (service_ok cfg) _ _ _ (next (next _)) _ _ Hs H).
  clear. intros x w u w' Hs H. unfold load in H. m_inv H; [|done].
  match goal with H : quota _ _ _ = _ |- _ => apply (quota_respects eq) in H as <- end.
  match goal with E : t_chains _ !! _ = Some _, H : expire _ _ = _ |- _ =>
    pose proof (so_keyed _ _ Hs _ _ E) as Hi; rename E into Hc; rename H into He end.
  pose proof (expire_respects x _ Hi _ _ _ He) as Hst. simpl in Hst.
  eapply service_ok_steps; [exact Hs|exact Hst|]. intros Hd'.
  assert (Hd : t_deletions (db w) !! x = None).
  { apply db_steps_evidence in Hst as [_ _ _ _ _ Hdel _ _].
    destruct (t_deletions (db w) !! x) as [row|] eqn:E; [|done].
    eapply lookup_weaken in Hdel; [|exact E]. congruence. }
  destruct (service_ok_load _ _ _ _ Hs Hd Hc) as [Hok _].
  pose proof (expire_chains _ _ _ _ He) as Hch. unfold same_chains in Hch. simpl in Hch.
  unfold live_ok. rewrite Hch, Hc. exact (expire_keeps _ _ _ _ _ He Hok).
Qed.
Lemma upkeep_keeps cfg : respects (keeps (service_ok cfg)) (upkeep cfg).
Proof. unfold upkeep. respects_tac idtac; [apply complete_keeps | apply maintenance_keeps]. Qed.
End RequestInv.
