(* ===== verification/ServiceSpec.v ===== *)
(** * What the service promises

    The invariant of the service over a request; isolation of chains; and the absence
    of effects of a rejection. *)
From S2P Require Import Prelude Error Json Verify Jcs Wire Query Routes Db Monad Config.
From S2P Require Import Store HashChain Steps StoreFacts StoreSpec Auth AuthFacts.
From S2P Require Import Domain Retention Mutation Deletion Batch Import Read Export.
From S2P Require Import Sync HandlerFacts BatchFacts ChainInv ServiceFacts ServiceInv.

(** ** Requests *)
Section Audit.
Context {X : Ext} {O : Oracle}.

Lemma reject_entries_yields x cfg co c l c' :
  yields (foldM (reject_entry cfg co) c l) c' -> chain_id c = x -> chain_id c' = x.
Proof.
  intros H Hc. eapply (foldM_yields (fun c => chain_id c = x)) in H; [done|done|].
  intros b o b' Hb (w & w' & H'). unfold reject_entry in H'. chain_tac H'.
Qed.
Lemma reject_entries_respects x cfg co c l :
  chain_id c = x -> respects (db_steps x) (foldM (reject_entry cfg co) c l).
Proof.
  intros Hc. apply (respects_foldM _ (fun c => chain_id c = x)); [done|..].
  - intros. unfold reject_entry. respects_tac idtac.
  - intros b o b' _ Hb (w & w' & H'). unfold reject_entry in H'. chain_tac H'.
Qed.
Lemma audit_entries_respects cfg x v co :
  respects (keyed_steps x) (audit_entries cfg x v co).
Proof.
  unfold audit_entries. keyed_tac idtac.
  - apply reject_entries_respects. by apply Hc.
  - apply save_respects. eapply reject_entries_yields; [eassumption|]. by apply Hc.
Qed.

(** The explicit transaction of [audit_request]. *)
Lemma audit_request_respects R `{!PreOrder R} cfg x v co :
  respects R (audit_entries cfg x v co) -> respects R (audit_request cfg x v co).
Proof.
  intros Hm. unfold audit_request. case_match; [apply respects_ret; exact _|].
  intros w r w'. rewrite begin_tx_run.
  destruct (sql_fails (tick w)); [by intros [= _ <-]|]. rewrite try_tx_run.
  destruct (audit_entries cfg x v co (next w)) as [[b|e|] w1] eqn:E;
    [|by intros [= _ <-]..]. apply Hm in E. simpl in E.
  destruct b; [unfold commit_tx; destruct (sql_fails _)|]; by intros [= _ <-].
Qed.

(** A rejection leaves at most audit entries. *)
Lemma audit_entries_only cfg x v co : respects audit_only (audit_entries cfg x v co).
Proof.
  unfold audit_entries, load. respects_tac idtac.
  - apply (respects_foldM _ (fun _ => True)); [done| |done]. intros.
    unfold reject_entry, transparency, insert_new.
    respects_tac ltac:(repeat case_match; simplify_eq/=; constructor; done).
  - unfold save, quota, used. respects_tac ltac:(constructor; done).
Qed.
End Audit.

Section Serve.
Context {X : Ext} {O : Oracle}.

(** The outcomes of [serve]: unchanged, committed, or rejected with an audit. *)
Lemma serve_cases cfg au me ep q v w r w' :
  serve cfg au me ep q v w = (r, w') ->
  db w' = db w \/
  (exists r1 w0 w1 w2 r2, db w0 = db w /\
     run_handler cfg au me ep q v w0 = (Ok r1, w1) /\ db w2 = db w1 /\
     (if bool_decide (ep_route ep = RDelete)
      then try_ (complete cfg) w2 = (r2, w') else db w' = db w2) /\
     (r = Ok r1 \/ (r = Panic /\ ep_route ep = RDelete))) \/
  (exists (e : ApiError) w0 w1 r1, db w0 = db w /\
     audit_request cfg (ep_chain ep) v (code e) w0 = (r1, w1) /\ db w' = db w1 /\
     forall x, r <> Ok x).
Proof.
  unfold serve. rewrite begin_tx_run.
  destruct (sql_fails (tick w)); [intros [= _ <-]; by left|].
  unfold proof. rewrite select_run.
  destruct (sql_fails (tick (next w))); [intros [= _ <-]; by left|].
  cbn [db next]. destruct (t_deletions (db w) !! ep_chain ep) as [row|] eqn:Hd; simpl.
  { intros H. left. by apply deleted_answer_core in H as ->. }
  rewrite try_tx_run.
  destruct (run_handler _ _ _ _ _ _ _) as [[r1|e|] w1] eqn:E;
    [| |intros [= _ <-]; by left].
  - rewrite commit_tx_run. destruct (sql_fails (tick w1)); [intros [= _ <-]; by left|].
    intros H. right. left. cbv [bind ret M_monad] in H.
    case_bool_decide.
    + destruct (try_ (complete cfg) (next w1)) as [r2 w3] eqn:E2.
      assert (Hne : forall e, r2 <> Err e) by
        (unfold try_ in E2; by destruct (complete cfg (next w1)) as [[]]; injection E2 as <- <-).
      destruct r2 as [y|e|]; [|by destruct (Hne e)|]; injection H as <- <-;
        (eexists r1, _, w1, (next w1), _; split_and!; [|exact E|done|exact E2|];
         [done | first [by left | by right]]).
    + injection H as <- <-. eexists r1, _, w1, (next w1), Panic.
      split_and!; [|exact E|done|done|]; [done|by left].
  - rewrite rollback_tx_run. destruct (sql_fails (tick w1)); [intros [= _ <-]; by left|].
    intros H. right. right. cbv [bind fail M_monad] in H.
    destruct (audit_request _ _ _ _ _) as [r1 w2] eqn:E2 in H.
    eexists e, _, w2, r1. split_and!; [|exact E2|..]; [done|..];
      destruct r1; injection H as <- <-; done.
Qed.
End Serve.

Section ServiceSpec.
Context {X : Ext} {O : Oracle}.
Context (mime_parse : string -> option (string * option string)).
Implicit Types (cfg : RelayConfig).


Lemma serve_steps cfg au me ep q v w r w' :
  chains_keyed (db w) -> names_chain ep v -> ep_route ep <> RDelete ->
  serve cfg au me ep q v w = (r, w') -> db_steps (ep_chain ep) (db w) (db w').
Proof.
  intros Hk Hn Hd H. apply serve_cases in H as [-> |
    [(r1&w0&w1&w2&r2&Hw&Hrun&E2&E&_)|(e & w0 & w1 & r1 & Hw & Ha & -> & _)]].
  - reflexivity.
  - rewrite bool_decide_eq_false_2 in E by done. rewrite E, E2. rewrite <-Hw in Hk |- *.
    by apply (run_handler_respects _ _ _ _ _ _ Hn) in Hrun as [? _].
  - rewrite <-Hw in Hk |- *. apply (audit_request_respects (keyed_steps (ep_chain ep))) in Ha;
      [by apply Ha|]. apply audit_entries_respects.
Qed.


Context {XL : ExtLaws X}.

(** The invariant of the service: whatever a request asks and however it
    ends, if every chain that is not deleted is well formed before, with its log
    and its transparency log hash-chained from genesis to the recorded heads, then
    so it is after.  A log staged by an import has no rows yet. *)
Theorem request_keeps_chains cfg rq w r w' :
  service_ok cfg (db w) -> staged_log_unused (db w) ->
  handle mime_parse cfg rq w = (r, w') -> service_ok cfg (db w').
Proof. intros Hs Hu H. by eapply handle_ok. Qed.

Lemma empty_service_ok cfg : service_ok cfg empty_db.
Proof. split; [done|]. intros x _. done. Qed.
End ServiceSpec.
