(* ===== verification/ServiceRel.v ===== *)
(** * Relations that the whole service respects

    What holds of every step on one chain ([db_step], Steps.v), of the rate buckets,
    of the nonces and of the completion of deletions holds of every request and of
    the maintenance: the interface between the handlers and the properties of
    histories (SideTable.v, OperatorRow.v, Interleave.v). *)
From S2P Require Import Prelude Error Json Verify Jcs Wire Query Routes Db Monad Config.
From S2P Require Import Store HashChain Steps StoreFacts StoreSpec Auth AuthFacts Domain.
From S2P Require Import Retention Mutation Deletion Batch Import Read Export Sync.
From S2P Require Import HandlerFacts BatchFacts ChainInv ServiceFacts ServiceInv ServiceSpec.

Lemma respects_mono {O : Oracle} {A} (R R' : Db -> Db -> Prop) (m : M A) :
  (forall d d', R d d' -> R' d d') -> respects R m -> respects R' m.
Proof. intros H Hm w r w' E. by eapply H, Hm. Qed.

(** [QuietRelation] leaves out the nonces, which authentication alone writes. *)
Class QuietRelation {X : Ext} {O : Oracle} (R : Db -> Db -> Prop) : Prop := {
  #[global] sr_preorder :: PreOrder R;
  sr_keyed : forall x d d', keyed_steps x d d' -> R d d';
  sr_rates : forall m d, R d (set_rates m d);
  sr_erase : respects R erase;
  sr_ledgers : forall cfg, respects R (complete_ledgers cfg);
}.
Class ServiceRelation {X : Ext} {O : Oracle} (R : Db -> Db -> Prop) : Prop := {
  #[global] sr_quiet :: QuietRelation R;
  sr_nonces : forall m d, R d (set_nonces m d);
}.

Section Relation.
Context {X : Ext} {O : Oracle} (R : Db -> Db -> Prop) `{!QuietRelation R}.
Implicit Types (c : Chain) (cfg : RelayConfig).

Lemma keyed_respects {A} x (m : M A) : respects (keyed_steps x) m -> respects R m.
Proof. apply respects_mono, sr_keyed. Qed.
Lemma sr_complete cfg : respects R (complete cfg).
Proof. unfold complete. respects_tac idtac; [apply sr_erase|apply sr_ledgers]. Qed.

Lemma rate_rel cfg sc i : respects R (rate cfg sc i).
Proof. unfold rate. respects_tac ltac:(apply sr_rates). Qed.
Hint Resolve rate_rel : respects.

(** ** Requests *)
Lemma loaded x (o : option Chain) (e : ApiError) c :
  (forall c, o = Some c -> chain_id c = x) -> yields (ok_or o e) c -> chain_id c = x.
Proof. intros Ho Hc%yields_ok_or. by apply Ho. Qed.
Lemma audit_reject_rel cfg x r co :
  respects R (Batch.audit_reject cfg x r co).
Proof.
  eapply (keyed_respects x). unfold Batch.audit_reject. keyed_tac idtac; yields_norm.
  - apply transparency_respects. by eapply loaded.
  - apply save_respects. eapply transparency_yields_id; [eassumption|]. by eapply loaded.
Qed.
Lemma savepoint_rel {A} x (m : M A) :
  respects (keyed_steps x) m -> respects R (savepoint m).
Proof.
  intros Hm w r w'. unfold savepoint. rewrite begin_tx_run.
  destruct (sql_fails _); [by intros [= _ <-]|]. rewrite try_run.
  destruct (m (next w)) as [[y|e|] w1] eqn:E; apply Hm in E; simpl in E;
    apply sr_keyed in E; [| |by intros [= _ <-]].
  - assert (Ht : respects R
      (ret tt;;; select (fun _ => tt);;; lift (Ok y))) by respects_tac idtac.
    intros H. apply Ht in H. by etransitivity.
  - cbv [bind M_monad]. unfold exec_ at 1, sql at 1.
    assert (Ht : respects R (select (fun _ => tt);;; lift (A:=A) (Err e)))
      by respects_tac idtac.
    destruct (sql_fails (tick w1)); [by intros [= _ <-]|].
    intros H. exact (Ht (with_db (db w) w1) _ _ H).
Qed.
Lemma enrollment_source_rel cfg src x q v :
  respects R (enrollment_source cfg src x q v).
Proof.
  unfold enrollment_source, write_guard. respects_tac idtac.
  apply (savepoint_rel x). unfold candidate, proof. keyed_tac idtac. yields_norm.
  apply enrollment_request_respects. by eapply loaded.
Qed.

(** ** Start and maintenance *)
Lemma renotice_rel cfg x : respects R (renotice cfg x).
Proof.
  eapply (keyed_respects x). unfold renotice. keyed_tac idtac.
  apply save_respects. eapply publish_notice_yields; [eassumption|]. by apply Hc.
Qed.
Lemma maintenance_rel cfg : respects R (maintenance cfg).
Proof.
  unfold maintenance. apply respects_transaction; [exact _|].
  apply respects_bind; [exact _|respects_tac idtac|]. intros t _.
  apply respects_bind; [exact _|respects_tac idtac|]. intros ids _.
  apply respects_forM; [exact _|]. intros x _.
  eapply (keyed_respects x). keyed_tac idtac.
Qed.
End Relation.

Section Authentication.
Context {X : Ext} {O : Oracle} (R : Db -> Db -> Prop) `{!ServiceRelation R}.

Lemma authenticate_rel cfg rq : respects R (authenticate cfg rq).
Proof.
  unfold authenticate, authorize, capability_key, load, object.
  respects_tac ltac:(apply sr_nonces); [|apply (rate_rel R)].
  unfold reserve_nonce. apply respects_sql; [exact _|]. intros d f d'.
  destruct (t_nonces d !! _); intros [= _ <-]; [done|apply sr_nonces].
Qed.
End Authentication.
