(* ===== verification/History.v ===== *)
(** * The evidence of a chain

    What stays of a chain that is not deleted, as a relation that every transaction
    of the service respects. *)
From S2P Require Import Prelude Error Json Verify Jcs Wire Query Routes Db Monad Config.
From S2P Require Import Store HashChain Steps StoreFacts StoreSpec Auth AuthFacts Domain.
From S2P Require Import Retention Mutation Deletion Batch Import Read Export Sync.
From S2P Require Import HandlerFacts BatchFacts ChainInv ServiceFacts ServiceInv ServiceSpec.
From S2P Require Import ServiceRel.

(** The rows of chain [x] that stay: what was recorded is recorded for good, of an
    object or a log row at most the body of a record or an envelope is erased, and
    a registry row only moves forward. *)
Record chain_kept (x : string) (d d' : Db) : Prop := {
  ck_receipts : forall k i r,
    t_receipts d !! (x, k, i) = Some r -> t_receipts d' !! (x, k, i) = Some r;
  ck_transparency : forall l i r,
    t_transparency d !! (x, l, i) = Some r -> t_transparency d' !! (x, l, i) = Some r;
  ck_heads : forall l i r, t_heads d !! (x, l, i) = Some r -> t_heads d' !! (x, l, i) = Some r;
  ck_outcomes : forall sc i r,
    t_outcomes d !! (x, sc, i) = Some r -> t_outcomes d' !! (x, sc, i) = Some r;
  ck_payload_nonces : forall e i r,
    t_payload_nonces d !! (x, e, i) = Some r -> t_payload_nonces d' !! (x, e, i) = Some r;
  ck_registry : forall i r, t_registry d !! (x, i) = Some r ->
    exists r', t_registry d' !! (x, i) = Some r' /\ moves_forward r r';
  ck_objects : forall k i r, t_objects d !! (x, k, i) = Some r ->
    exists r', t_objects d' !! (x, k, i) = Some r' /\ o_hash r' = o_hash r /\
      (o_body r' = o_body r \/ (o_body r' = None /\ erasable_kind k = true));
  ck_log : forall l i r, t_log d !! (x, l, i) = Some r ->
    exists r', t_log d' !! (x, l, i) = Some r' /\ l_head_hash r' = l_head_hash r /\
      (l_entry r' = l_entry r \/
       (l_entry r' = None /\ exists e, l_entry r = Some e /\ erasable_entry e = true));
}.

#[export] Instance chain_kept_preorder x : PreOrder (chain_kept x).
Proof.
  split.
  - intros d. constructor; try done; eauto 10. intros i r Hr. exists r. by split.
  - intros d1 d2 d3 [A1 A2 A3 A4 A5 A6 A7 A8] [B1 B2 B3 B4 B5 B6 B7 B8].
    constructor; try (by eauto).
    + intros i r Hr. destruct (A6 _ _ Hr) as (r2 & Hr2 & H2).
      destruct (B6 _ _ Hr2) as (r3 & Hr3 & H3). exists r3. split; [done|]. by transitivity r2.
    + intros k i r Hr. destruct (A7 _ _ _ Hr) as (r2 & Hr2 & Hh2 & Hb2).
      destruct (B7 _ _ _ Hr2) as (r3 & Hr3 & Hh3 & Hb3).
      exists r3. split; [done|]. split; [congruence|].
      destruct Hb2 as [Hb2|[]], Hb3 as [Hb3|[]]; [left|right..]; split_and?; congruence.
    + intros l i r Hr. destruct (A8 _ _ _ Hr) as (r2 & Hr2 & Hh2 & Hb2).
      destruct (B8 _ _ _ Hr2) as (r3 & Hr3 & Hh3 & Hb3).
      exists r3. split; [done|]. split; [congruence|].
      destruct Hb2 as [Hb2|[Hb2 He2]], Hb3 as [Hb3|[Hb3 (e & He & Hk)]];
        rewrite ?Hb2 in *; eauto 10.
Qed.

Lemma evidence_chain_kept x d d' : evidence_kept d d' -> chain_kept x d d'.
Proof.
  intros [A1 A2 A3 A4 A5 _ A6 A7 A8].
  constructor; intros; first [by eapply lookup_weaken | by eauto].
Qed.

(** Outside of the chains in [S] everything is kept, and no deletion is lost. *)
Record kept_outside (S : string -> Prop) (d d' : Db) : Prop := {
  ko_keyed : chains_keyed d -> chains_keyed d';
  ko_deletions : forall y, t_deletions d' !! y = None -> t_deletions d !! y = None;
  ko_kept : forall y, ~ S y -> chain_kept y d d';
}.
#[export] Instance kept_outside_preorder S : PreOrder (kept_outside S).
Proof.
  split; [by intros d; split|]. intros d1 d2 d3 [A1 A2 A3] [B1 B2 B3].
  split; [auto|auto|]. intros y Hy. by transitivity d2; auto.
Qed.

(** The chains that are alive afterwards are kept. *)
Record history_kept (d d' : Db) : Prop := {
  hk_keyed : chains_keyed d';
  hk_alive : forall x, t_deletions d' !! x = None -> t_deletions d !! x = None;
  hk_kept : forall x, t_deletions d' !! x = None -> chain_kept x d d';
}.
Definition keeps_history (d d' : Db) : Prop := chains_keyed d -> history_kept d d'.
#[export] Instance keeps_history_preorder : PreOrder keeps_history.
Proof.
  split; [by intros d; split|]. intros d1 d2 d3 H1 H2 Hk.
  destruct (H1 Hk) as [A1 A2 A3]. destruct (H2 A1) as [B1 B2 B3].
  split; [done|auto|]. intros x Hx. transitivity d2; auto.
Qed.

Lemma kept_outside_history d d' :
  kept_outside (fun y => is_Some (t_deletions d !! y)) d d' -> keeps_history d d'.
Proof.
  intros [H1 H2 H3] Hk. split; [auto|done|]. intros x Hx. apply H3.
  rewrite (H2 _ Hx). by intros [].
Qed.

Lemma keyed_steps_history x d d' : keyed_steps x d d' -> keeps_history d d'.
Proof.
  intros H Hk. destruct (H Hk) as [Hs Hk']. apply db_steps_evidence in Hs.
  split; [done| |].
  - intros y Hy. destruct (t_deletions d !! y) eqn:E; [|done].
    eapply lookup_weaken in E; [|exact (ev_deletions _ _ Hs)]. congruence.
  - intros y _. by apply evidence_chain_kept.
Qed.

Section HistoryRespects.
Context {X : Ext} {O : Oracle}.
Implicit Types (c : Chain) (cfg : RelayConfig).

(** The tables of [history_kept] are not those of rates, nonces and cursors. *)
Record same_evidence (d d' : Db) : Prop := {
  se_chains : t_chains d' = t_chains d;
  se_receipts : t_receipts d' = t_receipts d;
  se_transparency : t_transparency d' = t_transparency d;
  se_heads : t_heads d' = t_heads d;
  se_outcomes : t_outcomes d' = t_outcomes d;
  se_payload_nonces : t_payload_nonces d' = t_payload_nonces d;
  se_registry : t_registry d' = t_registry d;
  se_objects : t_objects d' = t_objects d;
  se_log : t_log d' = t_log d;
  se_deletions : t_deletions d' = t_deletions d;
}.
Lemma same_evidence_history d d' : same_evidence d d' -> keeps_history d d'.
Proof.
  intros [Hc Hr Ht Hh Ho Hp Hg Hb Hl Hd] Hk.
  split; [unfold chains_keyed; by rewrite Hc|by rewrite Hd|].
  intros x _. constructor; rewrite ?Hr, ?Ht, ?Hh, ?Ho, ?Hp, ?Hg, ?Hb, ?Hl; try done;
    intros; eexists; (split; [eassumption|]); by eauto.
Qed.
Ltac side_table := apply same_evidence_history; by constructor.

(** ** Deletion *)
Lemma erase_statement_kept (S : string -> Prop) x f d :
  S x -> f ∈ erase_statements x -> kept_outside S d (f d).
Proof.
  intros Hx Hf. unfold erase_statements in Hf.
  assert (Hne : forall y, ~ S y -> y <> x) by (intros y Hy ->; by apply Hy).
  repeat (apply elem_of_cons in Hf as [->|Hf]); [..|by inversion Hf];
    (split; [done|done|]; intros y Hy%Hne; split; cbn; try done; intros;
     try (eexists; split; [apply map_lookup_filter_Some_2; [eassumption|done]|]);
     try (by eauto); try (by apply map_lookup_filter_Some_2)).
  all: eexists; split; [eassumption|]; by eauto.
Qed.
Lemma erase_history : respects keeps_history erase.
Proof.
  unfold erase. apply respects_bind; [exact _| |respects_tac ltac:(done)].
  - apply respects_transaction; [exact _|]. intros w r w' H.
    apply kept_outside_history. revert H. cbv [bind M_monad]. unfold select at 1, sql.
    destruct (sql_fails (tick w)); [by intros [= _ <-]|].
    set (S := fun y => is_Some (t_deletions (db w) !! y)). intros H.
    assert (Hf : respects (kept_outside S)
      (forM (fun kv => forM exec_ (erase_statements (fst kv)))
         (incomplete_deletions (db w));;;
       ret (bool_decide (incomplete_deletions (db w) = [])))).
    { apply respects_bind; [exact _| |intros; apply respects_ret; exact _].
      apply respects_forM; [exact _|]. intros [x row] Hin.
      apply respects_forM; [exact _|]. intros f Hf. apply respects_exec_; [exact _|].
      intros d. eapply erase_statement_kept, Hf. unfold incomplete_deletions in Hin.
      apply list_elem_of_filter in Hin as [_ Hin]. apply elem_of_map_to_list in Hin.
      unfold S. simpl. eauto. }
    by apply Hf in H.
  - intros w r w'. unfold fail_if. case_match; intros [= _ <-]; by intros ?.
Qed.
Lemma complete_row_history cfg kv : respects keeps_history (complete_row cfg kv).
Proof.
  destruct kv as [x row]. unfold complete_row. respects_tac idtac.
  - side_table.
  - intros Hk. split; [done| |].
    + intros y. cbn. destruct (decide (x = y)) as [<-|].
      * rewrite lookup_alter_eq. by destruct (t_deletions d !! _).
      * by rewrite lookup_alter_ne.
    + intros y _. by constructor; cbn; eauto; intros; eexists; split; eauto.
Qed.
Lemma ledgers_history cfg : respects keeps_history (complete_ledgers cfg).
Proof. unfold complete_ledgers. respects_tac idtac. apply complete_row_history. Qed.
#[export] Instance history_relation : ServiceRelation keeps_history.
Proof.
  split; [split; [exact _|exact keyed_steps_history| |exact erase_history|exact ledgers_history]|];
    intros; side_table.
Qed.

Lemma operator_tx_history cfg : respects keeps_history (operator_tx cfg).
Proof. unfold operator_tx. respects_tac side_table. Qed.
End HistoryRespects.
