(* ===== verification/DeletionSpec.v ===== *)
(** * What a deletion promises

    [complete] empties the tables of every chain whose deletion is recorded,
    finishes the proof of the deletion, and leaves every other chain as it is; the
    walk along the enrollments of the deleting device ends. *)
From S2P Require Import Prelude Error Json Verify Jcs Wire Query Routes Db Monad Config.
From S2P Require Import Store HashChain Steps StoreFacts StoreSpec Auth Domain.
From S2P Require Import Retention Mutation Deletion Batch HandlerFacts.

(** No row of chain [x] is left in the tables of its content. *)
Record erased (x : string) (d : Db) : Prop := {
  er_objects : forall k i, t_objects d !! (x, k, i) = None;
  er_log : forall l i, t_log d !! (x, l, i) = None;
  er_registry : forall i, t_registry d !! (x, i) = None;
  er_outcomes : forall sc i, t_outcomes d !! (x, sc, i) = None;
  er_offers : forall i, t_offers d !! (x, i) = None;
  er_cursors : forall t row, t_cursors d !! t = Some row -> cu_chain row <> x;
  er_imports : t_imports d !! x = None;
  er_payload_nonces : forall e i, t_payload_nonces d !! (x, e, i) = None;
  er_registry_history :
    Forall (fun r => rh_chain (snd r) <> x) (hist_rows (t_registry_history d));
  er_offer_history :
    Forall (fun r => oh_chain (snd r) <> x) (hist_rows (t_offer_history d));
  er_handoffs : forall e, t_handoffs d !! (x, e) = None;
}.

Definition wipe (x : string) (d : Db) : Db :=
  fold_left (fun d f => f d) (erase_statements x) d.

Lemma filter_key_None {K V} `{Countable K} (P : K * V -> Prop) `{!forall x, Decision (P x)}
    (m : gmap K V) k :
  (forall v, ~ P (k, v)) -> filter P m !! k = None.
Proof. intros Hn. apply map_lookup_filter_None. right. by intros v _. Qed.
Lemma filter_key_same {K V} `{Countable K} (P : K * V -> Prop) `{!forall x, Decision (P x)}
    (m : gmap K V) k :
  (forall v, P (k, v)) -> filter P m !! k = m !! k.
Proof.
  intros Hp. destruct (m !! k) as [v|] eqn:E.
  - by apply map_lookup_filter_Some_2.
  - apply map_lookup_filter_None. by left.
Qed.
Lemma filter_member_ne {A} (f : A -> string) x (l : list A) :
  Forall (fun r => f r <> x) (List.filter (fun r => negb (String.eqb (f r) x)) l).
Proof.
  apply List.Forall_forall. intros r Hr. apply List.filter_In in Hr as [_ Hr].
  by apply negb_true_iff, String.eqb_neq in Hr.
Qed.
Lemma Forall_List_filter {A} (P : A -> Prop) p (l : list A) :
  Forall P l -> Forall P (List.filter p l).
Proof.
  rewrite !List.Forall_forall. intros Hl r Hr. apply Hl. by apply List.filter_In in Hr as [Hr _].
Qed.
(** The rows of [y] after those of [x] are dropped. *)
Lemma filter_others {A} (f : A -> string) x y (l : list A) : x <> y ->
  filter (fun r => f r = y) (List.filter (fun r => negb (String.eqb (f r) x)) l)
  = filter (fun r => f r = y) l.
Proof.
  intros Hxy. induction l as [|r l IH]; [done|]. simpl. destruct (String.eqb_spec (f r) x); simpl.
  - rewrite IH, filter_cons_False by congruence. done.
  - rewrite !filter_cons, IH. done.
Qed.

Ltac wiped := cbn [wipe fold_left erase_statements history_filter hist_rows
  t_chains t_receipts t_transparency t_heads t_deletions t_notices t_objects t_log
  t_registry t_outcomes t_offers t_cursors t_imports t_payload_nonces t_registry_history
  t_offer_history t_handoffs set_objects set_log set_registry set_outcomes set_offers
  set_cursors set_imports set_payload_nonces set_registry_history set_offer_history
  set_handoffs]; intros.

Lemma wipe_erased x d : erased x (wipe x d).
Proof.
  split; wiped; try (apply filter_key_None; intros v Hv; by apply Hv).
  - by apply map_lookup_filter_Some in H as [_ H].
  - apply (filter_member_ne (fun r => rh_chain (snd r))).
  - apply (filter_member_ne (fun r => oh_chain (snd r))).
Qed.
Lemma erased_wipe x y d : erased x d -> erased x (wipe y d).
Proof.
  intros []. split; wiped;
    try (apply map_lookup_filter_None; left; done); try by apply Forall_List_filter.
  apply map_lookup_filter_Some in H as [H _]. by eapply er_cursors0.
Qed.
Lemma wipe_others x y d : x <> y -> same_chain_rows y d (wipe x d).
Proof.
  intros Hxy. split; wiped; try done;
    try (by apply filter_key_same; intros v; simpl; congruence).
  - apply map_lookup_filter_Some_2; [done|]. simpl. congruence.
  - by apply (filter_others (fun r => rh_chain (snd r))).
  - by apply (filter_others (fun r => oh_chain (snd r))).
Qed.

(** ** Erasure *)
Definition wipe_all (l : list (string * DeletionRow)) (d : Db) : Db :=
  fold_left (fun d kv => wipe (fst kv) d) l d.

Lemma wipe_all_erased x l d :
  erased x d \/ x ∈ l.*1 -> erased x (wipe_all l d).
Proof.
  revert d. induction l as [|[y row] l IH]; intros d [H|H]; simpl.
  - done.
  - by apply elem_of_nil in H.
  - apply IH. left. by apply erased_wipe.
  - apply elem_of_cons in H as [->|H]; apply IH; [left; apply wipe_erased | by right].
Qed.
Lemma wipe_all_others y l d : y ∉ l.*1 -> same_chain_rows y d (wipe_all l d).
Proof.
  revert d. induction l as [|[x row] l IH]; intros d Hy; [done|]. simpl in *.
  apply not_elem_of_cons in Hy as [Hne Hy]. etransitivity; [by apply (wipe_others x)|].
  by apply IH.
Qed.
Lemma wipe_all_ledgers l d :
  t_deletions (wipe_all l d) = t_deletions d /\
  t_delete_versions (wipe_all l d) = t_delete_versions d.
Proof. revert d. induction l as [|kv l IH]; intros d; [done|]. apply (IH (wipe (fst kv) d)). Qed.

Section Complete.
Context {X : Ext} {O : Oracle}.
Implicit Types (cfg : RelayConfig).

Lemma forM_exec_ok fs w u w' :
  forM exec_ fs w = (Ok u, w') -> db w' = fold_left (fun d f => f d) fs (db w).
Proof.
  revert w. induction fs as [|f fs IH]; intros w H; cbn [forM] in H; m_inv H; [done|].
  by apply IH in H.
Qed.
Lemma forM_wipe_ok l w u w' :
  forM (fun kv => forM exec_ (erase_statements (fst kv))) l w = (Ok u, w') ->
  db w' = wipe_all l (db w).
Proof.
  revert w. induction l as [|kv l IH]; intros w H; cbn [forM] in H; m_inv H; [done|].
  apply IH in H. rewrite H. apply forM_exec_ok in Hm. by rewrite Hm.
Qed.

Lemma transaction_ok {A} (m : M A) w x w' :
  transaction false m w = (Ok x, w') -> exists w1, m (next w) = (Ok x, w1) /\ db w' = db w1.
Proof.
  unfold transaction, commit. destruct (sql_fails _); [done|].
  destruct (m (next w)) as [[y|e|] w1]; [|done..].
  destruct (sql_fails _); intros [= <- <-]. eauto.
Qed.

Lemma erase_ok w u w' :
  erase w = (Ok u, w') -> db w' = wipe_all (incomplete_deletions (db w)) (db w).
Proof.
  unfold erase. intros H. m_inv H;
    match goal with H : transaction _ _ _ = _ |- _ =>
      apply transaction_ok in H as (w1 & H1 & Hd) end; m_inv H1;
    match goal with H : forM _ _ _ = _ |- _ => apply forM_wipe_ok in H end;
    simpl in *; congruence.
Qed.

(** ** The ledgers *)
Definition only_ledgers (d d' : Db) : Prop :=
  exists m v, d' = set_deletions m (set_delete_versions v d).
#[export] Instance only_ledgers_preorder : PreOrder only_ledgers.
Proof.
  split.
  - intros d. exists (t_deletions d), (t_delete_versions d). by destruct d.
  - intros d1 d2 d3 (m & v & ->) (m' & v' & ->). by exists m', v'.
Qed.
Lemma only_ledgers_erased x d d' : only_ledgers d d' -> erased x d -> erased x d'.
Proof. intros (m & v & ->) []. by split. Qed.
Lemma only_ledgers_rows y d d' :
  only_ledgers d d' -> t_deletions d' !! y = t_deletions d !! y -> same_chain_rows y d d'.
Proof. intros (m & v & ->) H. by split. Qed.

(** The row of a finished deletion: its ledger has a completion time, and the
    receipt is signed over it. *)
Definition completes cfg (row row' : DeletionRow) : Prop :=
  exists t p, completed_proof cfg (de_proof row) t = Ok p /\ row' = set_proof p row.

Lemma completed_proof_ok cfg p t p' : completed_proof cfg p t = Ok p' ->
  get (get p' "ledger") "completed_at_ms" = Num t /\
  get (get p' "ledger") "receipt_hash" = Str (object_hash (remove_member
    (set_member (get p "ledger") "completed_at_ms" (Num t)) "receipt_hash")).
Proof.
  unfold completed_proof. intros H. res_inv H. cbv zeta in *.
  match goal with H : (if ?b then _ else _) = Ok _ |- _ => destruct b eqn:E; [|done]; clear H end.
  apply andb_true_iff in E as [[E1 E2]%andb_true_iff _].
  assert (Hp : forall k l x, get (set_member (set_member p k l) "delete_receipt" x) k
    = if String.eqb k "delete_receipt" then x else l).
  { intros k l x'. rewrite get_set_settable by (by apply settable_set).
    rewrite get_set_settable by done. by rewrite String.eqb_refl. }
  rewrite Hp. simpl. split.
  - rewrite get_set_settable by (by apply settable_set). simpl. by rewrite get_set_settable.
  - by rewrite get_set_settable by (by apply settable_set).
Qed.
Lemma completes_done cfg row row' : completes cfg row row' -> incomplete row' = false.
Proof.
  intros (t & p & Hp & ->). unfold incomplete. cbn [de_proof set_proof].
  by destruct (completed_proof_ok _ _ _ _ Hp) as [-> _].
Qed.

Lemma complete_row_ok cfg x row w u w' :
  complete_row cfg (x, row) w = (Ok u, w') ->
  only_ledgers (db w) (db w') /\
  exists t p, completed_proof cfg (de_proof row) t = Ok p /\
    t_deletions (db w') = alter (set_proof p) x (t_deletions (db w)).
Proof.
  unfold complete_row. intros H. m_inv H. simpl. split; [|by eauto].
  by eexists _, _.
Qed.

Lemma complete_rows_ok cfg l w u w' :
  forM (complete_row cfg) l w = (Ok u, w') -> NoDup l.*1 ->
  (forall x row, (x, row) ∈ l -> t_deletions (db w) !! x = Some row) ->
  only_ledgers (db w) (db w') /\
  (forall x row, (x, row) ∈ l ->
    exists row', t_deletions (db w') !! x = Some row' /\ completes cfg row row') /\
  (forall x, x ∉ l.*1 -> t_deletions (db w') !! x = t_deletions (db w) !! x).
Proof.
  revert w. induction l as [|[x row] l IH]; intros w H Hn Hl; cbn [forM] in H; m_inv H.
  { split_and!; [done| |done]. by intros x row ?%elem_of_nil. }
  apply NoDup_cons in Hn as [Hx Hn].
  apply complete_row_ok in Hm as (Ho & t & p & Hp & Hd). apply IH in H as (Ho' & Hin & Hout);
    [|done|].
  - split_and!; [by etransitivity| |].
    + intros y row' [[= -> ->]|Hy]%elem_of_cons; [|by apply Hin].
      rewrite (Hout x Hx), Hd, lookup_alter_eq, (Hl x row) by apply list_elem_of_here.
      eexists; split; [done|]. by exists t, p.
    + intros y [Hne Hy]%not_elem_of_cons. rewrite Hout, Hd by done.
      by apply lookup_alter_ne.
  - intros y row' Hy. rewrite Hd, lookup_alter_ne; [by apply Hl; right|].
    intros <-. apply Hx. apply list_elem_of_fmap. by exists (x, row').
Qed.

Lemma incomplete_elem x row d :
  (x, row) ∈ incomplete_deletions d <-> t_deletions d !! x = Some row /\ incomplete row = true.
Proof.
  unfold incomplete_deletions. rewrite list_elem_of_filter, elem_of_map_to_list. naive_solver.
Qed.
Lemma incomplete_keys x d :
  x ∈ (incomplete_deletions d).*1 <->
  exists row, t_deletions d !! x = Some row /\ incomplete row = true.
Proof.
  rewrite list_elem_of_fmap. split.
  - intros ([y row] & -> & H%incomplete_elem). eauto.
  - intros (row & H). exists (x, row). split; [done|]. by apply incomplete_elem.
Qed.
Lemma incomplete_nodup d : NoDup (incomplete_deletions d).*1.
Proof.
  eapply sublist_NoDup; [apply (NoDup_fst_map_to_list (t_deletions d))|].
  apply fmap_sublist, sublist_filter.
Qed.
Lemma incomplete_same d d' :
  t_deletions d' = t_deletions d -> incomplete_deletions d' = incomplete_deletions d.
Proof. unfold incomplete_deletions. by intros ->. Qed.

Lemma complete_ok cfg w u w' :
  complete cfg w = (Ok u, w') ->
  (forall x row, t_deletions (db w) !! x = Some row -> incomplete row = true ->
    erased x (db w') /\
    exists row', t_deletions (db w') !! x = Some row' /\ completes cfg row row' /\
                 incomplete row' = false) /\
  (forall y, (forall row, t_deletions (db w) !! y = Some row -> incomplete row = false) ->
    same_chain_rows y (db w) (db w')).
Proof.
  unfold complete, complete_ledgers. intros H. m_inv H. apply erase_ok in Hm.
  apply transaction_ok in H as (w1 & H & Hd). m_inv H. simpl in H.
  destruct (wipe_all_ledgers (incomplete_deletions (db w)) (db w)) as [Hl _].
  rewrite <-Hm in Hl. rewrite (incomplete_same _ _ Hl) in H.
  apply complete_rows_ok in H as (Ho & Hin & Hout); [|apply incomplete_nodup|].
  2: { intros x' row [Hr _]%incomplete_elem. simpl. by rewrite Hl. }
  simpl in *. rewrite Hd. split.
  - intros y row Hr Hi. split.
    + eapply only_ledgers_erased; [done|]. rewrite Hm. apply wipe_all_erased. right.
      apply incomplete_keys. eauto.
    + destruct (Hin y row) as (row' & Hr' & Hc); [by apply incomplete_elem|].
      eauto using completes_done.
  - intros y Hy. assert (Hk : y ∉ (incomplete_deletions (db w)).*1).
    { intros (row & Hr & Hi)%incomplete_keys. apply Hy in Hr. congruence. }
    etransitivity; [by apply wipe_all_others|]. rewrite <-Hm.
    apply only_ledgers_rows; [done|]. by apply Hout.
Qed.

(** (C23) A deletion runs to its end: when [complete] succeeds, of every chain with an
    unfinished deletion no object, log row, registry row, outcome, offer, cursor,
    import, payload nonce, history row or handoff is left, and its deletion is
    finished with a completion time in the signed ledger; the rows of every other
    chain are as they were. *)
Theorem complete_erases cfg w u w' :
  complete cfg w = (Ok u, w') ->
  (forall x row, t_deletions (db w) !! x = Some row -> incomplete row = true ->
    erased x (db w') /\
    exists row', t_deletions (db w') !! x = Some row' /\ completes cfg row row' /\
                 incomplete row' = false) /\
  (forall y, (forall row, t_deletions (db w) !! y = Some row -> incomplete row = false) ->
    same_chain_rows y (db w) (db w')).
Proof.
  intros H. destruct (complete_ok _ _ _ _ H) as [Hpending Hothers].
  split; [exact Hpending | exact Hothers].
Qed.
End Complete.

(** ** The walk along the enrollments *)
Section Walk.
Context {X : Ext} {O : Oracle}.

(** Distinct keys of a map are no more than its rows. *)
Lemma keys_bound {A V} `{Countable K} (f : A -> K) `{!Inj (=) (=) f} (m : gmap K V) l :
  NoDup l -> Forall (fun x => is_Some (m !! f x)) l -> (length l <= size m)%nat.
Proof.
  intros Hn Hl. rewrite <-(length_fmap f l), <-size_dom, <-(size_list_to_set (C:=gset K)).
  - apply subseteq_size. intros k Hk%elem_of_list_to_set.
    apply list_elem_of_fmap in Hk as (x & -> & Hx). apply elem_of_dom.
    by eapply Forall_forall in Hl.
  - by apply NoDup_fmap.
Qed.

Definition device_stored (chain : string) (d : Db) (id : string) : Prop :=
  is_Some (t_objects d !! (chain, KDevice, id)).

Lemma object_runs chain k i w r w' :
  object chain k i w = (r, w') -> db w' = db w /\
    r <> Panic /\ (forall v, r = Ok (Some v) -> is_Some (t_objects (db w) !! (chain, k, i))).
Proof.
  unfold object, select, sql. destruct (sql_fails _); intros [= <- <-].
  - by split_and!.
  - split_and!; try done. simpl. intros v [= Hv]. apply bind_Some in Hv as (o & -> & _). eauto.
Qed.

Lemma enrollment_chain_total fuel chain seen current key certs w :
  NoDup seen -> Forall (device_stored chain (db w)) seen ->
  (length seen + fuel > S (size (t_objects (db w))))%nat ->
  fst (enrollment_chain fuel chain seen current key certs w) <> Panic.
Proof.
  revert seen current key certs w. induction fuel as [|fuel IH];
    intros seen current key certs w Hn Hs Hf; cbn [enrollment_chain].
  - pose proof (keys_bound (fun i => (chain, KDevice, i)) _ seen Hn Hs). lia.
  - cbv [bind M_monad]. unfold fail_if. destruct (mem current seen) eqn:Hc; [done|]. simpl.
    destruct (object chain KDevice current w) as [r w1] eqn:E.
    apply object_runs in E as (Hd & Hr & Hst). destruct r as [[d|]|e|]; [|done..].
    simpl. case_match; [done|]. apply IH.
    + apply NoDup_cons. split; [|done]. intros Hin. apply not_true_iff_false in Hc as [].
      apply existsb_exists. exists current. split; [by apply list_elem_of_In|].
      apply String.eqb_refl.
    + rewrite Hd. constructor; [by eapply Hst|done].
    + rewrite Hd. simpl. lia.
Qed.

(** The walk from the deleting device up to an enrollment by the administrator
    ends: a cycle of enrollments is an error, never a loop. *)
Theorem certificates_of_total chain device w :
  fst (certificates_of chain device w) <> Panic.
Proof.
  unfold certificates_of. destruct device as [id|]; [|done].
  apply enrollment_chain_total; [constructor..|simpl; lia].
Qed.
End Walk.
