(* ===== verification/SideTable.v ===== *)
(** * Tables that no handler writes

    The operator's row and the replay nonces: what a handler, a deletion or the
    maintenance does leaves such a table as it is. *)
From S2P Require Import Prelude Error Json Verify Jcs Wire Query Routes Db Monad Config.
From S2P Require Import Store HashChain Steps StoreFacts StoreSpec Auth AuthFacts Domain.
From S2P Require Import Retention Mutation Deletion Batch Import Read Export Sync.
From S2P Require Import HandlerFacts BatchFacts ChainInv ServiceFacts ServiceInv ServiceSpec.
From S2P Require Import ServiceRel History.

Class SideTable {T} (f : Db -> T) : Prop := {
  sd_step : forall x d d', db_step x d d' -> f d' = f d;
  sd_rates : forall m d, f (set_rates m d) = f d;
  sd_erase : forall x g d, g ∈ erase_statements x -> f (g d) = f d;
  sd_versions : forall m d, f (set_delete_versions m d) = f d;
  sd_deletions : forall m d, f (set_deletions m d) = f d;
}.

Section SideTable.
Context {T : Type} (f : Db -> T).

Definition same_table (d d' : Db) : Prop := f d' = f d.
#[export] Instance same_table_preorder : PreOrder same_table.
Proof. split; [done|]. unfold same_table. intros ???. congruence. Qed.
(** The chains stay keyed by their ids as well. *)
Definition keeps_table (d d' : Db) : Prop := chains_keyed d -> chains_keyed d' /\ same_table d d'.
#[export] Instance keeps_table_preorder : PreOrder keeps_table.
Proof.
  split; [by intros d|]. intros d1 d2 d3 H1 H2 Hk. destruct (H1 Hk) as [K2 E2].
  destruct (H2 K2) as [K3 E3]. split; [done|by transitivity d2].
Qed.

Context `{!SideTable f} {X : Ext} {O : Oracle}.
Lemma steps_same x d d' : db_steps x d d' -> same_table d d'.
Proof.
  induction 1 as [|d d1 d2 Hs _ IH]; [done|]. transitivity d1; [by eapply sd_step|done].
Qed.
Lemma erase_same : respects same_table erase.
Proof.
  unfold erase. respects_tac idtac; [by eapply sd_erase|].
  intros w r w'. unfold fail_if. by case_match; intros [= _ <-].
Qed.
Lemma ledgers_same cfg : respects same_table (complete_ledgers cfg).
Proof.
  unfold complete_ledgers, complete_row.
  respects_tac idtac; [apply sd_versions|apply sd_deletions].
Qed.
#[export] Instance side_relation : QuietRelation keeps_table.
Proof.
  split; [exact _| | | |].
  - intros x d d' H Hk. destruct (H Hk) as [Hs Hk']. split; [done|]. by eapply steps_same.
  - intros m d Hk. split; [done|apply sd_rates].
  - intros w r w' H Hk. split; [by apply (erase_history _ _ _ H)|by eapply erase_same].
  - intros cfg w r w' H Hk. split; [by apply (ledgers_history cfg _ _ _ H)|by eapply ledgers_same].
Qed.
End SideTable.

Ltac side_table_tac :=
  split; try done; [by intros x d d' []|];
  intros x g d Hg; unfold erase_statements in Hg;
  repeat (apply elem_of_cons in Hg as [->|Hg]; [done|]); by apply elem_of_nil in Hg.
#[export] Instance operator_side : SideTable t_operator.
Proof. side_table_tac. Qed.
#[export] Instance nonces_side : SideTable t_nonces.
Proof. side_table_tac. Qed.

Definition keeps_operator : Db -> Db -> Prop := keeps_table t_operator.
#[export] Instance operator_relation {X : Ext} {O : Oracle} : ServiceRelation keeps_operator.
Proof. split; [exact (side_relation t_operator)|]. by intros m d. Qed.
