(* ===== verification/OperatorRow.v ===== *)
(** * The operator's row

    [v3_operator] ties a store to its relay: only the first transaction of a start
    writes it, and it only moves forward. *)
From S2P Require Import Prelude Error Json Verify Jcs Wire Query Routes Db Monad Config.
From S2P Require Import Store HashChain Steps StoreFacts StoreSpec Auth AuthFacts Domain.
From S2P Require Import Retention Mutation Deletion Batch Import Read Export Sync.
From S2P Require Import HandlerFacts BatchFacts ChainInv ServiceFacts ServiceInv ServiceSpec.
From S2P Require Import ServiceRel History SideTable DeletionSpec.

(** The row only moves forward: the same relay, with a revision that does not go
    back, and one disclosure per revision. *)
Definition revision_of (r : OperatorRow) : Z := op_revision r mod 2 ^ 64.
Record row_forward (r r' : OperatorRow) : Prop := {
  rf_origin : op_origin r' = op_origin r;
  rf_key : op_key_id r' = op_key_id r;
  rf_revision : revision_of r <= revision_of r';
  rf_hash : revision_of r = revision_of r' -> op_disclosure_hash r' = op_disclosure_hash r;
}.
#[export] Instance row_forward_preorder : PreOrder row_forward.
Proof.
  split; [by intros r; split|]. intros r1 r2 r3 [A1 A2 A3 A4] [B1 B2 B3 B4].
  split; [congruence|congruence|lia|]. intros E. rewrite B4, A4 by lia. done.
Qed.
Definition operator_forward (d d' : Db) : Prop :=
  forall r, t_operator d = Some r -> exists r', t_operator d' = Some r' /\ row_forward r r'.
#[export] Instance operator_forward_preorder : PreOrder operator_forward.
Proof.
  split; [intros d r Hr; by exists r|]. intros d1 d2 d3 H1 H2 r Hr.
  destruct (H1 r Hr) as (r2 & Hr2 & F2). destruct (H2 r2 Hr2) as (r3 & Hr3 & F3).
  exists r3. split; [done|]. by transitivity r2.
Qed.

Section Start.
Context {X : Ext} {O : Oracle}.
Implicit Types (cfg : RelayConfig).

(** ** A start *)
(** The row is that of the configuration. *)
Definition operator_is cfg (d : Db) : Prop := exists r, t_operator d = Some r /\
  op_origin r = origin cfg /\ op_key_id r = key_id cfg /\
  revision_of r = n (privacy cfg) "revision" /\
  op_disclosure_hash r = object_hash (privacy cfg).

Lemma revision_n cfg : n (privacy cfg) "revision" mod 2 ^ 64 = n (privacy cfg) "revision".
Proof. apply Z.mod_small. pose proof (n_bounds (privacy cfg) "revision"). unfold u64_max in *. lia. Qed.
Lemma upsert_forward cfg d :
  match t_operator d with Some row => operator_conflict cfg row | None => false end = false ->
  operator_forward d (upsert_operator cfg d) /\ operator_is cfg (upsert_operator cfg d).
Proof.
  unfold operator_forward, operator_is, upsert_operator, operator_conflict. simpl.
  destruct (t_operator d) as [old|]; intros H; split.
  - bsimp. intros r [= <-]. eexists. split; [done|].
    split; unfold revision_of; simpl; rewrite ?revision_n; try done.
    intros E. rewrite E, Z.eqb_refl in H0. simpl in H0. bsimp. congruence.
  - bsimp. eexists. split; [done|]. unfold revision_of. simpl. by rewrite revision_n.
  - done.
  - eexists. split; [done|]. unfold revision_of. simpl. by rewrite revision_n.
Qed.
Lemma operator_tx_ok cfg w w' : operator_tx cfg w = (Ok tt, w') ->
  operator_forward (db w) (db w') /\ operator_is cfg (db w') /\
  t_chains (db w') = t_chains (db w).
Proof.
  intros (w1 & H & ->)%transaction_ok. m_inv H; apply upsert_forward in Hm as [H1 H2]; done.
Qed.

Lemma operator_is_forward cfg cfg' d d' :
  operator_is cfg d -> operator_is cfg' d' -> operator_forward d d' ->
  origin cfg' = origin cfg /\ key_id cfg' = key_id cfg /\
  n (privacy cfg) "revision" <= n (privacy cfg') "revision" /\
  (n (privacy cfg) "revision" = n (privacy cfg') "revision" ->
   object_hash (privacy cfg') = object_hash (privacy cfg)).
Proof.
  intros (r & Hr & A1 & A2 & A3 & A4) (r' & Hr' & B1 & B2 & B3 & B4) Hf.
  destruct (Hf r Hr) as (r2 & Hr2 & [C1 C2 C3 C4]). assert (r2 = r') as -> by congruence.
  split_and!; [congruence|congruence|lia|]. intros E. rewrite <-A4, <-B4. apply C4. lia.
Qed.

(** What a step of the process does to the row. *)
Definition moves_operator (d d' : Db) : Prop :=
  chains_keyed d -> chains_keyed d' /\ operator_forward d d'.
#[export] Instance moves_operator_preorder : PreOrder moves_operator.
Proof.
  split; [by intros d; split|]. intros d1 d2 d3 H1 H2 Hk. destruct (H1 Hk) as [K2 E2].
  destruct (H2 K2) as [K3 E3]. split; [done|]. by transitivity d2.
Qed.
Lemma keeps_moves d d' : keeps_operator d d' -> moves_operator d d'.
Proof.
  intros H Hk. destruct (H Hk) as [Hk' Ho]. split; [done|].
  unfold operator_forward. rewrite Ho. apply operator_forward_preorder.
Qed.
#[export] Instance moves_relation : ServiceRelation moves_operator.
Proof.
  split; [split; [exact _| | | |]|].
  - intros x d d' H. by apply keeps_moves, (sr_keyed x).
  - intros m d. apply keeps_moves, sr_rates.
  - eapply respects_mono; [exact keeps_moves|apply sr_erase].
  - intros cfg. eapply respects_mono; [exact keeps_moves|apply sr_ledgers].
  - intros m d. apply keeps_moves, sr_nonces.
Qed.
Lemma operator_tx_moves cfg : respects moves_operator (operator_tx cfg).
Proof.
  intros w r w' H Hk. apply transaction_atomic in H as Hd.
  destruct Hd as [-> | (x & w1 & -> & _ & _)]; [by split|]. destruct x.
  apply operator_tx_ok in H as (Hf & _ & Hc). split; [unfold chains_keyed; by rewrite Hc|done].
Qed.
End Start.
