(* ===== verification/ConcurrentRuns.v ===== *)
(** * A request that nothing interrupts

    The programs of Concurrent.v, run without anything in between, are the sequential
    definitions of Sync.v, Batch.v and Main.v: so what is proved of [handle] is proved
    of the request as a tree of transactions. *)
From S2P Require Import Prelude Error Json Verify Jcs Wire Query Routes Db Monad Config.
From S2P Require Import Store HashChain Steps StoreFacts StoreSpec Auth AuthFacts Domain.
From S2P Require Import Retention Mutation Deletion Batch Import Read Export Sync Concurrent.
From S2P Require Import HandlerFacts BatchFacts ChainInv ServiceFacts ServiceInv ServiceSpec.
From S2P Require Import ServiceRel History.

(** ** A program on its own *)
Section Runs.
Context {X : Ext} {O : Oracle}.
Context (mime_parse : string -> option (string * option string)).
Context (free : bool).

Definition runs {A} (p : Prog A) (m : M A) : Prop := forall w, run free p w = m w.

Lemma run_bind {A B} (p : Prog A) (f : A -> Prog B) w :
  run free (bind p f) w = bind (run free p) (fun x => run free (f x)) w.
Proof.
  cbv [bind Prog_monad M_monad]. revert w.
  induction p as [[x|e|]|B' m k IH|x k IH]; intros w; simpl; [done..| |apply IH].
  destruct (m w) as [r w1]. apply IH.
Qed.
Lemma runs_bind {A B} (p : Prog A) (m : M A) (f : A -> Prog B) g :
  runs p m -> (forall x, runs (f x) (g x)) -> runs (bind p f) (bind m g).
Proof.
  intros Hp Hf w. rewrite run_bind. cbv [bind M_monad]. rewrite Hp.
  destruct (m w) as [[x|e|] w1]; [apply Hf|done..].
Qed.
Lemma runs_atomic {A} (m : M A) : runs (atomic m) m.
Proof. intros w. simpl. by destruct (m w). Qed.
Lemma runs_stop {A} (r : Result A) : runs (Stop r) (lift r).
Proof. done. Qed.
Lemma runs_ret {A} (x : A) : runs (ret x) (ret x).
Proof. done. Qed.
Lemma runs_fail {A} e : runs (fail (A:=A) e) (fail e).
Proof. done. Qed.
Lemma runs_fail_if b e : runs (fail_if b e) (fail_if b e).
Proof. by destruct b. Qed.
Lemma runs_outcome {A} (p : Prog A) m : runs p m -> runs (outcome_of p) (try_ m).
Proof.
  intros Hp w. unfold try_. rewrite <-Hp. clear Hp. revert w.
  induction p as [[x|e|]|B m' k IH|x k IH]; intros w; simpl; [done..| |apply IH].
  destruct (m' w) as [r w1]. apply IH.
Qed.
(** Three actions of the handler as one of the program. *)
Lemma runs_bind3 {A B D E'} (p : Prog D) (a : M A) (b : M B) (c : M D) (f : D -> Prog E') g :
  runs p (a ;;; b ;;; c) -> (forall x, runs (f x) (g x)) ->
  runs (bind p f) (a ;;; b ;;; bind c g).
Proof.
  intros Hp Hf w. rewrite (runs_bind _ _ _ g Hp Hf). cbv [bind M_monad].
  destruct (a w) as [[x|e|] w1]; [|done..]. by destruct (b w1) as [[y|e|] w2].
Qed.
Lemma runs_ext {A} (p : Prog A) m m' : (forall w, m w = m' w) -> runs p m -> runs p m'.
Proof. intros E H w. by rewrite H. Qed.

Lemma M_assoc {A B D} (m : M A) (f : A -> M B) (g : B -> M D) w :
  bind (bind m f) g w = bind m (fun x => bind (f x) g) w.
Proof. cbv [bind M_monad]. by destruct (m w) as [[]]. Qed.
End Runs.

(** [runs_tac] follows the shape that a program and its handler share. *)
Ltac runs_tac :=
  intros; cbv zeta;
  lazymatch goal with
  | |- runs _ (bind _ _) (bind _ _) => apply runs_bind; runs_tac
  | |- runs _ (atomic ?m) ?m => apply runs_atomic
  | |- runs _ (atomic ?m) _ => apply runs_atomic
  | |- runs _ (Stop _) (lift _) => apply runs_stop
  | |- runs _ (ret _) (ret _) => apply runs_ret
  | |- runs _ (fail _) (fail _) => apply runs_fail
  | |- runs _ (fail_if _ _) (fail_if _ _) => apply runs_fail_if
  | |- runs _ (outcome_of _) (try_ _) => apply runs_outcome; runs_tac
  | |- runs _ (match ?x with _ => _ end) (match ?x with _ => _ end) => destruct x; runs_tac
  | |- _ => idtac
  end.

Section Uninterrupted.
Context {X : Ext} {O : Oracle}.
Context (mime_parse : string -> option (string * option string)).
Implicit Types (c : Chain) (cfg : RelayConfig).

Lemma complete_runs b cfg : runs b (complete_prog cfg) (complete cfg).
Proof. unfold complete_prog, complete. runs_tac. Qed.

(** The transaction of [serve], and what comes after it. *)
Lemma serve_split cfg au me ep q v w :
  serve cfg au me ep q v w = bind (serve_tx cfg au me ep q v) (fun served =>
    match served with
    | Answered r => ret r
    | Committed r =>
        (if bool_decide (ep_route ep = RDelete)
         then try_ (complete cfg) ;;; ret tt else ret tt) ;;;
        ret r
    | Refused e => audit_request cfg (ep_chain ep) v (code e) ;;; fail e
    end) w.
Proof.
  unfold serve, serve_tx. rewrite M_assoc, !begin_tx_run. destruct (sql_fails _); [done|].
  rewrite M_assoc. unfold proof. rewrite !select_run. destruct (sql_fails _); [done|].
  destruct (de_proof <$> _) as [p|].
  - rewrite M_assoc. cbv [bind M_monad ret]. by destruct (deleted_answer _ _ _ _ _ _) as [[]].
  - rewrite M_assoc, !try_tx_run. destruct (run_handler _ _ _ _ _ _ _) as [[r|e|] w1].
    + rewrite M_assoc, !commit_tx_run. by destruct (sql_fails _).
    + rewrite M_assoc, !rollback_tx_run. by destruct (sql_fails _).
    + done.
Qed.
Lemma serve_runs b cfg au me ep q v :
  runs b (serve_prog cfg au me ep q v) (serve cfg au me ep q v).
Proof.
  refine (runs_ext b _ (bind _ _) _ (fun w => eq_sym (serve_split cfg au me ep q v w)) _).
  unfold serve_prog. runs_tac. apply complete_runs.
Qed.

Lemma step_split cfg au x rt pa v i r rest b w :
  upload_step cfg au x rt pa v i r rest b w = bind (item_tx cfg au x rt pa v i r) (fun it =>
    match it with
    | Failed seen e =>
        stop rt e (r :: rest) match seen with Some c => first_chain c b | None => b end
    | Accepted seen c item receipt => ret (true, accept_item item receipt c (first_chain seen b))
    | Rejected seen e => reject_step cfg x rt e r rest (first_chain seen b)
    end) w.
Proof.
  unfold upload_step, item_tx. rewrite M_assoc, !try_run.
  destruct (begin_tx w) as [[d0|e|] w1]; [|done..]. rewrite M_assoc, !try_run.
  destruct ((let! c := load x in ok_or c (err CHAIN_NOT_FOUND)) w1) as [[c|e|] w2]; [| |done].
  - rewrite M_assoc, !try_tx_run.
    destruct (attempt_and_save _ _ _ _ _ _ _ _ _ _) as [[[c' [item receipt]]|e|] w3]; [| |done].
    + rewrite M_assoc, !try_run. by destruct (commit_tx d0 w3) as [[]].
    + rewrite M_assoc, !try_run. by destruct (rollback_tx d0 w3) as [[]].
  - rewrite M_assoc, !try_run. by destruct (rollback_tx d0 w2) as [[]].
Qed.
Lemma stop_runs b rt e rs ba : runs b (stop_prog rt e rs ba) (stop rt e rs ba).
Proof. unfold stop_prog, stop. runs_tac. Qed.
Lemma reject_runs b cfg x rt e r rest ba :
  runs b (reject_prog cfg x rt e r rest ba) (reject_step cfg x rt e r rest ba).
Proof. unfold reject_prog, reject_step. runs_tac; try done. apply stop_runs. Qed.
Lemma step_runs b cfg au x rt pa v i r rest ba :
  runs b (step_prog cfg au x rt pa v i r rest ba) (upload_step cfg au x rt pa v i r rest ba).
Proof.
  refine (runs_ext b _ (bind _ _) _
    (fun w => eq_sym (step_split cfg au x rt pa v i r rest ba w)) _).
  unfold step_prog. apply runs_bind; [apply runs_atomic|].
  intros [seen e|seen c item receipt|seen e]; [apply stop_runs|done|apply reject_runs].
Qed.
Lemma loop_runs b cfg au x rt pa v i rs ba :
  runs b (loop_prog cfg au x rt pa v i rs ba) (upload_loop cfg au x rt pa v i rs ba).
Proof.
  revert i ba. induction rs as [|r rs IH]; intros i ba; simpl; [done|].
  apply runs_bind; [apply step_runs|]. intros [[] ba']; [apply IH|done].
Qed.
Lemma upload_runs b cfg au x rt pa v :
  runs b (upload_prog cfg au x rt pa v) (upload cfg au x rt pa v).
Proof.
  unfold upload_prog, upload. apply runs_bind; [apply runs_stop|]. intros _.
  apply runs_bind3; [apply runs_atomic|]. intros _. cbv zeta.
  apply runs_bind; [apply loop_runs|]. runs_tac.
Qed.

Lemma authenticated_runs cfg rq ep q parsed proposed :
  runs (permit rq) (authenticated_prog cfg rq ep q parsed proposed)
    (authenticated cfg rq ep q parsed proposed).
Proof.
  unfold authenticated_prog, authenticated. apply runs_bind; [apply runs_atomic|]. intros au.
  apply runs_bind; [apply runs_stop|]. intros v. apply runs_bind; [runs_tac|]. intros _.
  destruct (is_batch _).
  - unfold batch_prog, upload_batch. runs_tac. apply upload_runs.
  - apply runs_bind; [|intros _; apply serve_runs].
    unfold transfer_route. by destruct (_ || _), (permit rq).
Qed.

Lemma startup_runs b cfg : runs b (startup_prog cfg) (startup cfg).
Proof. unfold startup_prog, startup. runs_tac. apply complete_runs. Qed.
Lemma upkeep_runs b cfg : runs b (upkeep_prog cfg) (upkeep cfg).
Proof. unfold upkeep_prog, upkeep. runs_tac. apply complete_runs. Qed.
End Uninterrupted.
