(* ===== verification/Interleave.v ===== *)
(** * Interleaved transactions

    What holds of each transaction holds of every interleaving: [Guards] is the list
    of the transactions that the process takes, and a step of the process is one of
    them.  The relations of ServiceRel.v and the invariant of ServiceInv.v are such. *)
From S2P Require Import Prelude Error Json Verify Jcs Wire Query Routes Db Monad Config.
From S2P Require Import Store HashChain Steps StoreFacts StoreSpec Auth AuthFacts Domain.
From S2P Require Import Retention Mutation Deletion Batch Import Read Export Sync Concurrent.
From S2P Require Import HandlerFacts BatchFacts ChainInv ServiceFacts ServiceInv ServiceSpec.
From S2P Require Import ServiceRel HandlerTicks.

(** ** What every transaction of a program satisfies *)
Fixpoint each {O : Oracle} (Q : forall B, M B -> Prop) {A} (p : Prog A) : Prop :=
  match p with
  | Stop _ => True
  | Tx m k => Q _ m /\ forall r, (forall x, r = Ok x -> yields m x) -> each Q (k r)
  | Acquire _ k => forall b, each Q (k b)
  end.

(** The interface: [Q] holds of each of the transactions that the process takes. *)
Class Guards {X : Ext} {O : Oracle} (cfg : RelayConfig) (Q : forall B, M B -> Prop) : Prop := {
  g_reads : forall A (m : M A), respects eq m -> advances m -> Q A m;
  g_document : forall rq q, Q _ (document cfg rq q);
  g_rate : forall sc i, Q _ (transaction true (rate cfg sc i));
  g_authenticate : forall rq, Q _ (transaction true (authenticate cfg rq));
  g_enrollment : forall src x q v, Q _ (enrollment_source cfg src x q v);
  g_serve : forall au me ep q v, names_chain ep v ->
    (me = "GET"%string -> read_route (ep_route ep) = true) ->
    Q _ (serve_tx cfg au me ep q v);
  g_audit : forall x v co, Q _ (audit_request cfg x v co);
  g_item : forall au x rt pa v i r, Q _ (item_tx cfg au x rt pa v i r);
  g_item_audit : forall x r co, Q _ (Batch.audit_reject cfg x r co);
  g_erase : Q _ erase;
  g_ledgers : Q _ (complete_ledgers cfg);
  g_renotice : Q _ (renotice_tx cfg);
  g_maintenance : Q _ (maintenance cfg);
}.

Lemma guards_and {X : Ext} {O : Oracle} cfg (Q Q' : forall B, M B -> Prop) :
  Guards cfg Q -> Guards cfg Q' -> Guards cfg (fun B m => Q B m /\ Q' B m).
Proof. intros [] []. split; intros; split; auto. Qed.

Section Each.
Context {X : Ext} {O : Oracle} (Q : forall B, M B -> Prop).

Lemma each_bind {A B} (p : Prog A) (f : A -> Prog B) :
  each Q p -> (forall x, each Q (f x)) -> each Q (bind p f).
Proof.
  intros Hp Hf. cbv [bind Prog_monad]. induction p as [[x|e|]|B' m k IH|x k IH]; simpl in *;
    [apply Hf|done..| |auto].
  destruct Hp as [Hm Hk]. split; [done|]. auto.
Qed.
Lemma each_atomic {A B} (m : M A) (f : A -> Prog B) :
  Q _ m -> (forall x, yields m x -> each Q (f x)) -> each Q (bind (atomic m) f).
Proof. intros Hm Hf. split; [done|]. intros [x|e|] Hr; [apply Hf; auto|exact I..]. Qed.
Lemma each_stop {A B} (r : Result A) (f : A -> Prog B) :
  (forall x, r = Ok x -> each Q (f x)) -> each Q (bind (Stop r) f).
Proof. intros Hf. destruct r; [by apply Hf|exact I..]. Qed.
Lemma each_fail_if {B} b e (f : unit -> Prog B) :
  (b = false -> each Q (f tt)) -> each Q (bind (fail_if b e) f).
Proof. intros Hf. destruct b; [exact I|by apply Hf]. Qed.
Lemma each_one {A} (m : M A) : Q _ m -> each Q (atomic m).
Proof. by split. Qed.
Lemma each_outcome {A} (p : Prog A) : each Q p -> each Q (outcome_of p).
Proof.
  induction p as [[x|e|]|B m k IH|x k IH]; simpl; [done..| |auto].
  intros [Hm Hk]. split; [done|]. auto.
Qed.
End Each.

(** [each_tac leaf] goes through a program; [leaf] closes the transactions. *)
Ltac each_tac leaf :=
  intros; cbv zeta;
  lazymatch goal with
  | |- each _ (bind (atomic _) _) => apply each_atomic; [leaf|]; each_tac leaf
  | |- each _ (bind (Stop _) _) => apply each_stop; each_tac leaf
  | |- each _ (bind (fail_if _ _) _) => apply each_fail_if; each_tac leaf
  | |- each _ (bind _ _) => apply each_bind; each_tac leaf
  | |- each _ (atomic _) => apply each_one; leaf
  | |- each _ (outcome_of _) => apply each_outcome; each_tac leaf
  | |- each _ (ret _) => exact I
  | |- each _ (fail _) => exact I
  | |- each _ (fail_if ?b _) => destruct b; exact I
  | |- each _ panic => exact I
  | |- each _ (Stop _) => exact I
  | |- each _ (Acquire _ _) => intros ?; each_tac leaf
  | |- each _ (match ?x with _ => _ end) => destruct x eqn:?; each_tac leaf
  | |- _ => idtac
  end.

Section Programs.
Context {X : Ext} {O : Oracle} (cfg : RelayConfig) (Q : forall B, M B -> Prop).
Context `{!Guards cfg Q}.
Context (mime_parse : string -> option (string * option string)).

Ltac leaf := first
  [ apply g_document | apply g_rate | apply g_authenticate | apply g_enrollment
  | apply g_audit | apply g_item | apply g_item_audit | apply g_erase | apply g_ledgers
  | apply g_renotice | apply g_maintenance | idtac ].

Lemma complete_each : each Q (complete_prog cfg).
Proof. unfold complete_prog. each_tac leaf. Qed.
Lemma serve_each au me ep q v : names_chain ep v ->
  (me = "GET"%string -> read_route (ep_route ep) = true) ->
  each Q (serve_prog cfg au me ep q v).
Proof.
  intros Hn Hg. unfold serve_prog. apply each_atomic; [by apply g_serve|].
  each_tac leaf; apply complete_each.
Qed.
Lemma stop_each rt e rs b : each Q (stop_prog rt e rs b).
Proof. unfold stop_prog. each_tac leaf. Qed.
Lemma loop_each au x rt pa v i rs b : each Q (loop_prog cfg au x rt pa v i rs b).
Proof.
  revert i b. induction rs as [|r rs IH]; intros i b; cbn [loop_prog]; [exact I|].
  apply each_bind; [|intros [[] b']; [apply IH|exact I]].
  unfold step_prog, reject_prog. each_tac leaf; apply stop_each.
Qed.
Lemma upload_each au x rt pa v : each Q (upload_prog cfg au x rt pa v).
Proof.
  unfold upload_prog. each_tac leaf; [|apply loop_each|];
    (apply g_reads; [unfold quota, used, load; respects_tac idtac|unfold quota, used, load; adv_tac]).
Qed.
Lemma authenticated_each rq ep q pb pr :
  (forall v, pb = Ok v -> names_chain ep v) ->
  (method rq = "GET"%string -> read_route (ep_route ep) = true) ->
  each Q (authenticated_prog cfg rq ep q pb pr).
Proof.
  intros Hn Hg. unfold authenticated_prog. apply each_atomic; [leaf|]. intros au _.
  apply each_stop. intros v Hv. apply each_bind; [|intros _].
  - each_tac leaf. unfold write_guard. apply g_reads; [respects_tac idtac|adv_tac].
  - destruct (is_batch _).
    + unfold batch_prog. each_tac leaf. apply upload_each.
    + apply each_bind; [each_tac leaf|]. intros _. apply serve_each; [by apply Hn|done].
Qed.
Lemma handle_each rq : each Q (handle_prog mime_parse cfg rq).
Proof.
  unfold handle_prog. do 3 (apply each_fail_if; intros _). apply each_stop. intros q _.
  case_match; [apply each_one; leaf|]. apply each_stop. intros ep He.
  case_match; [each_tac leaf; unfold health; apply g_reads; [respects_tac idtac|adv_tac]|].
  cbv zeta.
  assert (Hrest : forall b, (bootstrap_route (ep_route ep) = true ->
      parsed_body mime_parse rq = Ok b) ->
    each Q (let! ep' := atomic (with_proposed ep (proposed_parameters (ep_route ep) b)) in
      fail_if (String.eqb (ep_chain ep') EmptyString) invalid ;;;
      if bool_decide (ep_route ep' = RRequest)
      then atomic (enrollment_source cfg (source rq) (ep_chain ep') q b)
      else authenticated_prog cfg rq ep' q (parsed_body mime_parse rq)
             (proposed_parameters (ep_route ep) b))).
  { intros b Hb. apply each_atomic;
      [unfold with_proposed; apply g_reads; [respects_tac idtac|adv_tac]|].
    intros ep' Hep'. apply each_fail_if. intros Hne. case_match; [apply each_one; leaf|].
    assert (Hn : forall v, parsed_body mime_parse rq = Ok v ->
      ep_route ep' = ep_route ep /\ names_chain ep' v).
    { intros v Hv. eapply (with_proposed_names _ _ _ _ _ tt); [exact He|exact Hep'| |].
      - rewrite Hne. exists (MkWorld empty_db 0), (MkWorld empty_db 0). done.
      - intros Hr. specialize (Hb Hr). congruence. }
    apply authenticated_each; [intros v Hv; by apply Hn|]. intros Hm. rewrite Hm in He.
    assert (Hr : ep_route ep' = ep_route ep) by (unfold with_proposed in Hep'; by yields_norm).
    rewrite Hr. by eapply endpoint_get. }
  destruct (bootstrap_route (ep_route ep)); [apply each_stop; intros b Hb; by apply Hrest|].
  by apply (Hrest Null).
Qed.
Lemma startup_each : Q _ (operator_tx cfg) -> each Q (startup_prog cfg).
Proof. intros Hop. unfold startup_prog. each_tac ltac:(first [exact Hop|leaf]). apply complete_each. Qed.
(** What follows the first transaction of a start. *)
Lemma startup_rest_each (r : Result unit) :
  each Q (prog_bind (Stop r) (fun _ => complete_prog cfg ;;; atomic (renotice_tx cfg))).
Proof. destruct r; [|exact I..]. cbn [prog_bind]. each_tac leaf. apply complete_each. Qed.
Lemma upkeep_each : each Q (upkeep_prog cfg).
Proof. unfold upkeep_prog. each_tac leaf. apply complete_each. Qed.

Lemma serving_each rq : each Q (todo (serving mime_parse cfg rq)).
Proof. apply each_bind; [apply handle_each|]. each_tac leaf. Qed.
End Programs.

(** ** The process *)
Section Pool.
Context {X : Ext} {O : Oracle} (Q : RelayConfig -> forall B, M B -> Prop).
Context (mime_parse : string -> option (string * option string)).

Definition pool (p : Process) : Prop :=
  match p with
  | Down => True
  | Starting cfg p => each (Q cfg) p
  | Serving cfg ts _ => Forall (fun th => each (Q cfg) (todo th)) ts
  end.

Context (Q_guards : forall cfg, Guards cfg (Q cfg)).
Context (Q_operator : forall cfg, Q cfg _ (operator_tx cfg)).

(** A step of a pool takes a transaction of which [Q] holds, or leaves the world as
    it is; and the threads stay such. *)
Lemma step_pool s s' :
  step mime_parse s s' -> pool (process s) ->
  pool (process s') /\ (world s' = world s \/
    exists cfg B (m : M B) r, Q cfg B m /\ m (world s) = (r, world s')).
Proof.
  intros H. destruct H as [w cfg|w w' cfg B m k r Hm|w cfg|w p|w cfg ts sl rq|w cfg ts sl
    |w w' cfg ts sl i h B m k r Hi Hm|w cfg ts sl i h x k Hi _|w cfg ts sl i h x k Hi _
    |w cfg ts sl i th Hi]; simpl; intros Hp.
  - split; [by apply startup_each|by left].
  - destruct Hp as [Hq Hk]. split; [|right; by exists cfg, B, m, r].
    apply Hk. intros y ->. by exists w, w'.
  - split; [done|by left].
  - split; [done|by left].
  - split; [|by left]. apply Forall_app. split; [done|]. constructor; [by apply serving_each|done].
  - split; [|by left]. apply Forall_app. split; [done|]. constructor; [by apply upkeep_each|done].
  - pose proof (Forall_lookup_1 _ _ _ _ Hp Hi) as [Hq Hk]. split; [|right; by exists cfg, B, m, r].
    apply Forall_insert; [done|]. apply Hk. intros y ->. by exists w, w'.
  - pose proof (Forall_lookup_1 _ _ _ _ Hp Hi) as Hk. split; [|by left].
    apply Forall_insert; [done|]. apply (Hk true).
  - pose proof (Forall_lookup_1 _ _ _ _ Hp Hi) as Hk. split; [|by left].
    apply Forall_insert; [done|]. apply (Hk false).
  - split; [|by left]. by apply Forall_delete.
Qed.
End Pool.

(** ** What the two transactions with explicit ends come to *)
Section TxCases.
Context {X : Ext} {O : Oracle}.
Implicit Types (c : Chain) (cfg : RelayConfig).

(** Unchanged, or the committed handler on the chain, which has no deletion. *)
Lemma serve_tx_cases cfg au me ep q v w r w' :
  serve_tx cfg au me ep q v w = (r, w') ->
  (db w' = db w /\ forall x, r <> Ok (Committed x)) \/
  exists r1 w0 w1, db w0 = db w /\ t_deletions (db w) !! ep_chain ep = None /\
    run_handler cfg au me ep q v w0 = (Ok r1, w1) /\ db w' = db w1 /\ r = Ok (Committed r1).
Proof.
  unfold serve_tx. rewrite begin_tx_run. destruct (sql_fails (tick w)); [intros [= <- <-]; by left|].
  unfold proof. rewrite select_run.
  destruct (sql_fails (tick (next w))); [intros [= <- <-]; by left|].
  cbn [db next]. destruct (t_deletions (db w) !! ep_chain ep) as [row|] eqn:Hd; simpl.
  { cbv [bind M_monad ret]. destruct (deleted_answer _ _ _ _ _ _) as [r1 w1] eqn:E.
    apply deleted_answer_core in E; [|done]. simpl in E. intros H. left.
    destruct r1; injection H as <- <-; (split; [done|congruence]). }
  rewrite try_tx_run. destruct (run_handler _ _ _ _ _ _ _) as [[r1|e|] w1] eqn:E.
  - rewrite commit_tx_run. destruct (sql_fails (tick w1)); [intros [= <- <-]; by left|].
    intros [= <- <-]. right. eexists r1, _, w1. by split_and!; [|done|exact E|..].
  - rewrite rollback_tx_run. destruct (sql_fails (tick w1)); intros [= <- <-]; by left.
  - intros [= <- <-]. by left.
Qed.

(** Unchanged, or the committed attempt on the stored chain. *)
Lemma item_tx_cases cfg au x rt pa v i r w res w' :
  item_tx cfg au x rt pa v i r w = (res, w') ->
  (db w' = db w /\ forall s c p q, res <> Ok (Accepted s c p q)) \/
  exists seen c p w0 w1, db w0 = db w /\ t_chains (db w) !! x = Some seen /\
    attempt_and_save seen cfg au x rt pa v i r w0 = (Ok (c, p), w1) /\ db w' = db w1 /\
    res = Ok (Accepted seen c (fst p) (snd p)).
Proof.
  unfold item_tx. rewrite try_run. unfold begin_tx, sql.
  destruct (sql_fails (tick w)); [intros [= <- <-]; by left|].
  rewrite try_run. unfold load. rewrite select_run. cbn [db tick with_db next].
  destruct (sql_fails (S (tick w))).
  { rewrite try_run. unfold rollback_tx. destruct (sql_fails _); intros [= <- <-]; by left. }
  destruct (t_chains (db w) !! x) as [seen|] eqn:Hc; cbn [ok_or ret fail M_monad].
  2:{ rewrite try_run. unfold rollback_tx. destruct (sql_fails _); intros [= <- <-]; by left. }
  rewrite try_tx_run.
  match goal with |- context [attempt_and_save _ _ _ _ _ _ _ _ _ ?w1] => set (w0 := w1) end.
  destruct (attempt_and_save _ _ _ _ _ _ _ _ _ w0) as [[[c [item receipt]]|e|] w1] eqn:Ea.
  - rewrite try_run. unfold commit_tx. destruct (sql_fails (tick w1)); intros [= <- <-];
      [by left|]. right. by exists seen, c, (item, receipt), w0, w1.
  - rewrite try_run. unfold rollback_tx. destruct (sql_fails _); intros [= <- <-]; by left.
  - intros [= <- <-]. by left.
Qed.
End TxCases.

(** ** The relations of ServiceRel.v *)
Section Relations.
Context {X : Ext} {O : Oracle} (R : Db -> Db -> Prop) `{!QuietRelation R} (cfg : RelayConfig).
Context (Q : forall B, M B -> Prop).
Context (Q_respects : forall A (m : M A), advances m -> respects R m -> Q A m).

Lemma quiet_guards :
  (forall rq, Q _ (transaction true (authenticate cfg rq))) -> Guards cfg Q.
Proof.
  destruct (transactions_adv cfg) as (T1 & T2 & T3 & T4 & T5 & T6 & T7 & T8).
  intros Ha. split; try exact Ha; intros.
  - apply Q_respects; [done|]. eapply respects_mono; [|eassumption]. by intros d ? <-.
  - apply Q_respects; [done|]. unfold document. respects_tac idtac. apply (rate_rel R).
  - apply Q_respects; [by apply adv_transaction|]. respects_tac idtac. apply (rate_rel R).
  - apply Q_respects; [apply enrollment_source_adv|]. apply (enrollment_source_rel R).
  - apply Q_respects; [apply serve_tx_adv|]. intros w r w' H'.
    apply serve_tx_cases in H' as [[-> _]|(r1 & w0 & w1 & Hw & _ & Hr & -> & _)]; [done|].
    rewrite <-Hw. by eapply (keyed_respects R (ep_chain ep)), Hr; apply run_handler_respects.
  - apply Q_respects; [apply audit_request_adv|]. apply audit_request_respects; [exact _|].
    eapply (keyed_respects R x), audit_entries_respects.
  - apply Q_respects; [apply item_tx_adv|]. intros w res w' H'.
    apply item_tx_cases in H' as [[-> _]|(seen & c & p & w0 & w1 & Hw & Hc & Ha' & -> & _)]; [done|].
    apply (sr_keyed x). intros Hk. apply db_steps_keyed; [|exact Hk]. rewrite <-Hw.
    eapply attempt_and_save_respects, Ha'. by apply Hk.
  - apply Q_respects; [apply T4|]. apply (audit_reject_rel R).
  - apply Q_respects; [apply erase_adv|]. apply sr_erase.
  - apply Q_respects; [done|]. apply sr_ledgers.
  - apply Q_respects; [done|]. unfold renotice_tx. respects_tac idtac. by apply (renotice_rel R).
  - apply Q_respects; [done|]. apply (maintenance_rel R).
Qed.
End Relations.
Lemma respects_guards {X : Ext} {O : Oracle} R `{!ServiceRelation R} cfg :
  Guards cfg (fun _ m => respects R m).
Proof.
  apply (quiet_guards R); [done|]. intros rq. apply respects_transaction; [exact _|].
  apply (authenticate_rel R).
Qed.

(** ** The invariant of the service *)
Section Invariant.
Context {X : Ext} {XL : ExtLaws X} {O : Oracle} (cfg : RelayConfig).
Hint Resolve rate_core authenticate_core : respects.

Lemma guarded_guards : Guards cfg (fun _ m => guarded cfg m).
Proof.
  split; intros.
  - apply guarded_core. eapply respects_mono; [|eassumption]. by intros d ? <-.
  - apply guarded_core. unfold document. respects_tac idtac.
  - apply guarded_core. respects_tac idtac.
  - apply guarded_core. respects_tac idtac.
  - apply guarded_core, enrollment_source_core.
  - intros w r w' [Hs Hu] E.
    apply serve_tx_cases in E as [[-> _]|(r1 & w0 & w1 & Hw & Hd & Hr & -> & _)]; [done|].
    rewrite <-Hw in Hs, Hu, Hd. by eapply run_handler_service_ok.
  - apply guarded_keeps, audit_request_keeps.
  - intros w res w' [Hs Hu] E.
    apply item_tx_cases in E as [[-> _]|(seen & c & p & w0 & w1 & Hw & Hc & Ha & -> & _)]; [done|].
    rewrite <-Hw in Hs, Hc. by eapply attempt_service_ok.
  - apply guarded_keeps, audit_reject_keeps.
  - apply guarded_keeps, erase_keeps.
  - apply guarded_keeps, ledgers_keeps.
  - apply guarded_keeps, renotice_tx_keeps.
  - apply guarded_keeps, maintenance_keeps.
Qed.
End Invariant.

(** ** Relations over any interleaving *)
Section Histories.
Context {X : Ext} {O : Oracle} (R : Db -> Db -> Prop) `{!ServiceRelation R}.
Context (mime_parse : string -> option (string * option string)).
Context (operator_R : forall cfg, respects R (operator_tx cfg)).

Definition tame : Process -> Prop := pool (fun _ _ m => respects R m).
Lemma steps_rel s s' :
  rtc (step mime_parse) s s' -> tame (process s) ->
  tame (process s') /\ R (db (world s)) (db (world s')).
Proof.
  induction 1 as [s|s1 s2 s3 H _ IH]; intros Hp; [done|].
  eapply (step_pool (fun _ _ m => respects R m)) in H as [Hp2 Hw];
    [|intros; by apply respects_guards|exact operator_R|exact Hp].
  destruct (IH Hp2) as [Hp3 Hr]. split; [done|]. etransitivity; [|exact Hr].
  destruct Hw as [->|(cfg & B & m & r & Hm & E)]; [done|]. by eapply Hm.
Qed.
Lemma runs_rel w s s' :
  rtc (step mime_parse) (MkSystem w Down) s -> rtc (step mime_parse) s s' ->
  R (db w) (db (world s)) /\ R (db (world s)) (db (world s')).
Proof.
  intros H H'. apply steps_rel in H as [Hp H]; [|done].
  by apply steps_rel in H' as [_ H'].
Qed.
End Histories.
