(* ===== verification/InterleaveSpec.v ===== *)
(** * What every interleaving keeps

    The promises of the service over the steps of the process: transactions of any
    requests, starts and upkeep in any order, kills, and clients that go away. *)
From S2P Require Import Prelude Error Json Verify Jcs Wire Query Routes Db Monad Config.
From S2P Require Import Store HashChain Steps StoreFacts StoreSpec Auth AuthFacts Domain.
From S2P Require Import Retention Mutation Deletion Batch Import Read Export Sync Concurrent.
From S2P Require Import HandlerFacts BatchFacts ChainInv ServiceFacts ServiceInv ServiceSpec.
From S2P Require Import ServiceRel History SideTable OperatorRow Interleave.

Section Evidence.
Context {X : Ext} {O : Oracle}.
Context (mime_parse : string -> option (string * option string)).

Lemma interleaved_history w s s' :
  chains_keyed (db w) ->
  rtc (step mime_parse) (MkSystem w Down) s -> rtc (step mime_parse) s s' ->
  history_kept (db (world s)) (db (world s')).
Proof.
  intros Hk H H'. destruct (runs_rel keeps_history mime_parse operator_tx_history w s s' H H')
    as [H1 H2].
  by apply H2, H1.
Qed.

(** (C3) Evidence is permanent: whatever transactions of requests, starts and upkeep
    follow, interleaved in whatever order, cut off wherever the process is killed or
    a client goes away, and under whatever configurations, the receipts, transparency
    entries, published heads, recorded outcomes and reserved payload nonces of a
    chain that is not deleted stay as they are; a registry row only moves forward
    (pending, active, revoked); of a stored object or log row at most the body of a
    record or an envelope is erased, and its hash stays. *)
Theorem evidence_is_permanent w s s' x :
  chains_keyed (db w) ->
  rtc (step mime_parse) (MkSystem w Down) s -> rtc (step mime_parse) s s' ->
  t_deletions (db (world s')) !! x = None ->
  chain_kept x (db (world s)) (db (world s')).
Proof. intros Hk H H' Hx. by apply (interleaved_history w s s' Hk H H'). Qed.
End Evidence.

(** ** The invariant over any interleaving *)
Section Reachable.
Context {X : Ext} {XL : ExtLaws X} {O : Oracle}.
Context (mime_parse : string -> option (string * option string)).
Implicit Types (cfg : RelayConfig).

(** The invariant reads of a configuration only the key. *)
Lemma service_ok_key cfg cfg' d : key_id cfg' = key_id cfg -> service_ok cfg d -> service_ok cfg' d.
Proof.
  intros Hk [H1 H2]. split; [done|]. intros x Hx. specialize (H2 x Hx). unfold live_ok in *.
  destruct (t_chains d !! x); [|done]. destruct H2. split; try done. by rewrite Hk.
Qed.

(** The store belongs to the key of its operator row; before it has one it is empty. *)
Definition store_ok (d : Db) : Prop :=
  match t_operator d with
  | None => t_chains d = ∅ /\ forall cfg, service_ok cfg d
  | Some row => (exists cfg, key_id cfg = op_key_id row) /\
      forall cfg, key_id cfg = op_key_id row -> service_ok cfg d
  end.
Definition owns cfg (d : Db) : Prop :=
  exists row, t_operator d = Some row /\ op_key_id row = key_id cfg.

(** What every transaction but the first of a start keeps. *)
Definition owned cfg {A} (m : M A) : Prop := guarded cfg m /\ respects keeps_operator m.
Lemma owned_guards cfg : Guards cfg (fun _ m => owned cfg m).
Proof. apply guards_and; [apply guarded_guards|apply (respects_guards keeps_operator)]. Qed.
Lemma owned_step cfg A (m : M A) w r w' :
  owned cfg m -> m w = (r, w') -> owns cfg (db w) -> store_ok (db w) ->
  staged_log_unused (db w) -> owns cfg (db w') /\ store_ok (db w').
Proof.
  intros [Hg Hr] H (row & Hrow & Hk) Hs Hu. unfold store_ok in Hs. rewrite Hrow in Hs.
  destruct Hs as [Hex Hs]. assert (Hsv : service_ok cfg (db w)) by by apply Hs.
  pose proof (Hg _ _ _ (conj Hsv Hu) H) as Hsv'.
  destruct (Hr _ _ _ H (so_keyed _ _ Hsv)) as [_ Ho].
  split; [exists row; by rewrite Ho|]. unfold store_ok. rewrite Ho, Hrow. split; [done|]. intros cfg' Hc.
  eapply service_ok_key, Hsv'. congruence.
Qed.

Lemma operator_tx_store cfg w r w' :
  operator_tx cfg w = (r, w') -> store_ok (db w) ->
  store_ok (db w') /\ (r = Ok tt -> owns cfg (db w')).
Proof.
  intros H Hs. pose proof (operator_tx_core _ _ _ _ H) as Hc.
  destruct (transaction_atomic _ _ _ _ H) as [E | (x & w1 & -> & _ & _)].
  - split; [by rewrite E|]. intros ->. apply operator_tx_ok in H as (_ & (row & Hr & _ & Hk & _) & _).
    by exists row.
  - destruct x. apply operator_tx_ok in H as (Hf & (row & Hr & _ & Hk & _) & _).
    split; [|intros _; by exists row]. unfold store_ok in *. rewrite Hr.
    split; [by exists cfg|]. intros cfg' Hcfg.
    eapply service_ok_core; [done|]. destruct (t_operator (db w)) as [old|] eqn:Eo.
    + apply Hs. destruct (Hf _ Eo) as (row' & Hr' & [_ Hkey _ _]). congruence.
    + by apply Hs.
Qed.

(** A start before its first transaction, in the middle, and failed. *)
Definition fails (p : Prog unit) : Prop := exists r, p = Stop r /\ r <> Ok tt.
Definition first_ok cfg (p : Prog unit) : Prop :=
  match p with
  | Tx m k => forall w r w', store_ok (db w) -> m w = (r, w') ->
      store_ok (db w') /\
      (owns cfg (db w') /\ each (fun _ m => owned cfg m) (k r) \/ fails (k r))
  | _ => False
  end.
Lemma startup_first_ok cfg : first_ok cfg (startup_prog cfg).
Proof.
  intros w r w' Hs H. apply operator_tx_store in H as [Hs' Ho]; [|done]. split; [done|].
  destruct r as [[]|e|]; [left|right..].
  - split; [by apply Ho|]. apply (startup_rest_each cfg), owned_guards.
  - by exists (Err e).
  - by exists Panic.
Qed.
Definition process_ok (s : System) : Prop :=
  match process s with
  | Down => True
  | Starting cfg p => first_ok cfg p \/ fails p \/
      owns cfg (db (world s)) /\ each (fun _ m => owned cfg m) p
  | Serving cfg ts _ => owns cfg (db (world s)) /\
      Forall (fun th => each (fun _ m => owned cfg m) (todo th)) ts
  end.

(** A step in a state where no log has the id of a staged one. *)
Definition clean_step (s s' : System) : Prop :=
  staged_log_unused (db (world s)) /\ step mime_parse s s'.

Lemma clean_step_ok s s' : clean_step s s' ->
  process_ok s /\ store_ok (db (world s)) -> process_ok s' /\ store_ok (db (world s')).
Proof.
  intros [Hu H] [Hp Hs].
  destruct H as [w cfg|w w' cfg B m k r Hm|w cfg|w p|w cfg ts sl rq|w cfg ts sl
    |w w' cfg ts sl i h B m k r Hi Hm|w cfg ts sl i h x k Hi _|w cfg ts sl i h x k Hi _
    |w cfg ts sl i th Hi]; unfold process_ok in *; simpl in *.
  - split; [left; apply startup_first_ok|done].
  - destruct Hp as [Hp|[(r' & [=] & _)|(Ho & Hq & Hk)]].
    + destruct (Hp _ _ _ Hs Hm) as [Hs' [[Ho He]|Hf]]; [|by auto]. split; [|done].
      right. by right.
    + destruct (owned_step _ _ _ _ _ _ Hq Hm Ho Hs Hu) as [Ho' Hs']. split; [right; right|done].
      split; [done|]. apply Hk. intros y ->. by exists w, w'.
  - destruct Hp as [[]|[(r & [= <-] & Hr)|[Ho _]]]; [by destruct Hr|by repeat split].
  - done.
  - destruct Hp as [Ho Hp]. split_and!; [done| |done]. apply Forall_app. split; [done|].
    constructor; [apply serving_each, owned_guards|done].
  - destruct Hp as [Ho Hp]. split_and!; [done| |done]. apply Forall_app. split; [done|].
    constructor; [apply upkeep_each, owned_guards|done].
  - destruct Hp as [Ho Hp]. pose proof (Forall_lookup_1 _ _ _ _ Hp Hi) as [Hq Hk].
    destruct (owned_step _ _ _ _ _ _ Hq Hm Ho Hs Hu) as [Ho' Hs']. split_and!; [done| |done].
    apply Forall_insert; [done|]. apply Hk. intros y ->. by exists w, w'.
  - destruct Hp as [Ho Hp]. pose proof (Forall_lookup_1 _ _ _ _ Hp Hi) as Hk.
    split_and!; [done| |done]. apply Forall_insert; [done|]. apply (Hk true).
  - destruct Hp as [Ho Hp]. pose proof (Forall_lookup_1 _ _ _ _ Hp Hi) as Hk.
    split_and!; [done| |done]. apply Forall_insert; [done|]. apply (Hk false).
  - destruct Hp as [Ho Hp]. split_and!; [done| |done]. by apply Forall_delete.
Qed.

Lemma clean_steps_ok s s' : rtc clean_step s s' ->
  process_ok s /\ store_ok (db (world s)) -> process_ok s' /\ store_ok (db (world s')).
Proof. induction 1 as [|s1 s2 s3 H _ IH]; [done|]. intros Hs. by eapply IH, clean_step_ok. Qed.
Lemma reachable_ok w s : db w = empty_db -> rtc clean_step (MkSystem w Down) s ->
  process_ok s /\ store_ok (db (world s)).
Proof.
  intros Hw H. eapply clean_steps_ok; [exact H|]. split; [done|]. simpl. rewrite Hw.
  split; [done|]. apply empty_service_ok.
Qed.
Lemma clean_steps_steps s s' : rtc clean_step s s' -> rtc (step mime_parse) s s'.
Proof. induction 1 as [|s1 s2 s3 [_ H] _ IH]; [done|]. by eapply rtc_l. Qed.

(** A live chain in a reachable state belongs to the key of the store. *)
Lemma store_ok_live d x c :
  store_ok d -> t_deletions d !! x = None -> t_chains d !! x = Some c ->
  exists row, t_operator d = Some row /\ (exists cfg, key_id cfg = op_key_id row) /\
  forall cfg, key_id cfg = op_key_id row -> chain_id c = x /\ chain_ok cfg d c.
Proof.
  unfold store_ok. intros Hs Hd Hc. destruct (t_operator d) as [row|].
  - exists row. destruct Hs as [Hex Hs]. split_and!; [done..|]. intros cfg Hcfg.
    by destruct (service_ok_load _ _ _ _ (Hs cfg Hcfg) Hd Hc).
  - destruct Hs as [He _]. by rewrite He, lookup_empty in Hc.
Qed.

End Reachable.
