(* ===== verification/TokenSpec.v ===== *)
(** * Authority under interleaving

    A capability token is accepted once, whatever transactions come in between; and
    a device's authority is checked again in the transaction that uses it. *)
From S2P Require Import Prelude Error Json Verify Jcs Wire Query Routes Db Monad Config.
From S2P Require Import Store HashChain Steps StoreFacts StoreSpec Auth AuthFacts HandlerTicks.
From S2P Require Import Domain Retention Mutation Deletion Batch Import Read Export Sync.
From S2P Require Import Concurrent HandlerFacts BatchFacts ChainInv ServiceFacts ServiceInv.
From S2P Require Import ServiceSpec ServiceRel History SideTable OperatorRow Interleave.
From S2P Require Import InterleaveSpec.

(** ** Replay *)
Section Replay.
Context {X : Ext} {O : Oracle}.
Context (mime_parse : string -> option (string * option string)).
Context (clock_monotone : monotone_clock).
Implicit Types (cfg : RelayConfig).

Lemma spent_later k e w w' :
  spent k e w -> (tick w <= tick w')%nat -> t_nonces (db w') = t_nonces (db w) -> spent k e w'.
Proof.
  intros [Hs|Hs] Ht Hn; [left; by rewrite Hn|right]. intros i Hi. apply Hs. lia.
Qed.
(** A nonce that is spent stays so. *)
Definition keeps_spent k e {A} (m : M A) : Prop := forall w r w',
  m w = (r, w') -> chains_keyed (db w) -> spent k e w ->
  chains_keyed (db w') /\ spent k e w'.
Lemma keeps_spent_quiet k e A (m : M A) :
  advances m -> respects (keeps_table t_nonces) m -> keeps_spent k e m.
Proof.
  intros Ha Hr w r w' H Hk Hs. destruct (Hr _ _ _ H Hk) as [Hk' Hn]. split; [done|].
  eapply spent_later; [done|by eapply Ha|done].
Qed.
Lemma keeps_spent_guards k e cfg : Guards cfg (fun _ m => keeps_spent k e m).
Proof.
  apply (quiet_guards (keeps_table t_nonces)); [apply keeps_spent_quiet|].
  intros rq w r w' H Hk Hs. split; [|by eapply transaction_spent].
  pose proof (respects_transaction _ true _ (authenticate_core cfg rq) _ _ _ H) as Hc.
  unfold chains_keyed. by rewrite (sk_chains _ _ Hc).
Qed.
Lemma keeps_spent_operator k e cfg : keeps_spent k e (operator_tx cfg).
Proof.
  apply keeps_spent_quiet; [apply (transactions_adv cfg)|].
  unfold operator_tx. respects_tac ltac:(by intros Hk).
Qed.

Lemma steps_spent k e s s' :
  rtc (step mime_parse) s s' -> pool (fun _ _ m => keeps_spent k e m) (process s) ->
  chains_keyed (db (world s)) -> spent k e (world s) -> spent k e (world s').
Proof.
  induction 1 as [|s1 s2 s3 H _ IH]; intros Hp Hk Hs; [done|].
  eapply (step_pool (fun _ _ m => keeps_spent k e m)) in H as [Hp2 Hw];
    [|intros; apply keeps_spent_guards|intros; apply keeps_spent_operator|exact Hp].
  destruct Hw as [Hw|(cfg & B & m & r & Hm & E)]; [rewrite Hw in *; by apply IH|].
  destruct (Hm _ _ _ E Hk Hs). by apply IH.
Qed.
Lemma reachable_pool k e w s : rtc (step mime_parse) (MkSystem w Down) s ->
  pool (fun _ _ m => keeps_spent k e m) (process s).
Proof.
  intros H. remember (MkSystem w Down) as s0 eqn:E0.
  assert (Hp : pool (fun _ _ m => keeps_spent k e m) (process s0)) by by subst.
  clear E0. induction H as [|s1 s2 s3 H _ IH]; [done|]. apply IH.
  eapply (step_pool (fun _ _ m => keeps_spent k e m)) in H as [Hp2 _]; [done| | |done];
    intros; [apply keeps_spent_guards|apply keeps_spent_operator].
Qed.

(** An accepted token is spent. *)
Lemma accepted_spent cfg rq w au w' tok :
  transaction true (authenticate cfg rq) w = (Ok au, w') -> parse_token cfg rq = Ok tok ->
  spent (nonce_key (rq_chain_id rq) tok) (nonce_expiry tok) w'.
Proof.
  intros E Hp. left. unfold transaction, commit in E. destruct (sql_fails (tick w)); [done|].
  destruct (authenticate cfg rq (next w)) as [[au0|e|] w3] eqn:E3; [|repeat case_match; done..].
  destruct (sql_fails (tick w3)); simplify_eq/=.
  unfold authenticate in E3. m_inv E3. simplify_eq/=. assert (x = tok) as -> by congruence.
  by apply authorize_ok in E3 as [_ _ _ _ ?].
Qed.

(** (C5) Replay protection: once a step of the process has accepted a token, no later
    authentication accepts it, the clock being monotone: whatever transactions of
    other requests, starts and upkeep come in between, although expired nonces are
    swept, and although the process may have been killed and started again. *)
Theorem token_single_use w s s1 s' cfg cfg' rq rq' tok au r w' :
  chains_keyed (db w) -> rtc (step mime_parse) (MkSystem w Down) s ->
  step mime_parse s s1 ->
  transaction true (authenticate cfg rq) (world s) = (Ok au, world s1) ->
  rtc (step mime_parse) s1 s' ->
  parse_token cfg rq = Ok tok -> parse_token cfg' rq' = Ok tok ->
  transaction true (authenticate cfg' rq') (world s') = (r, w') ->
  forall au', r <> Ok au'.
Proof.
  intros Hk H H1 E H' Hp Hp'.
  assert (Hc : rq_chain_id rq' = rq_chain_id rq).
  { destruct (parse_token_ok _ _ _ Hp), (parse_token_ok _ _ _ Hp'). congruence. }
  assert (Hs1 : rtc (step mime_parse) (MkSystem w Down) s1) by by eapply rtc_r.
  pose proof (accepted_spent _ _ _ _ _ _ E Hp) as Hsp. rewrite <-Hc in Hsp.
  eapply (spent_rejects cfg' rq' tok); [|exact Hp'].
  eapply steps_spent; [exact H'|by eapply reachable_pool| |done].
  eapply hk_keyed, (interleaved_history mime_parse w s s1); [done..|by apply rtc_once].
Qed.
End Replay.

(** ** The check at the use *)
Section Fresh.
Context {X : Ext} {O : Oracle}.
Implicit Types (c : Chain) (cfg : RelayConfig).

(** The chain is there and not deleted; the device is on the registry, revoked by
    nothing, with a certificate of the generation of the chain; [pending] admits a
    device whose keys have not been acknowledged. *)
Record in_good_standing (d : Db) (x id : string) (pending : bool) : Prop := {
  gs_live : t_deletions d !! x = None;
  gs_device : exists c row cert,
    t_chains d !! x = Some c /\
    t_registry d !! (x, id) = Some row /\
    (r_status row = Active \/ r_status row = PendingKeys /\ pending = true) /\
    (t_objects d !! (x, KDevice, id) ≫= o_body) = Some cert /\
    n cert "generation" = generation c;
}.

Lemma check_state_ok c au rt id w u w' :
  check_state c au rt w = (Ok u, w') -> Auth.device au = Some id ->
  t_deletions (db w) !! chain_id c = None -> t_chains (db w) !! chain_id c = Some c ->
  in_good_standing (db w) (chain_id c) id (pending_route rt).
Proof.
  intros H Ha Hd Hc. split; [done|]. unfold check_state, object in H. rewrite Ha in H.
  m_inv H; bsimp; simplify_eq/=;
    (destruct (t_registry (db w) !! (chain_id c, id)) as [row|] eqn:Er; simplify_eq/=);
    exists c, row; eexists; split_and!; eauto.
Qed.
Lemma active_device_ok c id w k w' :
  active_device c id w = (Ok k, w') ->
  t_deletions (db w) !! chain_id c = None -> t_chains (db w) !! chain_id c = Some c ->
  in_good_standing (db w) (chain_id c) id false.
Proof.
  intros H Hd Hc. split; [done|]. unfold active_device, object in H.
  m_inv H; bsimp; simplify_eq/=.
  destruct (t_registry (db w) !! (chain_id c, id)) as [row|] eqn:Er; simplify_eq/=.
  exists c, row; eexists; split_and!; eauto.
Qed.

(** The first command of [H] succeeded. *)
Local Ltac next_command H :=
  let Hm := fresh "Hm" in
  apply M_bind_ok in H as (? & ? & Hm & H); m_inv Hm; simplify_eq/=.
Lemma chain_handler_standing cfg au id me ep q v w r w' :
  chain_handler cfg au me ep q v w = (Ok r, w') -> Auth.device au = Some id ->
  chains_keyed (db w) -> t_deletions (db w) !! ep_chain ep = None ->
  in_good_standing (db w) (ep_chain ep) id (pending_route (ep_route ep)).
Proof.
  unfold chain_handler, load. intros H Ha Hk Hd.
  do 3 next_command H.
  match goal with Hc : t_chains _ !! _ = Some _ |- _ => pose proof (Hk _ _ Hc) as Hi end.
  apply M_bind_ok in H as (u & ? & Hs & _). rewrite <-Hi in *.
  by eapply check_state_ok in Hs.
Qed.
Lemma attempt_standing c cfg au x rt pa v i item id w r w' :
  attempt_and_save c cfg au x rt pa v i item w = (Ok r, w') -> Auth.device au = Some id ->
  chain_id c = x -> t_chains (db w) !! x = Some c ->
  in_good_standing (db w) x id false.
Proof.
  unfold attempt_and_save, attempt, write_guard, proof. intros H Ha <- Hc.
  apply M_bind_ok in H as (p & w1 & H & _). rewrite Ha in H.
  do 4 next_command H.
  all: apply fmap_None in E1.
  all: match goal with H : active_device _ _ _ = _ |- _ => by apply active_device_ok in H end.
Qed.

(** (C13) Authority at the time of use: a request that was authenticated as a device,
    however long before, commits only if in that very transaction the chain is there
    and not deleted and the device is enrolled, not revoked and of the chain's
    generation; a device with pending keys passes only on the routes that complete
    its enrolment.  So it is for every item of a batch, with no exception for pending
    keys, since any transaction may have come in between. *)
Theorem authority_rechecked cfg au id w :
  Auth.device au = Some id -> chains_keyed (db w) ->
  (forall method ep q v r w', serve_tx cfg au method ep q v w = (Ok (Committed r), w') ->
     ep_route ep <> RGenesis ->
     in_good_standing (db w) (ep_chain ep) id (pending_route (ep_route ep))) /\
  (forall x rt pa v i r seen c item receipt w',
     item_tx cfg au x rt pa v i r w = (Ok (Accepted seen c item receipt), w') ->
     in_good_standing (db w) x id false).
Proof.
  intros Ha Hk. split.
  - intros method ep q v r w' H Hg.
    apply serve_tx_cases in H as [[_ H]|(r1 & w0 & w1 & Hw & Hd & H & _)]; [by destruct (H r)|].
    rewrite <-Hw in *.
    assert (Hi : ep_route ep = RImport -> False).
    { intros E. unfold run_handler, require_admin, admin in H. rewrite E, Ha in H. by m_inv H. }
    unfold run_handler in H. destruct (ep_route ep) eqn:Er; try done; try (by destruct Hi);
      rewrite <-Er; by eapply chain_handler_standing.
  - intros x rt pa v i r seen c item receipt w' H.
    apply item_tx_cases in H as [[_ H]|(c0 & c1 & p & w0 & w1 & Hw & Hc & H & _)];
      [by destruct (H seen c item receipt)|].
    rewrite <-Hw in *. eapply attempt_standing; [exact H|done| |done]. by apply Hk.
Qed.
End Fresh.
