(* ===== verification/TransferSpec.v ===== *)
(** * Transfer slots under interleaving

    However requests come and go, a chain has two transfers at a time and no slot is
    lost: the free ones and those that requests hold are two. *)
From S2P Require Import Prelude Error Json Verify Jcs Wire Query Routes Db Monad Config.
From S2P Require Import Store Auth Domain Retention Mutation Deletion Batch Import Read.
From S2P Require Import Export Sync Concurrent.

(** ** Counting *)
Definition slots_held (x : string) (held : list string) : nat := length (filter (x =.) held).
Definition transfers (x : string) (ts : list Thread) : nat := slots_held x (ts ≫= held).

#[export] Instance transfers_proper x : Proper ((≡ₚ) ==> eq) (transfers x).
Proof. intros ts ts' H. unfold transfers, slots_held. by rewrite H. Qed.
Lemma slots_held_app x l l' : slots_held x (l ++ l') = (slots_held x l + slots_held x l')%nat.
Proof. unfold slots_held. by rewrite filter_app, length_app. Qed.
Lemma transfers_cons x th ts :
  transfers x (th :: ts) = (slots_held x (held th) + transfers x ts)%nat.
Proof. unfold transfers. cbn [mbind list_bind]. apply slots_held_app. Qed.
Lemma transfers_delete x ts i th : ts !! i = Some th ->
  transfers x ts = (slots_held x (held th) + transfers x (base.delete i ts))%nat.
Proof. intros Hi. rewrite (delete_Permutation ts i th Hi) at 1. apply transfers_cons. Qed.
Lemma transfers_insert x ts i th th' : ts !! i = Some th ->
  (transfers x (<[i := th']> ts) + slots_held x (held th) =
   transfers x ts + slots_held x (held th'))%nat.
Proof.
  intros Hi. assert (Hl : (i < length ts)%nat) by by eapply lookup_lt_Some.
  rewrite (transfers_delete x ts i th Hi).
  rewrite (transfers_delete x (<[i := th']> ts) i th'); [|by apply list_lookup_insert_eq].
  rewrite !list.delete_take_drop, take_insert_ge, drop_insert_lt by lia. lia.
Qed.

Lemma free_take sl x y :
  free_slots (take_slot sl x) y =
  if decide (x = y) then pred (free_slots sl x) else free_slots sl y.
Proof.
  unfold take_slot, free_slots at 1. case_decide as E.
  - subst. by rewrite lookup_insert_eq.
  - by rewrite lookup_insert_ne.
Qed.
Lemma free_give sl x y :
  free_slots (give_slot sl x) y = if decide (x = y) then S (free_slots sl x) else free_slots sl y.
Proof.
  unfold give_slot, free_slots at 1. case_decide as E.
  - subst. by rewrite lookup_insert_eq.
  - by rewrite lookup_insert_ne.
Qed.
Lemma slots_held_cons x y l :
  slots_held x (y :: l) = ((if decide (y = x) then 1 else 0) + slots_held x l)%nat.
Proof. unfold slots_held. rewrite filter_cons. repeat case_decide; subst; done. Qed.
Lemma free_give_all l sl x :
  free_slots (fold_left give_slot l sl) x = (free_slots sl x + slots_held x l)%nat.
Proof.
  revert sl. induction l as [|y l IH]; intros sl; simpl; [unfold slots_held; simpl; lia|].
  rewrite IH, free_give, slots_held_cons. case_decide; subst; lia.
Qed.

(** ** The invariant *)
Section Transfers.
Context {X : Ext} {O : Oracle}.
Context (mime_parse : string -> option (string * option string)).

Definition balanced (p : Process) : Prop :=
  match p with
  | Serving _ ts sl => forall x, (free_slots sl x + transfers x ts)%nat = transfer_slots
  | _ => True
  end.

Lemma step_balanced s s' :
  step mime_parse s s' -> balanced (process s) -> balanced (process s').
Proof.
  intros H. destruct H as [| | | |w cfg ts sl rq|w cfg ts sl|w w' cfg ts sl i h B m k r Hi _
    |w cfg ts sl i h x k Hi Hf|w cfg ts sl i h x k Hi _|w cfg ts sl i th Hi];
    simpl; intros Hb; try done; intros y; specialize (Hb y).
  - rewrite Permutation_app_comm. simpl. by rewrite transfers_cons.
  - rewrite Permutation_app_comm. simpl. by rewrite transfers_cons.
  - pose proof (transfers_insert y ts i _ (MkThread h (k r)) Hi). simpl in *. lia.
  - pose proof (transfers_insert y ts i _ (MkThread (x :: h) (k true)) Hi) as Ht. simpl in *.
    rewrite slots_held_cons in Ht. rewrite free_take. case_decide; subst; lia.
  - pose proof (transfers_insert y ts i _ (MkThread h (k false)) Hi). simpl in *. lia.
  - rewrite free_give_all. rewrite (transfers_delete y _ _ _ Hi) in Hb. lia.
Qed.

End Transfers.
