(* ===== verification/ImportSpec.v ===== *)
(** * What the import of a history promises

    The device certificates of an uploaded history form a graph in any order;
    [resolve_devices] passes over it until nothing is left.  It ends, and each
    device it accepts has an enrollment that goes back, signature by signature, to
    the administrator or to a device the relay already stores. *)
From S2P Require Import Prelude Error Json Verify Jcs Wire Query Routes Db Monad Config.
From S2P Require Import Store HashChain Steps StoreFacts StoreSpec Auth Domain Import.

(** [d0] are the rows before the import.  The enrollment of a rooted device is
    signed by the administrator, by a stored device, or by a rooted device of the
    same generation. *)
Definition stored_device {X : Ext} (chain : string) (d0 : Db) (id : string) : option Value :=
  t_objects d0 !! (chain, KDevice, id) ≫= o_body.
Definition signer_of (d : Value) : string := s (get d "enrollment") "signer_device_id".
Definition by_admin (d : Value) : bool :=
  String.eqb (s (get d "enrollment") "signer_kind") "admin".
Definition attested {X : Ext} (d : Value) (key : string) : Prop :=
  verify (get d "enrollment") key CTX_ENROLLMENT = Ok tt /\
  verify d (s d "device_public_key") CTX_DEVICE_RECORD = Ok tt.

Inductive rooted {X : Ext} (chain admin : string) (d0 : Db) : Value -> Prop :=
  | rooted_admin d : by_admin d = true -> attested d admin -> rooted chain admin d0 d
  | rooted_stored d d2 : by_admin d = false ->
      stored_device chain d0 (signer_of d) = Some d2 -> n d2 "generation" = n d "generation" ->
      attested d (s d2 "device_public_key") -> rooted chain admin d0 d
  | rooted_device d d2 : by_admin d = false -> rooted chain admin d0 d2 ->
      s d2 "device_id" = signer_of d -> n d2 "generation" = n d "generation" ->
      attested d (s d2 "device_public_key") -> rooted chain admin d0 d.

Section ImportSpec.
Context {X : Ext} {O : Oracle}.

(** ** The passes end *)
Lemma verify_total v key ctx : verify v key ctx <> Panic.
Proof. unfold verify. by destruct (negb _). Qed.

Lemma resolve_device_total chain admin st d : never_panics (resolve_device chain admin st d).
Proof.
  unfold resolve_device, object.
  np_tac; first [apply verify_total | apply put_object_no_panic].
Qed.

Lemma pass_length chain admin l st st' w w' :
  foldM (resolve_device chain admin) st l w = (Ok st', w') ->
  (length (fst st') <= length (fst st) + length l)%nat.
Proof.
  revert st w. induction l as [|d l IH]; intros st w H; cbn [foldM] in H; m_inv H; [simpl; lia|].
  apply IH in H. assert (length (fst x) <= S (length (fst st)))%nat; [|simpl; lia].
  destruct st as [next verified]. unfold resolve_device in Hm.
  m_inv Hm; simpl; rewrite ?length_app; simpl; lia.
Qed.

Lemma resolve_devices_enough fuel chain admin l verified :
  (length l <= fuel)%nat -> never_panics (resolve_devices fuel chain admin l verified).
Proof.
  revert l verified. induction fuel as [|fuel IH]; intros [|d l] verified Hl;
    cbn [resolve_devices]; try (simpl in Hl; lia); np_tac.
  - apply (np_foldM (fun _ => True)); [done| |done]. intros. apply resolve_device_total.
  - apply IH. match goal with H : yields (fail_if _ _) _, H' : yields (foldM _ _ _) _ |- _ =>
      apply yields_fail_if, Nat.eqb_neq in H; destruct H' as (w & w' & Hp) end.
    apply pass_length in Hp. simpl in *. lia.
Qed.

(** The resolution of the certificate graph of an import ends, whatever the
    devices and their certificates: every pass resolves a device or is an error. *)
Theorem resolve_devices_total chain admin devices :
  never_panics (resolve_devices (length devices) chain admin devices ∅).
Proof. by apply resolve_devices_enough. Qed.

(** ** What it accepts *)
Record resolving (chain admin : string) (d0 : Db) (verified : gmap string Value) (d : Db)
    : Prop := {
  rs_verified : forall id v, verified !! id = Some v ->
    rooted chain admin d0 v /\ s v "device_id" = id;
  rs_stored : forall id, verified !! id = None ->
    stored_device chain d id = stored_device chain d0 id;
}.

Lemma resolving_put chain admin d0 verified v w b w' :
  resolving chain admin d0 verified (db w) -> rooted chain admin d0 v ->
  put_object chain KDevice v None w = (Ok b, w') ->
  resolving chain admin d0 (<[s v "device_id" := v]> verified) (db w').
Proof.
  intros [Hv Hs] Hr H. apply put_object_ok in H. cbv zeta in H. split.
  - intros id v' [[<- <-]|[_ Hl]]%lookup_insert_Some; [done|by apply Hv].
  - intros id [Hl Hne]%lookup_insert_None. rewrite <-(Hs id Hl). unfold stored_device.
    destruct H as [(_ & -> & _)|(_ & _ & _ & ->)]; [done|].
    cbn [t_objects set_objects object_id]. by rewrite lookup_insert_ne by congruence.
Qed.

Lemma attested_intro v key (u u' : unit) :
  verify (get v "enrollment") key CTX_ENROLLMENT = Ok u ->
  verify v (s v "device_public_key") CTX_DEVICE_RECORD = Ok u' -> attested v key.
Proof. destruct u, u'. by split. Qed.

Lemma resolve_device_ok chain admin d0 next verified next' verified' v w w' :
  resolving chain admin d0 verified (db w) ->
  resolve_device chain admin (next, verified) v w = (Ok (next', verified'), w') ->
  resolving chain admin d0 verified' (db w') /\
  ((next' = next /\ rooted chain admin d0 v) \/ next' = next ++ [v]).
Proof.
  intros Hr H. pose proof Hr as [Hv Hs]. unfold resolve_device, object in H.
  m_inv H; simplify_eq.
  4: { split; [exact Hr | by right]. }
  all: assert (Hroot : rooted chain admin d0 v).
  - eapply rooted_admin; [done|]. by eapply attested_intro.
  - split; [by eapply resolving_put | by left].
  - match goal with H : negb (_ =? _) = false |- _ => apply negb_false_iff, Z.eqb_eq in H end.
    match goal with H : verified !! _ = Some _ |- _ => apply Hv in H as [Hrs Hid] end.
    eapply rooted_device; [done|exact Hrs|done..|]. by eapply attested_intro.
  - split; [by eapply resolving_put | by left].
  - fold (signer_of v) in *. fold (stored_device chain (db w) (signer_of v)) in *.
    rewrite Hs in * by done. repeat case_match; simplify_eq.
    match goal with H : (_ =? _) = true |- _ => apply Z.eqb_eq in H end.
    eapply rooted_stored; [eassumption..|]. eapply attested_intro; eassumption.
  - split; [|by left]. by eapply (resolving_put _ _ _ _ _ (next w)).
Qed.

Lemma pass_ok chain admin d0 l next verified next' verified' w w' :
  resolving chain admin d0 verified (db w) ->
  foldM (resolve_device chain admin) (next, verified) l w = (Ok (next', verified'), w') ->
  resolving chain admin d0 verified' (db w') /\
  (forall v, v ∈ l -> rooted chain admin d0 v \/ v ∈ next') /\
  (forall v, v ∈ next -> v ∈ next').
Proof.
  revert next verified w. induction l as [|d l IH]; intros next verified w Hr H;
    cbn [foldM] in H; m_inv H.
  { simplify_eq. split_and!; [done| |done]. by intros v ?%elem_of_nil. }
  destruct x as [next1 verified1].
  apply (resolve_device_ok chain admin d0) in Hm as [Hr1 Hd]; [|done].
  apply IH in H as (Hr' & Hl & Hn); [|done]. split_and!; [done| |].
  - intros v [->|Hin]%elem_of_cons; [|by apply Hl].
    destruct Hd as [[_ Hd]| ->]; [by left|right]. apply Hn, elem_of_app. right. by constructor.
  - intros v Hin. apply Hn. destruct Hd as [[-> _]| ->]; [done|]. apply elem_of_app. by left.
Qed.

Lemma resolve_devices_ok fuel chain admin d0 l verified w u w' :
  resolving chain admin d0 verified (db w) ->
  resolve_devices fuel chain admin l verified w = (Ok u, w') ->
  forall v, v ∈ l -> rooted chain admin d0 v.
Proof.
  revert l verified w. induction fuel as [|fuel IH]; intros [|d l] verified w Hr H v Hin;
    try (by apply elem_of_nil in Hin); cbn [resolve_devices] in H; m_inv H.
  apply (pass_ok _ _ d0) in Hm as (Hr' & Hl & _); [|done].
  destruct (Hl v Hin) as [|Hn]; [done|]. by eapply IH.
Qed.

(** (C26) The devices that an import accepts are rooted: the enrollment of each is
    signed, through devices of its own generation that are rooted themselves, by the
    administrator of the chain or by a device the relay stored before; a cycle of
    enrollments is never accepted. *)
Theorem resolve_devices_rooted chain admin devices w u w' :
  resolve_devices (length devices) chain admin devices ∅ w = (Ok u, w') ->
  Forall (rooted chain admin (db w)) devices.
Proof.
  intros H. apply Forall_forall. eapply resolve_devices_ok; [|exact H].
  split; [|done]. by intros id v Hl%lookup_empty_Some.
Qed.
End ImportSpec.
