(* ===== verification/ExportSpec.v ===== *)
(** * The export stream ends

    A step of the export loop that continues leaves the current group or passes one
    of its rows; [export_fuel] is enough for every such step, so the bound on the
    loop never shows. *)
From S2P Require Import Prelude Error Json Verify Jcs JsonText Wire Query Routes Db Monad Config.
From S2P Require Import Store HashChain Steps StoreFacts StoreSpec Auth Domain Retention.
From S2P Require Import Read Export.

(** ** Decimal keys *)
Lemma parse_pretty x rest :
  fold_left (fun a c => 10 * a + digit_val c) (list_ascii_of_string (pretty_N_go x rest)) 0
  = fold_left (fun a c => 10 * a + digit_val c) (list_ascii_of_string rest) (Z.of_N x).
Proof.
  revert rest. induction (N.lt_wf_0 x) as [x _ IH]. intros rest.
  destruct (decide (x = 0)%N) as [->|Hx]; [by rewrite pretty_N_go_0|].
  rewrite pretty_N_go_step by lia. rewrite IH by (apply N.div_lt; lia). simpl.
  rewrite digit_val_pretty by (apply N.mod_lt; lia). f_equal.
  rewrite (N.div_mod x 10) at 3 by lia. lia.
Qed.
Lemma parse_digits_dec z : parse_digits (dec z) = Z.max 0 z.
Proof.
  unfold dec, parse_digits, pretty, pretty_N.
  destruct (decide (Z.to_N z = 0)%N) as [E|E]; [transitivity 0; [done|lia]|].
  rewrite parse_pretty. simpl. lia.
Qed.

(** ** Strictly fewer rows *)
Lemma filter_fewer {A} (p q : A -> bool) (l : list A) x :
  (forall y, p y = true -> q y = true) -> x ∈ l -> q x = true -> p x = false ->
  (length (List.filter p l) < length (List.filter q l))%nat.
Proof.
  intros Hpq Hin Hq Hp.
  assert (Hle : forall l, (length (List.filter p l) <= length (List.filter q l))%nat).
  { clear -Hpq. induction l as [|y l IH]; [done|]. simpl. destruct (p y) eqn:E.
    - rewrite (Hpq _ E). simpl. lia.
    - destruct (q y); simpl; lia. }
  induction l as [|y l IH]; [by apply elem_of_nil in Hin|].
  apply elem_of_cons in Hin as [<-|Hin]; simpl.
  - rewrite Hq, Hp. simpl. specialize (Hle l). lia.
  - specialize (IH Hin). destruct (p y) eqn:E; [rewrite (Hpq _ E); simpl; lia|].
    destruct (q y); simpl; lia.
Qed.
Lemma str_ltb_irrefl x : str_ltb x x = false.
Proof. unfold str_ltb. by rewrite string_compare_refl. Qed.
Lemma str_ltb_trans x y z : str_ltb x y = true -> str_ltb y z = true -> str_ltb x z = true.
Proof.
  unfold str_ltb. destruct (String.compare x y) eqn:E1, (String.compare y z) eqn:E2; try done.
  by rewrite (string_compare_lt_trans x y z).
Qed.
Lemma length_omap {A B} (f : A -> option B) l : (length (omap f l) <= length l)%nat.
Proof. induction l as [|x l IH]; csimpl; [done|]. destruct (f x); simpl; lia. Qed.
Lemma length_map_rows {K V B} `{Countable K} (f : K * V -> option B) (m : gmap K V) :
  (length (omap f (map_to_list m)) <= size m)%nat.
Proof. rewrite <-length_map_to_list. apply length_omap. Qed.

(** ** The rows left in a group *)
Section Budget.
Context {X : Ext} {O : Oracle}.
Implicit Types (c : Chain) (d : Db).

(** The keys of the groups that are cut by key. *)
Definition text_rows c (phase : Z) d : list ExportRow :=
  match phase with
  | 1 => object_rows c KCompaction true boundary_item d
  | 2 => object_rows c KCompaction false compaction_item d
  | 3 => control_rows c d
  | 4 => removed_rows c d
  | 5 => object_rows c KSnapshotPart false part_item d
  | 6 => source_rows c d
  | 7 => receipt_rows c d
  | _ => []
  end.
(** The positions of the groups that are cut by number. *)
Definition number_rows c (phase : Z) d : list Z :=
  match phase with
  | 0 => omap (fun '((x, l, i), row) =>
      if String.eqb x (chain_id c) && String.eqb l (log_id c) && (i <=? head_seq c)
      then Some i else None) (map_to_list (t_log d))
  | 8 => omap (fun '((x, l, i), _) =>
      if String.eqb x (chain_id c) && String.eqb l (transparency_id c)
         && (i <=? transparency_index c)
      then Some i else None) (map_to_list (t_transparency d))
  | _ => []
  end.
Definition key_number (key : string) : option Z :=
  if String.eqb key EmptyString then Some 0 else parse_u64 key.
Lemma key_number_dec i q : key_number (dec i) = Some q -> i <= q.
Proof.
  unfold key_number, parse_u64. pose proof (parse_digits_dec i) as H.
  destruct (String.eqb_spec (dec i) EmptyString) as [E|_].
  - rewrite E in H. cbn in H. intros [= <-]. lia.
  - rewrite H. case_match; intros [= <-]. lia.
Qed.
Definition left_rows c (key : string) (phase : Z) d : nat :=
  length (List.filter (fun r => str_ltb key (row_key r)) (text_rows c phase d))
  + match key_number key with
    | Some pos => length (List.filter (Z.ltb pos) (number_rows c phase d))
    | None => 0
    end
  + (if (phase =? 9) && String.eqb key EmptyString then 1 else 0).

Definition group_size (phase : Z) d : nat :=
  match phase with
  | 0 => size (t_log d)
  | 1 | 2 | 3 | 4 | 5 => size (t_objects d)
  | 6 | 7 => size (t_receipts d)
  | 8 => size (t_transparency d)
  | 9 => 1
  | _ => 0
  end.
(** The rows of the groups after [phase]. *)
Definition later_rows (phase : Z) d : nat :=
  foldr (fun j acc => ((if (phase <? j)%Z then group_size j d else 0) + acc)%nat) 0%nat
    [1; 2; 3; 4; 5; 6; 7; 8; 9].
Definition budget c (key : string) (phase : Z) d : nat :=
  1 + left_rows c key phase d + later_rows phase d + Z.to_nat (10 - phase).

Lemma left_rows_bound c key phase d : (left_rows c key phase d <= group_size phase d)%nat.
Proof.
  unfold left_rows. set (f := fun r => str_ltb key (row_key r)).
  pose proof (List.filter_length_le f (text_rows c phase d)) as H1.
  assert (H2 : (match key_number key with
    | Some pos => length (List.filter (Z.ltb pos) (number_rows c phase d))
    | None => 0 end <= length (number_rows c phase d))%nat).
  { case_match; [apply List.filter_length_le | lia]. }
  enough (length (text_rows c phase d) + length (number_rows c phase d)
    + (if (phase =? 9)%Z && String.eqb key EmptyString then 1 else 0)
    <= group_size phase d)%nat by lia. clear.
  destruct (String.eqb key EmptyString);
  destruct phase as [|p|p]; do 4 (try destruct p as [p|p|]); simpl;
    rewrite ?Nat.add_0_r; try lia; apply length_map_rows.
Qed.

Lemma later_rows_step phase d : 0 <= phase < 9 ->
  later_rows phase d = (group_size (phase + 1) d + later_rows (phase + 1) d)%nat.
Proof.
  intros Hp. assert (Hin : phase ∈ [0; 1; 2; 3; 4; 5; 6; 7; 8]).
  { rewrite !elem_of_cons. lia. }
  repeat (apply elem_of_cons in Hin as [->|Hin]; [unfold later_rows; simpl; lia|]).
  by apply elem_of_nil in Hin.
Qed.
Lemma budget_next c key phase d : 0 <= phase < 10 ->
  (budget c EmptyString (phase + 1) d < budget c key phase d)%nat.
Proof.
  intros Hp. pose proof (left_rows_bound c EmptyString (phase + 1) d). unfold budget.
  destruct (decide (phase = 9)) as [->|]; [simpl in *; lia|].
  rewrite (later_rows_step phase) by lia. lia.
Qed.
Lemma budget_bound c key phase d : 0 <= phase -> (budget c key phase d <= export_fuel d)%nat.
Proof.
  intros Hp. destruct (decide (10 <= phase)) as [H10|H10].
  - pose proof (left_rows_bound c key phase d) as Hl. unfold budget, export_fuel, later_rows.
    assert (group_size phase d = 0%nat) as Hg.
    { destruct phase as [|q|q]; do 4 (try destruct q as [q|q|]); simpl; done || lia. }
    simpl foldr. rewrite !(proj2 (Z.ltb_ge phase _)) by lia. simpl. lia.
  - assert (Hin : phase ∈ [0; 1; 2; 3; 4; 5; 6; 7; 8; 9]) by (rewrite !elem_of_cons; lia).
    pose proof (left_rows_bound c key phase d) as Hl. revert Hl. unfold budget, export_fuel.
    repeat (apply elem_of_cons in Hin as [->|Hin]; [unfold later_rows; simpl; lia|]).
    by apply elem_of_nil in Hin.
Qed.
End Budget.

Section ExportSpec.
Context {X : Ext} {O : Oracle}.
Implicit Types (p : Page) (st : Stream).

Lemma bounded_rows_subset {A} (size : A -> Z) rows page x :
  bounded_rows size rows = Ok page -> x ∈ page -> x ∈ rows.
Proof.
  intros H. pose proof (bounded_loop_page size 0 [] rows ltac:(lia)) as Hp.
  unfold bounded_rows in H. rewrite H in Hp. destruct Hp as (q & rest & -> & -> & _).
  intros Hx. apply elem_of_app. by left.
Qed.

Lemma group_query_reads p phase w rows w' :
  group_query p phase w = (Ok rows, w') -> db w' = db w.
Proof.
  intros H. unfold group_query, numeric_key in H. cbv zeta in H.
  destruct phase as [|q|q]; do 4 (try destruct q as [q|q|]); m_inv H; done.
Qed.

(** What a group returns depends on the tables only. *)
Lemma group_query_det p phase w rows w1 u rows' u1 :
  group_query p phase w = (Ok rows, w1) -> group_query p phase u = (Ok rows', u1) ->
  db u = db w -> rows' = rows.
Proof.
  intros H H' Hd. unfold group_query, numeric_key in H, H'. cbv zeta in H, H'.
  destruct phase as [|q|q]; do 4 (try destruct q as [q|q|]); m_inv H; m_inv H'; simplify_eq;
    simpl in *; congruence.
Qed.

(** Where the rows of a group come from. *)
Lemma page_rows_elem key limit l r :
  r ∈ page_rows key limit l -> r ∈ l /\ str_ltb key (row_key r) = true.
Proof.
  unfold page_rows. intros H%subseteq_take. apply elem_of_sort_by in H.
  apply list_elem_of_In, List.filter_In in H as [H Hk]. by apply list_elem_of_In in H.
Qed.
Lemma log_items_elem c d seq k r :
  r ∈ take k (log_items (log_range (chain_id c) (log_id c) seq (head_seq c) (size (t_log d)) d)) ->
  exists i, row_key r = dec i /\ i ∈ number_rows c 0 d /\ seq < i.
Proof.
  intros H%subseteq_take. unfold log_items in H. apply list_elem_of_omap in H as ([i row] & Hi & H).
  apply bind_Some in H as (e & _ & [= <-]). exists i. split; [done|].
  unfold log_range in Hi. apply subseteq_take, elem_of_sort_by, list_elem_of_omap in Hi
    as ([[[x l] j] row'] & Hi & H). simpl. repeat case_match; simplify_eq; bsimp.
  split; [|done]. apply list_elem_of_omap. eexists (_, _, _, _). split; [done|].
  rewrite !String.eqb_refl. simpl. case_match; [done|bsimp; lia].
Qed.
Lemma transparency_items_elem c d seq k r :
  r ∈ transparency_items (transparency_range (chain_id c) (transparency_id c) seq
        (transparency_index c) k d) ->
  exists i, row_key r = dec i /\ i ∈ number_rows c 8 d /\ seq < i.
Proof.
  intros H. apply list_elem_of_fmap in H as ([i row] & -> & Hi). exists i. split; [done|].
  unfold transparency_range in Hi. apply subseteq_take, elem_of_sort_by, list_elem_of_omap in Hi
    as ([[[x l] j] row'] & Hi & H). simpl. repeat case_match; simplify_eq; bsimp.
  split; [|done]. apply list_elem_of_omap. eexists (_, _, _, _). split; [done|].
  rewrite !String.eqb_refl. simpl. case_match; [done|bsimp; lia].
Qed.

(** Passing a row leaves fewer. *)
Lemma left_rows_text c key phase d r :
  r ∈ text_rows c phase d -> number_rows c phase d = [] -> phase <> 9 ->
  str_ltb key (row_key r) = true ->
  (left_rows c (row_key r) phase d < left_rows c key phase d)%nat.
Proof.
  intros Hr Hn H9 Hk. unfold left_rows. rewrite Hn. apply Z.eqb_neq in H9. rewrite H9. simpl.
  enough (length (List.filter (fun r0 => str_ltb (row_key r) (row_key r0)) (text_rows c phase d))
    < length (List.filter (fun r0 => str_ltb key (row_key r0)) (text_rows c phase d)))%nat
    by (repeat case_match; lia).
  apply (filter_fewer _ _ _ r); [|done..|apply str_ltb_irrefl].
  intros y. by apply str_ltb_trans.
Qed.
Lemma left_rows_number c key phase d pos i :
  i ∈ number_rows c phase d -> text_rows c phase d = [] -> phase <> 9 ->
  key_number key = Some pos -> pos < i ->
  (left_rows c (dec i) phase d < left_rows c key phase d)%nat.
Proof.
  intros Hi Ht H9 Hk Hp. unfold left_rows. rewrite Ht, Hk. apply Z.eqb_neq in H9. rewrite H9.
  simpl. enough (match key_number (dec i) with
    | Some q => length (List.filter (Z.ltb q) (number_rows c phase d)) | None => 0 end
    < length (List.filter (Z.ltb pos) (number_rows c phase d)))%nat by lia.
  destruct (key_number (dec i)) as [q|] eqn:Hq.
  - apply key_number_dec in Hq. apply (filter_fewer _ _ _ i); [|done|lia..]. intros y. lia.
  - enough (i ∈ List.filter (Z.ltb pos) (number_rows c phase d)) as Hin.
    { destruct (List.filter _ _); [by apply elem_of_nil in Hin | simpl; lia]. }
    apply list_elem_of_In, List.filter_In. split; [by apply list_elem_of_In | lia].
Qed.

Lemma numeric_key_number p w q w' :
  numeric_key p w = (Ok q, w') -> key_number (pg_key p) = Some q /\ w' = w.
Proof. unfold numeric_key, key_number. intros H. m_inv H; done. Qed.

Lemma group_query_progress p phase w rows w' r :
  group_query p phase w = (Ok rows, w') -> r ∈ rows ->
  (left_rows (cut p) (row_key r) phase (db w) < left_rows (cut p) (pg_key p) phase (db w))%nat.
Proof.
  intros H Hr. unfold group_query in H. cbv zeta in H.
  destruct phase as [|q|q]; do 4 (try destruct q as [q|q|]); m_inv H;
    try (apply page_rows_elem in Hr as [Hr Hk]; by apply left_rows_text).
  - apply numeric_key_number in Hm as [Hp ->].
    apply log_items_elem in Hr as (i & -> & Hi & Hlt). by eapply left_rows_number.
  - apply numeric_key_number in Hm as [Hp ->].
    apply transparency_items_elem in Hr as (i & -> & Hi & Hlt). by eapply left_rows_number.
Qed.

Lemma group_reads p phase w rows w' : group p phase w = (Ok rows, w') -> db w' = db w.
Proof.
  unfold group. intros H. m_inv H; [done|]. by eapply group_query_reads.
Qed.
Lemma group_det p phase w rows w1 u rows' u1 :
  group p phase w = (Ok rows, w1) -> group p phase u = (Ok rows', u1) -> db u = db w ->
  rows' = rows.
Proof.
  unfold group. intros H H' Hd. m_inv H; m_inv H'; try congruence; simplify_eq; try done.
  assert (x1 = x) as -> by (by eapply group_query_det). congruence.
Qed.
Lemma group_progress p phase w rows w' key :
  group p phase w = (Ok rows, w') -> key ∈ rows.*1 ->
  (left_rows (cut p) key phase (db w) < left_rows (cut p) (pg_key p) phase (db w))%nat.
Proof.
  unfold group. intros H Hk. m_inv H.
  - simplify_eq. case_match eqn:E'; [|by apply elem_of_nil in Hk].
    apply list_elem_of_singleton in Hk as ->. bsimp. subst. unfold left_rows. rewrite E'. vm_compute. lia.
  - simplify_eq. rewrite <-list_fmap_compose in Hk. apply list_elem_of_fmap in Hk as (r & -> & Hr).
    eapply group_query_progress; [done|]. by eapply bounded_rows_subset.
Qed.

(** The rows of a page that all fit move the key to the last of them. *)
Lemma emit_rows_all include rows st st' :
  emit_rows include rows st = (st', true) ->
  cut (st_page st') = cut (st_page st) /\ extra (st_page st') = extra (st_page st) /\
  (rows = [] /\ st' = st \/ pg_key (st_page st') ∈ rows.*1).
Proof.
  revert st. induction rows as [|[key item] rows IH]; intros st H; cbn [emit_rows] in H.
  { injection H as <-. split_and!; [done..|by left]. }
  assert (Hgo : forall out count,
    emit_rows include rows (MkStream (set_key key (st_page st)) out count) = (st', true) ->
    cut (st_page st') = cut (st_page st) /\ extra (st_page st') = extra (st_page st) /\
    pg_key (st_page st') ∈ key :: rows.*1).
  { intros out count (Hc & He & Hk)%IH. split_and!; [done..|].
    destruct Hk as [[-> ->]|Hk]; [by left | by right]. }
  destruct (protect item include) as [v|]; [case_match; [done|]|];
    apply Hgo in H as (? & ? & ?); split_and!; try done; by right.
Qed.

Lemma n_nonneg v k : 0 <= n v k.
Proof.
  unfold n, as_u64. destruct (get v k); simpl; try lia. case_match; bsimp; simpl; lia.
Qed.

Definition stream_budget st (d : Db) : nat :=
  budget (cut (st_page st)) (pg_key (st_page st)) (phase_of (st_page st)) d.

(** A step that continues costs at least one unit of the budget. *)
Lemma export_step_budget include st w st' w' :
  export_step include st w = (Ok (true, st'), w') ->
  db w' = db w /\ (stream_budget st' (db w) < stream_budget st (db w))%nat.
Proof.
  unfold export_step. cbv zeta. intros H.
  destruct (10 <=? phase_of (st_page st)) eqn:E10; [by m_inv H|].
  apply M_bind_ok in H as (rows & w0 & Hg & H).
  destruct (emit_rows include rows st) as [s b] eqn:Em. m_inv H; simplify_eq.
  all: apply negb_false_iff in E; subst b.
  all: pose proof (group_reads _ _ _ _ _ Hg) as Hd; pose proof (group_reads _ _ _ _ _ Hm) as Hd'.
  all: apply emit_rows_all in Em as (Hc & He & Hk).
  all: pose proof (n_nonneg (extra (st_page st)) "phase") as Hn; fold (phase_of (st_page st)) in Hn.
  all: rewrite Hd', Hd; split; [done|]; unfold stream_budget.
  - assert (Hph : forall q, phase_of (set_key EmptyString (set_extra
      (set_member (extra (st_page s)) "phase" (Num (phase_of (st_page st) + 1))) q))
      = phase_of (st_page st) + 1).
    { intros q. unfold phase_of at 1, n. cbn [extra set_key set_extra].
      rewrite get_set_settable by done. rewrite String.eqb_refl. unfold as_u64.
      case_match; [done|bsimp; unfold u64_max in *; lia]. }
    cbn [st_page]. rewrite Hph. cbn [cut pg_key set_key set_extra]. rewrite Hc.
    apply budget_next. lia.
  - assert (Hp : phase_of (st_page st') = phase_of (st_page st)) by (unfold phase_of; by rewrite He).
    rewrite Hp, Hc. destruct Hk as [[-> ->]|Hk].
    + exfalso. by pose proof (group_det _ _ _ _ _ _ _ _ Hg Hm Hd).
    + apply (group_progress _ _ _ _ _ _ Hg) in Hk. unfold budget. lia.
Qed.

(** The [loop] of the source, without a bound: a run is a finite derivation. *)
Inductive export_runs (include : bool) (st : Stream) (w : World)
    : Result Stream -> World -> Prop :=
  | er_break st' w' : export_step include st w = (Ok (false, st'), w') ->
      export_runs include st w (Ok st') w'
  | er_error e w' : export_step include st w = (Err e, w') ->
      export_runs include st w (Err e) w'
  | er_panic w' : export_step include st w = (Panic, w') ->
      export_runs include st w Panic w'
  | er_continue st' w1 r w' : export_step include st w = (Ok (true, st'), w1) ->
      export_runs include st' w1 r w' -> export_runs include st w r w'.

Lemma export_loop_runs fuel include st w :
  (stream_budget st (db w) <= fuel)%nat ->
  export_runs include st w (fst (export_loop fuel include st w))
    (snd (export_loop fuel include st w)).
Proof.
  revert st w. induction fuel as [|fuel IH]; intros st w Hf.
  - unfold stream_budget, budget in Hf. lia.
  - simpl. cbv [bind M_monad].
    destruct (export_step include st w) as [[[[] st']|e|] w1] eqn:E; simpl.
    + apply export_step_budget in E as Hb. destruct Hb as [Hd Hb].
      eapply er_continue; [done|]. apply IH. rewrite Hd. lia.
    + by apply er_break.
    + by apply er_error.
    + by apply er_panic.
Qed.

(** (C29) The export stream ends: from every page and every state the unbounded loop of
    the source has a finite run, and [export_stream], whose fuel is computed from
    the sizes of the tables, returns its result. *)
Theorem export_stream_ends include st w :
  export_runs include st w (fst (export_stream include st w))
    (snd (export_stream include st w)).
Proof. apply export_loop_runs, budget_bound, n_nonneg. Qed.
End ExportSpec.
