(* ===== verification/PageSpec.v ===== *)
(** * Pages and cursors

    A cursor brings back the page it was made for, and the pages of the log show the
    entries one after the other, without a gap. *)
From S2P Require Import Prelude Error Json Verify Jcs Wire Query Routes Db Monad Config.
From S2P Require Import Store HashChain Steps StoreFacts StoreSpec Auth Domain Retention.
From S2P Require Import Read HandlerFacts.

Definition u64 (z : Z) : Prop := 0 <= z <= u64_max.
Record page_wf (p : Page) : Prop := {
  pw_head : u64 (head_seq (cut p));
  pw_min : u64 (min_available_seq (cut p));
  pw_index : u64 (transparency_index (cut p));
  pw_position : u64 (position p);
  pw_expires : u64 (pg_expires p);
}.

Lemma as_u64_num z : u64 z -> as_u64 (Num z) = Some z.
Proof. unfold u64, as_u64. intros Hz. case_match; [done|bsimp; lia]. Qed.

(** The JSON of a chain state is read back. *)
Lemma chain_json_roundtrip c :
  u64 (head_seq c) -> u64 (min_available_seq c) -> u64 (transparency_index c) ->
  chain_of_json (chain_json c) = Some c.
Proof.
  intros H1%as_u64_num H2%as_u64_num H3%as_u64_num. unfold chain_of_json.
  assert (get_opt (chain_json c) "head_seq" ≫= as_u64 = Some (head_seq c)) as -> by exact H1.
  assert (get_opt (chain_json c) "min_available_seq" ≫= as_u64 = Some (min_available_seq c))
    as -> by exact H2.
  assert (get_opt (chain_json c) "transparency_index" ≫= as_u64 = Some (transparency_index c))
    as -> by exact H3.
  by destruct c as [? ? ? ? ? ? ? [] ? ? ? ? ?].
Qed.

Section Cursors.
Context {X : Ext} {XL : ExtLaws X} {O : Oracle}.

Lemma cursor_ok cfg p w token w1 :
  cursor cfg p w = (Ok token, w1) ->
  (exists bytes, token = b64_encode bytes) /\
  t_cursors (db w1) !! token = Some (MkCursorRow (chain_id (cut p))
    (cursor_binding cfg (resource p) (filters p)) (cursor_state p) (pg_expires p)).
Proof.
  unfold cursor, random_bytes. intros H. m_inv H. split; [by eexists|].
  match goal with H : quota _ _ _ = _ |- _ => apply (quota_respects eq) in H; rewrite <-H end.
  destruct (insert_new _ _ _) as [m|] eqn:E; [|done]. simplify_eq/=.
  apply insert_new_ok in E as [_ ->]. rewrite <-Hm. apply lookup_insert_eq.
Qed.

Lemma resume_errors c cfg rs token fs limit w r w' :
  resume c cfg rs token fs limit w = (r, w') -> db w' = db w.
Proof.
  intros H. symmetry. assert (Hr : respects eq (resume c cfg rs token fs limit)).
  { unfold resume. respects_tac idtac. }
  by apply Hr in H.
Qed.

End Cursors.

(** ** The log, page by page *)
Section LogPages.
Context {X : Ext} {O : Oracle}.

Lemma sorted_fst {A} (l : list (Z * A)) :
  Sorted (fun x y => key_leb x y = true) l -> Sorted Z.le l.*1.
Proof.
  induction 1 as [|x l Hl IH Hd]; simpl; constructor; [done|].
  destruct Hd as [|y l Hxy]; simpl; constructor. unfold key_leb in Hxy. lia.
Qed.
Lemma key_leb_total {A} (x y : Z * A) : key_leb x y = false -> key_leb y x = true.
Proof. unfold key_leb. lia. Qed.

(** The rows with sequence numbers in an interval of a log without gaps. *)
Definition range_rows (c log : string) (pos through : Z) (d : Db) : list (Z * LogRow) :=
  omap (fun '((x, l, i), row) =>
    if String.eqb x c && String.eqb l log && (pos <? i) && (i <=? through)
    then Some (i, row) else None) (map_to_list (t_log d)).
Lemma range_rows_elem c log pos through d i row :
  (i, row) ∈ range_rows c log pos through d <->
  t_log d !! (c, log, i) = Some row /\ pos < i <= through.
Proof.
  unfold range_rows. rewrite list_elem_of_omap. split.
  - intros ([[[x l] j] r] & Hin & H). apply elem_of_map_to_list in Hin.
    destruct (String.eqb_spec x c) as [->|]; [|done]. destruct (String.eqb_spec l log) as [->|];
      [|done]. simpl in H. case_match; [|done]. simplify_eq. bsimp. split; [done|lia].
  - intros [Hr Hi]. exists (c, log, i, row). rewrite elem_of_map_to_list. split; [done|].
    rewrite !String.eqb_refl. simpl. case_match; [done|bsimp; lia].
Qed.
Lemma range_rows_nodup c log pos through d : NoDup (range_rows c log pos through d).*1.
Proof.
  unfold range_rows. pose proof (NoDup_fst_map_to_list (t_log d)) as Hn.
  induction (map_to_list (t_log d)) as [|[[[x l] i] r] rows IH]; csimpl; [constructor|].
  apply NoDup_cons in Hn as [Hx Hn]. specialize (IH Hn).
  destruct (String.eqb_spec x c) as [->|]; [|done]. destruct (String.eqb_spec l log) as [->|];
    [|done]. simpl. case_match; [|done]. csimpl. apply NoDup_cons. split; [|done].
  simplify_eq. case_match; [|done]. simplify_eq. simpl.
  intros Hin. apply Hx. apply list_elem_of_fmap in Hin as ([j row] & Hj & Hin).
  simpl in Hj. subst j.
  apply list_elem_of_omap in Hin as ([[[x' l'] j'] row'] & Hin & Hj).
  destruct (String.eqb_spec x' c) as [->|]; [|done].
  destruct (String.eqb_spec l' log) as [->|]; [|done]. simpl in Hj. case_match; [|done].
  simplify_eq. apply list_elem_of_fmap. eexists; split; [|exact Hin]; done.
Qed.

Lemma log_range_keys c log pos through limit d hd :
  (forall i, is_Some (t_log d !! (c, log, i)) <-> 1 <= i <= hd) -> 0 <= pos -> through <= hd ->
  (log_range c log pos through limit d).*1 = take limit (seqZ (pos + 1) (through - pos)).
Proof.
  intros Hdom Hp Ht. unfold log_range. fold (range_rows c log pos through d).
  rewrite fmap_take. f_equal. apply (Sorted_unique Z.le).
  - apply sorted_fst, sort_by_sorted. apply key_leb_total.
  - clear. generalize (pos + 1) as a. intros a. remember (Z.to_nat (through - pos)) as k eqn:Hk.
    revert a. destruct (decide (0 <= through - pos)) as [Hle|Hle].
    + replace (through - pos) with (Z.of_nat k) by lia. clear.
      induction k as [|k IH]; intros a; [by rewrite seqZ_nil by lia|].
      rewrite seqZ_cons by lia. replace (Z.pred (Z.of_nat (S k))) with (Z.of_nat k) by lia.
      constructor; [apply IH|]. destruct k; [by rewrite seqZ_nil by lia|].
      rewrite seqZ_cons by lia. constructor. lia.
    + intros a. rewrite seqZ_nil by lia. constructor.
  - rewrite sort_by_perm. apply NoDup_Permutation; [apply range_rows_nodup|apply NoDup_seqZ|].
    intros i. rewrite list_elem_of_fmap, elem_of_seqZ. split.
    + intros ([j row] & -> & [Hr Hi]%range_rows_elem). simpl. lia.
    + intros Hi. destruct (proj2 (Hdom i)) as [row Hr]; [lia|]. exists (i, row).
      split; [done|]. apply range_rows_elem. split; [done|lia].
Qed.

Lemma bounded_rows_prefix {A} (size : A -> Z) rows page :
  bounded_rows size rows = Ok page -> exists rest, rows = page ++ rest.
Proof.
  intros H. pose proof (bounded_loop_page size 0 [] rows ltac:(lia)) as Hp.
  unfold bounded_rows in H. rewrite H in Hp. destruct Hp as (q & rest & -> & -> & _). eauto.
Qed.

Lemma log_range_prefix c log pos through limit d hd rows rest j i row :
  (forall i, is_Some (t_log d !! (c, log, i)) <-> 1 <= i <= hd) -> 0 <= pos -> through <= hd ->
  log_range c log pos through limit d = rows ++ rest -> rows !! j = Some (i, row) ->
  i = pos + 1 + Z.of_nat j /\ i <= through /\ t_log d !! (c, log, i) = Some row.
Proof.
  intros Hdom Hp Ht Hr Hj. pose proof (log_range_keys c log pos through limit d hd Hdom Hp Ht) as Hk.
  assert (Hj' : log_range c log pos through limit d !! j = Some (i, row)).
  { rewrite Hr. by apply lookup_app_l_Some. }
  assert (Hi : (log_range c log pos through limit d).*1 !! j = Some i).
  { by rewrite list_lookup_fmap, Hj'. }
  rewrite Hk in Hi. apply lookup_take_Some in Hi as [Hi _]. apply lookup_seqZ in Hi as [Hi Hlt].
  split; [done|]. split; [lia|]. apply list_elem_of_lookup_2 in Hj'.
  unfold log_range in Hj'. apply subseteq_take, elem_of_sort_by in Hj'.
  by apply (range_rows_elem c log pos through d i row) in Hj' as [Hj' _].
Qed.

(** The loop takes a prefix of the rows. *)
Lemma log_loop_prefix c au tag ep limit rows items bytes pos items' pos' :
  log_loop c au RLog tag ep limit rows items bytes pos = Ok (items', pos') ->
  exists k, Some <$> items' = (Some <$> items) ++ (l_entry <$> (take k rows).*2) /\
    pos' = default pos (last (take k rows).*1) /\ (k <= length rows)%nat.
Proof.
  revert items bytes pos. induction rows as [|[i row] rows IH]; intros items bytes pos H;
    cbn [log_loop] in H.
  { injection H as <- <-. exists 0%nat. by rewrite app_nil_r. }
  assert (Hstop : Ok (items, pos) = Ok (A:=list Value * Z) (E:=ApiError) (items', pos') ->
    exists k, Some <$> items' = (Some <$> items) ++ (l_entry <$> (take k ((i, row) :: rows)).*2)
      /\ pos' = default pos (last (take k ((i, row) :: rows)).*1)
      /\ (k <= length ((i, row) :: rows))%nat).
  { intros [= <- <-]. exists 0%nat. rewrite app_nil_r. split_and!; [done..|lia]. }
  res_inv H. unfold include_entry in *. simpl in *.
  destruct (limit <=? _); [by apply Hstop|]. destruct (fits bytes _) as [b|]; [|by apply Hstop].
  res_inv H. apply IH in H as (k & Hi & Hp & Hk). exists (S k). simpl. split_and!.
  - rewrite Hi, fmap_app, <-app_assoc. simpl. by rewrite Hx.
  - rewrite Hp, last_cons. by destruct (last _).
  - lia.
Qed.

(** The position a request starts from. *)
Definition starts_at (q : list (string * string)) (pos : Z) : Prop :=
  match query q "after_seq" with
  | Some x => decimal x 0 MAX_INTEGER = Ok pos
  | None => pos = 0
  end.

Lemma page_start c cfg rs q fs w p w' :
  query q "cursor" = None -> page c cfg rs q fs w = (Ok p, w') ->
  cut p = c /\ starts_at q (position p) /\ db w' = db w.
Proof.
  intros Hq H. unfold page in H. rewrite Hq in H. m_inv H. simpl. split_and!; try done.
  unfold starts_at, opt_res in *. destruct (query q "after_seq"); res_inv Hm1; by simplify_eq/=.
Qed.
Lemma decimal_range x lo hi v : decimal x lo hi = Ok v -> lo <= v <= hi.
Proof. unfold decimal. repeat case_match; intros [= <-]; bsimp; lia. Qed.

Lemma starts_nonneg q pos : starts_at q pos -> 0 <= pos.
Proof.
  unfold starts_at. destruct (query q "after_seq"); [|lia]. intros H%decimal_range. lia.
Qed.

Lemma finish_members cfg p items more w v w' :
  finish cfg p items more true w = (Ok v, w') ->
  get v "items" = Arr items /\ get v "has_more" = Bool more /\
  get v "scan_through_seq" = Num (position p).
Proof. unfold finish. intros H. m_inv H. split_and!; by simpl. Qed.

Lemma page_positions {A} (rows : list (Z * A)) pos hd :
  (forall j r, rows !! j = Some r -> fst r = pos + 1 + Z.of_nat j /\ fst r <= hd) ->
  Z.of_nat (length rows) <= Z.max 0 (hd - pos) /\
  default pos (last rows.*1) = pos + Z.of_nat (length rows).
Proof.
  intros H. rewrite fmap_last, last_lookup. destruct (rows !! pred (length rows)) as [r|] eqn:E.
  - apply H in E as Hr. apply lookup_lt_Some in E. simpl. lia.
  - apply lookup_ge_None in E. simpl. lia.
Qed.

End LogPages.
