(* ===== verification/LogSpec.v ===== *)
(** * The log as an abstract data type

    What a client sees of a chain's log: a list of slots to which entries are
    appended and in which the body of a record or an envelope may be redacted.  The
    service refines this specification. *)
From S2P Require Import Prelude Error Json Verify Db Monad Config Store HashChain Steps.
From S2P Require Import StoreSpec ServiceFacts ServiceInv ServiceSpec History Concurrent.
From S2P Require Import Interleave InterleaveSpec.

(** A slot: the entry, unless it is redacted, and its link hash. *)
Definition Slot : Type := option Value * string.

(** The specification: a log grows at its end, and an erasable entry may be
    redacted; hashes, order and every other entry stay. *)
Inductive log_step (l : list Slot) : list Slot -> Prop :=
  | ls_append sl : log_step l (l ++ [sl])
  | ls_redact i e h : l !! i = Some (Some e, h) -> erasable_entry e = true ->
      log_step l (<[i := (None, h)]> l).

(** The abstraction function: the rows of the log of [c], in order. *)
Definition log_view (d : Db) (c : Chain) : list Slot :=
  (fun i => default (None, EmptyString) (log_rows d c i)) <$> seqZ 1 (head_seq c).

Definition redacts (a b : Slot) : Prop :=
  b = a \/ exists e, fst a = Some e /\ erasable_entry e = true /\ b = (None, snd a).

Lemma list_insert_middle (p l : list Slot) a b :
  <[length p := b]> (p ++ a :: l) = p ++ b :: l.
Proof. rewrite <-(Nat.add_0_r (length p)) at 1. by rewrite insert_app_r. Qed.

Lemma redact_all p l k :
  Forall2 redacts l k -> rtc log_step (p ++ l) (p ++ k).
Proof.
  intros H. revert p. induction H as [|a b l k Hab _ IH]; intros p; [done|].
  transitivity (p ++ b :: l).
  - destruct Hab as [->|(e & He & Hk & ->)]; [done|]. destruct a as [o h]. simpl in *. subst.
    apply rtc_once. rewrite <-(list_insert_middle p l (Some e, h) (None, h)).
    apply ls_redact with e; [by rewrite list_lookup_middle | done].
  - specialize (IH (p ++ [b])). by rewrite <-!app_assoc in IH.
Qed.
Lemma append_all l k : rtc log_step l (l ++ k).
Proof.
  revert l. induction k as [|sl k IH]; intros l; [by rewrite app_nil_r|].
  eapply rtc_l; [apply (ls_append _ sl)|]. specialize (IH (l ++ [sl])).
  by rewrite <-app_assoc in IH.
Qed.

Lemma log_steps_pointwise l k :
  (forall i a, l !! i = Some a -> exists b, k !! i = Some b /\ redacts a b) ->
  rtc log_step l k.
Proof.
  intros H. assert (Hp : exists k1 k2, k = k1 ++ k2 /\ Forall2 redacts l k1).
  { revert k H. induction l as [|a l IH]; intros k H; [by exists [], k|].
    destruct (H 0%nat a eq_refl) as (b & Hb & Hab). destruct k as [|b' k]; [done|].
    simplify_eq/=. destruct (IH k) as (k1 & k2 & -> & Hf).
    { intros i a' Hi. apply (H (S i) a' Hi). }
    exists (b :: k1), k2. split; [done|]. by constructor. }
  destruct Hp as (k1 & k2 & -> & Hf). transitivity k1; [|apply append_all].
  by apply (redact_all []).
Qed.

Lemma log_view_lookup d c i :
  0 <= i < head_seq c -> log_view d c !! Z.to_nat i
    = Some (default (None, EmptyString) (log_rows d c (1 + i))).
Proof.
  intros Hi. unfold log_view. rewrite list_lookup_fmap.
  rewrite (lookup_seqZ_lt 1 (head_seq c) (Z.to_nat i)) by lia. simpl.
  by rewrite Z2Nat.id by lia.
Qed.

Section LogSpec.
Context {X : Ext} {XL : ExtLaws X} {O : Oracle}.
Context (mime_parse : string -> option (string * option string)).

Lemma log_row_kept d d' c c' i :
  chain_kept (chain_id c) d d' -> chain_id c' = chain_id c -> log_id c' = log_id c ->
  forall a, log_rows d c i = Some a -> exists b, log_rows d' c' i = Some b /\ redacts a b.
Proof.
  intros Hk Hc Hl a. unfold log_rows. rewrite Hc, Hl. intros Ha.
  apply fmap_Some in Ha as (r & Hr & ->).
  destruct (ck_log _ _ _ Hk _ _ _ Hr) as (r' & Hr' & Hh & He). rewrite Hr'.
  eexists; split; [done|]. unfold redacts. simpl. rewrite Hh.
  destruct He as [->|(-> & e & He & Hk')]; [by left|right]. eauto.
Qed.

Lemma log_view_refines cfg cfg' d d' c c' :
  chain_ok cfg d c -> chain_ok cfg' d' c' -> chain_kept (chain_id c) d d' ->
  chain_id c' = chain_id c -> log_id c' = log_id c ->
  rtc log_step (log_view d c) (log_view d' c').
Proof.
  intros Hok Hok' Hk Hc Hl. pose proof (fun i => log_row_kept d d' c c' i Hk Hc Hl) as Hrow.
  destruct (ok_log _ _ _ Hok) as (h0 & _ & Hch). destruct (ok_log _ _ _ Hok') as (h1 & _ & Hch').
  apply log_steps_pointwise. intros i a Ha.
  assert (Hi : 0 <= Z.of_nat i < head_seq c).
  { apply lookup_lt_Some in Ha. unfold log_view in Ha.
    rewrite length_fmap, length_seqZ in Ha. lia. }
  rewrite <-(Nat2Z.id i) in Ha. rewrite log_view_lookup in Ha by done. injection Ha as <-.
  destruct (proj2 (hc_dom _ _ _ _ _ Hch (1 + Z.of_nat i)) ltac:(lia)) as [a Ha].
  destruct (Hrow _ _ Ha) as (b & Hb & Hab).
  assert (Hi' : Z.of_nat i < head_seq c').
  { assert (1 <= 1 + Z.of_nat i <= head_seq c'); [|lia].
    apply (hc_dom _ _ _ _ _ Hch'). eauto. }
  exists b. rewrite Ha. split; [|done].
  rewrite <-(Nat2Z.id i), log_view_lookup by lia. by rewrite Hb.
Qed.

End LogSpec.
