(* ===== verification/HistorySpec.v ===== *)
(** * Consequences of the permanence of evidence

    A revoked device never authenticates again, and no payload nonce encrypts two
    records. *)
From S2P Require Import Prelude Error Json Verify Jcs Wire Query Routes Db Monad Config.
From S2P Require Import Store HashChain Steps StoreFacts StoreSpec Auth AuthFacts Domain.
From S2P Require Import Retention Mutation Deletion Batch HandlerFacts ServiceFacts.
From S2P Require Import ServiceSpec History Concurrent Interleave InterleaveSpec.

Section Revoked.
Context {X : Ext} {O : Oracle}.
Context (mime_parse : string -> option (string * option string)).

Lemma revoked_forward r r' :
  moves_forward r r' -> r_status r = Revoked -> r_status r' = Revoked.
Proof. intros [_ _ Hs] Hr. rewrite Hr in Hs. by destruct (r_status r'). Qed.

(** (C19) A revoked device stays out: after its revocation, however the transactions of
    requests, starts and upkeep interleave, in every later state of a chain that is
    not deleted no token of the device is accepted. *)
Theorem revoked_device_stays_out w s s' x id r cfg rq au w' :
  chains_keyed (db w) -> rtc (step mime_parse) (MkSystem w Down) s ->
  t_registry (db (world s)) !! (x, id) = Some r -> r_status r = Revoked ->
  rtc (step mime_parse) s s' -> t_deletions (db (world s')) !! x = None ->
  rq_chain_id rq = x -> authenticate cfg rq (world s') = (Ok au, w') ->
  Auth.device au <> Some id.
Proof.
  intros Hk H0 Hr Hs He Hd <- H Hdev.
  destruct (interleaved_history _ _ _ _ Hk H0 He) as [_ _ Hkept].
  destruct (ck_registry _ _ _ (Hkept _ Hd) _ _ Hr) as (r' & Hr' & Hf).
  pose proof (revoked_forward _ _ Hf Hs) as Hs'.
  unfold authenticate in H. m_inv H. apply authorize_ok in H as [_ _ (k & Ha & _) _ _].
  simpl in Ha. rewrite Hdev in Ha.
  inversion Ha as [|row ? ? Hrow| |? ? ? ? r2 ? ? ? ? ? Hr2 Hst|]; subst; [congruence|].
  rewrite Hr' in Hr2. injection Hr2 as <-. rewrite Hs' in Hst. naive_solver.
Qed.

(** ** Payload nonces *)
Lemma active_device_reads c i w k w' : active_device c i w = (Ok k, w') -> db w' = db w.
Proof. intros H. symmetry. by apply (active_device_respects eq) in H. Qed.
Lemma record_new c r au snapshot staged w w' :
  record c r au snapshot staged w = (Ok false, w') -> admin au = false ->
  payload_nonce_taken (chain_id c) r (db w) = false /\ db w' = db w /\
  t_objects (db w) !! (chain_id c, if snapshot then KSnapshotPart else KRecord,
                       s r "record_id") = None.
Proof.
  intros H Ha. unfold record, object_digest in H. rewrite Ha, ?andb_false_r in H.
  cbn [andb] in H. m_inv H; [discriminate|].
  match goal with E : active_device _ _ _ = _ |- _ => apply active_device_reads in E end.
  simpl in *. split_and!; [congruence..|by apply fmap_None in E].
Qed.

(** The key of the nonce of record [r] in chain [x]. *)
Definition payload_key (x : string) (r : Value) : string * Z * string :=
  (x, n r "epoch", s r "payload_nonce").

Lemma append_stores c cfg kind v w c' entry p w' :
  append c cfg kind v w = (Ok (c', (entry, p)), w') ->
  is_Some (t_objects (db w') !! (chain_id c, kind, object_id v kind)).
Proof.
  intros [[x []]|([Ho _] & _ & ->)]%append_ok; [|done]. rewrite ap_db. cbn.
  unfold object_after. destruct (t_objects (db w) !! _) eqn:E.
  - rewrite lookup_alter_eq, E. by eexists.
  - rewrite lookup_insert_eq. by eexists.
Qed.

(** What a device's record that is accepted as new finds, and what it leaves. *)
Lemma attempt_record_new c cfg au x r w c' item receipt w' :
  attempt_record c cfg au x false r w = (Ok (c', (item, receipt)), w') ->
  admin au = false -> get item "duplicate" = Bool false ->
  payload_nonce_taken (chain_id c) r (db w) = false /\
  t_objects (db w) !! (chain_id c, KRecord, s r "record_id") = None /\
  t_payload_nonces (db w') !! payload_key (chain_id c) r = Some (s r "record_id") /\
  is_Some (t_objects (db w') !! (chain_id c, KRecord, s r "record_id")).
Proof.
  intros H Ha Hi. unfold attempt_record, reserve_payload_nonce in H. m_inv H. simplify_eq.
  assert (x1 = false) as -> by (revert Hi; by destruct x1).
  match goal with E : record _ _ _ _ _ _ = _ |- _ =>
    apply record_new in E as (Hn & Hd & Ho) end; [|done].
  match goal with E : append _ _ _ _ _ = _ |- _ =>
    apply append_stores in E as Hs; apply (append_respects (chain_id c)) in E as He; [|done] end.
  apply db_steps_evidence in He. simpl in Hn, Hd, Ho. split_and!; try done.
  eapply lookup_weaken; [|exact (ev_payload_nonces _ _ He)].
  simpl. rewrite Hd. simpl. unfold payload_nonce_taken in Hn. fold (payload_key (chain_id c) r) in *.
  unfold insert_ignore. destruct (_ !! payload_key _ _) as [id|] eqn:E.
  - rewrite E. apply negb_false_iff, String.eqb_eq in Hn. by f_equal.
  - apply lookup_insert_eq.
Qed.

(** (C18) A payload nonce encrypts one record: two records uploaded by devices and both
    accepted as new in the course of the history of a chain never have both the
    epoch and the payload nonce in common. *)
Theorem payload_nonce_single_use cfg c1 c2 au1 au2 r1 r2 w1 w1' w2 w2' c1' c2' i1 i2 p1 p2 :
  attempt_record c1 cfg au1 (chain_id c1) false r1 w1 = (Ok (c1', (i1, p1)), w1') ->
  attempt_record c2 cfg au2 (chain_id c2) false r2 w2 = (Ok (c2', (i2, p2)), w2') ->
  admin au1 = false -> admin au2 = false ->
  get i1 "duplicate" = Bool false -> get i2 "duplicate" = Bool false ->
  chain_id c2 = chain_id c1 -> chain_kept (chain_id c1) (db w1') (db w2) ->
  (n r1 "epoch", s r1 "payload_nonce") <> (n r2 "epoch", s r2 "payload_nonce").
Proof.
  intros H1 H2 A1 A2 D1 D2 Hc Hk [= He Hn].
  destruct (attempt_record_new _ _ _ _ _ _ _ _ _ _ H1 A1 D1) as (_ & _ & Hr & [o Ho]).
  destruct (attempt_record_new _ _ _ _ _ _ _ _ _ _ H2 A2 D2) as (Ht & Hno & _).
  apply (ck_payload_nonces _ _ _ Hk) in Hr. unfold payload_nonce_taken in Ht.
  rewrite Hc in Ht, Hno. rewrite <-He, <-Hn in Ht. unfold payload_key in Hr.
  rewrite Hr in Ht. apply negb_false_iff, String.eqb_eq in Ht.
  destruct (ck_objects _ _ _ Hk _ _ _ Ho) as (o' & Ho' & _). congruence.
Qed.
End Revoked.
