(* ===== verification/LegacySpec.v ===== *)
(** * What the frozen interface keeps (Legacy.v)

    A legacy request touches no table of v3 but the rate buckets, and of the legacy
    chains it changes at most the one it deletes; a deleted legacy chain is empty
    and stays closed; a page of records is a run of the chain's rows without a gap. *)
From S2P Require Import Prelude Error Json Verify Jcs Wire Query Db Monad Config Auth Sync.
From S2P Require Import DeletionSpec Legacy.

(** ** Relations that a computation respects *)
Definition view (w : LWorld) : Db * LegacyDb := (db (v3 w), legacy w).

Section LRespects.
Context {O : Oracle} {E : Type}.
Context (R : Db * LegacyDb -> Db * LegacyDb -> Prop) `{!PreOrder R}.

Definition l_respects {A} (m : L E A) : Prop :=
  forall w r w', m w = (r, w') -> R (view w) (view w').

Lemma lr_same {A} (m : L E A) : (forall w, view (snd (m w)) = view w) -> l_respects m.
Proof. intros H w r w' E1. specialize (H w). rewrite E1 in H. simpl in H. by rewrite H. Qed.
Lemma lr_ret {A} (x : A) : l_respects (ret x).
Proof. by apply lr_same. Qed.
Lemma lr_fail {A} e : l_respects (fail (A:=A) e).
Proof. by apply lr_same. Qed.
Lemma lr_panic {A} : l_respects (panic (A:=A)).
Proof. by apply lr_same. Qed.
Lemma lr_pure {A} (r : Res E A) : l_respects (l_pure r).
Proof. by apply lr_same. Qed.
Lemma lr_lift {E' A} e (r : Res E' A) : l_respects (l_lift e r).
Proof. by apply lr_same. Qed.
Lemma lr_now : l_respects l_now.
Proof. by apply lr_same. Qed.
Lemma lr_fail_if b e : l_respects (fail_if b e).
Proof. destruct b; [apply lr_fail | apply lr_ret]. Qed.
Lemma lr_ok_or {A} (o : option A) e : l_respects (ok_or o e).
Proof. destruct o; [apply lr_ret | apply lr_fail]. Qed.
Lemma lr_unwrap {A} (o : option A) : l_respects (unwrap o).
Proof. destruct o; [apply lr_ret | apply lr_panic]. Qed.
Lemma lr_bind {A B} (m : L E A) (f : A -> L E B) :
  l_respects m -> (forall x, l_respects (f x)) -> l_respects (bind m f).
Proof.
  intros Hm Hf w r w'. cbv [bind L_monad]. destruct (m w) as [[x|e|] w1] eqn:E1; intros H.
  - etransitivity; [by eapply Hm | by eapply Hf].
  - injection H as <- <-. by eapply Hm.
  - injection H as <- <-. by eapply Hm.
Qed.
Lemma lr_bind_ok_or {A B} (o : option A) e (f : A -> L E B) :
  (forall x, o = Some x -> l_respects (f x)) -> l_respects (bind (ok_or o e) f).
Proof. intros Hf. destruct o as [x|]; [by apply Hf | by apply (lr_fail (A:=B))]. Qed.
Lemma lr_forM {A} (f : A -> L E unit) l :
  (forall x, x ∈ l -> l_respects (f x)) -> l_respects (forM f l).
Proof.
  induction l as [|x l IH]; intros Hf; simpl; [apply lr_ret|].
  apply lr_bind; [apply Hf; constructor|]. intros _. apply IH. intros. apply Hf. by constructor.
Qed.
Lemma lr_sql {A} e (f : LegacyDb -> option (A * LegacyDb)) :
  (forall d3 d x d', f d = Some (x, d') -> R (d3, d) (d3, d')) -> l_respects (l_sql e f).
Proof.
  intros H w r w'. unfold l_sql. destruct (sql_fails _); [by intros [= _ <-]|].
  destruct (f (legacy w)) as [[x d]|] eqn:Ef; intros [= _ <-]; [|done].
  unfold view. simpl. by eapply H.
Qed.
Lemma lr_select {A} e (f : LegacyDb -> A) : l_respects (l_select e f).
Proof. apply lr_sql. intros d3 d x d' [= _ <-]. done. Qed.
Lemma lr_exec e (f : LegacyDb -> LegacyDb) :
  (forall d3 d, R (d3, d) (d3, f d)) -> l_respects (l_exec e f).
Proof. intros H. apply lr_sql. intros d3 d x d' [= _ <-]. done. Qed.
Lemma lr_on_v3 {A} (g : ApiError -> E) (m : M A) :
  (forall d, respects (fun a b => R (a, d) (b, d)) m) -> l_respects (on_v3 g m).
Proof.
  intros H w r w'. unfold on_v3. destruct (m (v3 w)) as [r3 w3] eqn:E3. intros [= _ <-].
  unfold view. simpl. by eapply H.
Qed.
Lemma lr_transaction {A} e e' (m : L E A) : l_respects m -> l_respects (l_transaction e e' m).
Proof.
  intros Hm w r w'. unfold l_transaction. destruct (sql_fails _); [by intros [= _ <-]|].
  destruct (m _) as [[x|e1|] w1] eqn:E1; [|by intros [= _ <-]..].
  destruct (sql_fails _); intros [= _ <-]; [done|]. by apply Hm in E1.
Qed.
Lemma lr_try {A} (m : L E A) : l_respects m -> l_respects (l_try m).
Proof.
  intros Hm w r w'. unfold l_try. destruct (m w) as [[x|e|] w1] eqn:E1; intros [= _ <-];
    by eapply Hm.
Qed.
End LRespects.

(** [lr_tac stmt] decomposes an [l_respects] goal; [stmt] is for what writes. *)
Ltac lr_tac stmt :=
  intros;
  lazymatch goal with
  | |- PreOrder _ => exact _
  | |- l_respects ?R (bind (ok_or _ _) _) => apply lr_bind_ok_or; lr_tac stmt
  | |- l_respects ?R (bind _ _) => apply lr_bind; lr_tac stmt
  | |- l_respects ?R (ret _) => apply lr_ret; exact _
  | |- l_respects ?R (fail _) => apply lr_fail; exact _
  | |- l_respects ?R panic => apply lr_panic; exact _
  | |- l_respects ?R (l_pure _) => apply lr_pure; exact _
  | |- l_respects ?R (l_lift _ _) => apply lr_lift; exact _
  | |- l_respects ?R l_now => apply lr_now; exact _
  | |- l_respects ?R (fail_if _ _) => apply lr_fail_if; exact _
  | |- l_respects ?R (ok_or _ _) => apply lr_ok_or; exact _
  | |- l_respects ?R (unwrap _) => apply lr_unwrap; exact _
  | |- l_respects ?R (l_select _ _) => apply lr_select; exact _
  | |- l_respects ?R (l_transaction _ _ _) => apply lr_transaction; lr_tac stmt
  | |- l_respects ?R (l_try _) => apply lr_try; lr_tac stmt
  | |- l_respects ?R (let _ := _ in _) => cbv zeta; lr_tac stmt
  | |- l_respects ?R (match ?x with _ => _ end) => destruct x eqn:?; lr_tac stmt
  | |- _ => stmt
  end.

(** ** Isolation *)
Definition only_rates (d d' : Db) : Prop := exists m, d' = set_rates m d.
#[export] Instance only_rates_preorder : PreOrder only_rates.
Proof.
  split.
  - intros d. exists (t_rates d). by destruct d.
  - intros d1 d2 d3 [m ->] [m' ->]. by exists m'.
Qed.

(** The rows of chain [x] in every legacy table but the nonces. *)
Record l_same_rows (x : string) (d d' : LegacyDb) : Prop := {
  ls_chains : l_chains d' !! x = l_chains d !! x;
  ls_devices : forall i, l_devices d' !! (x, i) = l_devices d !! (x, i);
  ls_records : forall i r, lr_chain r = x ->
    l_records d' !! i = Some r <-> l_records d !! i = Some r;
  ls_cursors : forall i, l_cursors d' !! i = Some x <-> l_cursors d !! i = Some x;
  ls_parameters : l_parameters d' !! x = l_parameters d !! x;
}.
#[export] Instance l_same_rows_preorder x : PreOrder (l_same_rows x).
Proof.
  split.
  - intros d. by split.
  - intros d1 d2 d3 [A1 A2 A3 A4 A5] [B1 B2 B3 B4 B5]. split; try congruence.
    + intros i r Hr. by rewrite B3, A3.
    + intros i. by rewrite B4, A4.
Qed.
Definition isolated (x : string) (a b : Db * LegacyDb) : Prop :=
  only_rates (fst a) (fst b) /\ l_same_rows x (snd a) (snd b).
#[export] Instance isolated_preorder x : PreOrder (isolated x).
Proof.
  split.
  - intros a. by split.
  - intros a b c [A1 A2] [B1 B2]. by split; etransitivity.
Qed.
Lemma isolated_legacy x d3 d d' : l_same_rows x d d' -> isolated x (d3, d) (d3, d').
Proof. by split. Qed.

Section Isolation.
Context {X : Ext} {O : Oracle}.
Implicit Types (cfg : RelayConfig).

Lemma rate_only cfg sc i : respects only_rates (rate cfg sc i).
Proof. unfold rate. respects_tac ltac:(by eexists). Qed.
Lemma l_rate_isolated x cfg sc i : l_respects (isolated x) (l_rate cfg sc i).
Proof.
  apply lr_on_v3. intros d w r w' H. split; [|done]. by apply rate_only in H.
Qed.

Lemma nonces_same x m d : l_same_rows x d (set_l_nonces m d).
Proof. by split. Qed.
Lemma authenticate_isolated x chain rq : l_respects (isolated x) (authenticate chain rq).
Proof.
  unfold authenticate, outside_window. lr_tac idtac.
  - apply lr_exec; [exact _|]. intros d3 d. apply isolated_legacy, nonces_same.
  - apply lr_sql; [exact _|]. intros d3 d b d' Hd. apply isolated_legacy.
    destruct (_ !! _); simplify_eq; [done | apply nonces_same].
Qed.
Lemma records_loop_isolated x fuel chain limit bytes rows pos used :
  l_respects (isolated x) (records_loop fuel chain limit bytes rows pos used).
Proof.
  revert rows pos used. induction fuel as [|fuel IH]; intros rows pos used;
    cbn [records_loop]; lr_tac idtac.
  - apply lr_sql; [exact _|]. intros d3 d r d' Hd.
    destruct (row_at _ _ d); simplify_eq/=; done.
  - apply IH.
Qed.
Lemma records_isolated x chain q m b : l_respects (isolated x) (records chain q m b).
Proof.
  unfold records. lr_tac idtac. intros w r w' H.
  exact (records_loop_isolated _ _ _ _ _ _ _ _ w r w' H).
Qed.

Lemma filter_value_same {K V} `{Countable K} (f : V -> string) x y (m : gmap K V) k v :
  x <> y -> f v = x ->
  filter (fun kv => f (snd kv) <> y) m !! k = Some v <-> m !! k = Some v.
Proof. intros Hxy Hv. rewrite map_lookup_filter_Some. simpl. split; [tauto|]. split; congruence. Qed.

Definition forgets : list (string -> LegacyDb -> LegacyDb) :=
  [forget_records; forget_devices; forget_nonces; forget_cursors; forget_parameters].
Lemma forget_others x y d f : x <> y -> f ∈ forgets -> l_same_rows x d (f y d).
Proof.
  intros Hxy Hf. repeat (apply elem_of_cons in Hf as [->|Hf]); [..|by apply elem_of_nil in Hf].
  - split; try done. intros i r Hr. by apply (filter_value_same lr_chain x).
  - split; try done. intros i. simpl. by apply filter_key_same.
  - by split.
  - split; try done. intros i. by apply (filter_value_same (fun v => v) x).
  - split; try done. simpl. by apply lookup_delete_ne.
Qed.
Lemma mark_others x y t d : x <> y -> l_same_rows x d (mark_deleted y t d).
Proof. intros Hxy. split; try done. simpl. by apply lookup_alter_ne. Qed.

Lemma legacy_delete_isolated x chain : x <> chain -> l_respects (isolated x) (legacy_delete chain).
Proof.
  intros Hx. unfold legacy_delete. lr_tac idtac.
  - apply lr_forM; [exact _|]. intros f Hf. apply lr_exec; [exact _|].
    intros. apply isolated_legacy. by apply forget_others.
  - apply lr_exec; [exact _|]. intros. by apply isolated_legacy, mark_others.
Qed.

Lemma chain_request_isolated x cfg rq chain route q :
  (route = LDelete -> x <> chain) -> l_respects (isolated x) (chain_request cfg rq chain route q).
Proof.
  intros Hx. unfold chain_request, devices.
  lr_tac ltac:(first [apply authenticate_isolated | apply l_rate_isolated
    | apply records_isolated | apply legacy_delete_isolated; auto]).
Qed.

Lemma run_isolated x cfg rq :
  route_of (path rq) <> Some (x, LDelete) -> l_respects (isolated x) (run cfg rq).
Proof.
  intros Hx. unfold run, rate_source. lr_tac ltac:(try apply l_rate_isolated).
  apply chain_request_isolated. intros ->. congruence.
Qed.
Lemma handle_run cfg rq w r w' :
  handle cfg rq w = (r, w') -> exists r', run cfg rq w = (r', w').
Proof. unfold handle. destruct (run cfg rq w) as [[y|e|] w1]; intros [= _ <-]; eauto. Qed.

(** (C34) The frozen interface has no authority over v3, and a legacy chain none over
    another: a request, however it ends, leaves every v3 table but the rate buckets
    as it was, and every row but the nonces of each legacy chain that it does not
    ask to delete. *)
Theorem legacy_isolated cfg rq w r w' :
  handle cfg rq w = (r, w') ->
  only_rates (db (v3 w)) (db (v3 w')) /\
  forall x, route_of (path rq) <> Some (x, LDelete) -> l_same_rows x (legacy w) (legacy w').
Proof.
  intros [r' H]%handle_run. split.
  - assert (Hx : exists x, route_of (path rq) <> Some (x, LDelete)).
    { destruct (decide (route_of (path rq) = Some (EmptyString, LDelete))) as [E|E]; [|eauto].
      exists "x"%string. by rewrite E. }
    destruct Hx as [x Hx]. destruct (run_isolated x cfg rq Hx _ _ _ H) as [Hr _]. exact Hr.
  - intros x Hx. destruct (run_isolated x cfg rq Hx _ _ _ H) as [_ Hs]. exact Hs.
Qed.
End Isolation.

(** ** Inversion of successful runs *)
Section LInversion.
Context {O : Oracle} {E : Type}.

Lemma l_bind_ok {A B} (m : L E A) (f : A -> L E B) w b w' :
  bind m f w = (Ok b, w') <-> exists x w1, m w = (Ok x, w1) /\ f x w1 = (Ok b, w').
Proof.
  cbv [bind L_monad]. destruct (m w) as [[x|e|] w1].
  - split; [by eauto|]. by intros (y & w2 & [= <- <-] & H).
  - split; [done|]. by intros (y & w2 & H & _).
  - split; [done|]. by intros (y & w2 & H & _).
Qed.
Lemma l_ret_ok {A} (x y : A) (w w' : LWorld) :
  ret (M:=L E) x w = (Ok y, w') <-> x = y /\ w' = w.
Proof. cbv [ret L_monad]. split; [by intros [= <- <-] | by intros [-> ->]]. Qed.
Lemma l_fail_if_ok b (e : E) (w : LWorld) u w' :
  fail_if (M:=L E) b e w = (Ok u, w') <-> b = false /\ w' = w.
Proof.
  destruct b, u; cbv [fail_if ret fail L_monad]; (split; [intros H | intros [H ->]]); by simplify_eq.
Qed.
Lemma l_ok_or_ok {A} (o : option A) (e : E) (w : LWorld) x w' :
  ok_or (M:=L E) o e w = (Ok x, w') <-> o = Some x /\ w' = w.
Proof.
  destruct o; cbv [ok_or ret fail L_monad]; (split; [intros H | intros [H ->]]); by simplify_eq.
Qed.
Lemma l_unwrap_ok {A} (o : option A) (w : LWorld) x w' :
  unwrap (M:=L E) (E:=E) o w = (Ok x, w') <-> o = Some x /\ w' = w.
Proof.
  destruct o; cbv [unwrap ret panic L_monad]; (split; [intros H | intros [H ->]]); by simplify_eq.
Qed.
Lemma l_select_ok {A} (e : E) (f : LegacyDb -> A) w x w' :
  l_select e f w = (Ok x, w') -> x = f (legacy w) /\ legacy w' = legacy w.
Proof. unfold l_select, l_sql. destruct (sql_fails _); [done|]. by intros [= <- <-]. Qed.
Lemma l_exec_ok (e : E) f w u w' : l_exec e f w = (Ok u, w') -> legacy w' = f (legacy w).
Proof. unfold l_exec, l_sql. destruct (sql_fails _); [done|]. by intros [= _ <-]. Qed.
Lemma l_lift_ok {E' A} (e : E) (r : Res E' A) w x w' :
  l_lift e r w = (Ok x, w') <-> r = Ok x /\ w' = w.
Proof.
  unfold l_lift. destruct r; (split; [intros H | intros [H ->]]); by simplify_eq.
Qed.
Lemma l_now_ok w t w' : l_now (E:=E) w = (Ok t, w') -> legacy w' = legacy w.
Proof. by intros [= _ <-]. Qed.
Lemma l_transaction_ok {A} (e e' : E) (m : L E A) w x w' :
  l_transaction e e' m w = (Ok x, w') ->
  exists w0 w1, legacy w0 = legacy w /\ m w0 = (Ok x, w1) /\ legacy w' = legacy w1.
Proof.
  unfold l_transaction. destruct (sql_fails _); [done|].
  destruct (m _) as [[y|e1|] w1] eqn:E1; [|done..].
  destruct (sql_fails _); intros [= <- <-]. eexists _, _. split; [|split; [exact E1|done]]. done.
Qed.
(** A transaction that does not succeed leaves the tables as they were. *)
Lemma l_transaction_failed {A} (e e' : E) (m : L E A) w r w' :
  l_transaction e e' m w = (r, w') -> (forall x, r <> Ok x) -> legacy w' = legacy w.
Proof.
  unfold l_transaction. destruct (sql_fails _); [by intros [= _ <-]|].
  destruct (m _) as [[y|e1|] w1] eqn:E1; [|by intros [= _ <-]..].
  destruct (sql_fails _); intros [= <- <-] H; [done|]. by destruct (H y).
Qed.
End LInversion.

Ltac l_inv H :=
  lazymatch type of H with
  | @bind _ (L _) _ _ _ _ _ _ = (Ok _, _) =>
      let x := fresh "x" in let w := fresh "w" in let Hx := fresh "Hm" in
      apply l_bind_ok in H as (x & w & Hx & H); l_inv Hx; l_inv H
  | @ret _ (L _) _ _ _ _ = (Ok _, _) => apply l_ret_ok in H as [? ?]; subst
  | fail_if _ _ _ = (Ok _, _) => apply l_fail_if_ok in H as [H ?]; subst
  | ok_or _ _ _ = (Ok _, _) => apply l_ok_or_ok in H as [H ?]; subst
  | unwrap _ _ = (Ok _, _) => apply l_unwrap_ok in H as [H ?]; subst
  | l_lift _ _ _ = (Ok _, _) => apply l_lift_ok in H as [H ?]; subst
  | (if ?b then _ else _) _ = (Ok _, _) =>
      let E := fresh "E" in destruct b eqn:E; l_inv H
  | (match ?p with _ => _ end) _ = (Ok _, _) => destruct p eqn:?; l_inv H
  | _ => idtac
  end.

(** ** The statuses of errors *)
Section Errors.
Context {O : Oracle}.

(** Every error of [m] is a status other than 200. *)
Definition refuses {A} (m : L Z A) : Prop := forall w e w', m w = (Err e, w') -> e <> 200.

Lemma rf_ok {A} (m : L Z A) : (forall w e w', m w <> (Err e, w')) -> refuses m.
Proof. intros H w e w' Hm. by destruct (H w e w'). Qed.
Lemma rf_fail {A} e : e <> 200 -> refuses (fail (A:=A) e).
Proof. by intros He w e' w' [= <- _]. Qed.
Lemma rf_fail_if b e : e <> 200 -> refuses (fail_if b e).
Proof. intros He. destruct b; [by apply rf_fail | by apply rf_ok]. Qed.
Lemma rf_ok_or {A} (o : option A) e : e <> 200 -> refuses (ok_or o e).
Proof. intros He. destruct o; [by apply rf_ok | by apply rf_fail]. Qed.
Lemma rf_unwrap {A} (o : option A) : refuses (unwrap o).
Proof. by destruct o; apply rf_ok. Qed.
Lemma rf_pure {A} (r : Res Z A) : (forall e, r = Err e -> e <> 200) -> refuses (l_pure r).
Proof. intros H w e w' [= -> _]. by apply H. Qed.
Lemma rf_lift {E' A} e (r : Res E' A) : e <> 200 -> refuses (l_lift e r).
Proof. intros He w e' w'. unfold l_lift. by destruct r; intros [= <- _]. Qed.
Lemma rf_bind {A B} (m : L Z A) (f : A -> L Z B) :
  refuses m -> (forall x, refuses (f x)) -> refuses (bind m f).
Proof.
  intros Hm Hf w e w'. cbv [bind L_monad]. destruct (m w) as [[x|e1|] w1] eqn:E1; [|..|done].
  - apply Hf.
  - intros [= <- _]. by eapply Hm.
Qed.
Lemma rf_sql {A} e (f : LegacyDb -> option (A * LegacyDb)) : e <> 200 -> refuses (l_sql e f).
Proof.
  intros He w e' w'. unfold l_sql. destruct (sql_fails _); [by intros [= <- _]|].
  destruct (f _) as [[]|]; [done|]. by intros [= <- _].
Qed.
Lemma rf_on_v3 {A} g (m : M A) : (forall e, g e <> 200) -> refuses (on_v3 g m).
Proof. intros Hg w e w'. unfold on_v3. by destruct (m (v3 w)) as [[]]; intros [= <- _]. Qed.
Lemma rf_transaction {A} e e' (m : L Z A) :
  e <> 200 -> e' <> 200 -> refuses m -> refuses (l_transaction e e' m).
Proof.
  intros He He' Hm w s w'. unfold l_transaction. destruct (sql_fails _); [by intros [= <- _]|].
  destruct (m _) as [[x|e1|] w1] eqn:E1; [|intros [= <- _]; by eapply Hm|done].
  destruct (sql_fails _); [by intros [= <- _]|done].
Qed.
Lemma rf_try {A} (m : L Z A) : refuses (l_try m).
Proof. intros w e w'. unfold l_try. by destruct (m w) as [[]]. Qed.
Lemma rf_forM {A} (f : A -> L Z unit) l : (forall x, refuses (f x)) -> refuses (forM f l).
Proof.
  intros Hf. induction l as [|x l IH]; simpl; [by apply rf_ok|]. by apply rf_bind.
Qed.
End Errors.

Ltac rf_tac :=
  intros;
  lazymatch goal with
  | |- refuses (bind _ _) => apply rf_bind; rf_tac
  | |- refuses (ret _) => by apply rf_ok
  | |- refuses panic => by apply rf_ok
  | |- refuses l_now => by apply rf_ok
  | |- refuses (fail_if _ _) => by apply rf_fail_if
  | |- refuses (ok_or _ _) => by apply rf_ok_or
  | |- refuses (unwrap _) => apply rf_unwrap
  | |- refuses (l_lift _ _) => by apply rf_lift
  | |- refuses (l_sql _ _) => by apply rf_sql
  | |- refuses (l_select _ _) => by apply rf_sql
  | |- refuses (l_exec _ _) => by apply rf_sql
  | |- refuses (l_try _) => apply rf_try
  | |- refuses (l_transaction _ _ _) => apply rf_transaction; [done|done|rf_tac]
  | |- refuses (forM _ _) => apply rf_forM; rf_tac
  | |- refuses (let _ := _ in _) => cbv zeta; rf_tac
  | |- refuses (match ?x with _ => _ end) => destruct x eqn:?; rf_tac
  | |- _ => idtac
  end.

Section Closed.
Context {X : Ext} {O : Oracle}.
Implicit Types (cfg : RelayConfig).

Lemma status_error e : Error.status (V:=Value) e <> 200.
Proof. destruct e as [[] c]; done. Qed.
Lemma l_rate_refuses cfg sc i : refuses (l_rate cfg sc i).
Proof. apply rf_on_v3, status_error. Qed.
Lemma decimal_refuses x e : decimal x = Err e -> e <> 200.
Proof.
  unfold decimal. destruct (_ || _); [by intros [= <-]|]. cbv [bind ret fail_if res_monad].
  destruct (x ← parse_u64 x; _); [done|]. by intros [= <-].
Qed.
Lemma records_loop_refuses fuel chain limit bytes rows pos used :
  refuses (records_loop fuel chain limit bytes rows pos used).
Proof.
  revert rows pos used. induction fuel as [|fuel IH]; intros rows pos used;
    cbn [records_loop]; rf_tac. apply IH.
Qed.
Lemma records_refuses chain q m b : refuses (records chain q m b).
Proof.
  unfold records. rf_tac; try (apply rf_pure; intros e; apply decimal_refuses).
  intros w e w' H. exact (records_loop_refuses _ _ _ _ _ _ _ w e w' H).
Qed.
Lemma original_refuses chain raw e : check_original_parameters chain raw = Err e -> e <> 200.
Proof.
  unfold check_original_parameters. destruct raw as [raw|]; [|by intros [= <-]].
  cbv [ok_or ret bind fail_if res_monad]. destruct (parse raw) as [v|m|]; [|by intros [= <-]|done].
  destruct (_ || _); [by intros [= <-]|done].
Qed.
Lemma authenticate_refuses chain rq : refuses (authenticate chain rq).
Proof. unfold authenticate, outside_window, take_nonce. rf_tac. Qed.
Lemma chain_request_refuses cfg rq chain route q : refuses (chain_request cfg rq chain route q).
Proof.
  unfold chain_request, devices, legacy_delete. rf_tac;
    auto using authenticate_refuses, l_rate_refuses, records_refuses.
  apply rf_pure. intros e. apply original_refuses.
Qed.
Lemma l_try_err {A} (m : L Z A) w e w' : refuses m -> l_try m w = (Ok (Err e), w') -> e <> 200.
Proof.
  intros Hm. unfold l_try. destruct (m w) as [[x|e1|] w1] eqn:E1; [done|..|done].
  intros [= <- _]. by eapply Hm.
Qed.
Lemma rate_source_refuses cfg rq : refuses (rate_source cfg rq).
Proof.
  unfold rate_source. case_match; [|by apply rf_ok]. intros w e w'.
  cbv [bind L_monad]. destruct (l_transaction _ _ _ w) as [[r|e1|] w1] eqn:E1; [|..|done].
  - intros [= -> _]. apply l_transaction_ok in E1 as (w2 & w3 & _ & H1 & _).
    by apply l_try_err in H1; [|apply l_rate_refuses].
  - intros [= <- _]. revert E1. by apply rf_transaction; [..|apply rf_try].
Qed.
Lemma run_refuses cfg rq : refuses (run cfg rq).
Proof.
  unfold run. rf_tac; auto using rate_source_refuses, chain_request_refuses.
Qed.

(** A response of status 200 is one that the request succeeded with. *)
Lemma handle_200 cfg rq w resp w' :
  handle cfg rq w = (Ok resp, w') -> lp_status resp = 200 -> run cfg rq w = (Ok resp, w').
Proof.
  unfold handle. destruct (run cfg rq w) as [[y|e|] w1] eqn:E1; [done|..|done].
  intros [= <- <-] He. by apply run_refuses in E1.
Qed.

(** ** A deleted chain *)
Record closed (x : string) (d : LegacyDb) : Prop := {
  cl_deleted : exists r, l_chains d !! x = Some r /\ is_Some (lc_deleted r);
  cl_records : forall i r, l_records d !! i = Some r -> lr_chain r <> x;
  cl_devices : forall i, l_devices d !! (x, i) = None;
  cl_cursors : forall i, l_cursors d !! i <> Some x;
  cl_parameters : l_parameters d !! x = None;
}.
Lemma closed_same x d d' : l_same_rows x d d' -> closed x d -> closed x d'.
Proof.
  intros [A1 A2 A3 A4 A5] [B1 B2 B3 B4 B5]. split.
  - by rewrite A1.
  - intros i r Hi Hr. apply (A3 i r Hr) in Hi. by eapply B2.
  - intros i. by rewrite A2.
  - intros i Hi. apply A4 in Hi. by eapply B4.
  - by rewrite A5.
Qed.

Lemma forgets_ok chain w u w' :
  forM (fun f => l_exec S_UNAVAILABLE (f chain)) forgets w = (Ok u, w') ->
  legacy w' = fold_left (fun d f => f chain d) forgets (legacy w).
Proof.
  generalize forgets. intros l. revert w. induction l as [|f l IH]; intros w H; simpl in H.
  - by injection H as _ <-.
  - l_inv H. apply IH in H. rewrite H. by apply l_exec_ok in Hm as ->.
Qed.
Lemma legacy_delete_closed chain w resp w' :
  legacy_delete chain w = (Ok resp, w') -> is_Some (l_chains (legacy w) !! chain) ->
  closed chain (legacy w').
Proof.
  unfold legacy_delete. intros H [r Hr]. l_inv H. apply l_now_ok in Hm0.
  apply (forgets_ok chain) in Hm. apply l_exec_ok in Hm1. rewrite Hm1, Hm0, Hm.
  cbn [fold_left forgets]. split; cbn.
  - rewrite lookup_alter_eq, Hr. eexists. split; [done|]. by destruct (lc_deleted r) eqn:E.
  - by intros i row [_ Hrow]%map_lookup_filter_Some.
  - intros i. apply filter_key_None. intros v Hv. by apply Hv.
  - intros i [_ Hi]%map_lookup_filter_Some. by apply Hi.
  - by apply lookup_delete_eq.
Qed.

Lemma rate_source_legacy cfg rq w u w' :
  rate_source cfg rq w = (Ok u, w') -> legacy w' = legacy w.
Proof.
  unfold rate_source. intros H. l_inv H; [|done].
  unfold l_pure in H. injection H as -> <-.
  apply l_transaction_ok in Hm as (w1 & w2 & Hw1 & H1 & ->). rewrite <-Hw1.
  unfold l_try, l_rate, on_v3 in H1. destruct (rate _ _ _ _) as [[] w3]; simplify_eq/=; done.
Qed.
Lemma run_chain cfg rq w resp w' x route :
  run cfg rq w = (Ok resp, w') -> route_of (path rq) = Some (x, route) ->
  exists q w1 w2, legacy w1 = legacy w /\ chain_request cfg rq x route q w1 = (Ok resp, w2) /\
    legacy w' = legacy w2.
Proof.
  intros H Hroute. unfold run in H. l_inv H.
  { exfalso. apply orb_true_iff in E as [E|E]; apply String.eqb_eq in E; by rewrite E in Hroute. }
  apply l_transaction_ok in H as (w8 & w9 & H1 & H2 & H3).
  match goal with H : rate_source _ _ _ = _ |- _ => apply rate_source_legacy in H as Hl end.
  rewrite Hroute in *. simplify_eq. exists x6, w8, w9. split; [congruence|done].
Qed.

Lemma authenticate_devices chain rq w id w' :
  authenticate chain rq w = (Ok id, w') -> l_same_rows chain (legacy w) (legacy w').
Proof. intros H. by apply (authenticate_isolated chain) in H as [_ H]. Qed.
Lemma l_rate_same cfg sc i w u w' :
  l_rate cfg sc i w = (Ok u, w') -> legacy w' = legacy w.
Proof. unfold l_rate, on_v3. destruct (rate _ _ _ _) as [[] w3]; intros [= _ <-]; done. Qed.

(** What a successful request on a chain finds: the chain is there and not deleted. *)
Lemma chain_request_live cfg rq x route q w resp w' :
  chain_request cfg rq x route q w = (Ok resp, w') ->
  exists r, l_chains (legacy w) !! x = Some r /\ lc_deleted r = None.
Proof.
  unfold chain_request. intros H. apply l_bind_ok in H as (e & w1 & H1 & H).
  apply l_select_ok in H1 as [_ E1]. apply l_bind_ok in H as (u & w2 & H2 & H).
  apply l_fail_if_ok in H2 as [_ ->]. apply l_bind_ok in H as (row & w3 & H3 & H).
  apply l_select_ok in H3 as [-> E3]. apply l_bind_ok in H as (r & w4 & H4 & H).
  apply l_ok_or_ok in H4 as [H4 ->]. apply l_bind_ok in H as (u' & w5 & H5 & _).
  apply l_fail_if_ok in H5 as [H5 _]. rewrite E1 in H4. exists r. split; [done|].
  apply bool_decide_eq_false in H5. by apply eq_None_not_Some.
Qed.
Lemma chain_request_closes cfg rq x q w resp w' :
  chain_request cfg rq x LDelete q w = (Ok resp, w') -> closed x (legacy w').
Proof.
  intros H. destruct (chain_request_live _ _ _ _ _ _ _ _ H) as (r & Hr & _).
  unfold chain_request in H. l_inv H.
  repeat match goal with H : l_select _ _ _ = _ |- _ => apply l_select_ok in H as [? ?] end.
  match goal with H : authenticate _ _ _ = _ |- _ => apply authenticate_devices in H end.
  match goal with H : l_rate _ _ _ _ = _ |- _ => apply l_rate_same in H end.
  eapply legacy_delete_closed; [exact H|].
  match goal with Ha : l_same_rows _ _ _, Hb : legacy ?w = legacy _ |- is_Some (_ (legacy ?w) !! _) =>
    rewrite Hb, (ls_chains _ _ _ Ha) end.
  exists r. congruence.
Qed.
Lemma closed_not_served cfg rq x route w resp w' :
  closed x (legacy w) -> route_of (path rq) = Some (x, route) ->
  run cfg rq w <> (Ok resp, w').
Proof.
  intros Hc Hroute H. destruct (run_chain _ _ _ _ _ _ _ H Hroute) as (q & w1 & w2 & H1 & H2 & _).
  destruct (chain_request_live _ _ _ _ _ _ _ _ H2) as (r & Hr & Hn).
  destruct (cl_deleted _ _ Hc) as (r' & Hr' & Hd). rewrite H1, Hr' in Hr. simplify_eq.
  rewrite Hn in Hd. by destruct Hd.
Qed.

Lemma l_select_run {E A B} (e : E) (f : LegacyDb -> A) (k : A -> L E B) w :
  bind (l_select e f) k w =
  if sql_fails (tick (v3 w)) then (Err e, MkLWorld (next (v3 w)) (legacy w))
  else k (f (legacy w)) (MkLWorld (next (v3 w)) (legacy w)).
Proof. cbv [bind L_monad l_select l_sql]. by destruct (sql_fails _). Qed.
Lemma l_fail_if_run {E B} b (e : E) (k : unit -> L E B) w :
  bind (fail_if b e) k w = if b then (Err e, w) else k tt w.
Proof. by destruct b. Qed.
Lemma l_ok_or_run {E A B} (o : option A) (e : E) (k : A -> L E B) w :
  bind (ok_or o e) k w = match o with Some x => k x w | None => (Err e, w) end.
Proof. by destruct o. Qed.

Lemma chain_request_closed cfg rq x route q w r w' :
  closed x (legacy w) -> chain_request cfg rq x route q w = (r, w') -> legacy w' = legacy w.
Proof.
  intros [(row & Hrow & Hd) _ _ _ _]. unfold chain_request.
  rewrite l_select_run. destruct (sql_fails _); [by intros [= _ <-]|].
  rewrite l_fail_if_run. destruct (negb _); [by intros [= _ <-]|].
  rewrite l_select_run. destruct (sql_fails _); [by intros [= _ <-]|].
  cbn [legacy]. rewrite Hrow, l_ok_or_run, l_fail_if_run.
  rewrite bool_decide_eq_true_2 by done. by intros [= _ <-].
Qed.

Definition stays_closed (x : string) (a b : Db * LegacyDb) : Prop :=
  closed x (snd a) -> closed x (snd b).
#[export] Instance stays_closed_preorder x : PreOrder (stays_closed x).
Proof. split; [intros a Hc; exact Hc | intros a b c H1 H2 Hc; apply H2, H1, Hc]. Qed.
Lemma isolated_closed {E A} x (m : L E A) :
  l_respects (isolated x) m -> l_respects (stays_closed x) m.
Proof.
  intros Hm w r w' H. apply Hm in H as [_ Hs]. intros Hc. exact (closed_same x _ _ Hs Hc).
Qed.

Lemma run_closed x cfg rq : l_respects (stays_closed x) (run cfg rq).
Proof.
  unfold run, rate_source. lr_tac ltac:(try (apply isolated_closed, l_rate_isolated)).
  destruct (decide (x = s)) as [<-|Hne].
  - intros w r w' Hrun Hc. apply chain_request_closed in Hrun; [|done]. simpl in *.
    by rewrite Hrun.
  - apply isolated_closed, chain_request_isolated. done.
Qed.

(** Neither does the operator's command reopen it. *)
Lemma keep_parameters_same x chain c d : x <> chain -> l_same_rows x d (keep_parameters chain c d).
Proof.
  intros Hx. split; try done. simpl. destruct (l_parameters d !! chain); [done|].
  by apply lookup_insert_ne.
Qed.
Lemma retain_parameters_closed x raw : l_respects (stays_closed x) (retain_parameters raw).
Proof.
  unfold retain_parameters. apply lr_bind; [exact _|by apply lr_pure; exact _|].
  intros [v chain]. apply lr_transaction; [exact _|]. destruct (decide (x = chain)) as [<-|Hne].
  - intros w r w' H Hc. destruct Hc as [(row & Hrow & Hd) H1 H2 H3 H4] eqn:Ec. revert H.
    rewrite l_select_run. destruct (sql_fails _); [by intros [= _ <-]|].
    simpl in Hrow. rewrite Hrow, l_ok_or_run, l_fail_if_run.
    rewrite bool_decide_eq_true_2 by done. by intros [= _ <-].
  - apply isolated_closed. lr_tac idtac.
    + apply lr_exec; [exact _|]. intros. by apply isolated_legacy, keep_parameters_same.
    + apply lr_sql; [exact _|]. intros d3 d y d' Hd.
      destruct (l_parameters d !! chain); by simplify_eq/=.
Qed.

(** Everything that can happen to the legacy tables: requests, restorations, and the
    whole of v3, which does not know them. *)
Inductive l_step (w : LWorld) : LWorld -> Prop :=
  | LRequest cfg rq r w' : handle cfg rq w = (r, w') -> l_step w w'
  | LRetain raw r w' : retain_parameters raw w = (r, w') -> l_step w w'
  | LV3 w3 : l_step w (MkLWorld w3 (legacy w)).

Lemma step_closed x w w' : l_step w w' -> closed x (legacy w) -> closed x (legacy w').
Proof.
  intros [cfg rq r w1 H|raw r w1 H|w3] Hc; [|by apply (retain_parameters_closed x) in H; apply H|done].
  apply handle_run in H as [r' H]. by apply (run_closed x) in H; apply H.
Qed.

(** (C35) Deletion of a legacy chain is final: once a request to delete it has been
    answered with status 200, no record, device, cursor or parameters of the chain are
    left; and whatever happens then, this stays so and no request on the chain is
    answered with status 200 or with a body. *)
Theorem legacy_deletion_is_final cfg rq w resp w1 x w2 :
  handle cfg rq w = (Ok resp, w1) -> lp_status resp = 200 ->
  route_of (path rq) = Some (x, LDelete) -> rtc l_step w1 w2 ->
  closed x (legacy w2) /\
  forall cfg' rq' route resp' w3, route_of (path rq') = Some (x, route) ->
    handle cfg' rq' w2 = (Ok resp', w3) -> lp_status resp' <> 200 /\ lp_body resp' = None.
Proof.
  intros H H200 Hroute Hsteps. assert (Hc : closed x (legacy w2)).
  { apply (handle_200 _ _ _ _ _ H) in H200 as Hr.
    destruct (run_chain _ _ _ _ _ _ _ Hr Hroute) as (q & w3 & w4 & _ & H4 & Hl).
    apply chain_request_closes in H4. rewrite <-Hl in H4. clear -Hsteps H4.
    induction Hsteps as [|a b c Hab _ IH]; [done|]. by eapply IH, step_closed. }
  split; [done|]. intros cfg' rq' route resp' w3 Hroute' H3.
  unfold handle in H3. destruct (run cfg' rq' w2) as [[y|e|] w5] eqn:E1; [..|done].
  - by apply (closed_not_served _ _ _ _ _ _ _ Hc Hroute') in E1.
  - injection H3 as <- <-. split; [by apply run_refuses in E1|done].
Qed.
End Closed.

(** ** The records of a chain, page by page *)
Section Records.
Context {X : Ext} {O : Oracle}.

Definition row_lt (x y : Z * LRecordRow) : Prop := fst x < fst y.
#[local] Instance row_lt_trans : Transitive row_lt.
Proof. intros x y z. unfold row_lt. lia. Qed.
#[local] Instance row_lt_antisymm : AntiSymm (=) row_lt.
Proof. intros x y. unfold row_lt. lia. Qed.

Lemma rows_after_elem chain pos d i r :
  (i, r) ∈ rows_after chain pos d <->
  l_records d !! i = Some r /\ lr_chain r = chain /\ pos < i.
Proof.
  unfold rows_after. rewrite sort_by_perm, list_elem_of_In, filter_In, <-list_elem_of_In,
    elem_of_map_to_list. simpl. rewrite andb_true_iff, String.eqb_eq, Z.ltb_lt. tauto.
Qed.
Lemma rows_after_nodup chain pos d : NoDup (rows_after chain pos d).*1.
Proof.
  unfold rows_after. rewrite sort_by_perm. eapply sublist_NoDup.
  - apply (NoDup_fst_map_to_list (l_records d)).
  - apply fmap_sublist. generalize (map_to_list (l_records d)). intros l.
    induction l as [|kr l IH]; simpl; [done|]. case_match; by constructor.
Qed.
Lemma rows_after_sorted chain pos d : StronglySorted row_lt (rows_after chain pos d).
Proof.
  assert (Hs : Sorted (fun x y => (fst x <=? fst y) = true) (rows_after chain pos d)).
  { apply sort_by_sorted. intros x y. lia. }
  pose proof (rows_after_nodup chain pos d) as Hn.
  apply Sorted_StronglySorted; [exact _|].
  induction Hs as [|x l Hl IH Hd]; [constructor|]. apply NoDup_cons in Hn as [Hx Hn].
  constructor; [by apply IH|]. destruct Hd as [|y l Hxy]; constructor. unfold row_lt.
  assert (fst x <> fst y) by (intros E; apply Hx; rewrite E; left). lia.
Qed.
(** After the first of the rows come the others. *)
Lemma rows_after_step chain pos d i r l :
  rows_after chain pos d = (i, r) :: l -> rows_after chain i d = l.
Proof.
  intros H. pose proof (rows_after_sorted chain pos d) as Hs. rewrite H in Hs.
  apply StronglySorted_inv in Hs as [Hs Hi].
  apply (StronglySorted_unique row_lt); [apply rows_after_sorted|done|].
  apply NoDup_Permutation.
  - eapply NoDup_fmap_1, rows_after_nodup.
  - pose proof (rows_after_nodup chain pos d) as Hn. rewrite H in Hn.
    apply NoDup_cons in Hn as [_ Hn]. by eapply NoDup_fmap_1.
  - intros [j s]. rewrite rows_after_elem. split.
    + intros (Hj & Hc & Hlt). assert (Hin : (j, s) ∈ rows_after chain pos d).
      { apply rows_after_elem. split_and!; [done..|].
        assert (Hp : (i, r) ∈ rows_after chain pos d) by (rewrite H; left).
        apply rows_after_elem in Hp as (_ & _ & ?). lia. }
      rewrite H in Hin. apply elem_of_cons in Hin as [[= -> ->]|Hin]; [lia|done].
    + intros Hin. assert (Hp : (j, s) ∈ rows_after chain pos d) by (rewrite H; by right).
      apply rows_after_elem in Hp as (? & ? & _). split_and!; try done.
      eapply Forall_forall in Hi; [|done]. exact Hi.
Qed.

(** The bytes that a row takes of the page. *)
Definition row_bytes (chain : string) (kr : Z * LRecordRow) : Z :=
  str_len (canonicalize_json (legacy_record chain (fst kr) (snd kr))) + 1.
Definition rows_json (chain : string) (l : list (Z * LRecordRow)) : list Value :=
  map (fun kr => legacy_record chain (fst kr) (snd kr)) l.
Definition rows_bytes (chain : string) (l : list (Z * LRecordRow)) : Z :=
  foldr (fun kr b => row_bytes chain kr + b) 0 l.

(** What the loop yields from position [pos] with [rows] and [used] behind it. *)
Definition page_of chain limit byte_limit (rows : list Value) pos used (d : LegacyDb)
    (out : bool * list Value * Z) : Prop :=
  exists shown rest, rows_after chain pos d = shown ++ rest /\
    out = (negb (bool_decide (rest = [])), rows ++ rows_json chain shown,
           List.last (map fst shown) pos) /\
    rows_after chain (snd out) d = rest /\
    (shown <> [] -> used + rows_bytes chain shown <= byte_limit) /\
    Z.of_nat (length rows + length shown) <= limit /\
    (rest <> [] -> rows ++ rows_json chain shown <> []).

Lemma page_stop chain limit byte_limit rows pos used d more :
  Z.of_nat (length rows) <= limit ->
  more = negb (bool_decide (rows_after chain pos d = [])) ->
  (rows_after chain pos d <> [] -> rows <> []) ->
  page_of chain limit byte_limit rows pos used d (more, rows, pos).
Proof.
  intros Hl -> Hr. exists [], (rows_after chain pos d). simpl. rewrite app_nil_r, Nat.add_0_r.
  by split_and!.
Qed.
Lemma last_cons {A} (x y : A) l : List.last (x :: l) y = List.last l x.
Proof.
  revert x y. induction l as [|z l IH]; intros x y; [done|].
  etransitivity; [exact (IH z y) | symmetry; exact (IH z x)].
Qed.
Lemma page_step chain limit byte_limit rows pos used d i row l out :
  rows_after chain pos d = (i, row) :: l ->
  used + row_bytes chain (i, row) <= byte_limit ->
  page_of chain limit byte_limit (rows ++ [legacy_record chain i row]) i
    (used + row_bytes chain (i, row)) d out ->
  page_of chain limit byte_limit rows pos used d out.
Proof.
  intros El Hb (shown & rest & Hs & -> & Hn & Hu & Hl & Hne).
  rewrite (rows_after_step _ _ _ _ _ _ El) in Hs. exists ((i, row) :: shown), rest.
  cbn [rows_json map fst snd rows_bytes foldr] in *. rewrite last_cons, El, Hs.
  rewrite length_app in Hl. simpl in *. fold (rows_json chain shown) in *.
  rewrite <-app_assoc in *. simpl in *. split_and!; try done.
  - intros _. destruct shown as [|kr shown]; [simpl; lia|].
    specialize (Hu ltac:(done)). unfold rows_bytes in Hu. simpl in *. lia.
  - lia.
Qed.

Lemma records_loop_page chain limit byte_limit d fuel rows pos used w r w' :
  records_loop fuel chain limit byte_limit rows pos used w = (r, w') ->
  legacy w = d -> Z.of_nat (length rows) <= limit -> 1 <= limit ->
  (length (rows_after chain pos d) < fuel)%nat ->
  legacy w' = d /\ r <> Panic /\
  forall out, r = Ok out -> page_of chain limit byte_limit rows pos used d out.
Proof.
  revert rows pos used w. induction fuel as [|fuel IH]; intros rows pos used w H Hd Hr Hl Hf; [lia|].
  revert H. cbn [records_loop]. rewrite l_select_run.
  destruct (sql_fails _); [by intros [= <- <-]|]. rewrite Hd. unfold next_row at 1.
  assert (Hstop : forall more, more = negb (bool_decide (rows_after chain pos d = [])) ->
    (rows_after chain pos d <> [] -> rows <> []) ->
    page_of chain limit byte_limit rows pos used d (more, rows, pos))
    by (intros; by apply page_stop).
  destruct (rows_after chain pos d) as [|[i row] l] eqn:El; cbn [head].
  { intros [= <- <-]. split_and!; [done|done|]. intros out [= <-]. by apply Hstop. }
  destruct (_ =? limit) eqn:Elim.
  { intros [= <- <-]. split_and!; [done|done|]. intros out [= <-]. apply Hstop; [done|].
    intros _ ->. apply Z.eqb_eq in Elim. simpl in Elim. lia. }
  cbv zeta. assert (Hfull : forall (r : Res Z (bool * list Value * Z)) w1,
    bind (fail_if (Nat.eqb (length rows) 0) S_PAYLOAD_TOO_LARGE)
      (fun _ => ret (true, rows, pos)) w1 = (r, w') -> legacy w1 = d ->
    legacy w' = d /\ r <> Panic /\
    forall out, r = Ok out -> page_of chain limit byte_limit rows pos used d out).
  { intros r1 w1. rewrite l_fail_if_run. destruct rows as [|v rows]; intros [= <- <-] Hw1;
      split_and!; try done. intros out [= <-]. by apply Hstop. }
  destruct (_ <? string_bytes row); [intros H; by apply Hfull in H|].
  cbv [bind L_monad]. unfold l_sql. cbn [v3 legacy tick]. destruct (sql_fails _); [by intros [= <- <-]|].
  assert (Hrow : row_at chain i d = Some row).
  { assert (Hin : (i, row) ∈ rows_after chain pos d) by (rewrite El; left).
    apply rows_after_elem in Hin as (Hi & Hc & _). unfold row_at. rewrite Hi. simpl.
    by rewrite (proj2 (String.eqb_eq _ _) Hc). }
  rewrite Hrow. cbn [mbind option_bind]. destruct (_ <? _ + 1) eqn:Eb.
  { intros H. by apply (Hfull r _ H). }
  intros H. fold (row_bytes chain (i, row)) in *.
  assert (Hb : used + row_bytes chain (i, row) <= byte_limit).
  { unfold row_bytes. simpl. unfold str_len in *. lia. }
  apply IH in H as (H1 & H2 & H3); [..|done|].
  - split_and!; [done..|]. intros out Hout. by eapply page_step, H3.
  - done.
  - rewrite length_app. simpl. lia.
  - rewrite (rows_after_step _ _ _ _ _ _ El). simpl in Hf. lia.
Qed.

Lemma rows_after_bound chain pos d : (length (rows_after chain pos d) <= size (l_records d))%nat.
Proof.
  unfold rows_after. rewrite sort_by_length. etransitivity; [apply filter_length_le|].
  by rewrite length_map_to_list.
Qed.

(** (C36) A page of legacy records ends, without a panic, and shows the rows of the
    chain after its position one after the other and without a gap: it is a prefix of
    them, in order, of at most [limit] rows, whose bytes with the frame stay within
    the limit; it says whether there are more, and then it shows at least one; and
    from the position it ends with the others follow.  Nothing is written. *)
Theorem legacy_page_contiguous chain limit byte_limit after w r w' :
  1 <= limit -> all_records chain limit byte_limit after w = (r, w') ->
  legacy w' = legacy w /\ r <> Panic /\
  forall more values pos, r = Ok (more, values, pos) ->
  exists shown rest,
    rows_after chain after (legacy w) = shown ++ rest /\
    values = rows_json chain shown /\ more = negb (bool_decide (rest = [])) /\
    rows_after chain pos (legacy w) = rest /\
    Z.of_nat (length shown) <= limit /\ (rest <> [] -> shown <> []) /\
    (shown <> [] -> 128 + rows_bytes chain shown <= byte_limit).
Proof.
  intros Hl H. unfold all_records in H.
  apply (records_loop_page _ _ _ (legacy w)) in H as (H1 & H2 & H3); try done; [|simpl; lia|].
  - split_and!; [done..|]. intros more values pos ->. destruct (H3 _ eq_refl)
      as (shown & rest & Hs & [= -> -> ->] & Hn & Hb & Hc & Hne).
    exists shown, rest. split_and!; try done. intros Hr ->. by apply (Hne Hr).
  - pose proof (rows_after_bound chain after (legacy w)). lia.
Qed.
End Records.
