(* ===== verification/UpkeepSpec.v ===== *)
(** * The upkeep of the service makes progress

    [main] runs [upkeep] every second.  It never panics, what it has erased stays
    erased, and once the storage works again one run of it ends every pending
    deletion. *)
From S2P Require Import Prelude Error Json Verify Jcs Wire Query Routes Db Monad Config.
From S2P Require Import Store HashChain Steps StoreFacts StoreSpec Auth AuthFacts Domain.
From S2P Require Import Retention Mutation Deletion Batch Sync HandlerFacts BatchFacts.
From S2P Require Import ServiceInv DeletionSpec.

(** From effect [k] on no statement fails and no reader blocks the checkpoint. *)
Definition works {O : Oracle} (k : nat) : Prop :=
  forall j, (k <= j)%nat -> sql_fails j = false /\ wal_busy j = false.
(** Ed25519: the relay's key verifies what it signs. *)
Definition relay_signs {X : Ext} (cfg : RelayConfig) : Prop := forall m,
  verify_signature (b64_encode (verifying_key (key cfg))) (b64_encode (ed_sign (key cfg) m)) m
  = Some true.
(** A stored proof has the members that completion assigns to. *)
Definition proof_ok (p : Value) : bool :=
  settable p && settable (get p "ledger") && settable (get p "delete_receipt").
Definition proofs_ok (d : Db) : Prop :=
  forall x row, t_deletions d !! x = Some row -> proof_ok (de_proof row) = true.
Definition pending (x : string) (d : Db) : Prop :=
  exists row, t_deletions d !! x = Some row /\ incomplete row = true.
Definition none_pending (d : Db) : Prop :=
  forall x row, t_deletions d !! x = Some row -> incomplete row = false.

Lemma proofs_ok_check d :
  forallb (fun kv => proof_ok (de_proof (snd kv))) (map_to_list (t_deletions d)) = true ->
  proofs_ok d.
Proof.
  intros H x row Hr. rewrite forallb_forall in H. apply (H (x, row)).
  by apply list_elem_of_In, elem_of_map_to_list.
Qed.

(** ** Runs that succeed while the storage works *)
Section Runs.
Context {O : Oracle}.

Definition succeeds {A} (m : M A) : Prop := forall w, works (tick w) ->
  exists x w', m w = (Ok x, w') /\ (tick w <= tick w')%nat.

Lemma works_later j k : works j -> (j <= k)%nat -> works k.
Proof. intros Hw Hjk i Hi. apply Hw. lia. Qed.
Lemma sc_ret {A} (x : A) : succeeds (ret x).
Proof. intros w _. by exists x, w. Qed.
Lemma sc_bind {A B} (m : M A) (f : A -> M B) :
  succeeds m -> (forall x, yields m x -> succeeds (f x)) -> succeeds (bind m f).
Proof.
  intros Hm Hf w Hw. destruct (Hm w Hw) as (x & w1 & E1 & Ht).
  destruct (Hf x (ex_intro _ w (ex_intro _ w1 E1)) w1) as (y & w2 & E2 & Ht2);
    [by eapply works_later|].
  exists y, w2. split; [|lia]. cbv [bind M_monad]. by rewrite E1.
Qed.
Lemma sc_now : succeeds now.
Proof. intros w _. eexists _, _. split; [done|]. simpl. lia. Qed.
Lemma sc_lift {A} (x : A) r : r = Ok x -> succeeds (lift r).
Proof. intros -> w _. by exists x, w. Qed.
Lemma sc_select {A} (f : Db -> A) : succeeds (select f).
Proof.
  intros w Hw. unfold select, sql. destruct (Hw (tick w)) as [-> _]; [lia|].
  eexists _, _. split; [done|]. simpl. lia.
Qed.
Lemma sc_exec_ f : succeeds (exec_ f).
Proof.
  intros w Hw. unfold exec_, sql. destruct (Hw (tick w)) as [-> _]; [lia|].
  eexists _, _. split; [done|]. simpl. lia.
Qed.
Lemma sc_forM {A} (f : A -> M unit) l : (forall x, x ∈ l -> succeeds (f x)) -> succeeds (forM f l).
Proof.
  induction l as [|x l IH]; intros Hf; simpl; [apply sc_ret|].
  apply sc_bind; [apply Hf; left|]. intros _ _. apply IH. intros. apply Hf. by right.
Qed.
Lemma sc_transaction {A} (m : M A) : succeeds m -> succeeds (transaction false m).
Proof.
  intros Hm w Hw. unfold transaction, commit. destruct (Hw (tick w)) as [-> _]; [lia|].
  destruct (Hm (next w)) as (x & w1 & -> & Ht); [eapply works_later; [done|simpl; lia]|].
  simpl in Ht. destruct (Hw (tick w1)) as [-> _]; [lia|]. eexists _, _. split; [done|].
  simpl. lia.
Qed.
End Runs.

Section Upkeep.
Context {X : Ext} {O : Oracle}.
Implicit Types (cfg : RelayConfig).

Lemma erase_succeeds : succeeds erase.
Proof.
  unfold erase. apply sc_bind.
  - apply sc_transaction, sc_bind; [apply sc_select|]. intros l _. apply sc_bind; [|intros; apply sc_ret].
    apply sc_forM. intros kv _. apply sc_forM. intros f _. apply sc_exec_.
  - intros none _. destruct none; [apply sc_ret|].
    do 2 (apply sc_bind; [apply sc_select|]; intros _ _).
    intros w Hw. destruct (Hw (tick w)) as [_ ->]; [lia|]. eexists _, _. split; [done|]. simpl. lia.
Qed.

Lemma set_is_object v k x : settable v = true -> is_object (set_member v k x) = true.
Proof. by destruct v. Qed.
Lemma relay_sign_ok cfg v ctx : relay_signs cfg -> is_object v = true ->
  exists v', sign cfg v ctx = Ok v' /\ is_object v' = true.
Proof.
  intros Hk Hv. unfold sign, sign_relay, signing_bytes. rewrite Hv.
  cbv [unwrap ok_or fail_if ret bind res_monad]. rewrite Hk. simpl.
  eexists. split; [done|]. apply set_is_object. unfold settable. by rewrite Hv.
Qed.
Lemma completed_proof_total cfg p t : relay_signs cfg -> proof_ok p = true ->
  exists p', completed_proof cfg p t = Ok p' /\ proof_ok p' = true.
Proof.
  intros Hk Hp. unfold completed_proof. unfold proof_ok in Hp. rewrite Hp.
  change (@ret ApiError Result _ () tt) with (@Ok ApiError () tt). rewrite res_bind_Ok.
  apply andb_true_iff in Hp as [[H1 H2]%andb_true_iff H3]. cbv zeta.
  match goal with |- context [sign cfg ?r CTX_DELETE] =>
    destruct (relay_sign_ok cfg r CTX_DELETE Hk) as (r' & -> & Hr) end.
  { apply set_is_object. by apply settable_set. }
  rewrite res_bind_Ok. eexists. split; [done|]. unfold proof_ok.
  rewrite !get_set_settable by (try apply settable_set; done). simpl.
  rewrite !settable_set by (try apply settable_set; done). unfold settable. by rewrite Hr.
Qed.

Lemma rows_proof_ok d x row :
  proofs_ok d -> (x, row) ∈ incomplete_deletions d -> proof_ok (de_proof row) = true.
Proof. intros Hp [Hr _]%incomplete_elem. by eapply Hp. Qed.

Lemma complete_row_succeeds cfg kv : relay_signs cfg -> proof_ok (de_proof (snd kv)) = true ->
  succeeds (complete_row cfg kv) /\ never_panics (complete_row cfg kv).
Proof.
  intros Hk Hp. destruct kv as [x row]. unfold complete_row. simpl in *. split.
  - apply sc_bind; [apply sc_exec_|]. intros _ _. apply sc_bind; [apply sc_now|]. intros t _.
    destruct (completed_proof_total cfg (de_proof row) t Hk Hp) as (p & E & _).
    apply sc_bind; [by eapply sc_lift|]. intros. apply sc_exec_.
  - np_tac. destruct (completed_proof_total cfg (de_proof row) x1 Hk Hp) as (p & -> & _). done.
Qed.

Lemma ledgers_run cfg w : relay_signs cfg -> proofs_ok (db w) ->
  (forall w', complete_ledgers cfg w <> (Panic, w')) /\
  (works (tick w) -> exists w', complete_ledgers cfg w = (Ok tt, w')).
Proof.
  intros Hk Hp. set (rows := incomplete_deletions (db w)).
  assert (Hrows : forall kv, kv ∈ rows -> proof_ok (de_proof (snd kv)) = true).
  { intros [x row]. by apply rows_proof_ok. }
  set (m := (let! l := select incomplete_deletions in forM (complete_row cfg) l) : M unit).
  assert (Hm : forall w0, db w0 = db w ->
    (forall w', m w0 <> (Panic, w')) /\
    (works (tick w0) -> exists w', (tick w0 <= tick w')%nat /\ m w0 = (Ok tt, w'))).
  { intros w0 Hw0. unfold m. rewrite select_run, Hw0. fold rows. split.
    - intros w'. destruct (sql_fails _); [done|]. apply np_forM. intros kv Hkv.
      by apply complete_row_succeeds, Hrows.
    - intros Hw. destruct (Hw (tick w0)) as [-> _]; [lia|].
      assert (Hs : succeeds (forM (complete_row cfg) rows)).
      { apply sc_forM. intros kv Hkv. by apply complete_row_succeeds, Hrows. }
      destruct (Hs (next w0)) as ([] & w' & E & Ht); [eapply works_later; [done|simpl; lia]|].
      exists w'. split; [simpl in Ht; lia|done]. }
  unfold complete_ledgers. fold m. unfold transaction, commit.
  destruct (Hm (next w) eq_refl) as [Hnp Hsc]. split.
  - intros w'. destruct (sql_fails _); [done|].
    destruct (m (next w)) as [[y|e|] w1] eqn:E; [| |by edestruct Hnp]; repeat case_match; done.
  - intros Hw. destruct (Hw (tick w)) as [-> _]; [lia|].
    destruct Hsc as (w1 & Ht & ->); [eapply works_later; [done|simpl; lia]|].
    destruct (Hw (tick w1)) as [-> _]; [simpl in Ht; lia|]. by eexists.
Qed.

(** ** What [complete] keeps, however it ends *)
Definition same_deletions (d d' : Db) : Prop := t_deletions d' = t_deletions d.
#[local] Instance same_deletions_preorder : PreOrder same_deletions.
Proof. split; [done|]. unfold same_deletions. intros ???. congruence. Qed.
Lemma erase_deletions : respects same_deletions erase.
Proof.
  unfold erase. apply respects_bind; [exact _| |respects_tac ltac:(done)].
  - respects_tac idtac.
    match goal with H : _ ∈ erase_statements _ |- _ => rename H into Hf end.
    unfold erase_statements in Hf.
    repeat (apply elem_of_cons in Hf as [->|Hf]); [..|by apply elem_of_nil in Hf]; done.
  - intros w r w'. unfold fail_if. by case_match; intros [= _ <-].
Qed.

(** Wiping and finishing the ledgers both keep what is erased; a chain that is
    pending stays so until the ledgers are finished, which comes after the wiping. *)
Definition keeps_erased (x : string) (d d' : Db) : Prop := erased x d -> erased x d'.
#[local] Instance keeps_erased_preorder x : PreOrder (keeps_erased x).
Proof. split; [intros d H; exact H | intros d1 d2 d3 H1 H2 H; apply H2, H1, H]. Qed.
Lemma erase_statement_erased x y f d : f ∈ erase_statements y -> erased x d -> erased x (f d).
Proof.
  intros Hf [E1 E2 E3 E4 E5 E6 E7 E8 E9 E10 E11]. unfold erase_statements in Hf.
  repeat (apply elem_of_cons in Hf as [->|Hf]); [..|by apply elem_of_nil in Hf]; split; wiped;
    try done; try (apply map_lookup_filter_None; left; done); try by apply Forall_List_filter.
  all: try (apply map_lookup_filter_Some in H as [H _]); by eapply E6.
Qed.
Lemma complete_erased x cfg : respects (keeps_erased x) (complete cfg).
Proof.
  unfold complete, erase, complete_ledgers, complete_row. respects_tac idtac.
  - match goal with H : _ ∈ erase_statements _ |- _ => rename H into Hf end.
    intros He. by eapply erase_statement_erased.
  - intros w r w'. unfold fail_if. by case_match; intros [= _ <-].
  - by intros [].
  - by intros [].
Qed.

(** The maintenance of retention knows nothing of deletions. *)
Lemma erase_log_None p m k : m !! k = None -> erase_log p m !! k = None.
Proof. intros H. unfold erase_log. by rewrite map_lookup_imap, H. Qed.
Lemma erase_objects_None p m k : m !! k = None -> erase_objects p m !! k = None.
Proof. intros H. unfold erase_objects. by rewrite map_lookup_imap, H. Qed.
Definition no_deletion (x : string) (d d' : Db) : Prop :=
  same_deletions d d' /\ keeps_erased x d d'.
#[local] Instance no_deletion_preorder x : PreOrder (no_deletion x).
Proof.
  split; [intros d; by split|]. intros d1 d2 d3 [A1 A2] [B1 B2]. split; by etransitivity.
Qed.
Lemma maintenance_respects x cfg : respects (no_deletion x) (maintenance cfg).
Proof.
  unfold maintenance, expire, expire_epoch, load, quota, used. respects_tac ltac:(split; [done|]).
  - intros []. split; try done. intros l i. by apply erase_log_None.
  - intros []. split; try done. intros k i. by apply erase_objects_None.
  - intros []. split; try done. intros e. cbn. by rewrite lookup_alter_None.
Qed.
Lemma maintenance_no_panic cfg : never_panics (maintenance cfg).
Proof. unfold maintenance, expire, expire_epoch, load, quota, used. np_tac. Qed.

Lemma complete_row_proofs cfg kv : relay_signs cfg -> proof_ok (de_proof (snd kv)) = true ->
  respects (keeps proofs_ok) (complete_row cfg kv).
Proof.
  intros Hk Hp. destruct kv as [x row]. unfold complete_row. respects_tac idtac.
  - by intros Hd.
  - match goal with H : yields (lift _) _ |- _ => destruct H as (w1 & w2 & [H _]%M_lift_ok) end.
    intros Hd y r. cbn. rewrite lookup_alter_Some.
    intros [(<- & r0 & Hr0 & ->)|[Hne Hr]]; [|by eapply Hd].
    destruct (completed_proof_total cfg (de_proof row) x1 Hk Hp) as (p & E & Hok). simpl in *.
    congruence.
Qed.
Lemma ledgers_proofs cfg w r w' : relay_signs cfg -> proofs_ok (db w) ->
  complete_ledgers cfg w = (r, w') -> proofs_ok (db w').
Proof.
  intros Hk Hp H. apply transaction_atomic in H as [-> | (u & w1 & _ & H & ->)]; [done|].
  m_inv H. assert (Hr : respects (keeps proofs_ok)
    (forM (complete_row cfg) (incomplete_deletions (db (next w))))).
  { apply respects_forM; [exact _|]. intros [x row] Hin. apply complete_row_proofs; [done|].
    by eapply rows_proof_ok. }
  by apply Hr in H; apply H.
Qed.

(** What [delete] stores is such a proof. *)
Lemma sign_settable cfg v ctx v' : sign cfg v ctx = Ok v' -> settable v' = true.
Proof.
  unfold sign, sign_relay, signing_bytes. destruct (is_object v) eqn:Hv; [|done].
  intros H. destruct (_ : Res unit Value) eqn:E in H; [|done..]. res_inv E.
  apply settable_set. unfold settable. by rewrite Hv.
Qed.
Lemma delete_proofs c cfg auth v : respects (keeps proofs_ok) (Deletion.delete c cfg auth v).
Proof.
  unfold Deletion.delete, commit_object, append, append_new, put_object, transparency,
    store_receipt, insert_new, insert_object, insert_receipt.
  respects_tac ltac:(repeat (case_match || simplify_option_eq); try (intros Hd; exact Hd)).
  all: intros Hd y r; cbn; rewrite lookup_insert_Some; intros [[_ <-]|[_ Hr]];
    [|by eapply Hd].
  all: match goal with H : yields (lift (delete_receipt _ _ _ _ _)) _ |- _ =>
    destruct H as (w1 & w2 & [H _]%M_lift_ok); by apply sign_settable in H end.
Qed.

(** ** One run of [complete] *)
Lemma complete_run cfg w r w' : relay_signs cfg -> proofs_ok (db w) ->
  complete cfg w = (r, w') ->
  r <> Panic /\ proofs_ok (db w') /\ (works (tick w) -> r = Ok tt) /\
  (r <> Ok tt -> t_deletions (db w') = t_deletions (db w)).
Proof.
  intros Hk Hp H. unfold complete in H. cbv [bind M_monad] in H.
  destruct (erase w) as [re w1] eqn:Ee. pose proof (erase_deletions _ _ _ Ee) as Hd.
  assert (Hp1 : proofs_ok (db w1)) by (intros x row; rewrite Hd; apply Hp).
  assert (Hre : re <> Panic).
  { intros ->. revert Ee. enough (Hn : never_panics erase) by apply Hn. unfold erase. np_tac.
    intros w2 w3. by destruct (wal_busy _). }
  assert (Hsc : works (tick w) -> (exists u, re = Ok u) /\ works (tick w1)).
  { intros Hw. destruct (erase_succeeds w Hw) as (u & w2 & E & Ht). rewrite E in Ee.
    injection Ee as <- <-. split; [by exists u | by eapply works_later]. }
  destruct re as [u|e|]; [| |done].
  - destruct (ledgers_run cfg w1 Hk Hp1) as [Hn Hs]. split_and!.
    + intros ->. by apply Hn in H.
    + by eapply ledgers_proofs.
    + intros [_ Hw]%Hsc. destruct (Hs Hw) as (w2 & E). rewrite E in H. by injection H as <-.
    + intros Hr. apply transaction_atomic in H as [-> | (v & w2 & -> & _)]; [done|].
      by destruct v.
  - injection H as <- <-. split_and!; [done|done| |done]. by intros [[u [=]] _]%Hsc.
Qed.

(** A deletion is still pending, or its chain is erased. *)
Definition underway (x : string) (d : Db) : Prop := pending x d \/ erased x d.

Lemma complete_underway x cfg w r w' : relay_signs cfg -> proofs_ok (db w) ->
  complete cfg w = (r, w') -> underway x (db w) -> underway x (db w').
Proof.
  intros Hk Hp H [Hx|Hx]; [|right; by apply (complete_erased x) in H; apply H].
  destruct (complete_run _ _ _ _ Hk Hp H) as (_ & _ & _ & Hd).
  assert (r = Ok tt \/ r <> Ok tt) as [->|Hr] by (destruct r as [[]|e|]; [by left|by right..]).
  - right. destruct Hx as (row & Hrow & Hi). by apply complete_ok in H as [H _]; apply (H x row).
  - left. unfold pending. by rewrite Hd.
Qed.
Lemma complete_none cfg w w' : complete cfg w = (Ok tt, w') -> none_pending (db w').
Proof.
  intros [H1 H2]%complete_ok x row Hr.
  destruct (t_deletions (db w) !! x) as [row0|] eqn:E.
  - destruct (incomplete row0) eqn:Ei.
    + destruct (H1 x row0 E Ei) as (_ & row' & Hr' & _ & Hi). congruence.
    + assert (Hs : same_chain_rows x (db w) (db w')) by (apply H2; congruence).
      rewrite (sc_deletions _ _ _ Hs), E in Hr. by simplify_eq.
  - assert (Hs : same_chain_rows x (db w) (db w')) by (apply H2; congruence).
    by rewrite (sc_deletions _ _ _ Hs), E in Hr.
Qed.
Lemma try_ok {A} (m : M A) w r w' : m w = (r, w') -> r <> Panic -> try_ m w = (Ok r, w').
Proof. intros E Hr. unfold try_. rewrite E. by destruct r. Qed.

(** ** One turn of the loop *)
Lemma complete_advances cfg : advances (complete cfg).
Proof.
  assert (Hrow : forall kv, advances (complete_row cfg kv)).
  { intros [x row]. unfold complete_row. adv_tac. }
  unfold complete, erase, complete_ledgers. apply adv_bind; [apply adv_bind|].
  - apply adv_transaction, adv_bind; [adv_tac|]. intros l. adv_tac.
  - intros []; [adv_tac|]. do 2 (apply adv_bind; [adv_tac|]; intros _).
    intros w r w'. unfold fail_if. case_match; intros [= _ <-]; simpl; lia.
  - intros _. apply adv_transaction, adv_bind; [adv_tac|]. intros l. by apply adv_forM.
Qed.
Lemma maintenance_tick cfg w r w' : maintenance cfg w = (r, w') -> (tick w < tick w')%nat.
Proof.
  apply transaction_tick. unfold expire, expire_epoch, load, quota, used. adv_tac.
Qed.
Lemma upkeep_turn cfg w : relay_signs cfg -> proofs_ok (db w) ->
  exists w', upkeep cfg w = (Ok tt, w') /\ proofs_ok (db w') /\ (tick w < tick w')%nat /\
    (forall x, underway x (db w) -> underway x (db w')) /\
    (works (tick w) -> none_pending (db w')).
Proof.
  intros Hk Hp. destruct (complete cfg w) as [r1 w1] eqn:E1.
  destruct (complete_run _ _ _ _ Hk Hp E1) as (Hr1 & Hp1 & Hok & _).
  destruct (maintenance cfg w1) as [r2 w2] eqn:E2.
  assert (Hr2 : r2 <> Panic).
  { intros ->. exact (maintenance_no_panic cfg w1 w2 E2). }
  assert (Hm : forall x, no_deletion x (db w1) (db w2)).
  { intros x. exact (maintenance_respects x cfg _ _ _ E2). }
  destruct (Hm EmptyString) as [Hd _]. unfold same_deletions in Hd.
  exists w2. split_and!.
  - unfold upkeep. rewrite try_run, E1.
    destruct r1 as [[]|e|]; [| |done]; rewrite try_run, E2; by destruct r2 as [[]|e2|].
  - intros x row. rewrite Hd. apply Hp1.
  - apply complete_advances in E1. apply maintenance_tick in E2. lia.
  - intros x Hx. apply (complete_underway x _ _ _ _ Hk Hp E1) in Hx as [Hx|Hx].
    + left. unfold pending. by rewrite Hd.
    + right. by apply (Hm x).
  - intros Hw x row. rewrite Hd. rewrite (Hok Hw) in E1. by eapply complete_none.
Qed.

Lemma loop_turns cfg w turns : relay_signs cfg -> proofs_ok (db w) ->
  exists w', upkeep_loop cfg turns w = (Ok tt, w') /\ proofs_ok (db w') /\
    (turns <= tick w')%nat /\ (forall x, underway x (db w) -> underway x (db w')).
Proof.
  intros Hk Hp. induction turns as [|turns (w1 & E1 & Hp1 & Ht & Hu)].
  - exists w. split_and!; [done|done|lia|done].
  - destruct (upkeep_turn cfg w1 Hk Hp1) as (w2 & E2 & Hp2 & Ht2 & Hu2 & _).
    exists w2. split_and!; [|done|lia|auto].
    cbn [upkeep_loop]. cbv [bind M_monad]. by rewrite E1.
Qed.

End Upkeep.
