(* ===== verification/DisclosureSpec.v ===== *)
(** * An accepted disclosure (Disclosure.v)

    The schema evaluator terminates without a panic on every document; what the
    schema says of a member of an accepted document holds of it; and so a relay that
    starts has limits and rates within the bounds of the implementation, and serves a
    disclosure that its own key signed. *)
From S2P Require Import Prelude Error Json Verify Jcs Wire Db Monad Config Disclosure PrivacySchema.

(** The patterns of the schema, which [Regex::new] compiles. *)
Definition privacy_patterns : list string :=
  ["^[A-Za-z0-9_-]{43}$"; "^[A-Za-z0-9_-]{86}$";
   "^[0-9a-f]{8}-[0-9a-f]{4}-4[0-9a-f]{3}-[89ab][0-9a-f]{3}-[0-9a-f]{12}$";
   "^https://[^\s]+$"; "^https://[^/\s?#]+$"]%string.
Class ConfigLaws (X : Ext) (C : ConfigExt X) : Prop := {
  regex_compiles : forall p, p ∈ privacy_patterns -> is_Some (regex_new p);
}.

(** ** Schemas of bounded depth *)
Definition children (schema : Value) : list Value :=
  a schema "anyOf" ++ a schema "oneOf"
  ++ map snd (default [] (as_object (get schema "properties")))
  ++ option_list (get_opt schema "items").
Definition node_ok (schema : Value) : bool :=
  forallb (fun k => bool_decide (is_Some (as_str k))) (a schema "required")
  && match as_str (get schema "pattern") with
     | Some p => bool_decide (p ∈ privacy_patterns)
     | None => true
     end.
(** [fuel] levels of children and references suffice, and nothing panics. *)
Fixpoint bounded (fuel : nat) (root schema : Value) : bool :=
  match fuel with
  | 0%nat => false
  | S fuel =>
      match as_str (get schema "$ref") with
      | Some r =>
          match slice_from_1 r with
          | Some path =>
              match pointer root path with Some t => bounded fuel root t | None => true end
          | None => false
          end
      | None => node_ok schema && forallb (bounded fuel root) (children schema)
      end
  end.

Section Evaluator.
Context {X : Ext} {C : ConfigExt X} {O : Oracle}.

Definition returns {A} (r : Result A) : Prop := exists x, r = Ok x.

Lemma returns_ret {A} (x : A) : returns (ret x).
Proof. by exists x. Qed.
Lemma returns_bind {A B} (m : Result A) (f : A -> Result B) :
  returns m -> (forall x, returns (f x)) -> returns (bind m f).
Proof. intros [x ->] Hf. apply Hf. Qed.
Lemma returns_unwrap {A} (o : option A) : is_Some o -> returns (unwrap o).
Proof. intros [x ->]. apply returns_ret. Qed.
Lemma returns_and_then b k : returns b -> returns k -> returns (and_then b k).
Proof. intros Hb Hk. apply returns_bind; [done|]. intros []; [done|apply returns_ret]. Qed.
Lemma returns_all_ok {A} (f : A -> Result bool) l :
  (forall x, x ∈ l -> returns (f x)) -> returns (all_ok f l).
Proof.
  induction l as [|x l IH]; intros Hf; [apply returns_ret|].
  apply returns_and_then; [apply Hf; constructor|]. apply IH. intros. apply Hf. by constructor.
Qed.
Lemma returns_count_ok {A} (f : A -> Result bool) l :
  (forall x, x ∈ l -> returns (f x)) -> returns (count_ok f l).
Proof.
  induction l as [|x l IH]; intros Hf; [apply returns_ret|].
  apply returns_bind; [apply Hf; constructor|]. intros b.
  apply returns_bind; [apply IH; intros; apply Hf; by constructor|]. intros k. apply returns_ret.
Qed.

Context {L : ConfigLaws X C}.

Lemma children_alternative schema k x l :
  (k = "anyOf" \/ k = "oneOf")%string -> as_array (get schema k) = Some l -> x ∈ l ->
  x ∈ children schema.
Proof.
  unfold children, a. intros [-> | ->] -> Hx; simpl; set_solver.
Qed.
Lemma children_property schema k p :
  get_opt (get schema "properties") k = Some p -> p ∈ children schema.
Proof.
  intros H. unfold children. rewrite !elem_of_app. right. right. left.
  destruct (get schema "properties") as [| | | | |l]; try done. simpl in *.
  apply list_elem_of_In, in_map_iff. exists (k, p). split; [done|].
  induction l as [|[k' p'] l IH]; simpl in *; [done|].
  destruct (String.eqb_spec k k') as [->|]; [left; congruence | right; auto].
Qed.
Lemma children_items schema p : get_opt schema "items" = Some p -> p ∈ children schema.
Proof. intros H. unfold children. rewrite H. set_solver. Qed.

Section Node.
Context (valid : Value -> Value -> Result bool) (schema : Value).
Context (Hnode : node_ok schema = true).
Context (Hchildren : forall c x, c ∈ children schema -> returns (valid c x)).

Lemma alternatives_return k b v :
  (k = "anyOf" \/ k = "oneOf")%string ->
  returns (check_alternatives (fun c => valid c v) schema k b).
Proof.
  intros Hk. unfold check_alternatives. destruct (as_array _) as [l|] eqn:E; [|apply returns_ret].
  apply returns_bind; [|intros; apply returns_ret].
  apply returns_count_ok. intros c Hc. apply Hchildren. by eapply children_alternative.
Qed.
Lemma text_returns v : returns (check_text schema v).
Proof.
  unfold check_text. destruct (as_str v); [|apply returns_ret]. cbv zeta.
  case_match; [apply returns_ret|]. apply returns_and_then; [|apply returns_ret].
  unfold matches_pattern. unfold node_ok in Hnode. apply andb_true_iff in Hnode as [_ Hp].
  destruct (as_str (get schema "pattern")) as [p|]; [|apply returns_ret].
  apply returns_bind; [|intros; apply returns_ret].
  apply returns_unwrap, regex_compiles. by apply bool_decide_eq_true in Hp.
Qed.
Lemma object_returns v : returns (check_object valid schema v).
Proof.
  unfold check_object. destruct (as_object v) as [o|]; [|apply returns_ret].
  apply returns_and_then.
  - unfold node_ok, a in Hnode. apply andb_true_iff in Hnode as [Hr _].
    destruct (as_array (get schema "required")) as [names|]; [|apply returns_ret].
    apply returns_all_ok. intros k Hk. simpl in Hr.
    rewrite forallb_forall in Hr. apply list_elem_of_In in Hk. apply Hr, bool_decide_eq_true in Hk.
    apply returns_bind; [by apply returns_unwrap | intros; apply returns_ret].
  - apply returns_all_ok. intros [k x] _. simpl.
    destruct (get_opt _ k) as [p|] eqn:E; [|apply returns_ret].
    apply Hchildren. by eapply children_property.
Qed.
Lemma array_returns v : returns (check_array valid schema v).
Proof.
  unfold check_array. destruct (as_array v) as [l|]; [|apply returns_ret]. cbv zeta.
  case_match; [apply returns_ret|]. clear H. generalize (@nil Value) as before.
  induction l as [|x l IH]; intros before; [apply returns_ret|]. simpl.
  apply returns_and_then.
  - destruct (get_opt schema "items") as [i|] eqn:E; [|apply returns_ret].
    apply Hchildren. by apply children_items.
  - case_match; [apply returns_ret | apply IH].
Qed.
End Node.

Lemma schema_valid_returns fuel root schema v :
  bounded fuel root schema = true -> returns (schema_valid fuel root schema v).
Proof.
  revert schema v. induction fuel as [|fuel IH]; intros schema v Hb; [done|]. simpl in *.
  destruct (as_str (get schema "$ref")) as [r|].
  - destruct (slice_from_1 r) as [path|]; [|done]. simpl.
    change (returns (match pointer root path with
      | Some t => schema_valid fuel root t v | None => ret false end)).
    destruct (pointer root path); [by apply IH | apply returns_ret].
  - apply andb_true_iff in Hb as [Hn Hc].
    assert (Hch : forall c x, c ∈ children schema -> returns (schema_valid fuel root c x)).
    { intros c x Hcx. apply IH. rewrite forallb_forall in Hc. by apply Hc, list_elem_of_In. }
    do 2 (apply returns_and_then; [apply alternatives_return; auto|]).
    apply returns_and_then; [by eexists|].
    apply returns_and_then; [by apply text_returns|].
    apply returns_and_then; [by apply object_returns | by apply array_returns].
Qed.
End Evaluator.

(** ** What the schema says of the members of an accepted document *)
Section Accepts.
Context {X : Ext} {C : ConfigExt X} {O : Oracle}.

Definition accepts (root schema v : Value) : Prop :=
  exists fuel, schema_valid fuel root schema v = Ok true.

(** The schema itself, or what it refers to. *)
Definition target (root schema : Value) : option Value :=
  match as_str (get schema "$ref") with
  | Some r => path ← slice_from_1 r; pointer root path
  | None => Some schema
  end.
Definition plain (schema : Value) : bool := bool_decide (as_str (get schema "$ref") = None).
Definition typed (schema : Value) (t : string) : bool := veqb (get schema "type") (Str t).

(** The schema of the required member [k]. *)
Definition member_schema (root schema : Value) (k : string) : option Value :=
  t ← target root schema;
  if plain t && typed t "object" && existsb (fun r => is_text r k) (a t "required")
  then get_opt (get t "properties") k else None.
Fixpoint path_schema (root schema : Value) (path : list string) : option Value :=
  match path with
  | [] => Some schema
  | k :: path => p ← member_schema root schema k; path_schema root p path
  end.
(** The bounds that an integer schema sets. *)
Definition integer_bounds (root schema : Value) : option (Z * Z) :=
  t ← target root schema;
  if plain t && typed t "integer" then
    lo ← as_u64 (get t "minimum"); hi ← as_u64 (get t "maximum"); Some (lo, hi)
  else None.

Lemma and_then_true b k : and_then b k = Ok true <-> b = Ok true /\ k = Ok true.
Proof. destruct b as [[]| |]; cbv [and_then bind ret res_monad]; naive_solver. Qed.
Lemma all_ok_true {A} (f : A -> Result bool) l x :
  all_ok f l = Ok true -> x ∈ l -> f x = Ok true.
Proof.
  intros H Hx. induction Hx as [x l|x y l Hx IH]; simpl in H; apply and_then_true in H; naive_solver.
Qed.

Lemma accepts_target root schema v t :
  accepts root schema v -> target root schema = Some t -> accepts root t v.
Proof.
  intros [fuel H] Ht. unfold target in Ht. destruct fuel as [|fuel]; [done|].
  destruct (as_str (get schema "$ref")) as [r|] eqn:Hr.
  - simpl in H. rewrite Hr in H. destruct (slice_from_1 r) as [path|]; [|done].
    cbv [unwrap ret bind res_monad mbind option_bind] in H, Ht. rewrite Ht in H. by exists fuel.
  - injection Ht as <-. by exists (S fuel).
Qed.

(** A schema without a reference: each of its checks has passed. *)
Lemma accepts_plain root schema v :
  accepts root schema v -> plain schema = true ->
  check_scalar schema v = true
  /\ exists fuel, check_object (schema_valid fuel root) schema v = Ok true.
Proof.
  intros [fuel H] Hp%bool_decide_eq_true. destruct fuel as [|fuel]; [done|].
  simpl in H. rewrite Hp in H. rewrite !and_then_true in H.
  destruct H as (_ & _ & Hs & _ & Ho & _). split; [by injection Hs | by exists fuel].
Qed.
Lemma accepts_typed root schema v t :
  accepts root schema v -> plain schema = true -> typed schema t = true -> has_type t v = true.
Proof.
  intros H Hp Ht%bool_decide_eq_true. destruct (accepts_plain _ _ _ H Hp) as [Hs _].
  unfold check_scalar in Hs. rewrite Ht in Hs. simpl in Hs.
  rewrite !andb_true_iff, !negb_true_iff, negb_false_iff in Hs. tauto.
Qed.

Lemma accepts_member root schema v k p :
  accepts root schema v -> member_schema root schema k = Some p ->
  exists x, get_opt v k = Some x /\ accepts root p x.
Proof.
  intros H Hm. unfold member_schema in Hm.
  destruct (target root schema) as [t|] eqn:Ht; [|done]. cbn in Hm.
  apply (accepts_target _ _ _ _ H) in Ht. clear H.
  destruct (_ && _) eqn:E in Hm; [|done].
  rewrite !andb_true_iff in E. destruct E as [[Hp Hty] Hr].
  pose proof (accepts_typed _ _ _ _ Ht Hp Hty) as Hv. destruct v as [| | | | |o]; try done.
  destruct (accepts_plain _ _ _ Ht Hp) as [_ [fuel Ho]].
  unfold check_object in Ho. cbn [as_object] in Ho. apply and_then_true in Ho as [Hreq Hall].
  apply existsb_exists in Hr as (r & Hin & ->%bool_decide_eq_true).
  unfold a in Hin. destruct (as_array (get t "required")) as [names|]; [|done].
  apply (all_ok_true _ _ (Str k)) in Hreq; [|by apply list_elem_of_In].
  cbv [unwrap as_str bind ret res_monad] in Hreq.
  injection Hreq as [x Hx]%bool_decide_eq_true. exists x. split; [done|].
  apply (all_ok_true _ _ (k, x)) in Hall.
  - cbn [fst snd] in Hall. rewrite Hm in Hall. by exists fuel.
  - clear -Hx. induction o as [|[k' x'] o IH]; [done|]. simpl in Hx.
    destruct (String.eqb_spec k k') as [->|]; [injection Hx as ->; constructor | constructor; auto].
Qed.
Lemma accepts_path root schema v path p :
  accepts root schema v -> path_schema root schema path = Some p ->
  accepts root p (at_ v path).
Proof.
  revert schema v. induction path as [|k path IH]; intros schema v H Hp; simpl in *.
  { by injection Hp as ->. }
  destruct (member_schema root schema k) as [q|] eqn:Hm; [|done].
  destruct (accepts_member _ _ _ _ _ H Hm) as (x & Hx & Hq).
  apply (IH q); [|done]. unfold get. by rewrite Hx.
Qed.
Lemma accepts_integer root schema v lo hi :
  accepts root schema v -> integer_bounds root schema = Some (lo, hi) ->
  exists z, as_u64 v = Some z /\ lo <= z <= hi.
Proof.
  intros H Hb. unfold integer_bounds in Hb.
  destruct (target root schema) as [t|] eqn:Ht; [|done]. cbn in Hb.
  apply (accepts_target _ _ _ _ H) in Ht. clear H.
  destruct (_ && _) eqn:E in Hb; [|done]. apply andb_true_iff in E as [Hp Hty].
  pose proof (accepts_typed _ _ _ _ Ht Hp Hty) as Hv. cbn in Hv.
  apply bool_decide_eq_true in Hv as [z Hz]. exists z. split; [done|].
  destruct (accepts_plain _ _ _ Ht Hp) as [Hs _].
  unfold check_scalar, on_u64 in Hs. rewrite Hz in Hs.
  destruct (as_u64 (get t "minimum")) as [l|]; [|done].
  destruct (as_u64 (get t "maximum")) as [h|]; [|done]. cbn in Hb. injection Hb as -> ->.
  rewrite !andb_true_iff, !negb_true_iff, !orb_false_iff in Hs. bsimp. lia.
Qed.
(** The form the clients use: member [k] of the object at [path]. *)
Lemma accepts_number root schema v path k lo hi :
  accepts root schema v ->
  (p ← path_schema root schema (path ++ [k]); integer_bounds root p) = Some (lo, hi) ->
  lo <= n (at_ v path) k <= hi.
Proof.
  intros H Hb. destruct (path_schema _ _ _) as [p|] eqn:Hp; [|done]. cbn in Hb.
  apply (accepts_path _ _ _ _ _ H) in Hp.
  destruct (accepts_integer _ _ _ _ _ Hp Hb) as (z & Hz & Hr).
  unfold at_ in Hz. rewrite fold_left_app in Hz. simpl in Hz.
  unfold n, at_. by rewrite Hz.
Qed.
End Accepts.

(** ** More fuel never changes a result *)
Section Fuel.
Context {X : Ext} {C : ConfigExt X} {O : Oracle}.

Definition defines {A} (r r' : Result A) : Prop := forall x, r = Ok x -> r' = Ok x.

Lemma defines_refl {A} (r : Result A) : defines r r.
Proof. by intros x. Qed.
Lemma defines_bind {A B} (m m' : Result A) (f f' : A -> Result B) :
  defines m m' -> (forall x, defines (f x) (f' x)) -> defines (bind m f) (bind m' f').
Proof.
  intros Hm Hf y (x & Hx & Hy)%res_bind_ok. apply res_bind_ok. exists x.
  split; [by apply Hm | by apply Hf].
Qed.
Lemma defines_and_then b b' k k' :
  defines b b' -> defines k k' -> defines (and_then b k) (and_then b' k').
Proof. intros. apply defines_bind; [done|]. intros []; [done | apply defines_refl]. Qed.
Lemma defines_all_ok {A} (f g : A -> Result bool) l :
  (forall x, defines (f x) (g x)) -> defines (all_ok f l) (all_ok g l).
Proof.
  intros H. induction l as [|x l IH]; [apply defines_refl|]. by apply defines_and_then.
Qed.
Lemma defines_count_ok {A} (f g : A -> Result bool) l :
  (forall x, defines (f x) (g x)) -> defines (count_ok f l) (count_ok g l).
Proof.
  intros H. induction l as [|x l IH]; [apply defines_refl|].
  apply defines_bind; [done|]. intros b. apply defines_bind; [done|].
  intros k. apply defines_refl.
Qed.

Context (f g : Value -> Value -> Result bool) (Hfg : forall c x, defines (f c x) (g c x)).

Lemma defines_alternatives schema k b v :
  defines (check_alternatives (fun c => f c v) schema k b)
          (check_alternatives (fun c => g c v) schema k b).
Proof.
  unfold check_alternatives. destruct (as_array _); [|apply defines_refl].
  apply defines_bind; [by apply defines_count_ok | intros; apply defines_refl].
Qed.
Lemma defines_object schema v : defines (check_object f schema v) (check_object g schema v).
Proof.
  unfold check_object. destruct (as_object v); [|apply defines_refl].
  apply defines_and_then; [apply defines_refl|]. apply defines_all_ok.
  intros [k x]. simpl. destruct (get_opt _ k); [done | apply defines_refl].
Qed.
Lemma defines_array schema v : defines (check_array f schema v) (check_array g schema v).
Proof.
  unfold check_array. destruct (as_array v) as [l|]; [|apply defines_refl]. cbv zeta.
  case_match; [apply defines_refl|]. clear H. generalize (@nil Value) as before.
  induction l as [|x l IH]; intros before; [apply defines_refl|]. simpl.
  apply defines_and_then.
  - destruct (get_opt schema "items"); [done | apply defines_refl].
  - case_match; [apply defines_refl | apply IH].
Qed.
End Fuel.

Section New.
Context {X : Ext} {C : ConfigExt X} {O : Oracle} {L : ConfigLaws X C}.

Lemma schema_valid_more fuel fuel' root schema v b :
  (fuel <= fuel')%nat ->
  schema_valid fuel root schema v = Ok b -> schema_valid fuel' root schema v = Ok b.
Proof.
  revert fuel' schema v b. induction fuel as [|fuel IH]; intros fuel' schema v b Hle; [done|].
  destruct fuel' as [|fuel']; [lia|]. simpl.
  assert (Hd : forall c x, defines (schema_valid fuel root c x) (schema_valid fuel' root c x)).
  { intros c x y. apply IH. lia. }
  revert b. destruct (as_str (get schema "$ref")) as [r|].
  - apply defines_bind; [apply defines_refl|]. intros path.
    destruct (pointer root path); [apply Hd | apply defines_refl].
  - repeat apply defines_and_then; try apply defines_refl; intros y;
      first [by apply defines_alternatives | by apply defines_object | by apply defines_array].
Qed.

(** The schema of the repository is at most this deep. *)
Definition schema_depth : nat := 12.
Lemma privacy_schema_bounded : bounded schema_depth privacy_schema privacy_schema = true.
Proof. vm_compute. reflexivity. Qed.

(** There is one answer, and the depth of the schema is enough fuel for it. *)
Lemma check_document_fuel md v :
  exists r, r <> Panic /\
    forall fuel, (schema_depth <= fuel)%nat -> check_document fuel privacy_schema md v = r.
Proof.
  destruct (schema_valid_returns _ _ _ v privacy_schema_bounded) as [b Hb].
  exists (check_document schema_depth privacy_schema md v).
  unfold check_document. rewrite Hb. split.
  - destruct (_ || _); [done|]. by destruct b.
  - intros fuel Hle. by rewrite (schema_valid_more schema_depth fuel _ _ _ b).
Qed.
Lemma check_document_ok fuel schema md v u :
  check_document fuel schema md v = Ok u ->
  str_len md <= MAX_DOCUMENT /\ str_len (canonicalize_json v) <= MAX_DOCUMENT
  /\ accepts schema schema v.
Proof.
  intros H. unfold check_document in H. res_inv H. bsimp.
  repeat split; [done..|]. by exists fuel.
Qed.
Implicit Types (cfg : RelayConfig).

(** The checks that [new] has passed when it returns. *)
Record accepted cfg (t : Z) : Prop := {
  ac_schema : accepts privacy_schema privacy_schema (privacy cfg);
  ac_identity : misidentified (key cfg) (markdown cfg) (privacy cfg) = false;
  ac_effective : n (privacy cfg) "effective_at_ms" <= t;
  ac_supported : unsupported (privacy cfg) = false;
  ac_copies : check_copies (privacy cfg) = Ok tt;
  ac_quota : check_quota (max_bytes cfg) (get (privacy cfg) "quota") = Ok tt;
  ac_rates : check_rates (get (privacy cfg) "rate_limits") = Ok tt;
  ac_metadata : check_metadata (privacy cfg) = Ok tt;
  ac_urls : check_urls (privacy cfg) = Ok tt;
  ac_signature : check_relay_signature (key cfg) (privacy cfg) = Ok tt;
  ac_origin : origin cfg = s (privacy cfg) "relay_origin";
  ac_key_id : key_id cfg = hash_bytes (verifying_key (key cfg));
}.
Lemma new_ok fuel k md v mb w cfg w' :
  new fuel privacy_schema k md v mb w = (Ok cfg, w') ->
  accepted cfg (Z.max 0 (clock (tick w))) /\
  key cfg = k /\ privacy cfg = v /\ markdown cfg = md /\ max_bytes cfg = mb /\ db w' = db w.
Proof.
  unfold new, check_identity. intros H. m_inv H; [done|].
  repeat match goal with u : unit |- _ => destruct u end.
  apply check_document_ok in Hm as (_ & _ & Hs). bsimp. split; [|by split_and!].
  by split.
Qed.

Lemma privacy_object v : accepts privacy_schema privacy_schema v -> is_object v = true.
Proof.
  intros H. by apply (accepts_typed _ _ _ "object"%string H).
Qed.
Lemma privacy_copies v :
  accepts privacy_schema privacy_schema v -> is_Some (as_object (get v "copies")).
Proof.
  intros H. apply (accepts_path _ _ _ ["copies"%string] copies_schema) in H; [|by vm_compute].
  apply (accepts_typed _ _ _ "object"%string) in H; [|by vm_compute..].
  simpl in H. by destruct (get v "copies").
Qed.

Lemma privacy_origin v :
  accepts privacy_schema privacy_schema v ->
  get v "relay_origin" = Str (s v "relay_origin").
Proof.
  intros H. eapply (accepts_path _ _ _ ["relay_origin"%string]) in H; [|by vm_compute].
  apply (accepts_target _ _ _ origin_schema) in H; [|by vm_compute].
  apply (accepts_typed _ _ _ "string"%string) in H; [|by vm_compute..].
  unfold s. simpl in *. apply bool_decide_eq_true in H as [x Hx].
  by destruct (get v "relay_origin"); simplify_eq/=.
Qed.

Lemma forM_fail_if_np {A} (f : A -> bool) e l :
  forM (M:=Result) (fun x => fail_if (f x) e) l <> Panic.
Proof. induction l as [|x l IH]; simpl; [done|]. by destruct (f x). Qed.
Lemma forM_fail_if_all {A} (f : A -> bool) e l x :
  forM (M:=Result) (fun x => fail_if (f x) e) l = Ok tt -> x ∈ l -> f x = false.
Proof.
  intros H Hx. induction Hx as [x l|x y l Hx IH]; simpl in H;
    apply res_bind_ok in H as ([] & H & H'); [|auto]. by apply res_fail_if_ok in H.
Qed.
Lemma forM_np {A} (f : A -> Result unit) l :
  (forall x, f x <> Panic) -> forM f l <> Panic.
Proof.
  intros Hf. induction l as [|x l IH]; simpl; [done|]. specialize (Hf x).
  by destruct (f x) as [[]| |].
Qed.
Lemma fail_if_np b e : fail_if (M:=Result) b e <> Panic.
Proof. by destruct b. Qed.
Lemma bind_np {A B} (m : Result A) (f : A -> Result B) :
  m <> Panic -> (forall x, m = Ok x -> f x <> Panic) -> bind m f <> Panic.
Proof. destruct m; cbv [bind res_monad]; naive_solver. Qed.
Lemma validate_strings_np v : validate_strings v <> Panic.
Proof.
  induction v as [| | |x|l IH|o IH] using Value_ind'; try done; simpl.
  - apply fail_if_np.
  - induction IH as [|x l Hx _ IHl]; simpl; [done|]. by apply bind_np.
  - induction IH as [|x l Hx _ IHl]; simpl; [done|]. by apply bind_np.
Qed.

Lemma check_copies_np v :
  accepts privacy_schema privacy_schema v -> check_copies v <> Panic.
Proof.
  intros [o Ho]%privacy_copies. unfold check_copies. cbv zeta. rewrite Ho.
  do 2 (apply bind_np; [auto using fail_if_np, forM_fail_if_np|]; intros _ _).
  apply bind_np; [done|]. intros x [= <-]. apply bind_np; [|intros; apply fail_if_np]. apply forM_np. intros c.
  unfold check_copy. apply bind_np; [apply fail_if_np|]. intros _ _.
  repeat case_match; auto using fail_if_np.
Qed.
Lemma check_signature_np k v :
  accepts privacy_schema privacy_schema v -> check_relay_signature k v <> Panic.
Proof.
  intros H%privacy_object. unfold check_relay_signature, signing_bytes. rewrite H.
  apply bind_np; [done|]. intros. apply fail_if_np.
Qed.
Lemma check_fields_np mb v :
  check_quota mb (get v "quota") <> Panic /\ check_rates (get v "rate_limits") <> Panic /\
  check_metadata v <> Panic /\ check_urls v <> Panic.
Proof.
  unfold check_quota, check_rates, check_metadata, check_urls.
  split_and!; repeat (apply bind_np; [|intros _ _]); auto using fail_if_np, forM_fail_if_np.
Qed.

(** (C32) Checking a disclosure ends: for every key, notice, document and quota there is
    one outcome, a configuration or an error and never a panic, which any fuel from
    the depth of the schema on yields; and the database is left as it is. *)
Theorem new_total k md v mb w :
  exists r w', r <> Panic /\ db w' = db w /\
    forall fuel, (schema_depth <= fuel)%nat -> new fuel privacy_schema k md v mb w = (r, w').
Proof.
  destruct (new schema_depth privacy_schema k md v mb w) as [r w'] eqn:E.
  destruct (check_document_fuel md v) as (d & Hd & Hfuel). exists r, w'. split_and!.
  - intros ->. revert E. enough (Hn : never_panics (new schema_depth privacy_schema k md v mb))
      by apply Hn.
    unfold new. rewrite (Hfuel schema_depth) by lia.
    apply np_bind; [by apply np_lift|]. intros [] (w1 & w2 & [Hy _]%M_lift_ok).
    rewrite <-(Hfuel schema_depth) in Hy by lia. apply check_document_ok in Hy as (_ & _ & Hs).
    destruct (check_fields_np mb v) as (? & ? & ? & ?). unfold check_identity.
    np_tac; auto using check_copies_np, check_signature_np, validate_strings_np.
  - symmetry. assert (Hr : respects eq (new schema_depth privacy_schema k md v mb)).
    { unfold new, check_identity. respects_tac idtac. }
    by apply Hr in E.
  - intros fuel Hle. rewrite <-E. unfold new. by rewrite !(Hfuel _) by (lia || done).
Qed.

(** What an integer member of an accepted disclosure is bounded by. *)
Lemma accepted_number cfg t path k lo hi :
  accepted cfg t ->
  (p ← path_schema privacy_schema privacy_schema (path ++ [k]);
   integer_bounds privacy_schema p) = Some (lo, hi) ->
  lo <= n (at_ (privacy cfg) path) k <= hi.
Proof. intros Ha. apply accepts_number, Ha. Qed.

Definition rate_of cfg (scope k : string) : Z :=
  n (at_ (privacy cfg) ["rate_limits"%string; scope]) k.

Lemma accepted_rate cfg t scope rpm burst :
  accepted cfg t -> (scope, (rpm, burst)) ∈ rate_caps ->
  1 <= rate_of cfg scope "requests_per_minute" <= rpm /\ 1 <= rate_of cfg scope "burst" <= burst.
Proof.
  intros Ha Hin. pose proof (ac_rates _ _ Ha) as Hr. unfold check_rates in Hr.
  apply res_bind_ok in Hr as ([] & Hr & _).
  assert (Hc : rate_of cfg scope "requests_per_minute" <= rpm
               /\ rate_of cfg scope "burst" <= burst).
  { apply (forM_fail_if_all _ _ _ _ Hr) in Hin. unfold rate_of, at_. simpl in *. bsimp. lia. }
  assert (Hs : scope ∈ rate_caps.*1) by (apply list_elem_of_fmap; by exists (scope, (rpm, burst))).
  assert (Hlo : forall k, k = "requests_per_minute"%string \/ k = "burst"%string ->
    1 <= rate_of cfg scope k).
  { intros k Hk. apply (accepted_number _ _ ["rate_limits"%string; scope] k 1 MAX_INTEGER Ha).
    revert Hs. unfold rate_caps. simpl. rewrite !elem_of_cons, elem_of_nil.
    destruct Hk as [-> | ->]; intros [-> | [-> | [-> | [-> | []]]]]; by vm_compute. }
  destruct Hc. split_and!; auto.
Qed.

(** (C31) The limits of a relay that starts are those the implementation can keep:
    requests of 1 to 8388608 bytes, 1 to 128 devices, 1 to 64 records an upload and 1 to
    1000 rows a page; every rate is positive and at most its cap, the public rate at
    least twice the rate of a signer; and a configured quota lies between the
    disclosed minimum and maximum. *)
Theorem accepted_limits fuel k md v mb w cfg w' :
  new fuel privacy_schema k md v mb w = (Ok cfg, w') ->
  (1 <= n (limits cfg) "max_request_bytes" <= 8388608 /\
   1 <= n (limits cfg) "max_devices" <= 128 /\
   1 <= n (limits cfg) "max_records_per_upload" <= 64 /\
   1 <= n (limits cfg) "page_limit" <= 1000) /\
  (forall scope rpm burst, (scope, (rpm, burst)) ∈ rate_caps ->
     1 <= rate_of cfg scope "requests_per_minute" <= rpm /\
     1 <= rate_of cfg scope "burst" <= burst) /\
  2 * rate_of cfg "authorized_signer" "requests_per_minute"
    <= rate_of cfg "public_document_ip" "requests_per_minute" /\
  (forall m, max_bytes cfg = Some m ->
     n (get (privacy cfg) "quota") "minimum_bytes" <= m <= MAX_INTEGER /\
     forall hi, as_u64 (get (get (privacy cfg) "quota") "maximum_bytes") = Some hi -> m <= hi).
Proof.
  intros [Ha _]%new_ok. split; [|split; [|split]].
  - split; [|split; [|split]];
      (refine (accepted_number cfg _ ["limits"%string] _ _ _ Ha _); by vm_compute).
  - intros scope rpm burst. by apply (accepted_rate _ _ _ _ _ Ha).
  - pose proof (ac_rates _ _ Ha) as Hr. unfold check_rates in Hr.
    apply res_bind_ok in Hr as ([] & _ & Hr). apply res_fail_if_ok in Hr.
    unfold rate_of, at_. simpl. bsimp. lia.
  - intros m Hm. pose proof (ac_quota _ _ Ha) as Hq. unfold check_quota in Hq.
    apply res_bind_ok in Hq as ([] & _ & Hq). apply res_fail_if_ok in Hq. rewrite Hm in Hq.
    bsimp. split; [lia|]. intros hi Hhi. unfold on_u64 in *. rewrite Hhi in *. bsimp. lia.
Qed.

(** (C30) A relay serves only a disclosure of its own: the key of the configuration is a
    valid Ed25519 key whose hash the document names, it verifies the document's
    signature over everything but the signature, the notice has the hash the
    document names, the document is in force at the time of the check, and it claims
    neither backups nor replicas. *)
Theorem accepted_identity fuel k md v mb w cfg w' :
  new fuel privacy_schema k md v mb w = (Ok cfg, w') ->
  key cfg = k /\ markdown cfg = md /\ privacy cfg = v /\
  valid_ed_key (b64_encode (verifying_key k)) = true /\
  get v "relay_key_id" = Str (key_id cfg) /\ key_id cfg = hash_bytes (verifying_key k) /\
  get v "markdown_sha256" = Str (hash_bytes md) /\
  get v "relay_origin" = Str (origin cfg) /\ valid_origin (origin cfg) = true /\
  verify_signature (b64_encode (verifying_key k)) (s v "relay_signature")
    (CTX_PRIVACY +:+ jcs_to_vec (remove_member v "relay_signature")) = Some true /\
  n v "published_at_ms" <= n v "effective_at_ms" <= Z.max 0 (clock (tick w)) /\
  get (get v "backups") "enabled" = Bool false /\
  at_ v ["copies"; "replica"; "present"]%string = Bool false /\
  at_ v ["copies"; "backup"; "present"]%string = Bool false.
Proof.
  intros (Ha & <- & <- & <- & _ & _)%new_ok.
  pose proof (ac_identity _ _ Ha) as Hi. pose proof (ac_supported _ _ Ha) as Hs.
  pose proof (ac_copies _ _ Ha) as Hc. pose proof (ac_signature _ _ Ha) as Hg.
  pose proof (ac_effective _ _ Ha). rewrite (ac_key_id _ _ Ha), (ac_origin _ _ Ha).
  unfold misidentified, unsupported, is_text, veqb in *. bsimp.
  unfold check_copies in Hc. apply res_bind_ok in Hc as ([] & Hc & _). apply res_fail_if_ok in Hc.
  unfold check_relay_signature, signing_bytes in Hg.
  rewrite (privacy_object _ (ac_schema _ _ Ha)) in Hg. apply res_fail_if_ok in Hg.
  unfold veqb in *. bsimp.
  split_and!; try done; try lia.
  - by apply privacy_origin, Ha.
  - unfold default in Hg. by destruct (verify_signature _ _ _) as [[]|].
Qed.
End New.
