(* ===== verification/StartSpec.v ===== *)
(** * The identity of a relay is pinned to its store

    Whatever happens after a start, and whatever configuration the next start is
    given. *)
From S2P Require Import Prelude Error Json Verify Jcs Wire Query Routes Db Monad Config.
From S2P Require Import Store HashChain Steps StoreFacts StoreSpec Auth AuthFacts Domain.
From S2P Require Import Retention Mutation Deletion Batch Import Read Export Sync Concurrent.
From S2P Require Import HandlerFacts BatchFacts ChainInv ServiceFacts ServiceInv ServiceSpec.
From S2P Require Import ServiceRel History SideTable OperatorRow Interleave InterleaveSpec.
From S2P Require Import DeletionSpec Disclosure PrivacySchema DisclosureSpec Main.

Section StartSpec.
Context {X : Ext} {O : Oracle}.
Context (mime_parse : string -> option (string * option string)).
Implicit Types (cfg : RelayConfig).

(** What comes after the first transaction of a start leaves the row alone. *)
Definition finish_start cfg : M unit := complete cfg ;;; renotice_tx cfg.
Lemma finish_start_kept cfg : respects keeps_operator (finish_start cfg).
Proof.
  unfold finish_start, renotice_tx. respects_tac idtac; [apply (sr_complete keeps_operator) | by apply (renotice_rel keeps_operator)].
Qed.

Lemma startup_cases cfg w r w' : chains_keyed (db w) -> startup cfg w = (r, w') ->
  chains_keyed (db w') /\ operator_forward (db w) (db w') /\ (r = Ok tt -> operator_is cfg (db w')).
Proof.
  intros Hk H. change (startup cfg) with (operator_tx cfg ;;; finish_start cfg) in H.
  cbv [bind M_monad] in H.
  destruct (operator_tx cfg w) as [[[]|e|] w1] eqn:E.
  - apply operator_tx_ok in E as (Hf & Hi & Hc).
    assert (Hk1 : chains_keyed (db w1)) by (unfold chains_keyed; by rewrite Hc).
    destruct (finish_start_kept _ _ _ _ H Hk1) as [Hk' Ho]. split; [done|].
    unfold operator_forward, operator_is. rewrite Ho. by split.
  - injection H as <- <-.
    apply transaction_atomic in E as [E|(x & w0 & [=] & _)]. rewrite E. by split_and!.
  - injection H as <- <-.
    apply transaction_atomic in E as [E|(x & w0 & [=] & _)]. rewrite E. by split_and!.
Qed.

(** ** The start of the process *)
Context {C : ConfigExt X}.
Implicit Types (env : string -> option string) (read : string -> string + string).

Lemma from_env_ok env read fuel w cfg w' :
  from_env env read fuel privacy_schema w = (Ok cfg, w') ->
  key_id cfg = hash_bytes (verifying_key (key cfg)) /\ db w' = db w.
Proof.
  unfold from_env. destruct (from_env_inputs env read) as [[[[k md] v] mb]|e|]; [|done..].
  destruct (new _ _ _ _ _ _ w) as [[cfg0|e|] w0] eqn:E; [|done..].
  apply new_ok in E as (Ha & _ & _ & _ & _ & Hd). intros [= H <-].
  unfold from_env_notices in H. res_inv H. simpl. by rewrite (ac_key_id _ _ Ha).
Qed.
Lemma start_ok env read resolve e fuel w cfg w' :
  start env read resolve e fuel privacy_schema w = (Ok cfg, w') ->
  key_id cfg = hash_bytes (verifying_key (key cfg)) /\
  exists w0, db w0 = db w /\ startup cfg w0 = (Ok tt, w').
Proof.
  unfold start, init_db. destruct (from_env _ _ _ _ w) as [[cfg0|e0|] w0] eqn:E; [|done..].
  apply from_env_ok in E as [Hk Hd]. destruct (sql_fails _); [done|].
  destruct (String.eqb _ _); [done|].
  destruct (startup cfg0 (next w0)) as [[[]|e1|] w1] eqn:E1; [|done..].
  intros [= -> ->]. split; [done|]. by exists (next w0).
Qed.

(** (C38) A store belongs to one relay: after the process has started on a store,
    whatever requests, upkeep, kills and further starts follow, interleaved and under
    whatever configurations, it starts again, from whatever environment, only for the
    same origin and a key with the same hash, with a disclosure whose revision has not
    gone back, and for the same revision only with the same disclosure, as its hash
    shows. *)
Theorem relay_identity_pinned env read resolve e fuel env' read' resolve' e' fuel'
    cfg cfg' w w1 s w3 :
  chains_keyed (db w) ->
  start env read resolve e fuel privacy_schema w = (Ok cfg, w1) ->
  rtc (step mime_parse) (MkSystem w1 (Serving cfg [] ∅)) s ->
  start env' read' resolve' e' fuel' privacy_schema (world s) = (Ok cfg', w3) ->
  origin cfg' = origin cfg /\
  hash_bytes (verifying_key (key cfg')) = hash_bytes (verifying_key (key cfg)) /\
  n (privacy cfg) "revision" <= n (privacy cfg') "revision" /\
  (n (privacy cfg) "revision" = n (privacy cfg') "revision" ->
   object_hash (privacy cfg') = object_hash (privacy cfg)).
Proof.
  intros Hk H1 He H2. apply start_ok in H1 as (<- & w0 & Hw0 & H1).
  apply start_ok in H2 as (<- & w4 & Hw4 & H2). rewrite <-Hw0 in Hk.
  destruct (startup_cases _ _ _ _ Hk H1) as (Hk1 & _ & Hi).
  eapply (steps_rel moves_operator) in He as [_ He]; [|exact operator_tx_moves|constructor].
  destruct (He Hk1) as [Hk2 Hf]. rewrite <-Hw4 in Hk2, Hf.
  destruct (startup_cases _ _ _ _ Hk2 H2) as (_ & Hf3 & Hi3).
  apply (operator_is_forward _ _ (db w1) (db w3)); [by apply Hi|by apply Hi3|].
  by transitivity (db w4).
Qed.
End StartSpec.
