(* ===== verification/OperatorSpec.v ===== *)
(** * What the operator's command promises

    A policy that it signs is one that the relay accepts, and it never overwrites a
    published one. *)
From S2P Require Import Prelude Error Json Verify Jcs JsonText Wire Db Monad Config.
From S2P Require Import Store Auth AuthFacts Disclosure PrivacySchema DisclosureSpec Sync Legacy Operator.

Lemma split_path_join p name : name <> "/"%string -> split_path (join p name) = Some (p, name).
Proof.
  intros Hn. unfold split_path, join. rewrite rev_app_distr. simpl.
  destruct (String.eqb_spec name "/"); [done|]. by rewrite rev_involutive.
Qed.
Lemma join_ne p name : join p name <> p.
Proof.
  intros E. apply (f_equal (@List.length string)) in E. unfold join in E.
  rewrite length_app in E. simpl in E. lia.
Qed.

Section OperatorSpec.
Context {X : Ext} {C : ConfigExt X} {O : Oracle} {P : OperatorExt}.

(** ** Relations that commands respect *)
Definition o_respects (R : OWorld -> OWorld -> Prop) {A} (m : Op A) : Prop :=
  forall w r w', m w = (r, w') -> R w w'.
(** Time goes on; and the files stay as they are. *)
Definition later (w w' : OWorld) : Prop := (o_tick w <= o_tick w')%nat.
Definition reads (w w' : OWorld) : Prop := later w w' /\ o_fs w' = o_fs w.
#[local] Instance later_preorder : PreOrder later.
Proof. split; [by intros w; unfold later|]. intros w1 w2 w3. unfold later. lia. Qed.
#[local] Instance reads_preorder : PreOrder reads.
Proof.
  split; [by intros w|]. intros w1 w2 w3 [A1 A2] [B1 B2]. split; [by etransitivity|congruence].
Qed.

Section Respects.
Context (R : OWorld -> OWorld -> Prop) `{!PreOrder R}.
Lemma or_same {A} (m : Op A) : (forall w, snd (m w) = w) -> o_respects R m.
Proof. intros Hm w r w' E. specialize (Hm w). rewrite E in Hm. simpl in Hm. by subst. Qed.
Lemma or_ret {A} (x : A) : o_respects R (ret x).
Proof. by apply or_same. Qed.
Lemma or_fail {A} e : o_respects R (fail (A:=A) e).
Proof. by apply or_same. Qed.
Lemma or_pure {A} (r : Res string A) : o_respects R (o_pure r).
Proof. by apply or_same. Qed.
Lemma or_fail_if b e : o_respects R (fail_if b e).
Proof. apply or_same. by destruct b. Qed.
Lemma or_ok_or {A} (o : option A) e : o_respects R (ok_or o e).
Proof. apply or_same. by destruct o. Qed.
Lemma or_unwrap {A} (o : option A) : o_respects R (unwrap o).
Proof. apply or_same. by destruct o. Qed.
Lemma or_bind {A B} (m : Op A) (f : A -> Op B) :
  o_respects R m -> (forall x, o_respects R (f x)) -> o_respects R (bind m f).
Proof.
  intros Hm Hf w r w'. cbv [bind Op_monad]. destruct (m w) as [[x|e|] w1] eqn:E;
    apply Hm in E; [intros H%Hf; by transitivity w1|by intros [= _ <-]..].
Qed.
End Respects.
Create HintDb o_respects.
Hint Resolve or_ret or_fail or_pure or_fail_if or_ok_or or_unwrap : o_respects.
Ltac or_tac :=
  intros;
  lazymatch goal with
  | |- o_respects ?R (@bind _ Op _ _ _ _ _) => apply (or_bind R); or_tac
  | |- o_respects ?R (let _ := _ in _) => cbv zeta; or_tac
  | |- _ => try solve [eauto with o_respects typeclass_instances]
  end.

Lemma io_later {A} (f : Fs -> option (A * Fs)) : o_respects later (io f).
Proof.
  intros w r w'. unfold io, later, o_tick.
  destruct (io_error _); [|destruct (f (o_fs w)) as [[]|]]; intros [= _ <-]; simpl; lia.
Qed.
Lemma io_reads {A} (f : Fs -> option (A * Fs)) :
  (forall fs x fs', f fs = Some (x, fs') -> fs' = fs) -> o_respects reads (io f).
Proof.
  intros Hf w r w' H. split; [by eapply io_later|]. revert H. unfold io.
  destruct (io_error _); [by intros [= _ <-]|].
  destruct (f (o_fs w)) as [[x fs']|] eqn:E; [apply Hf in E as ->|]; by intros [= _ <-].
Qed.
Lemma reads_intro {A} (m : Op A) : o_respects later m ->
  (forall w, o_fs (snd (m w)) = o_fs w) -> o_respects reads m.
Proof. intros H1 H2 w r w' H. split; [by eapply H1|]. specialize (H2 w). by rewrite H in H2. Qed.
Lemma later_intro {A} (m : Op A) :
  (forall w, (o_tick w <= o_tick (snd (m w)))%nat) -> o_respects later m.
Proof. intros H1 w r w' H. specialize (H1 w). by rewrite H in H1. Qed.
Lemma io_text_reads x : o_respects reads (io_text x).
Proof.
  apply reads_intro; [apply later_intro|]; intros w; unfold io_text; destruct (io_error _);
    unfold o_tick; simpl; (lia || done).
Qed.
Lemma exists_reads p : o_respects reads (exists_ p).
Proof. apply reads_intro; [apply later_intro|]; intros w; unfold o_tick; simpl; (lia || done). Qed.
Lemma now_reads : o_respects reads (on_store l_now).
Proof. apply reads_intro; [apply later_intro|]; intros w; unfold o_tick; simpl; (lia || done). Qed.
Lemma uuid_reads : o_respects reads new_uuid_text.
Proof. apply reads_intro; [apply later_intro|]; intros w; unfold o_tick; simpl; (lia || done). Qed.
Lemma println_reads x : o_respects reads (println x).
Proof. apply reads_intro; [apply later_intro|]; intros w; unfold o_tick; simpl; (lia || done). Qed.
Lemma on_relay_reads {A} f (m : M A) : advances m -> o_respects reads (on_relay f m).
Proof.
  intros Hm. apply reads_intro; [apply later_intro|]; intros w;
    unfold on_relay, on_store, on_v3, o_tick; destruct (m (v3 (o_store w))) as [r w3] eqn:E;
    [by apply Hm in E|done].
Qed.
Lemma validate_reads fuel schema key md p q :
  o_respects reads (validate fuel schema key md p q).
Proof.
  apply on_relay_reads. unfold new, check_identity. adv_tac.
Qed.
Hint Resolve io_text_reads exists_reads now_reads uuid_reads println_reads validate_reads
  : o_respects.
Lemma read_public_reads p : o_respects reads (read_public p).
Proof.
  unfold read_public. or_tac. apply io_reads. intros fs x fs'.
  destruct (file_at fs p) as [[m b]|]; simpl; [by intros [= _ <-]|done].
Qed.
Lemma key_from_stdin_reads stdin : o_respects reads (key_from_stdin stdin).
Proof. unfold key_from_stdin. or_tac. Qed.
Hint Resolve read_public_reads key_from_stdin_reads : o_respects.
Lemma reads_later {A} (m : Op A) : o_respects reads m -> o_respects later m.
Proof. intros H w r w' E. by apply H in E as [? _]. Qed.

Lemma write_later p b : o_respects later (write p b).
Proof.
  apply (or_bind later); [apply io_later|]. intros _ w r w'. cbv beta.
  destruct (io_error _); [|apply io_later]. intros [= _ <-]. unfold later, o_tick. simpl. lia.
Qed.
Lemma fill_later t cfg pk : o_respects later (fill t cfg pk).
Proof. unfold fill. cbn [forM]. or_tac; first [apply write_later | apply io_later]. Qed.
Lemma publish_later t out cfg pk : o_respects later (publish_or_remove t out cfg pk).
Proof.
  assert (Hp : o_respects later (publish t out cfg pk)).
  { apply (or_bind later); [apply fill_later|intros; apply io_later]. }
  intros w r w'. unfold publish_or_remove.
  destruct (publish t out cfg pk w) as [[u|e|] w1] eqn:E; apply Hp in E;
    [by intros [= _ <-]| |by intros [= _ <-]].
  intros H. cbv [bind fail Op_monad] in H. unfold remove_dir_all, later, o_tick in *.
  destruct (io_error _); injection H as _ <-; simpl; lia.
Qed.

(** ** Steps in a fresh directory

    [fs] is the file system without the directory [t]: what a step leaves there, and
    that nothing else has changed. *)
Section Fresh.
Context (fs : Fs) (t : Path).

Definition steps {A} (dir : Dir) (m : Op A) (post : Dir -> Prop) : Prop :=
  forall w r w', o_fs w = <[t := dir]> fs -> m w = (r, w') ->
  r <> Panic /\ exists dir', o_fs w' = <[t := dir']> fs /\ (forall x, r = Ok x -> post dir').

Lemma steps_ret {A} dir (x : A) : steps dir (ret x) (eq dir).
Proof. intros w r w' Hw [= <- <-]. split; [done|]. by exists dir. Qed.
Lemma steps_bind {A B} dir (m : Op A) (f : A -> Op B) mid post :
  steps dir m mid -> (forall x dir', mid dir' -> steps dir' (f x) post) ->
  steps dir (bind m f) post.
Proof.
  intros Hm Hf w r w' Hw. cbv [bind Op_monad]. destruct (m w) as [[x|e|] w1] eqn:E;
    destruct (Hm _ _ _ Hw E) as (Hr & dir1 & Hw1 & Hp).
  - intros H. exact (Hf x dir1 (Hp x eq_refl) _ _ _ Hw1 H).
  - intros [= <- <-]. split; [done|]. by exists dir1.
  - done.
Qed.
Definition add_file (dir : Dir) (name bytes : string) : Dir :=
  MkDir (d_mode dir)
    (<[name := (default file_mode (fst <$> d_files dir !! name), bytes)]> (d_files dir)).
Lemma put_here dir name bytes fs' : put_file t name bytes (<[t := dir]> fs) = Some fs' ->
  fs !! join t name = None /\ fs' = <[t := add_file dir name bytes]> fs.
Proof.
  unfold put_file. rewrite lookup_insert_eq. simpl.
  rewrite lookup_insert_ne by (symmetry; apply join_ne).
  case_bool_decide as E; [done|]. intros [= <-]. rewrite insert_insert_eq.
  split; [|done]. by apply eq_None_not_Some.
Qed.
Lemma steps_write dir name bytes : name <> "/"%string ->
  steps dir (write (join t name) bytes)
    (fun d => d = add_file dir name bytes /\ fs !! join t name = None).
Proof.
  intros Hn. unfold write. rewrite split_path_join by done. simpl.
  apply (steps_bind _ _ _ (fun d => d = add_file dir name EmptyString /\ fs !! join t name = None)).
  - intros w r w' Hw. unfold io. destruct (io_error _).
    { intros [= <- <-]. split; [done|]. by exists dir. }
    rewrite Hw. destruct (put_file _ _ _ _) eqn:E; simpl.
    + apply put_here in E as [H1 ->]. intros [= <- <-]. split; [done|]. eexists. by split.
    + intros [= <- <-]. split; [done|]. exists dir. by split.
  - intros _ d [-> Hf] w r w' Hw. cbv beta.
    assert (Ha : forall b, add_file (add_file dir name EmptyString) name b = add_file dir name b).
    { intros b. unfold add_file. simpl. by rewrite lookup_insert_eq, insert_insert_eq. }
    unfold io. destruct (io_error _).
    + intros [= <- <-]. split; [done|]. simpl. rewrite Hw.
      destruct (put_file _ _ _ _) eqn:E; simpl; [apply put_here in E as [_ ->]|]; eexists; by split.
    + rewrite Hw. destruct (put_file _ _ _ _) eqn:E; simpl.
      * apply put_here in E as [_ ->]. rewrite Ha. intros [= <- <-]. split; [done|]. eexists. by split.
      * intros [= <- <-]. split; [done|]. eexists. by split.
Qed.
Lemma steps_mode_dir dir mode :
  steps dir (set_permissions t mode) (eq (MkDir mode (d_files dir))).
Proof.
  intros w r w' Hw. unfold set_permissions, io. destruct (io_error _).
  { intros [= <- <-]. split; [done|]. by exists dir. }
  rewrite Hw, lookup_insert_eq, insert_insert_eq. intros [= <- <-]. split; [done|]. eexists. by split.
Qed.
Lemma steps_mode_file dir name mode b : name <> "/"%string -> fs !! join t name = None ->
  d_files dir !! name = Some b ->
  steps dir (set_permissions (join t name) mode)
    (eq (MkDir (d_mode dir) (<[name := (mode, snd b)]> (d_files dir)))).
Proof.
  intros Hn Hf Hb w r w' Hw. unfold set_permissions, io. destruct (io_error _).
  { intros [= <- <-]. split; [done|]. by exists dir. }
  rewrite Hw, lookup_insert_ne by (symmetry; apply join_ne). rewrite Hf, split_path_join by done.
  simpl. rewrite lookup_insert_eq. simpl. rewrite Hb. destruct b as [m0 b]. simpl.
  rewrite insert_insert_eq. intros [= <- <-]. split; [done|]. eexists. by split.
Qed.
End Fresh.

(** The directory of a published policy. *)
Definition published (md : string) (v : Value) (public_key : string) : Dir := MkDir 493
  {["privacy.md"%string := (420, md); "privacy.json"%string := (420, to_vec_pretty v);
    "relay-public-key.txt"%string := (420, (public_key +:+ nl)%string)]}.

Lemma steps_fill fs t cfg pk :
  steps fs t (MkDir dir_mode ∅) (fill t cfg pk) (eq (published (markdown cfg) (privacy cfg) pk)).
Proof.
  eapply steps_bind; [by apply steps_write|]. intros _ d [-> H1].
  eapply steps_bind; [by apply steps_write|]. intros _ d [-> H2].
  eapply steps_bind; [by apply steps_write|]. intros _ d [-> H3].
  eapply steps_bind; [apply steps_mode_dir|]. intros _ d <-. cbn [forM].
  eapply steps_bind; [by eapply steps_mode_file; [|done|]|]. intros _ d <-.
  eapply steps_bind; [by eapply steps_mode_file; [|done|]|]. intros _ d <-.
  eapply steps_bind; [by eapply steps_mode_file; [|done|]|]. intros _ d <-.
  intros w r w' Hw [= <- <-]. split; [done|]. eexists. split; [exact Hw|]. by intros.
Qed.

(** ** The directory appears as a whole, or not at all *)
Definition may_move (fs : Fs) (q : Path) : Prop :=
  forall old, fs !! q = Some old -> d_files old = ∅.
Lemma rename_cases fs t q dir w r w' :
  o_fs w = <[t := dir]> fs -> fs !! t = None -> rename t q w = (r, w') ->
  (r = Ok tt /\ o_fs w' = <[q := dir]> fs /\ may_move fs q) \/
  (exists e, r = Err e /\ o_fs w' = o_fs w).
Proof.
  intros Hw Ht. unfold rename, io. destruct (io_error _).
  { intros [= <- <-]. right. by eexists. }
  match goal with |- context [match ?f with _ => _ end] =>
    destruct f as [[[] fs']|] eqn:E end; intros [= <- <-]; [left|right; by eexists].
  split; [done|]. simpl. rewrite Hw, lookup_insert_eq in E. simpl in E.
  destruct (parent q) as [up|]; simpl in E; [|done].
  destruct (_ !! up); simpl in E; [|done].
  rewrite (delete_insert_id _ t) in E by done. case_bool_decide as Hq.
  - injection E as <-. subst q. split; [done|]. unfold may_move. by rewrite Ht.
  - rewrite lookup_insert_ne in E by done. unfold may_move.
    destruct (fs !! q) as [old|]; repeat case_match; simplify_eq; (split; [done|]); [|done].
    intros ? [= <-]. bsimp. done.
Qed.
Lemma create_dir_cases p w r w' : create_dir p w = (r, w') ->
  (r = Ok tt /\ o_fs w !! p = None /\ o_fs w' = <[p := MkDir dir_mode ∅]> (o_fs w)) \/
  (exists e, r = Err e /\ o_fs w' = o_fs w).
Proof.
  unfold create_dir, io. destruct (io_error _).
  { intros [= <- <-]. right. by eexists. }
  destruct (parent p) as [up|]; simpl; [|intros [= <- <-]; right; by eexists].
  destruct (o_fs w !! up); simpl; [|intros [= <- <-]; right; by eexists].
  destruct (present_at (o_fs w) p) eqn:E; simpl; intros [= <- <-]; [right; by eexists|left].
  split; [done|]. split; [|done]. unfold present_at in E. bsimp.
  by apply eq_None_not_Some.
Qed.
Lemma publish_cases fs t q cfg pk w r w' :
  o_fs w = <[t := MkDir dir_mode ∅]> fs -> fs !! t = None ->
  publish_or_remove t q cfg pk w = (r, w') ->
  (r = Ok tt /\ o_fs w' = <[q := published (markdown cfg) (privacy cfg) pk]> fs /\
   may_move fs q) \/
  (exists e, r = Err e /\ forall p, p <> t -> o_fs w' !! p = fs !! p).
Proof.
  intros Hw Ht H. unfold publish_or_remove in H.
  destruct (publish t q cfg pk w) as [r1 w1] eqn:E.
  assert (Hc : (r1 = Ok tt /\ o_fs w1 = <[q := published (markdown cfg) (privacy cfg) pk]> fs /\
      may_move fs q) \/ (exists e dir, r1 = Err e /\ o_fs w1 = <[t := dir]> fs)).
  { unfold publish in E. cbv [bind Op_monad] in E.
    destruct (fill t cfg pk w) as [r2 w2] eqn:E2.
    destruct (steps_fill fs t cfg pk _ _ _ Hw E2) as (Hr & dir & Hw2 & Hp).
    destruct r2 as [u|e|]; [| |done].
    - specialize (Hp u eq_refl). subst dir.
      destruct (rename_cases fs _ _ _ _ _ _ Hw2 Ht E) as [?|(e & -> & Hf)]; [by left|].
      right. exists e. eexists. split; [done|]. by rewrite Hf.
    - injection E as <- <-. right. by exists e, dir. }
  destruct Hc as [(-> & Hf & Hm)|(e & dir & -> & Hf)].
  - injection H as <- <-. by left.
  - right. exists e. cbv [bind fail Op_monad] in H. unfold remove_dir_all in H.
    destruct (io_error _); injection H as <- <-; (split; [done|]); intros p Hp; simpl;
      rewrite Hf; [by rewrite lookup_insert_ne|].
    rewrite lookup_delete_ne by done. by rewrite lookup_insert_ne.
Qed.

(** ** Inversion of successful commands *)
Lemma op_bind_ok {A B} (m : Op A) (f : A -> Op B) w y w' :
  bind m f w = (Ok y, w') <-> exists x w1, m w = (Ok x, w1) /\ f x w1 = (Ok y, w').
Proof.
  cbv [bind Op_monad]. destruct (m w) as [[x|e|] w1].
  - split; [by eauto|]. by intros (x' & w2 & [= <- <-] & H).
  - split; [done|]. by intros (x' & w2 & H & _).
  - split; [done|]. by intros (x' & w2 & H & _).
Qed.
Lemma op_ret_ok {A} (x y : A) (w w' : OWorld) :
  ret (M:=Op) x w = (Ok y, w') <-> x = y /\ w' = w.
Proof. cbv [ret Op_monad]. split; [by intros [= <- <-] | by intros [-> ->]]. Qed.
Lemma op_fail_if_ok b e u w w' :
  fail_if (M:=Op) b e w = (Ok u, w') <-> b = false /\ w' = w.
Proof.
  unfold fail_if. destruct b; [by split; [|intros []]|]. destruct u.
  split; [by intros [= <-]|by intros [_ ->]].
Qed.
Lemma op_ok_or_ok {A} (o : option A) e x w w' :
  ok_or (M:=Op) o e w = (Ok x, w') <-> o = Some x /\ w' = w.
Proof.
  destruct o; (split; [|intros [H ->]; by simplify_eq]); [by intros [= -> ->]|done].
Qed.
Lemma op_unwrap_ok {A} (o : option A) x w w' :
  unwrap (M:=Op) o w = (Ok x, w') <-> o = Some x /\ w' = w.
Proof.
  destruct o; (split; [|intros [H ->]; by simplify_eq]); [by intros [= -> ->]|done].
Qed.
Lemma op_pure_ok {A} (r : Res string A) x w w' :
  o_pure r w = (Ok x, w') <-> r = Ok x /\ w' = w.
Proof. unfold o_pure. split; [by intros [= -> ->]|by intros [-> ->]]. Qed.
Lemma on_relay_ok {A} f (m : M A) x w w' : on_relay f m w = (Ok x, w') ->
  m (v3 (o_store w)) = (Ok x, v3 (o_store w')) /\ o_fs w' = o_fs w.
Proof.
  unfold on_relay, on_store, on_v3. destruct (m _) as [[y|e|] w3]; intros [= <- <-]. done.
Qed.
Lemma seed_ok stdin w key w' : key_from_stdin stdin w = (Ok key, w') -> seed_key stdin = Ok key.
Proof. unfold key_from_stdin. intros (u & w1 & _ & [H _]%op_pure_ok)%op_bind_ok. done. Qed.
Ltac op_inv H :=
  lazymatch type of H with
  | @bind _ Op _ _ _ _ _ _ = _ =>
      let x := fresh "x" in let w := fresh "w" in let Hx := fresh "Ho" in
      apply op_bind_ok in H as (x & w & Hx & H); cbv beta zeta in H; op_inv Hx; op_inv H
  | ret _ _ = _ => apply op_ret_ok in H as [? ?]; subst
  | fail_if _ _ _ = _ => apply op_fail_if_ok in H as [H ?]; subst
  | ok_or _ _ _ = _ => apply op_ok_or_ok in H as [H ?]; subst
  | unwrap _ _ = _ => apply op_unwrap_ok in H as [H ?]; subst
  | o_pure _ _ = _ => apply op_pure_ok in H as [H ?]; subst
  | _ => idtac
  end.

(** What [new] accepts, it accepts later too. *)
Lemma new_again fuel schema k md v mb w cfg w1 :
  new fuel schema k md v mb w = (Ok cfg, w1) ->
  key cfg = k /\ privacy cfg = v /\ markdown cfg = md /\ max_bytes cfg = mb /\
  forall w2, Z.max 0 (clock (tick w)) <= Z.max 0 (clock (tick w2)) ->
  exists w3, new fuel schema k md v mb w2 = (Ok cfg, w3).
Proof.
  intros H. unfold new, check_identity in H. m_inv H; [done|].
  repeat match goal with u : unit |- _ => destruct u end.
  split_and!; [done..|]. intros w2 Hle. exists (next w2). unfold new, check_identity.
  assert (Hb : (Z.max 0 (clock (tick w2)) <? n v "effective_at_ms") || unsupported v = false).
  { bsimp. apply orb_false_iff. split; [apply Z.ltb_ge; lia|done]. }
  rewrite lift_run, Hm. cbv [bind M_monad]. rewrite E.
  unfold now. rewrite Hb. unfold lift. by rewrite Hm1, Hm2, Hm3, Hm4, Hm5, Hm6, Hm7.
Qed.

(** ** Signing *)
Section Signing.
Context (fuel : nat) (schema : Value) (stdin : string).

Lemma prepare_reads draft output q : o_respects reads (prepare fuel schema stdin draft output q).
Proof. unfold prepare. or_tac. Qed.

(** A name that [sign] gives its temporary directory. *)
Definition is_temporary (output p : Path) : Prop :=
  exists up k, parent output = Some up /\ p = join up (".policy-" +:+ new_uuid k)%string.
Record prepared (output : Path) (q : option Z) (w : OWorld) (cfg : RelayConfig)
    (pk : string) (t : Path) : Prop := {
  pr_key : seed_key stdin = Ok (key cfg);
  pr_pk : pk = b64_encode (verifying_key (key cfg));
  pr_quota : max_bytes cfg = q;
  pr_policy : exists bytes p id ts md, parse bytes = Ok p /\ is_object p = true /\ 0 <= ts /\
    sign_policy (key cfg)
      (derive p id ts (hash_bytes (verifying_key (key cfg))) md) = Ok (privacy cfg);
  pr_checked : exists w0, (o_tick w0 <= o_tick w)%nat /\ exists w1,
    new fuel schema (key cfg) (markdown cfg) (privacy cfg) q (v3 (o_store w0)) = (Ok cfg, w1);
  pr_temporary : is_temporary output t;
}.
Lemma prepare_ok draft output q w cfg pk t w' :
  prepare fuel schema stdin draft output q w = (Ok (cfg, pk, t), w') ->
  prepared output q w' cfg pk t.
Proof.
  intros H. unfold prepare in H. op_inv H. simplify_eq.
  assert (Ht : (o_tick w5 <= o_tick w7)%nat).
  { apply uuid_reads in Ho11 as [? _]. apply validate_reads in Ho9 as [? _].
    unfold later in *. lia. }
  apply on_relay_ok in Ho9 as [Hn _].
  pose proof (new_again _ _ _ _ _ _ _ _ _ Hn) as (<- & <- & Hmd & Hq & _). split.
  - by eapply seed_ok.
  - done.
  - done.
  - exists x2, x3, x6, x5. eexists. split; [done|].
    unfold check_draft in Ho4. apply res_bind_ok in Ho4 as ([] & Hd & _).
    apply res_fail_if_ok, negb_false_iff in Hd. split; [done|]. split; [|done].
    unfold on_store, l_now in Ho5. simplify_eq. lia.
  - exists w5. split; [done|]. rewrite Hmd. eexists. exact Hn.
  - exists x10. unfold new_uuid_text in Ho11. apply on_relay_ok in Ho11 as [Hu _].
    unfold new_id in Hu. exists (tick (v3 (o_store w6))). by simplify_eq.
Qed.

Lemma sign_cases draft output q w r w' : sign fuel schema stdin draft output q w = (r, w') ->
  (r = Ok tt /\ may_move (o_fs w) output /\ exists cfg pk t w0,
     prepare fuel schema stdin draft output q w = (Ok (cfg, pk, t), w0) /\
     o_fs w' = <[output := published (markdown cfg) (privacy cfg) pk]> (o_fs w) /\
     later w0 w') \/
  (r <> Ok tt /\ forall p, ~ (o_fs w !! p = None /\ is_temporary output p) ->
     o_fs w' !! p = o_fs w !! p).
Proof.
  unfold sign. cbv [bind Op_monad].
  destruct (prepare _ _ _ _ _ _ w) as [[[[cfg pk] t]|e|] w1] eqn:E;
    destruct (prepare_reads _ _ _ _ _ _ E) as [_ Hw1].
  - pose proof (pr_temporary _ _ _ _ _ _ (prepare_ok _ _ _ _ _ _ _ _ E)) as Ht.
    destruct (create_dir t w1) as [r2 w2] eqn:E2.
    destruct (create_dir_cases _ _ _ _ E2) as [(-> & Hn & Hw2)|(e & -> & Hw2)].
    + destruct (publish_or_remove t output cfg pk w2) as [r3 w3] eqn:E3.
      rewrite Hw1 in Hw2, Hn.
      destruct (publish_cases _ _ _ _ _ _ _ _ Hw2 Hn E3) as [(-> & Hw3 & Hm)|(e & -> & Hw3)].
      * intros [= <- <-]. left. split; [done|]. split; [done|]. exists cfg, pk, t, w1.
        split; [done|]. split; [done|]. transitivity w2; [by eapply io_later|].
        by apply publish_later in E3.
      * intros [= <- <-]. right. split; [done|]. intros p Hp. apply Hw3. intros ->. by apply Hp.
    + intros [= <- <-]. right. split; [done|]. intros p _. by rewrite Hw2, Hw1.
  - intros [= <- <-]. right. split; [done|]. intros p _. by rewrite Hw1.
  - intros [= <- <-]. right. split; [done|]. intros p _. by rewrite Hw1.
Qed.
End Signing.

(** ** What is published can be read back *)
Lemma ijson_set v k x : ijson v -> is_object v = true -> ijson x ->
  ijson (set_member v k x) /\ is_object (set_member v k x) = true.
Proof.
  intros Hv Ho Hx. destruct v; try done. inversion Hv; subst. split; [|done]. simpl.
  constructor; [by apply obj_insert_sorted|by apply obj_insert_forall].
Qed.
Lemma ijson_set_all l v : ijson v -> is_object v = true -> Forall (fun kv => ijson (snd kv)) l ->
  ijson (fold_left (fun p kv => set_member p (fst kv) (snd kv)) l v) /\
  is_object (fold_left (fun p kv => set_member p (fst kv) (snd kv)) l v) = true.
Proof.
  intros Hv Ho Hl. revert v Hv Ho. induction Hl as [|[k x] l Hx _ IH]; intros v Hv Ho; simpl; [done|].
  destruct (ijson_set v k x Hv Ho Hx) as [H1 H2]. by apply IH.
Qed.
Lemma derive_ijson p id ts kid md : ijson p -> is_object p = true -> 0 <= ts <= MAX_INTEGER ->
  ijson (derive p id ts kid md) /\ is_object (derive p id ts kid md) = true.
Proof.
  intros Hp Ho Ht. apply ijson_set_all; [done..|]. repeat constructor; simpl; unfold MAX_INTEGER in *; lia.
Qed.
Lemma derive_object p id ts kid md : is_object p = true -> is_object (derive p id ts kid md) = true.
Proof. unfold derive. cbn. by destruct p. Qed.
Lemma derive_published p id ts kid md : is_object p = true ->
  get (derive p id ts kid md) "published_at_ms" = Num ts.
Proof.
  intros Hp. assert (Hs : settable p = true) by (unfold settable; by rewrite Hp).
  unfold derive. cbn [fold_left fst snd].
  by rewrite !get_set_settable by (repeat apply settable_set; done).
Qed.
Lemma sign_policy_ok key p v : sign_policy key p = Ok v -> is_object p = true ->
  (exists sig, v = set_member p "relay_signature" (Str sig)) /\
  get v "published_at_ms" = get p "published_at_ms".
Proof.
  unfold sign_policy. destruct (sign_relay key p CTX_PRIVACY) as [u|e|] eqn:E; [|done..].
  intros [= <-] Hp. destruct p as [| | | | |l]; try done. split.
  - apply sign_relay_ok in E as (sig & -> & _). by exists sig.
  - by eapply sign_relay_get.
Qed.

Lemma parsed_ijson bytes v : parse bytes = Ok v -> ijson v.
Proof.
  unfold parse. intros Hv. res_inv Hv. destruct (serde_from_str bytes); simpl in *; [|done].
  by eapply strict_sound.
Qed.
Lemma accepted_u64 cfg time path lo hi : accepted cfg time ->
  (p ← path_schema privacy_schema privacy_schema path; integer_bounds privacy_schema p)
  = Some (lo, hi) ->
  exists z, as_u64 (at_ (privacy cfg) path) = Some z /\ lo <= z <= hi.
Proof.
  intros Ha Hb. destruct (path_schema _ _ _) as [p|] eqn:Hp; [|done].
  eapply accepts_integer, Hb. eapply accepts_path, Hp. apply (ac_schema _ _ Ha).
Qed.

(** The text of a document, as the strict parser and [serde_json] see it. *)
Definition reads_back (v : Value) (text : string) : Prop := exists r,
  arranged v r /\ json_document r (str_bytes text) /\ utf8_valid (str_bytes text) = true /\
  raw_depth r <= 32 /\ serde_from_str text = Some r.

Section Accepting.
Context (stdin : string).

Lemma prepared_ijson output q w cfg pk t :
  prepared schema_depth privacy_schema stdin output q w cfg pk t -> ijson (privacy cfg).
Proof.
  intros Hp. destruct (pr_policy _ _ _ _ _ _ _ _ _ Hp) as (bytes & p & id & ts & md & Hparse & Ho & Hts & Hs).
  destruct (pr_checked _ _ _ _ _ _ _ _ _ Hp) as (w0 & _ & w1 & Hn). apply new_ok in Hn as (Ha & _).
  destruct (sign_policy_ok _ _ _ Hs) as [[sig Hv] Hg]; [by apply derive_object|].
  rewrite derive_published in Hg by done.
  assert (Hb : exists z, as_u64 (Num ts) = Some z /\ 0 <= z <= MAX_INTEGER).
  { rewrite <-Hg. apply (accepted_u64 cfg _ ["published_at_ms"%string] _ _ Ha). by vm_compute. }
  destruct Hb as (z & Hz & Hr). simpl in Hz. repeat case_match; simplify_eq.
  destruct (derive_ijson p id z (hash_bytes (verifying_key (key cfg))) md) as [Hi Ho'].
  - by eapply parsed_ijson.
  - done.
  - done.
  - rewrite Hv. by apply ijson_set; [..|constructor].
Qed.
End Accepting.

(** ** Accepting what was signed *)
Lemma read_public_run p m b w : io_error (o_tick w) = None ->
  file_at (o_fs w) p = Some (m, b) -> str_len b <= MAX_DOCUMENT ->
  read_public p w = (Ok b, o_next (o_fs w) w).
Proof.
  intros Hio Hf Hl. unfold read_public, io. cbv [bind Op_monad]. rewrite Hio, Hf. simpl.
  unfold fail_if. by destruct (Z.ltb_spec MAX_DOCUMENT (str_len b)); [lia|].
Qed.
Lemma file_in fs p dir name : name <> "/"%string -> fs !! p = Some dir ->
  file_at fs (join p name) = d_files dir !! name.
Proof. intros Hn Hd. unfold file_at. rewrite split_path_join by done. simpl. by rewrite Hd. Qed.
Lemma new_notice fuel k md v mb w cfg w' :
  new fuel privacy_schema k md v mb w = (Ok cfg, w') -> str_len md <= MAX_DOCUMENT.
Proof.
  unfold new. intros (u & w1 & [Hd _]%M_lift_ok & _)%M_bind_ok.
  by apply check_document_ok in Hd as [? _].
Qed.

(** From effect [k] on no call of the system fails. *)
Definition sound_from (k : nat) : Prop := forall j, (k <= j)%nat -> io_error j = None.

Lemma published_files md v pk :
  d_files (published md v pk) !! "privacy.md"%string = Some (420, md) /\
  d_files (published md v pk) !! "privacy.json"%string = Some (420, to_vec_pretty v).
Proof. unfold published. simpl. by simplify_map_eq. Qed.
Lemma verify_run stdin output qt q v md pk cfg w :
  (forall w2, (o_tick w <= tick w2)%nat -> exists w3,
     new schema_depth privacy_schema (key cfg) md v q w2 = (Ok cfg, w3)) ->
  seed_key stdin = Ok (key cfg) -> quota_of qt = Ok q ->
  parse (to_vec_pretty v) = Ok v -> str_len (to_vec_pretty v) <= MAX_DOCUMENT ->
  str_len md <= MAX_DOCUMENT -> o_fs w !! output = Some (published md v pk) ->
  sound_from (o_tick w) ->
  exists w', verify schema_depth privacy_schema stdin output qt w = (Ok tt, w').
Proof.
  intros Hn Hk Hq Hp Hj Hmd Hd Hio. unfold verify, key_from_stdin, io_text, o_pure.
  cbv [bind Op_monad]. rewrite (Hio (o_tick w)), Hk by lia.
  set (w1 := o_next (o_fs w) w).
  assert (Ht : o_tick w1 = S (o_tick w)) by done.
  assert (Hf : forall name, name <> "/"%string -> file_at (o_fs w1) (join output name)
    = d_files (published md v pk) !! name) by (intros; by apply file_in).
  destruct (published_files md v pk) as [Hm Hv].
  rewrite (read_public_run _ 420 (to_vec_pretty v)); [|by apply Hio; lia|by rewrite Hf|done].
  rewrite Hp. set (w2 := o_next (o_fs w1) w1).
  assert (Ht2 : o_tick w2 = S (S (o_tick w))) by done.
  rewrite (read_public_run _ 420 md); [|by apply Hio; lia| |done].
  2: by rewrite <-Hm, <-(Hf "privacy.md"%string).
  rewrite Hq. unfold validate, on_relay, on_store, on_v3.
  destruct (Hn (v3 (o_store (o_next (o_fs w2) w2)))) as (w3 & E).
  { change (o_tick w <= S (o_tick w2))%nat. lia. }
  rewrite E. by eexists.
Qed.

(** An environment that starts a relay with a policy, and no notices. *)
Record env_for (env : string -> option string) (read : string -> string + string)
    (stdin md json : string) (q : option Z) : Prop := {
  ev_seed : env "PALLASYNC_RELAY_SIGNING_SEED"%string
            = Some (trim_end (String.substring 0 65 stdin));
  ev_notice : (read <$> env "PALLASYNC_PRIVACY_MARKDOWN"%string) = Some (inr md);
  ev_policy : (read <$> env "PALLASYNC_PRIVACY_JSON"%string) = Some (inr json);
  ev_quota : env_u64 (env "PALLASYNC_QUOTA_BYTES"%string) "Invalid quota" = Ok q;
  ev_shutdown : env "PALLASYNC_SHUTDOWN_AT_MS"%string = None;
  ev_migration : env "PALLASYNC_MIGRATION_ORIGIN"%string = None;
  ev_stop : env "PALLASYNC_STOP_WRITES"%string = None;
}.
Lemma seed_inputs stdin k : seed_key stdin = Ok k -> exists b,
  decode (trim_end (String.substring 0 65 stdin)) (Some 32) = Some b /\ key_from_seed b = k.
Proof. unfold seed_key. intros H. res_inv H. eauto. Qed.
Lemma from_env_run env read stdin q v md cfg w w1 json :
  env_for env read stdin md json q -> seed_key stdin = Ok (key cfg) -> parse json = Ok v ->
  new schema_depth privacy_schema (key cfg) md v q w = (Ok cfg, w1) ->
  exists cfg', from_env env read schema_depth privacy_schema w = (Ok cfg', w1) /\
    key cfg' = key cfg /\ privacy cfg' = v /\ markdown cfg' = md.
Proof.
  intros [H1 H2 H3 H4 H5 H6 H7] (b & Hb & Hk)%seed_inputs Hp Hn.
  destruct (new_again _ _ _ _ _ _ _ _ _ Hn) as (_ & Hv & Hmd & _).
  assert (Hi : from_env_inputs env read = Ok (key cfg, md, v, q)).
  { unfold from_env_inputs, read_file. rewrite H1. simpl. rewrite res_bind_Ok, Hb. simpl.
    rewrite res_bind_Ok. destruct (env "PALLASYNC_PRIVACY_MARKDOWN"%string); [|done].
    simpl in H2. injection H2 as H2. cbn [ok_or ret res_monad]. rewrite res_bind_Ok, H2.
    cbn [ret res_monad]. rewrite res_bind_Ok.
    destruct (env "PALLASYNC_PRIVACY_JSON"%string); [|done].
    simpl in H3. injection H3 as H3. cbn [ok_or ret res_monad]. rewrite res_bind_Ok, H3.
    cbn [ret res_monad]. rewrite res_bind_Ok.
    by rewrite Hp, res_bind_Ok, H4, res_bind_Ok, Hk. }
  unfold from_env. rewrite Hi, Hn. unfold from_env_notices. rewrite H5, H6, H7. simpl.
  eexists. split; [reflexivity|]. done.
Qed.

(** ** The commands *)
Definition same_files (w w' : OWorld) : Prop := o_fs w' = o_fs w.
#[local] Instance same_files_preorder : PreOrder same_files.
Proof. split; [done|]. unfold same_files. intros ???. congruence. Qed.
Lemma reads_same {A} (m : Op A) : o_respects reads m -> o_respects same_files m.
Proof. intros H w r w' E. by apply H in E as [_ ?]. Qed.
Hint Resolve reads_same : o_respects.
Lemma retain_same input : o_respects same_files (retain_legacy input).
Proof.
  unfold retain_legacy. or_tac. intros w r w'. unfold on_store.
  destruct (retain_parameters x (o_store w)). by intros [= _ <-].
Qed.
Lemma verify_same fuel schema stdin p q : o_respects same_files (verify fuel schema stdin p q).
Proof. unfold verify. or_tac. Qed.

Lemma run_cases fuel schema stdin args w r w' :
  Operator.run fuel schema stdin args w = (r, w') ->
  o_fs w' = o_fs w \/ exists draft output q,
    sign fuel schema stdin draft output q w = (r, w').
Proof.
  intros H. unfold Operator.run in H.
  destruct args as [|command [|x [|y [|z [|u l]]]]]; try (left; by injection H as _ <-).
  - destruct (String.eqb command _); [left; by apply retain_same in H|].
    destruct (String.eqb command _); [left; by apply verify_same in H|left; by injection H as _ <-].
  - destruct (String.eqb command _); [|left; by injection H as _ <-].
    cbv [bind Op_monad o_pure] in H.
    destruct (quota_of z) as [q|e|]; [right; eauto|left; by injection H as _ <-..].
Qed.


(** (C37) What the operator signs, the relay accepts: when [sign] succeeds, the policy
    directory holds exactly the notice, the disclosure that it signed and the public
    key; and from then on, if the clock does not run backwards and the disclosure's
    text reads back, [verify] with the same seed and quota accepts the directory as
    long as the text fits into 1 MiB, and a relay whose environment names the files,
    the seed and the quota starts with this very disclosure. *)
Theorem signed_policy_accepted stdin draft output qt q cfg pk t w w0 w' :
  (forall j k, (j <= k)%nat -> clock j <= clock k) -> quota_of qt = Ok q ->
  prepare schema_depth privacy_schema stdin (path_new draft) (path_new output) q w
    = (Ok (cfg, pk, t), w0) ->
  Operator.run schema_depth privacy_schema stdin ["sign"%string; draft; output; qt] w
    = (Ok tt, w') ->
  reads_back (privacy cfg) (to_vec_pretty (privacy cfg)) ->
  o_fs w' !! path_new output
    = Some (published (markdown cfg) (privacy cfg) (b64_encode (verifying_key (key cfg)))) /\
  forall later_w, (o_tick w' <= o_tick later_w)%nat ->
  (o_fs later_w !! path_new output = o_fs w' !! path_new output ->
   sound_from (o_tick later_w) -> str_len (to_vec_pretty (privacy cfg)) <= MAX_DOCUMENT ->
   exists w2, Operator.run schema_depth privacy_schema stdin ["verify"%string; output; qt] later_w
     = (Ok tt, w2)) /\
  (forall env read, env_for env read stdin (markdown cfg) (to_vec_pretty (privacy cfg)) q ->
   exists cfg' w2, from_env env read schema_depth privacy_schema (v3 (o_store later_w))
     = (Ok cfg', w2) /\
     key cfg' = key cfg /\ privacy cfg' = privacy cfg /\ markdown cfg' = markdown cfg).
Proof.
  intros Hclock Eq Hp H (r & Ha & Hdoc & Hu & Hr & Hs).
  cbv [Operator.run bind Op_monad o_pure] in H. simpl in H. rewrite Eq in H.
  apply sign_cases in H as [(_ & _ & cfg0 & pk0 & t0 & w4 & Hp0 & Hf & Ht)|[H _]]; [|done].
  rewrite Hp in Hp0. injection Hp0 as <- <- <- <-.
  apply prepare_ok in Hp. pose proof (prepared_ijson _ _ _ _ _ _ _ Hp) as Hi.
  destruct Hp as [Hkey -> Hq _ (w1 & Ht1 & w2 & Hn) _].
  split; [by rewrite Hf, lookup_insert_eq|]. intros lw Hlw.
  assert (Hparse : parse (to_vec_pretty (privacy cfg)) = Ok (privacy cfg))
    by (by eapply parse_document).
  assert (Hagain : forall w4, (o_tick lw <= tick w4)%nat -> exists w3,
    new schema_depth privacy_schema (key cfg) (markdown cfg) (privacy cfg) q w4 = (Ok cfg, w3)).
  { intros w4 Hw4. apply (new_again _ _ _ _ _ _ _ _ _ Hn).
    unfold later, o_tick in *. pose proof (Hclock (tick (v3 (o_store w1))) (tick w4)). lia. }
  split.
  - intros Hd Hio Hl. rewrite Hf, lookup_insert_eq in Hd. eapply verify_run; try done.
    by eapply new_notice.
  - intros env read He. destruct (Hagain (v3 (o_store lw))) as [w3 Hw3]; [unfold o_tick; lia|].
    destruct (from_env_run _ _ _ _ _ _ _ _ _ _ He Hkey Hparse Hw3) as (cfg' & ? & ? & ? & ?).
    by exists cfg', w3.
Qed.
End OperatorSpec.
