(* ===== verification/Scenario.v ===== *)
(** * A concrete environment

    An instance of [Ext] by executable functions that satisfies [ExtLaws], a
    deterministic [Oracle], a relay configuration and a signed chain.  The theorems
    are instantiated here: base16 stands for base64url, a polynomial hash for SHA-256,
    and a keyed hash for Ed25519. *)
From S2P Require Import Prelude Error Json Verify Jcs Wire Query Routes Db Monad Config.
From S2P Require Import Store HashChain Steps Auth Domain Mutation Sync.

(** ** Base16 in place of base64url *)
Definition nibble (i : Z) : ascii :=
  ascii_of_Z (if i <? 10 then 48 + i else 87 + i).
Definition nibble_val (c : ascii) : option Z :=
  let b := byte_of c in
  if (48 <=? b) && (b <=? 57) then Some (b - 48)
  else if (97 <=? b) && (b <=? 102) then Some (b - 87) else None.
Fixpoint hex_encode (x : string) : string :=
  match x with
  | EmptyString => EmptyString
  | String c x => String (nibble (byte_of c / 16)) (String (nibble (byte_of c mod 16)) (hex_encode x))
  end.
Fixpoint hex_decode (x : string) : option string :=
  match x with
  | EmptyString => Some EmptyString
  | String c (String d x) =>
      i ← nibble_val c; j ← nibble_val d; y ← hex_decode x;
      Some (String (ascii_of_Z (16 * i + j)) y)
  | _ => None
  end.

(** Text for bytes: the length in binary, then the digits without trailing zeros. *)
Fixpoint pos_text (p : positive) (rest : string) : string :=
  match p with
  | xH => String "h" rest
  | xO p => String "0" (pos_text p rest)
  | xI p => String "1" (pos_text p rest)
  end.
Definition length_text (k : N) (rest : string) : string :=
  match k with N0 => String "z" rest | Npos p => pos_text p rest end.
Fixpoint read_pos (x : string) : option (positive * string) :=
  match x with
  | EmptyString => None
  | String c x =>
      if Ascii.eqb c "h" then Some (xH, x)
      else if Ascii.eqb c "0" then '(p, y) ← read_pos x; Some (xO p, y)
      else if Ascii.eqb c "1" then '(p, y) ← read_pos x; Some (xI p, y)
      else None
  end.
Definition read_length (x : string) : option (N * string) :=
  match x with
  | String "z" rest => Some (0%N, rest)
  | _ => '(p, y) ← read_pos x; Some (Npos p, y)
  end.
Fixpoint strip (x : string) : string :=
  match x with
  | EmptyString => EmptyString
  | String c x =>
      match strip x with
      | EmptyString => if Ascii.eqb c nul then EmptyString else String c EmptyString
      | y => String c y
      end
  end.
Fixpoint pad (k : nat) (x : string) : string :=
  match k, x with
  | O, _ => x
  | S k, EmptyString => String nul (pad k EmptyString)
  | S k, String c x => String c (pad k x)
  end.
Definition encode (x : string) : string :=
  length_text (N.of_nat (String.length x)) (hex_encode (strip x)).
Definition decode_text (x : string) : option string :=
  '(k, y) ← read_length x; y ← hex_decode y; Some (pad (N.to_nat k) y).

(** ** A hash of 32 bytes *)
Fixpoint bytes_of (k : nat) (z : Z) : string :=
  match k with
  | O => EmptyString
  | S k => if z =? 0 then pad (S k) EmptyString
           else String (ascii_of_Z (z mod 256)) (bytes_of k (z / 256))
  end.
Fixpoint hash_loop (h : Z) (x : string) : Z :=
  match x with
  | EmptyString => h
  | String c x => hash_loop (Z.land (3 * h + byte_of c) 16777215) x
  end.
Definition poly_hash (x : string) : string := bytes_of 32 (hash_loop 5381 x).

(** ** Printing and reading JSON *)
Definition quote : string := String (ascii_of_Z 34) EmptyString.
Definition quoted (x : string) : string := quote +:+ x +:+ quote.
Fixpoint print (v : Value) : string :=
  match v with
  | Null => "null"
  | Bool b => if b then "true" else "false"
  | Num z => dec z
  | Str x => quoted x
  | Arr l => "[" +:+ String.concat "," (map print l) +:+ "]"
  | Obj l => "{" +:+ String.concat ","
               (map (fun kv => quoted (fst kv) +:+ ":" +:+ print (snd kv)) l) +:+ "}"
  end%string.

(** Compact JSON without escapes. *)
Fixpoint read_string (acc x : string) : option (string * string) :=
  match x with
  | EmptyString => None
  | String c x => if byte_of c =? 34 then Some (String.rev acc, x)
                  else read_string (String c acc) x
  end.
Fixpoint read_number (acc : N) (x : string) : N * string :=
  match x with
  | String c y => if is_digit c then read_number (10 * acc + Z.to_N (byte_of c - 48)) y
                  else (acc, x)
  | EmptyString => (acc, x)
  end%N.
Definition eat (c : ascii) (x : string) : option string :=
  match x with
  | String d x => if Ascii.eqb c d then Some x else None
  | EmptyString => None
  end.
Fixpoint read_value (fuel : nat) (x : string) : option (Raw * string) :=
  match fuel with
  | O => None
  | S fuel =>
      let items := fix items (k : nat) (x : string) : option (list Raw * string) :=
        match k with
        | O => None
        | S k =>
            '(v, x) ← read_value fuel x;
            match eat "," x with
            | Some x => '(vs, x) ← items k x; Some (v :: vs, x)
            | None => x ← eat "]" x; Some ([v], x)
            end
        end in
      let members := fix members (k : nat) (x : string)
          : option (list (string * Raw) * string) :=
        match k with
        | O => None
        | S k =>
            x ← eat (ascii_of_Z 34) x;
            '(name, x) ← read_string EmptyString x;
            x ← eat ":" x;
            '(v, x) ← read_value fuel x;
            match eat "," x with
            | Some x => '(vs, x) ← members k x; Some ((name, v) :: vs, x)
            | None => x ← eat "}" x; Some ([(name, v)], x)
            end
        end in
      match x with
      | EmptyString => None
      | String c y =>
          if Ascii.eqb c "{" then
            match eat "}" y with
            | Some y => Some (RObj [], y)
            | None => '(l, y) ← members fuel y; Some (RObj l, y)
            end
          else if Ascii.eqb c "[" then
            match eat "]" y with
            | Some y => Some (RArr [], y)
            | None => '(l, y) ← items fuel y; Some (RArr l, y)
            end
          else if byte_of c =? 34 then
            '(t, y) ← read_string EmptyString y; Some (RStr t, y)
          else if is_digit c then let '(k, y) := read_number 0 x in Some (RU64 k, y)
          else match strip_prefix "null" x with
          | Some y => Some (RNull, y)
          | None =>
              match strip_prefix "true" x with
              | Some y => Some (RBool true, y)
              | None => y ← strip_prefix "false" x; Some (RBool false, y)
              end
          end
      end
  end.
Definition read (x : string) : option Raw :=
  '(v, rest) ← read_value 40 x;
  if String.eqb rest EmptyString then Some v else None.

(** ** UUIDs in their canonical text *)
Definition undash (x : string) : string :=
  String.substring 0 8 x +:+ String.substring 9 4 x +:+ String.substring 14 4 x
    +:+ String.substring 19 4 x +:+ String.substring 24 12 x.
Definition dashed (x : string) : string :=
  String.substring 0 8 x +:+ "-" +:+ String.substring 8 4 x +:+ "-"
    +:+ String.substring 12 4 x +:+ "-" +:+ String.substring 16 4 x +:+ "-"
    +:+ String.substring 20 12 x.
Definition read_uuid (x : string) : option Uuid :=
  bytes ← hex_decode (undash x);
  if negb (String.eqb (dashed (undash x)) x) || negb (str_len bytes =? 16) then None
  else Some (MkUuid (nth 6 (str_bytes bytes) 0 / 16)
                    (bool_decide (nth 8 (str_bytes bytes) 0 / 64 = 2)) bytes x).
(** The [k]-th identifier: version 4, RFC 4122. *)
Definition uuid_at (k : Z) : string :=
  dashed (hex_encode (bytes_of 6 k) +:+ "40008000" +:+ hex_encode (bytes_of 6 0)).

(** ** The instance *)
Definition seal (key message : string) : string := bytes_of 64 (hash_loop 7 (key +:+ message)).

#[export] Instance toy_ext : Ext := {|
  b64_encode := encode; b64_decode := decode_text; sha256 := poly_hash;
  jcs_to_vec := print; serde_from_str := read;
  EdPoint := string; ed_decompress := Some; ed_compress x := x;
  ed_is_identity _ := false; ed_is_torsion_free _ := true;
  scalar_from_canonical _ := true; mont_mul_clamped x _ := x;
  SigningKey := string; verifying_key x := x; ed_sign := seal;
  verifying_key_from_bytes _ := true;
  ed_verify_strict k m t := String.eqb (seal k m) t;
  nfc x := x; uuid_parse := read_uuid |}.

Lemma hex_step c :
  (i ← nibble_val (nibble (byte_of c / 16)); j ← nibble_val (nibble (byte_of c mod 16));
   Some (ascii_of_Z (16 * i + j))) = Some c.
Proof. by destruct c as [[] [] [] [] [] [] [] []]. Qed.

Lemma hex_digits c :
  (let ok c := is_alnum c || Ascii.eqb c "-" || Ascii.eqb c "_" in
   ok (nibble (byte_of c / 16)) && ok (nibble (byte_of c mod 16))) = true.
Proof. by destruct c as [[] [] [] [] [] [] [] []]. Qed.

Lemma hex_decode_encode x : hex_decode (hex_encode x) = Some x.
Proof.
  induction x as [|c x IH]; [done|]. cbn [hex_encode hex_decode].
  pose proof (hex_step c) as Hc. rewrite IH.
  destruct (nibble_val (nibble (byte_of c / 16))) as [i|]; [|by simplify_eq/=].
  destruct (nibble_val (nibble (byte_of c mod 16))) as [j|]; [|by simplify_eq/=].
  simpl in *. by injection Hc as ->.
Qed.

Lemma read_pos_text p rest : read_pos (pos_text p rest) = Some (p, rest).
Proof. induction p as [p IH|p IH|]; cbn; by rewrite ?IH. Qed.
Lemma read_length_text k rest : read_length (length_text k rest) = Some (k, rest).
Proof.
  destruct k as [|p]; [done|]. cbn [length_text]. unfold read_length.
  pose proof (read_pos_text p rest) as H. by destruct p; cbn [pos_text] in *; rewrite H.
Qed.

Lemma pad_strip x : pad (String.length x) (strip x) = x.
Proof.
  induction x as [|c x IH]; [done|]. cbn [String.length strip].
  destruct (strip x) as [|d y]; [|cbn [pad]; by rewrite IH].
  destruct (Ascii.eqb_spec c nul) as [->|]; cbn [pad]; by rewrite IH.
Qed.
Lemma pad_length k : String.length (pad k EmptyString) = k.
Proof. induction k as [|k IH]; cbn; by rewrite ?IH. Qed.
Lemma bytes_of_length k z : String.length (bytes_of k z) = k.
Proof.
  revert z. induction k as [|k IH]; intros z; cbn [bytes_of]; [done|].
  destruct (z =? 0); [apply pad_length|]. cbn [String.length]. by rewrite IH.
Qed.

#[export] Instance toy_laws : ExtLaws toy_ext.
Proof.
  split; cbn [b64_encode b64_decode sha256 toy_ext].
  - intros x. unfold decode_text, encode. rewrite read_length_text. cbn.
    rewrite hex_decode_encode. cbn. by rewrite Nat2N.id, pad_strip.
  - intros x. unfold encode. assert (H : str_forallb (fun c => is_alnum c || Ascii.eqb c "-"
      || Ascii.eqb c "_") (hex_encode (strip x)) = true).
    { induction (strip x) as [|c y IH]; [done|]. cbn [hex_encode str_forallb].
      pose proof (hex_digits c) as Hc. cbv zeta in Hc. by apply andb_true_iff in Hc as [-> ->]. }
    destruct (N.of_nat _) as [|p]; [exact H|]. cbn [length_text].
    induction p as [p IH|p IH|]; cbn [pos_text str_forallb]; [exact IH..|exact H].
  - intros x. unfold str_len, poly_hash. by rewrite (bytes_of_length 32).
Qed.

(** ** The relay *)

(** The clock advances by a millisecond per effect; no statement fails. *)
Definition start_ms : Z := 1700000000000.
#[export] Instance toy_oracle : Oracle := {|
  clock k := start_ms + Z.of_nat k; new_uuid k := uuid_at (1000 + Z.of_nat k);
  sql_fails _ := false; wal_busy _ := false |}.

Definition bytes32 (k : Z) : string := bytes_of 32 k.
Definition text32 (k : Z) : string := encode (bytes32 k).
Definition relay_key : string := bytes32 77.

Local Open Scope string_scope.
Definition bucket (burst rpm : Z) : Value :=
  json [("burst", Num burst); ("requests_per_minute", Num rpm)].
Definition disclosure : Value :=
  json [("revision", Num 1);
        ("limits", json [("max_request_bytes", Num 1000000); ("max_devices", Num 8);
                         ("max_records_per_upload", Num 10); ("page_limit", Num 2)]);
        ("rate_limits", json [("authorized_signer", bucket 10 60);
                              ("public_document_ip", bucket 10 60);
                              ("record_upload_device", bucket 10 60);
                              ("enrollment_source_ip", bucket 10 60);
                              ("enrollment_offer", bucket 10 60)]);
        ("replay_protection", json [("mode", Str "persistent")]);
        ("deletion", json [("active_delete_max_ms", Num 60000)])].
Definition relay : RelayConfig :=
  MkConfig relay_key "https://relay.example" (hash_bytes relay_key) disclosure "# Privacy"
    (Some 1000000) None None false.

(** ** Signed documents *)
Definition admin_key : string := bytes32 5.
Definition signed_by (key : string) (context : string) (l : list (string * Value)) : Value :=
  set_member (json l) "signature"
    (Str (encode (seal key (context +:+ print (json l))))).
Definition the_chain : string := text32 9.
Definition phone : string := uuid_at 1.
Definition tablet : string := uuid_at 2.
Definition device_key (id : string) : string := poly_hash id.
Definition kex_key (id : string) : string := bytes_of 32 (Z.of_nat (String.length id) + 11).
Definition text_of (k : nat) : string := encode (bytes_of k 3).

Definition parameters_doc : Value := signed_by admin_key CTX_PARAMETERS
  [("version", Str "3.0"); ("chain_id", Str the_chain);
   ("admin_public_key", Str (encode admin_key)); ("generation", Num 0);
   ("previous_parameters_hash", Null);
   ("policy", json [("metadata_profile", Str "private");
      ("allow_device_chain_delete", Bool true); ("allow_peer_enrollment", Bool true);
      ("allow_device_rotation", Bool true); ("epoch_retention", Str "retain");
      ("epoch_window_ms", Num 3600000); ("scheduled_rotation_ms", Num 0)])].

Definition enrollment_doc (id : string) : Value := signed_by admin_key CTX_ENROLLMENT
  [("chain_id", Str the_chain); ("generation", Num 0); ("certificate_id", Str id);
   ("device_id", Str id); ("device_public_key", Str (encode (device_key id)));
   ("device_kex_public_key", Str (encode (kex_key id))); ("signer_kind", Str "admin");
   ("signer_device_id", Null); ("request_hash", Null); ("approved_at_ms", Num start_ms)].
Definition device_doc (id : string) (meta_epoch : Z) : Value :=
  signed_by (device_key id) CTX_DEVICE_RECORD
  [("version", Str "3.0"); ("chain_id", Str the_chain); ("generation", Num 0);
   ("device_id", Str id); ("device_public_key", Str (encode (device_key id)));
   ("device_kex_public_key", Str (encode (kex_key id))); ("meta_epoch", Num meta_epoch);
   ("meta_nonce", Str (text_of 24)); ("encrypted_device_meta", Str (text_of 1040));
   ("enrollment", enrollment_doc id)].

Definition envelope_doc (id : string) (number : Z) (previous : Value)
    (recipient : option string) : Value :=
  signed_by admin_key CTX_ENVELOPE
  [("envelope_id", Str id); ("chain_id", Str the_chain); ("generation", Num 0);
   ("epoch", Num number); ("previous_epoch_hash", previous);
   ("epoch_commitment", Str (text32 (100 + number)));
   ("recipient_kind", Str (match recipient with Some _ => "device" | None => "recovery" end));
   ("recipient_device_id", opt_str recipient);
   ("recipient_key_hash", opt_str ((fun i => hash_bytes (kex_key i)) <$> recipient));
   ("signer_kind", Str "admin"); ("signer_device_id", Null);
   ("enc", match recipient with Some _ => Str (text32 21) | None => Null end);
   ("nonce", match recipient with Some _ => Null | None => Str (text_of 24) end);
   ("ciphertext", Str (text_of 48))].
Definition epoch_doc (number : Z) (previous : Value) (reason recovery : string)
    (members revoked : list string) : Value := signed_by admin_key CTX_EPOCH
  [("chain_id", Str the_chain); ("generation", Num 0); ("epoch", Num number);
   ("previous_epoch_hash", previous); ("epoch_commitment", Str (text32 (100 + number)));
   ("reason", Str reason); ("signer_kind", Str "admin"); ("signer_device_id", Null);
   ("members", Arr (Str <$> members)); ("revoked_device_ids", Arr (Str <$> revoked));
   ("recovery_envelope_hash", Str recovery)].

(** An epoch for [members] with its envelopes. *)
Definition epoch_bundle (number base : Z) (previous : Value) (reason : string)
    (members revoked : list string) : Value * list Value :=
  let recovery := envelope_doc (uuid_at base) number previous None in
  (epoch_doc number previous reason (object_hash recovery) members revoked,
   recovery :: imap (fun i m =>
     envelope_doc (uuid_at (base + 1 + Z.of_nat i)) number previous (Some m)) members).

Definition genesis_doc : Value :=
  let '(e, envelopes) := epoch_bundle 0 10 Null "genesis" [phone] [] in
  json [("parameters", parameters_doc); ("device_record", device_doc phone 0);
        ("epoch", e); ("envelopes", Arr envelopes)].

(** ** Requests *)
Definition token_doc (key : string) (device : option string) (rq_method rq_path : string)
    (body nonce : string) : Value := signed_by key CTX_CAPABILITY
  [("v", Num 3); ("aud", Str "https://relay.example"); ("chain_id", Str the_chain);
   ("signer_kind", Str (match device with Some _ => "device" | None => "admin" end));
   ("device_id", opt_str device); ("method", Str rq_method); ("path", Str rq_path);
   ("query", Str EmptyString); ("body_sha256", Str (hash_bytes body));
   ("issued_at_ms", Num start_ms); ("expires_at_ms", Num (start_ms + 300000)%Z);
   ("nonce", Str nonce)].
Definition request_of (key : string) (device : option string) (m p body : string)
    (nonce : Z) : Request :=
  MkRequest m p None
    (Some (Some ("PallaSync " +:+ encode (print (token_doc key device m p body
       (encode (bytes_of 16 nonce)))))))
    (Some (Some VENDOR_MEDIA_TYPE)) None "192.0.2.1" false body true.
Definition mime_of (x : string) : option (string * option string) := Some (x, None).

Definition genesis_request : Request :=
  request_of admin_key None "POST" "/pallasync/v3/chains" (print genesis_doc) 1.
Definition world0 : World := MkWorld empty_db 0.
Definition world1 : World := snd (handle mime_of relay genesis_request world0).
