(* ===== verification/Witnesses.v ===== *)
(** * The theorems at work

    Each property with hypotheses is applied to a concrete run of the relay in the
    environment of [Scenario]. *)
From S2P Require Import Prelude Error Json Verify Jcs Wire Query Routes Db Monad Config.
From S2P Require Import Store HashChain Steps StoreFacts StoreSpec Auth AuthFacts.
From S2P Require Import Domain Retention Mutation Deletion Batch Import Read Export.
From S2P Require Import Sync HandlerFacts BatchFacts ChainInv EpochSpec ServiceFacts.
From S2P Require Import ServiceInv ServiceSpec History LogSpec HistorySpec Scenario.

Definition is_ok {A} (r : Result A) : bool := match r with Ok _ => true | _ => false end.
Lemma run_ok {A} (p : Result A * World) :
  is_ok (fst p) = true -> exists x w', p = (Ok x, w').
Proof. destruct p as [[x|e|] w']; [eauto|done..]. Qed.
Definition present {A} (o : option A) : bool := match o with Some _ => true | None => false end.
Lemma present_some {A} (o : option A) : present o = true -> exists x, o = Some x.
Proof. destruct o; [eauto | done]. Qed.

(** Several runs evaluated in one conversion, which shares their common prefix. *)
Lemma all2 (b c : bool) : b && c = true -> b = true /\ c = true.
Proof. apply andb_true_iff. Qed.
Lemma all3 (b c d : bool) : b && (c && d) = true -> b = true /\ c = true /\ d = true.
Proof. by intros [? [? ?]%andb_true_iff]%andb_true_iff. Qed.
Lemma all4 (b c d e : bool) :
  b && (c && (d && e)) = true -> b = true /\ c = true /\ d = true /\ e = true.
Proof. by intros [? (? & ? & ?)%all3]%andb_true_iff. Qed.

(** ** The chain after its genesis *)
Definition no_chain : Chain :=
  MkChain EmptyString Null Null EmptyString 0 EmptyString 0 None EmptyString 0 EmptyString
    false EmptyString.
Definition chain1 : Chain := default no_chain (t_chains (db world1) !! the_chain).

Lemma world1_live :
  negb (present (t_deletions (db world1) !! the_chain))
  && present (t_chains (db world1) !! the_chain) = true.
Proof. vm_compute. reflexivity. Qed.

Lemma handle_service rq w :
  ready relay (db w) -> service_ok relay (db (snd (handle mime_of relay rq w))).
Proof.
  intros Hr. destruct (handle mime_of relay rq w) as [r w'] eqn:E.
  apply (handle_ok mime_of relay rq w r w' Hr E).
Qed.

Lemma empty_ready : ready relay (db world0).
Proof. split; [apply empty_service_ok|]. by intros x row. Qed.

Lemma world1_service : service_ok relay (db world1).
Proof. exact (handle_service genesis_request world0 empty_ready). Qed.

Lemma world1_run : exists r, handle mime_of relay genesis_request world0 = (r, world1).
Proof.
  exists (fst (handle mime_of relay genesis_request world0)). unfold world1.
  destruct (handle _ _ _ _). reflexivity.
Qed.

#[global] Opaque world1.

Lemma chain1_ok :
  t_deletions (db world1) !! the_chain = None /\
  t_chains (db world1) !! the_chain = Some chain1 /\ chain_ok relay (db world1) chain1.
Proof.
  pose proof world1_live as H. unfold chain1.
  destruct (t_deletions (db world1) !! the_chain) eqn:Hd; [discriminate H|].
  destruct (t_chains (db world1) !! the_chain) as [c|] eqn:Hc; [|discriminate H].
  split_and!; [reflexivity..|].
  apply (service_ok_load relay _ the_chain c world1_service Hd Hc).
Qed.

(** ** Documents of the chain *)
Definition record_doc (id : string) (nonce : Z) : Value :=
  signed_by (device_key phone) CTX_SYNC_RECORD
  [("version", Str "3.0"); ("chain_id", Str the_chain); ("generation", Num 0);
   ("record_id", Str id); ("device_id", Str phone); ("epoch", Num 0);
   ("collection_tag", Null); ("payload_nonce", Str (encode (bytes_of 24 nonce)));
   ("encrypted_payload", Str (text_of 1040))]%string.
Definition record1 : Value := record_doc (uuid_at 50) 1.
Definition record2 : Value := record_doc (uuid_at 50) 2.
#[local] Abbreviation record_run := (append chain1 relay KRecord record1 world1) (only parsing).

Lemma record_run_ok : is_ok (fst record_run) = true.
Proof. vm_compute. reflexivity. Qed.
Lemma record_fresh :
  present (t_objects (db world1) !! (chain_id chain1, KRecord, object_id record1 KRecord))
  = false.
Proof. vm_compute. reflexivity. Qed.

Lemma append_accepts_witness : exists c' entry r w',
  record_run = (Ok (c', (entry, r)), w') /\
  head_seq c' = head_seq chain1 + 1 /\ chain_ok relay (db w') c'.
Proof.
  destruct (run_ok record_run record_run_ok) as ([c' [entry r]] & w' & E).
  exists c', entry, r, w'.
  destruct (append_accepts relay chain1 KRecord record1 world1 c' entry r w') as (Hc & Hs & _).
  - apply chain1_ok.
  - intros [[o Ho] _]. pose proof record_fresh as Hf. by rewrite Ho in Hf.
  - exact E.
  - exact (conj E (conj Hs Hc)).
Defined.


Lemma append_no_panic_witness : fst (append chain1 relay KRecord record1 world1) <> Panic.
Proof.
  exact (append_no_panic chain1 relay KRecord record1 world1 (proj2 (proj2 chain1_ok))).
Defined.

(** ** Retries and conflicts on the accepted record *)
Definition world2 : World := snd record_run.
#[local] Abbreviation record_key :=
  (chain_id chain1, KRecord, object_id record1 KRecord) (only parsing).
Definition record_receipt : Value :=
  default Null (rc_receipt <$> t_receipts (db world2) !! record_key).
Definition record_entry : string * string * Z :=
  (chain_id chain1, s record_receipt "log_id", n record_receipt "relay_seq").

Lemma world2_rows :
  bool_decide (o_hash <$> t_objects (db world2) !! record_key = Some (object_hash record1))
    = true /\
  present (t_receipts (db world2) !! record_key) = true /\
  present (t_log (db world2) !! record_entry) = true /\
  negb (String.eqb (object_hash record1) (object_hash record2)) = true.
Proof. apply all4. vm_compute. reflexivity. Qed.
Lemma record_ids : object_id record2 KRecord = object_id record1 KRecord.
Proof. vm_compute. reflexivity. Qed.
#[global] Opaque world2 record1 record2.

Lemma record_receipt_row :
  exists r, t_receipts (db world2) !! record_key = Some r /\ rc_receipt r = record_receipt.
Proof.
  destruct world2_rows as (_ & H & _). apply present_some in H as [r H].
  exists r. unfold record_receipt. rewrite H. split; reflexivity.
Qed.

Lemma append_retry_witness : exists r w',
  append chain1 relay KRecord record1 world2 = (r, w') /\ db w' = db world2.
Proof.
  destruct world2_rows as (Ho & _ & Hl & _).
  apply bool_decide_eq_true, fmap_Some in Ho as (orow & Ho & Hh).
  destruct record_receipt_row as (rrow & Hr & Hrr).
  apply present_some in Hl as [lrow Hl]. unfold record_entry in Hl. rewrite <-Hrr in Hl.
  destruct (append_retry chain1 relay KRecord record1 world2 orow rrow lrow
    Ho (eq_sym Hh) Hr Hl) as (r & w' & E & Hd & _).
  exists r, w'. exact (conj E Hd).
Defined.

Lemma append_conflict_witness : exists e w',
  append chain1 relay KRecord record2 world2 = (Err e, w') /\ db w' = db world2.
Proof.
  destruct world2_rows as (Ho & _ & _ & Hne).
  apply bool_decide_eq_true, fmap_Some in Ho as (orow & Ho & Hh).
  rewrite <-record_ids in Ho.
  assert (Hd : o_hash orow <> object_hash record2).
  { apply negb_true_iff in Hne. rewrite <-Hh. apply String.eqb_neq. exact Hne. }
  destruct (append_conflict chain1 relay KRecord record2 world2 orow Ho Hd)
    as (e & w' & E & Hw & _).
  exists e, w'. exact (conj E Hw).
Defined.

(** ** Saving and outcomes *)
#[local] Abbreviation save_run := (save chain1 relay world1) (only parsing).
#[local] Abbreviation outcome_run :=
  (outcome the_chain "epoch" "id" record1 record2 world1) (only parsing).
Lemma saves : is_ok (fst save_run) = true /\ is_ok (fst outcome_run) = true.
Proof. apply all2. vm_compute. reflexivity. Qed.

Lemma save_within_quota_witness : exists w',
  save_run = (Ok tt, w') /\ t_chains (db w') !! chain_id chain1 = Some chain1 /\
  used_of (chain_id chain1) (db w') <= 1000000.
Proof.
  destruct (run_ok save_run (proj1 saves)) as ([] & w' & E). exists w'.
  destruct (save_within_quota chain1 relay world1 tt w' E) as (Hc & _ & Hu).
  exact (conj E (conj Hc (Hu 1000000 eq_refl))).
Defined.

Lemma outcome_recorded_witness : exists w1,
  outcome_run = (Ok tt, w1) /\
  db (snd (outcomes the_chain "epoch" "id" record1 w1)) = db w1.
Proof.
  destruct (run_ok outcome_run (proj2 saves)) as ([] & w1 & E). exists w1. split; [exact E|].
  destruct (outcomes the_chain "epoch" "id" record1 w1) as [r w2] eqn:E2.
  exact (proj1 (outcome_recorded the_chain "epoch" "id" record1 record1 record2
    world1 tt w1 r w2 E E2)).
Defined.

Lemma chain1_available : Z.max (min_available_seq chain1) (min_available_seq chain1) - 1 <= 0
  /\ 0 <= head_seq chain1.
Proof. split; vm_compute; discriminate. Qed.

Lemma log_tamper_evident_witness : exists h0,
  initial_hash LOG_CTX (chain_id chain1) (log_id chain1) None = Some h0 /\
  ((exists i, 0 < i <= head_seq chain1 /\
      link_collision EmptyString h0 (log_rows (db world1) chain1)
        (log_rows (db world1) chain1) i) \/
   hash_at h0 (log_rows (db world1) chain1) 0 = hash_at h0 (log_rows (db world1) chain1) 0).
Proof.
  destruct (log_tamper_evident relay relay (db world1) (db world1) chain1 chain1 0
    (proj2 (proj2 chain1_ok)) (proj2 (proj2 chain1_ok)) eq_refl eq_refl eq_refl eq_refl
    chain1_available) as (h0 & Hi & H).
  exists h0. split; [exact Hi|]. destruct H as [H|[H _]]; [left; exact H | right; exact H].
Defined.

(** ** Capability tokens *)
Definition head_path : string := ("/pallasync/v3/chains/" +:+ the_chain +:+ "/log/head")%string.
Definition head_request : Request :=
  request_of (device_key phone) (Some phone) "GET" head_path EmptyString 2.
Definition head_endpoint : Endpoint := MkEndpoint RHead the_chain EmptyString ["GET"%string].
Definition head_auth : AuthRequest := auth_request head_request head_endpoint None.

#[local] Abbreviation head_auth_run := (authenticate relay head_auth world1) (only parsing).
Lemma head_auth_ok : is_ok (fst head_auth_run) = true.
Proof. vm_compute. reflexivity. Qed.
#[global] Opaque head_auth.

Lemma authenticate_sound_witness : exists au w',
  head_auth_run = (Ok au, w') /\ parse_token relay head_auth = Ok (token au) /\
  t_nonces (db w') !! nonce_key (rq_chain_id head_auth) (token au)
    = Some (nonce_expiry (token au)).
Proof.
  destruct (run_ok head_auth_run head_auth_ok) as (au & w' & E). exists au, w'.
  destruct (authenticate_sound relay head_auth world1 au w' E) as (Hp & _ & _ & _ & _ & Hn).
  exact (conj E (conj Hp Hn)).
Defined.

Lemma toy_clock_monotone : monotone_clock.
Proof. intros i j Hij. simpl. lia. Qed.

(** ** Requests on the service *)
Lemma request_keeps_chains_witness : service_ok relay (db world1).
Proof.
  destruct world1_run as [r E].
  exact (request_keeps_chains mime_of relay genesis_request world0 r world1
    (proj1 empty_ready) (proj2 empty_ready) E).
Defined.

(** A new epoch without changes to the members. *)
Definition epoch1 : Value * list Value :=
  epoch_bundle 1 20 (Str (epoch_hash chain1)) "manual" [phone] [].
Definition epoch_body : Value :=
  json [("expected_epoch_hash", Str (epoch_hash chain1)); ("epoch", fst epoch1);
        ("envelopes", Arr (snd epoch1)); ("admin_operation", Null)]%string.
Definition admin_auth : Auth := MkAuth Null None.
Definition epochs_endpoint : Endpoint :=
  MkEndpoint REpochsPost the_chain EmptyString ["GET"; "POST"]%string.

#[local] Abbreviation epoch_run :=
  (Mutation.epoch chain1 relay admin_auth epoch_body None world1) (only parsing).
#[local] Abbreviation epoch_served :=
  (serve relay admin_auth "POST" epochs_endpoint [] epoch_body world1) (only parsing).
#[local] Abbreviation bad_served :=
  (serve relay admin_auth "POST" epochs_endpoint [] record1 world1) (only parsing).
Lemma epoch_runs :
  is_ok (fst epoch_run) = true /\ is_ok (fst epoch_served) = true /\
  match fst bad_served with Err _ => true | _ => false end = true /\
  negb (present (t_outcomes (db world1) !! (chain_id chain1, "epoch",
    object_hash (get epoch_body "epoch"))%string)) = true.
Proof. apply all4. vm_compute. reflexivity. Qed.
#[global] Opaque epoch_body.

Lemma epoch_advances_witness : exists c' st r w' members,
  epoch_run = (Ok (c', (st, r)), w') /\
  n (get epoch_body "epoch") "epoch" = n (Db.epoch chain1) "epoch" + 1 /\
  existing_members c' false false (db w') ≡ₚ members.
Proof.
  destruct epoch_runs as (H & _ & _ & Ho).
  destruct (run_ok epoch_run H) as ([c' [st r]] & w' & E).
  assert (Hn : t_outcomes (db world1) !! (chain_id chain1, "epoch",
    object_hash (get epoch_body "epoch"))%string = None).
  { destruct (_ !! _); [discriminate Ho | reflexivity]. }
  destruct (epoch_advances chain1 relay admin_auth epoch_body None world1 c' st r w' E Hn)
    as (_ & _ & _ & _ & Hnum & _ & members & _ & _ & _ & Hm).
  exists c', st, r, w', members. exact (conj E (conj Hnum Hm)).
Defined.

Lemma world1_keyed : chains_keyed (db world1).
Proof. apply world1_service. Qed.
Definition other_chain : string := text32 10.

Lemma epoch_served_ok : exists r w',
  epoch_served = (Ok r, w') /\ other_chain <> ep_chain epochs_endpoint.
Proof.
  destruct epoch_runs as (_ & H & _). apply run_ok in H as (r & w' & E). exists r, w'.
  split; [exact E|]. apply String.eqb_neq. vm_compute. reflexivity.
Qed.


(** The same epoch over HTTP. *)
Definition epoch_request : Request :=
  request_of admin_key None "POST" ("/pallasync/v3/chains/" +:+ the_chain +:+ "/epochs")%string
    (print epoch_body) 3.


(** ** Uploads *)
Definition phone_auth : Auth := MkAuth Null (Some phone).
(** The first record is acceptable, the second has no signature. *)
Definition upload_body : Value :=
  json [("records", Arr [record1; json [("record_id", Str (uuid_at 51))]])]%string.
#[local] Abbreviation upload_run := (upload relay phone_auth the_chain RRecordsPost
  EmptyString upload_body world1) (only parsing).
#[local] Abbreviation admin_upload := (upload relay admin_auth the_chain RRecordsPost
  EmptyString upload_body world1) (only parsing).
Lemma upload_accepts :
  match fst upload_run with
  | Ok v => (length (a v "accepted") =? 1)%nat && (length (a v "rejected") =? 1)%nat
  | _ => false
  end = true /\
  match fst admin_upload with Err _ => true | _ => false end = true.
Proof. apply all2. vm_compute. reflexivity. Qed.
#[global] Opaque upload_body.

(** Two new records of the phone. *)
Definition record3 : Value := record_doc (uuid_at 52) 3.
#[local] Abbreviation first_record :=
  (attempt_record chain1 relay phone_auth (chain_id chain1) false record1 world1)
  (only parsing).
Definition is_new (p : Result (Chain * (Value * Value)) * World) : bool :=
  match fst p with Ok (_, (i, _)) => veqb (get i "duplicate") (Bool false) | _ => false end.
Definition second_record (p : Result (Chain * (Value * Value)) * World)
    : Result (Chain * (Value * Value)) * World :=
  let c := match fst p with Ok (c, _) => c | _ => no_chain end in
  attempt_record c relay phone_auth (chain_id c) false record3 (snd p).
Definition same_chain (p : Result (Chain * (Value * Value)) * World) : bool :=
  match fst p with Ok (c, _) => String.eqb (chain_id c) (chain_id chain1) | _ => false end.
Lemma new_records : is_new first_record = true /\ same_chain first_record = true /\
  is_new (second_record first_record) = true.
Proof. apply all3. vm_compute. reflexivity. Qed.
#[global] Opaque record3.

Lemma is_new_ok p : is_new p = true ->
  exists c i r w, p = (Ok (c, (i, r)), w) /\ get i "duplicate" = Bool false.
Proof.
  unfold is_new. destruct p as [[[c [i r]]|e|] w]; [|discriminate..]. cbn [fst].
  intros H%veqb_eq. exists c, i, r, w. exact (conj eq_refl H).
Qed.
Lemma payload_nonce_single_use_witness : exists c1 i1 p1 w1 c2 i2 p2 w2,
  first_record = (Ok (c1, (i1, p1)), w1) /\
  attempt_record c1 relay phone_auth (chain_id c1) false record3 w1
    = (Ok (c2, (i2, p2)), w2) /\
  (n record1 "epoch", s record1 "payload_nonce") <> (n record3 "epoch", s record3 "payload_nonce").
Proof.
  destruct new_records as (H1 & Hc & H2).
  destruct (is_new_ok _ H1) as (c1 & i1 & p1 & w1 & E1 & D1).
  rewrite E1 in Hc, H2. apply String.eqb_eq in Hc.
  destruct (is_new_ok _ H2) as (c2 & i2 & p2 & w2 & E2 & D2).
  exists c1, i1, p1, w1, c2, i2, p2, w2.
  exact (conj E1 (conj E2 (payload_nonce_single_use relay chain1 c1 phone_auth phone_auth
    record1 record3 world1 w1 w1 w2 c1 c2 i1 i2 p1 p2 E1 E2 eq_refl eq_refl D1 D2 Hc
    (reflexivity _)))).
Defined.

Lemma upload_answers_each_item_once_witness : exists response w',
  upload_run = (Ok response, w') /\
  length (a response "upload_receipts") = 1%nat.
Proof.
  destruct upload_accepts as [H _].
  destruct upload_run as [[v|e|] w'] eqn:E; [|discriminate H..]. exists v, w'.
  split; [reflexivity|]. cbn [fst] in H. apply andb_true_iff in H as [H _].
  apply Nat.eqb_eq in H. rewrite <-H.
  exact (proj2 (upload_answers_each_item_once relay phone_auth the_chain RRecordsPost
    EmptyString upload_body world1 v w' E)).
Defined.

Lemma upload_error_accepts_nothing_witness : exists e w',
  admin_upload = (Err e, w') /\ audit_only (db world1) (db w').
Proof.
  destruct upload_accepts as [_ H].
  destruct admin_upload as [[v|e|] w'] eqn:E; [discriminate H| |discriminate H].
  exists e, w'. split; [reflexivity|].
  exact (upload_error_accepts_nothing relay admin_auth the_chain RRecordsPost EmptyString
    upload_body world1 e w' E).
Defined.


Lemma canonical_query_roundtrip_witness : exists q,
  canonical_query "b=%7e&a=%2b" = Ok q /\ query_string q = "a=%2B&b=~"%string /\
  canonical_query (query_string q) = Ok q.
Proof.
  exists [("a", "%2B"); ("b", "~")]%string. split; [reflexivity|]. split; [reflexivity|].
  exact (canonical_query_roundtrip "b=%7e&a=%2b" [("a", "%2B"); ("b", "~")]%string eq_refl).
Defined.
