(* ===== verification/ServingWitnesses.v ===== *)
(** * The theorems at work: routes, pages, imports and deletions *)
From S2P Require Import Prelude Error Json Verify Jcs Wire Query Routes Db Monad Config.
From S2P Require Import Store RoutesSpec HashChain Steps StoreFacts StoreSpec Auth Domain.
From S2P Require Import Retention Mutation Deletion Batch Import Read Export Sync.
From S2P Require Import DeletionSpec ImportSpec ExportSpec PageSpec UpkeepSpec Scenario.
From S2P Require Import Witnesses.

(** ** Routes *)
Lemma endpoint_sound_witness : exists ep,
  endpoint head_path "GET" = Ok ep /\ ep_route ep = RHead /\
  exists raw, head_path = path_of (ep_route ep) (ep_chain ep) raw.
Proof.
  exists head_endpoint. assert (H : endpoint head_path "GET" = Ok head_endpoint)
    by (vm_compute; reflexivity).
  split; [exact H|]. split; [reflexivity|].
  destruct (endpoint_sound head_path "GET" head_endpoint H) as (_ & raw & Hp & _).
  exists raw. exact Hp.
Defined.

Lemma part_segments : segments RPartGet the_chain tablet tablet.
Proof.
  split.
  - assert (H : present (decode the_chain (Some 32)) = true) by (vm_compute; reflexivity).
    exact (present_some _ H).
  - vm_compute. reflexivity.
  - vm_compute. reflexivity.
  - assert (H : forallb (fun x => negb (String.eqb x the_chain) && negb (String.eqb x tablet))
      literals = true) by (vm_compute; reflexivity).
    apply Forall_forall. intros x Hx%list_elem_of_In.
    apply (proj1 (forallb_forall _ _) H) in Hx.
    apply andb_true_iff in Hx as [Hc%negb_true_iff Hp%negb_true_iff].
    exact (conj (proj1 (String.eqb_neq _ _) Hc) (proj1 (String.eqb_neq _ _) Hp)).
Qed.
Lemma endpoint_complete_witness : exists allow,
  endpoint (path_of RPartGet the_chain tablet) (method_of RPartGet)
  = Ok (MkEndpoint RPartGet the_chain tablet allow).
Proof. exact (endpoint_complete RPartGet the_chain tablet tablet part_segments). Defined.

(** ** Pages *)
Definition one_entry : list (string * string) := [("limit", "1")]%string.
#[local] Abbreviation log_run :=
  (Read.log chain1 relay admin_auth RLog one_entry world1) (only parsing).
#[local] Abbreviation first_page := (page chain1 relay "log" [] Null world1) (only parsing).
Definition page_ok (p : Page) : bool :=
  let u z := (0 <=? z) && (z <=? u64_max) in
  u (head_seq (cut p)) && u (min_available_seq (cut p)) && u (transparency_index (cut p))
  && u (position p) && u (pg_expires p).
Lemma page_ok_wf p : page_ok p = true -> page_wf p.
Proof. unfold page_ok. intros H. bsimp. split; unfold u64; lia. Qed.

(** The page, its cursor, and the cursor resumed. *)
Definition resumed (r : Result Page * World) : bool :=
  match r with
  | (Ok p, w) =>
      page_ok p && String.eqb (chain_id chain1) (chain_id (cut p))
      && String.eqb (log_id chain1) (log_id (cut p))
      && (generation chain1 =? generation (cut p))
      && String.eqb (transparency_id chain1) (transparency_id (cut p))
      && match cursor relay p w with
         | (Ok token, w1) => (str_len token <=? 2048)
             && is_ok (fst (resume chain1 relay (resource p) token (filters p) 1 w1))
         | _ => false
         end
  | _ => false
  end.
Lemma page_runs : match fst log_run with
    | Ok v => (length (a v "items") =? 1)%nat | _ => false end = true /\
  resumed first_page = true.
Proof. apply all2. vm_compute. reflexivity. Qed.



(** ** Imports *)
#[local] Abbreviation resolve_run :=
  (resolve_devices (length [device_doc phone 0]) the_chain (encode admin_key)
     [device_doc phone 0] ∅ world0) (only parsing).
Lemma resolve_run_ok : is_ok (fst resolve_run) = true.
Proof. vm_compute. reflexivity. Qed.
Lemma resolve_devices_rooted_witness :
  rooted the_chain (encode admin_key) (db world0) (device_doc phone 0).
Proof.
  destruct (run_ok _ resolve_run_ok) as (u & w' & E).
  exact (proj1 (Forall_singleton _ _) (resolve_devices_rooted the_chain (encode admin_key)
    [device_doc phone 0] world0 u w' E)).
Defined.

(** ** Deletion *)
Definition delete_body : Value :=
  json [("deletion_id", Str (uuid_at 60));
        ("expected_parameters_hash", Str (parameters_hash chain1));
        ("expected_epoch_hash", Str (epoch_hash chain1)); ("admin_operation", Null)]%string.
Definition world6 : World := snd (Deletion.delete chain1 relay phone_auth delete_body world1).
#[local] Abbreviation complete_run := (complete relay world6) (only parsing).
Lemma deletion_runs :
  match t_deletions (db world6) !! the_chain with
  | Some row => incomplete row
  | None => false
  end = true /\ is_ok (fst complete_run) = true.
Proof. apply all2. vm_compute. reflexivity. Qed.
Lemma deletion_proofs :
  forallb (fun kv => proof_ok (de_proof (snd kv))) (map_to_list (t_deletions (db world6))) = true.
Proof. vm_compute. reflexivity. Qed.
#[global] Opaque world6.

Lemma complete_erases_witness : exists w',
  complete_run = (Ok tt, w') /\ erased the_chain (db w').
Proof.
  destruct deletion_runs as [Hi H]. destruct (run_ok _ H) as ([] & w' & E).
  exists w'. split; [exact E|].
  destruct (t_deletions (db world6) !! the_chain) as [row|] eqn:Hr; [|discriminate Hi].
  exact (proj1 (proj1 (complete_erases relay world6 tt w' E) the_chain row Hr Hi)).
Defined.

Lemma toy_relay_signs : relay_signs relay.
Proof.
  intros m. unfold verify_signature.
  rewrite !decode_encode by (unfold str_len; cbn [ed_sign verifying_key toy_ext key relay];
    unfold relay_key, bytes32, seal; by rewrite bytes_of_length).
  unfold prime_point. cbn [ed_decompress ed_compress ed_is_identity ed_is_torsion_free
    scalar_from_canonical verifying_key_from_bytes ed_verify_strict ed_sign verifying_key toy_ext].
  by rewrite !String.eqb_refl.
Qed.
Lemma world6_proofs_ok : proofs_ok (db world6).
Proof. exact (proofs_ok_check _ deletion_proofs). Qed.
Lemma toy_works : exists k, works k.
Proof. exists 0%nat. intros j _. split; reflexivity. Qed.
