(* ===== verification/InterleaveWitnesses.v ===== *)
(** * The theorems at work: schedules

    The properties of Concurrent.v's process applied to concrete schedules of starts,
    requests and upkeep, and the schedule on which a deletion is not erased. *)
From S2P Require Import Prelude Error Json Verify Jcs Wire Query Routes Db Monad Config.
From S2P Require Import Store HashChain Steps StoreFacts StoreSpec Auth AuthFacts.
From S2P Require Import Domain Retention Mutation Deletion Batch Import Read Export.
From S2P Require Import Sync Concurrent HandlerFacts BatchFacts ChainInv EpochSpec ServiceFacts.
From S2P Require Import ServiceInv ServiceSpec History SideTable OperatorRow Interleave.
From S2P Require Import InterleaveSpec TokenSpec TransferSpec LogSpec HistorySpec DeletionSpec.
From S2P Require Import Scenario Witnesses ServingWitnesses.

(** ** Schedules as sequences of steps *)
Definition down0 : System := MkSystem world0 Down.
Definition after (l : list Action) (s : System) : System := default down0 (schedule mime_of l s).
Definition possible (l : list Action) (s : System) : bool := present (schedule mime_of l s).

Lemma schedule_steps l s s' : schedule mime_of l s = Some s' -> rtc (step mime_of) s s'.
Proof.
  revert s. induction l as [|a l IH]; intros s H; simpl in H; [by injection H as ->|].
  destruct (act mime_of a s) as [s1|] eqn:E; [|done]. eapply rtc_l; [|by apply IH].
  apply act_step. by exists a.
Qed.
Lemma after_steps l s : possible l s = true -> rtc (step mime_of) s (after l s).
Proof.
  unfold possible, after. destruct (schedule mime_of l s) as [s'|] eqn:E; [|done].
  intros _. by apply schedule_steps in E.
Qed.

(** No import is staged along the schedule. *)
Definition no_imports (s : System) : bool := (size (t_imports (db (world s))) =? 0)%nat.
Fixpoint clean (l : list Action) (s : System) : bool :=
  no_imports s &&
  match l with
  | [] => true
  | a :: l => match act mime_of a s with Some s => clean l s | None => false end
  end.
Lemma no_imports_unused s : no_imports s = true -> staged_log_unused (db (world s)).
Proof.
  unfold no_imports. intros H%Nat.eqb_eq%map_size_empty_inv x im i. by rewrite H.
Qed.
Lemma clean_after l s : clean l s = true ->
  rtc (clean_step mime_of) s (after l s) /\ possible l s = true.
Proof.
  unfold after, possible. revert s. induction l as [|a l IH]; intros s H; [by split|].
  simpl in *. apply andb_true_iff in H as [Hn H].
  destruct (act mime_of a s) as [s1|] eqn:E; [|done]. destruct (IH s1 H) as [Hs Hp].
  split; [|exact Hp]. eapply rtc_l; [|exact Hs]. split; [by apply no_imports_unused|].
  apply act_step. by exists a.
Qed.

(** ** A start and a genesis; then an epoch, a kill, a start and upkeep *)
Definition request_turns (rq : Request) : list Action :=
  [Arrive rq; Run 0; Run 0; Run 0; Run 0; Leave 0].
Definition start_turns : list Action := [Launch relay; Boot; Boot; Boot; Boot; Boot].
Definition timer_turns : list Action := [Timer; Run 0; Run 0; Run 0; Leave 0].
Definition opening : list Action := start_turns ++ request_turns genesis_request.
Definition sequel : list Action :=
  request_turns epoch_request ++ [Arrive genesis_request; Run 0; Run 0; Exit]
  ++ start_turns ++ timer_turns.
Definition open1 : System := after opening down0.
Definition open2 : System := after sequel open1.
Definition chain_of (s : System) : Chain := default no_chain (t_chains (db (world s)) !! the_chain).
Definition live (s : System) : bool :=
  negb (present (t_deletions (db (world s)) !! the_chain))
  && present (t_chains (db (world s)) !! the_chain).
Lemma open_runs : clean opening down0 = true /\ clean sequel open1 = true /\
  live open1 && live open2 = true /\
  String.eqb (log_id (chain_of open2)) (log_id (chain_of open1))
  && (n (Db.epoch (chain_of open2)) "epoch" =? 1) = true.
Proof. apply all4. vm_compute. reflexivity. Qed.

(** A state in which the phone has been revoked by hand; the administrator reads. *)
Definition revoke_row (r : RegistryRow) : RegistryRow :=
  MkRegistryRow (r_generation r) Revoked (r_enrolled_seq r) (Some 1).
Definition revoke_phone (w : World) : World :=
  with_db (set_registry (alter revoke_row (the_chain, phone) (t_registry (db w))) (db w)) w.
Lemma revoke_phone_row w r : t_registry (db w) !! (the_chain, phone) = Some r ->
  t_registry (db (revoke_phone w)) !! (the_chain, phone) = Some (revoke_row r).
Proof. intros H. simpl. by rewrite lookup_alter_eq, H. Qed.
Lemma revoke_phone_keyed w : chains_keyed (db w) -> chains_keyed (db (revoke_phone w)).
Proof. done. Qed.
Definition revoked_world : World := revoke_phone (world open1).
Definition revoked_start : System := after start_turns (MkSystem revoked_world Down).
Definition admin_request : AuthRequest :=
  auth_request (request_of admin_key None "GET" head_path EmptyString 4) head_endpoint None.
#[local] Abbreviation revoked_run :=
  (authenticate relay admin_request (world revoked_start)) (only parsing).
Lemma revoked_runs : possible start_turns (MkSystem revoked_world Down) = true /\
  is_ok (fst revoked_run) = true /\
  present (t_registry (db (world open1)) !! (the_chain, phone))
  && negb (present (t_deletions (db (world revoked_start)) !! the_chain)) = true /\
  String.eqb (rq_chain_id admin_request) the_chain = true.
Proof. apply all4. vm_compute. reflexivity. Qed.
#[global] Opaque open1 open2 revoked_start admin_request head_auth.

Lemma live_chain s : live s = true -> t_deletions (db (world s)) !! the_chain = None /\
  t_chains (db (world s)) !! the_chain = Some (chain_of s).
Proof.
  unfold live, chain_of. intros [Hd Hc]%andb_true_iff. split.
  - destruct (t_deletions (db (world s)) !! the_chain); [discriminate Hd|reflexivity].
  - destruct (t_chains (db (world s)) !! the_chain); [reflexivity|discriminate Hc].
Qed.
Lemma open1_live : t_deletions (db (world open1)) !! the_chain = None /\
  t_chains (db (world open1)) !! the_chain = Some (chain_of open1).
Proof. destruct open_runs as (_ & _ & [H _]%andb_true_iff & _). exact (live_chain _ H). Qed.
Lemma open2_live : t_deletions (db (world open2)) !! the_chain = None /\
  t_chains (db (world open2)) !! the_chain = Some (chain_of open2).
Proof. destruct open_runs as (_ & _ & [_ H]%andb_true_iff & _). exact (live_chain _ H). Qed.
Lemma open_steps : rtc (clean_step mime_of) down0 open1 /\ rtc (clean_step mime_of) open1 open2.
Proof.
  destruct open_runs as (H1 & H2 & _).
  split; [exact (proj1 (clean_after _ _ H1))|exact (proj1 (clean_after _ _ H2))].
Qed.
Lemma world0_keyed : chains_keyed (db world0).
Proof. by intros x c. Qed.
Lemma open1_keyed : chains_keyed (db (world open1)).
Proof.
  eapply hk_keyed, (interleaved_history mime_of world0 down0 open1); [exact world0_keyed..| |].
  - apply rtc_refl.
  - exact (clean_steps_steps _ _ _ (proj1 open_steps)).
Qed.


Lemma evidence_is_permanent_witness :
  chain_kept the_chain (db (world open1)) (db (world open2)).
Proof.
  exact (evidence_is_permanent mime_of world0 open1 open2 the_chain world0_keyed
    (clean_steps_steps _ _ _ (proj1 open_steps)) (clean_steps_steps _ _ _ (proj2 open_steps))
    (proj1 open2_live)).
Defined.


Lemma revoked_device_stays_out_witness : exists au w',
  revoked_run = (Ok au, w') /\ Auth.device au <> Some phone.
Proof.
  destruct revoked_runs as (Hs & H & [Hr Hd]%andb_true_iff & Hc%String.eqb_eq).
  destruct (run_ok revoked_run H) as (au & w' & E). exists au, w'. split; [exact E|].
  apply present_some in Hr as [r Hr].
  assert (Hl : t_deletions (db (world revoked_start)) !! the_chain = None).
  { destruct (t_deletions _ !! _); [discriminate Hd|reflexivity]. }
  exact (revoked_device_stays_out mime_of revoked_world (MkSystem revoked_world Down)
    revoked_start the_chain phone (revoke_row r) relay admin_request au w'
    (revoke_phone_keyed _ open1_keyed) (rtc_refl _ _) (revoke_phone_row _ r Hr) eq_refl
    (after_steps _ _ Hs) Hl Hc E).
Defined.

(** ** What a schedule leaves of the configuration *)
Definition config_of (p : Process) : option RelayConfig :=
  match p with Down => None | Starting cfg _ | Serving cfg _ _ => Some cfg end.
Definition config_after (o : option RelayConfig) (a : Action) : option RelayConfig :=
  match a with Launch cfg => Some cfg | Exit => None | _ => o end.
Lemma act_config a s s' : act mime_of a s = Some s' ->
  config_of (process s') = config_after (config_of (process s)) a.
Proof.
  destruct s as [w p]. unfold act. simpl. intros H.
  destruct a, p as [|cfg' p|cfg' ts sl]; try done; simpl;
    try (injection H as <-; reflexivity).
  - destruct p as [[[]|e|]|B m k|x k]; try done; [by injection H as <-|].
    destruct (m w). by injection H as <-.
  - unfold act_thread in H. destruct (ts !! i) as [[h p]|]; [|done]. simpl in H.
    destruct p as [r|B m k|x k]; [done| |].
    + destruct (m w). by injection H as <-.
    + destruct (_ =? _)%nat; by injection H as <-.
  - destruct (ts !! i); [|done]. by injection H as <-.
Qed.
Lemma after_config l s : possible l s = true ->
  config_of (process (after l s)) = fold_left config_after l (config_of (process s)).
Proof.
  unfold possible, after. revert s. induction l as [|a l IH]; intros s H; [done|].
  simpl in *. destruct (act mime_of a s) as [s1|] eqn:E; [|done]. simpl in *.
  rewrite (IH s1 H). by rewrite (act_config _ _ _ E).
Qed.
Definition in_flight (s : System) : nat :=
  match process s with Serving _ ts _ => length ts | _ => 0%nat end.
Definition listening (s : System) : bool :=
  match process s with Serving _ _ _ => true | _ => false end.
Lemma listening_as cfg s : listening s = true -> config_of (process s) = Some cfg ->
  exists ts sl, process s = Serving cfg ts sl /\ length ts = in_flight s.
Proof.
  unfold listening, in_flight. destruct (process s) as [| |cfg' ts sl]; try done.
  intros _ [= ->]. by exists ts, sl.
Qed.

(** ** A token, twice *)
(** The first two transactions of the phone's request for the head of the log. *)
Definition head_parsed : AuthRequest := auth_request head_request head_endpoint None.
Lemma head_thread : exists k k',
  todo (serving mime_of relay head_request) = Tx (with_proposed head_endpoint None) k /\
  k (Ok head_endpoint) = Tx (transaction true (authenticate relay head_parsed)) k'.
Proof.
  unfold serving, handle_prog. cbn [todo].
  assert (E1 : timed_out head_request = false) by (vm_compute; reflexivity).
  assert (E2 : (n (limits relay) "max_request_bytes" <? str_len (rq_bytes head_request)) = false)
    by (vm_compute; reflexivity).
  assert (E3 : canonical_query (default EmptyString (raw_query head_request)) = Ok [])
    by (vm_compute; reflexivity).
  assert (E4 : (String.eqb (path head_request) "/privacy.md"
    || String.eqb (path head_request) "/privacy.json") = false) by (vm_compute; reflexivity).
  assert (E5 : endpoint (path head_request) (method head_request) = Ok head_endpoint)
    by (vm_compute; reflexivity).
  rewrite E1, E2, E3, E4, E5. eexists _, _. split; [reflexivity|].
  assert (E6 : String.eqb the_chain EmptyString = false) by (vm_compute; reflexivity).
  cbn -[authenticate transaction with_proposed head_parsed head_request the_chain].
  rewrite E6. reflexivity.
Qed.

#[local] Abbreviation head_run :=
  (transaction true (authenticate relay head_parsed) (world open1)) (only parsing).
Lemma token_runs : is_ok (fst head_run) = true /\
  match parse_token relay head_parsed with Ok _ => true | _ => false end = true /\
  possible opening down0 && (listening open1 && (in_flight open1 =? 0)%nat) = true.
Proof. apply all3. vm_compute. reflexivity. Qed.
#[global] Opaque head_parsed head_request.

Lemma open1_serving : exists sl, process open1 = Serving relay [] sl.
Proof.
  destruct token_runs as (_ & _ & [Hp [Hl Hn%Nat.eqb_eq]%andb_true_iff]%andb_true_iff).
  destruct (listening_as relay open1 Hl (after_config _ _ Hp)) as (ts & sl & E & Hlen).
  rewrite Hn in Hlen. destruct ts; [|discriminate Hlen]. by exists sl.
Qed.
(** A state in which the request is about to be authenticated, and the next one. *)
Lemma head_turn : exists s s1, rtc (step mime_of) down0 s /\ step mime_of s s1 /\
  head_run = (fst head_run, world s1) /\ world s = world open1.
Proof.
  destruct open1_serving as [sl Hp]. destruct head_thread as (k & k' & Hk & Hk').
  assert (Ho : open1 = MkSystem (world open1) (Serving relay [] sl))
    by (rewrite <-Hp; by destruct open1).
  pose proof (clean_steps_steps _ _ _ (proj1 open_steps)) as H0.
  assert (Ht : serving mime_of relay head_request
    = MkThread [] (Tx (with_proposed head_endpoint None) k)) by (rewrite <-Hk; reflexivity).
  exists (MkSystem (world open1) (Serving relay [MkThread [] (k (Ok head_endpoint))] sl)).
  destruct head_run as [r w1] eqn:E.
  exists (MkSystem w1 (Serving relay [MkThread [] (k' r)] sl)).
  split; [|split; [|exact (conj eq_refl eq_refl)]].
  - rewrite Ho in H0. etrans; [exact H0|]. eapply rtc_l; [apply step_arrive|]. rewrite Ht.
    apply rtc_once.
    by apply (step_run mime_of (world open1) (world open1) relay [MkThread [] _] sl 0 [] _
      (with_proposed head_endpoint None) k (Ok head_endpoint)).
  - rewrite Hk'. by apply (step_run mime_of (world open1) w1 relay [MkThread [] _] sl 0 [] _
      (transaction true (authenticate relay head_parsed)) k' r).
Qed.
Lemma token_single_use_witness : exists s s1,
  rtc (step mime_of) down0 s /\ step mime_of s s1 /\
  forall r w', transaction true (authenticate relay head_parsed) (world s1) = (r, w') ->
    forall au, r <> Ok au.
Proof.
  destruct token_runs as (Ha & Hp & _). destruct head_turn as (s & s1 & H & H1 & E & Hw).
  destruct (run_ok _ Ha) as (au & w1 & Er). rewrite Er in E. cbn [fst] in E.
  rewrite <-Er, <-Hw in E.
  destruct (parse_token relay head_parsed) as [tok|e|] eqn:Et; [|discriminate Hp..].
  exists s, s1. split; [exact H|]. split; [exact H1|]. intros r w' Hr.
  assert (Hx : rtc (step mime_of) s1 (MkSystem (world s1) Down))
    by (destruct s1; apply rtc_once, step_exit).
  exact (token_single_use mime_of toy_clock_monotone world0 s s1 (MkSystem (world s1) Down)
    relay relay head_parsed head_parsed tok au r w' world0_keyed H H1 E
    Hx Et Et Hr).
Defined.

(** ** A transfer in flight *)
Definition export_request : Request :=
  request_of admin_key None "GET" ("/pallasync/v3/chains/" +:+ the_chain +:+ "/export")%string
    EmptyString 7.
Definition export_turns : list Action :=
  opening ++ [Arrive head_request; Arrive export_request; Run 1; Run 1; Run 1; Run 0].
Definition exporting : System := after export_turns down0.
Definition transfers_of (s : System) : nat :=
  match process s with Serving _ ts _ => transfers the_chain ts | _ => 0%nat end.
Lemma export_runs : possible export_turns down0 = true /\
  listening exporting && (transfers_of exporting =? 1)%nat = true.
Proof. apply all2. vm_compute. reflexivity. Qed.
#[global] Opaque exporting.

(** ** A device at the time of use *)
#[local] Abbreviation phone_item := (item_tx relay phone_auth the_chain RRecordsPost
  EmptyString upload_body 0 record1 world1) (only parsing).
Lemma phone_item_ok :
  match fst phone_item with Ok (Accepted _ _ _ _) => true | _ => false end = true.
Proof. vm_compute. reflexivity. Qed.
Lemma authority_rechecked_witness : exists seen c i r w',
  phone_item = (Ok (Accepted seen c i r), w') /\
  in_good_standing (db world1) the_chain phone false.
Proof.
  pose proof phone_item_ok as H.
  destruct phone_item as [[[?|seen c i r|?]|e|] w'] eqn:E; [discriminate H| |discriminate H..].
  exists seen, c, i, r, w'. split; [reflexivity|].
  exact (proj2 (authority_rechecked relay phone_auth phone world1 eq_refl world1_keyed)
    the_chain RRecordsPost EmptyString upload_body 0%nat record1 seen c i r w' E).
Defined.

(** ** A deletion between the two transactions of a completion *)
Definition delete_request : Request :=
  request_of (device_key phone) (Some phone) "DELETE"
    ("/pallasync/v3/chains/" +:+ the_chain)%string (print delete_body) 5.
(** The timer erases, the deletion commits, the timer completes every deletion; then
    the completion of the request itself, the rest of the turn, a kill, a start, and
    another turn of the timer. *)
Definition race : list Action :=
  opening
  ++ [Timer; Run 0; Arrive delete_request; Run 1; Run 1; Run 1; Run 0; Run 1; Run 1; Leave 1;
      Run 0; Leave 0; Exit]
  ++ start_turns ++ timer_turns.
Definition raced : System := after race down0.
Lemma race_runs : possible race down0 = true /\
  match t_deletions (db (world raced)) !! the_chain with
  | Some row => negb (incomplete row)
  | None => false
  end && (listening raced && (in_flight raced =? 0)%nat) = true /\
  present (t_objects (db (world raced)) !! (the_chain, KDevice, phone)) = true.
Proof. apply all3. vm_compute. reflexivity. Qed.
#[global] Opaque raced.

