(* ===== verification/StartWitnesses.v ===== *)
(** * The theorems at work: the start of a relay

    A signed disclosure of the relay of Scenario.v, with functions for the crates
    [url] and [regex] that know the shapes the disclosure uses. *)
From S2P Require Import Prelude Error Json Verify Jcs Wire Db Monad Config Disclosure.
From S2P Require Import PrivacySchema DisclosureSpec Sync ServiceSpec StartSpec Scenario.
From S2P Require Import Main Concurrent Witnesses InterleaveWitnesses.

(** ** [https] origins and the patterns of the schema *)
Definition read_url (x : string) : option Url :=
  rest ← strip_prefix "https://" x;
  let '(host, path) := match split_once "/" rest with
                       | Some (host, path) => (host, "/" +:+ path)
                       | None => (rest, "/")
                       end%string in
  Some (MkUrl "https" (Some host) EmptyString None None path None ("https://" +:+ host)).
Definition read_pattern (p : string) : option (string -> bool) :=
  if bool_decide (p ∈ privacy_patterns) then
    Some (fun x =>
      if bool_decide (is_Some (strip_prefix "^https" p)) then bool_decide (is_Some (strip_prefix "https://" x))
      else if bool_decide (is_Some (strip_prefix "^[0-9" p)) then bool_decide (is_Some (read_uuid x))
      else str_forallb b64_char x)
  else None.
#[export] Instance toy_config : ConfigExt toy_ext := {|
  url_parse := read_url; regex_new := read_pattern; key_from_seed x := x |}.
#[export] Instance toy_config_laws : ConfigLaws toy_ext toy_config.
Proof.
  split. intros p Hp. simpl. unfold read_pattern. by rewrite bool_decide_true.
Qed.

(** ** A disclosure that the relay has signed *)
Local Open Scope string_scope.
Definition notice : string := "# Privacy".
Definition kept (content mode : string) (after : Value) : Value :=
  json [("present", Bool true); ("content", Str content);
        ("retention", json [("mode", Str mode)]); ("locations", texts ["disk"]);
        ("recipients", texts ["operator"]); ("purpose", Str "service");
        ("after_delete", after)].
Definition stored : Value := kept "ciphertext" "until_chain_deletion"
  (json [("mode", Str "erase"); ("max_ms", Num 60000)]).
Definition evidence : Value := kept "authority_evidence" "indefinite"
  (json [("mode", Str "retain_authority_evidence"); ("max_ms", Null)]).
Definition absent : Value := json [("present", Bool false)].
Definition copies_doc : Value := json
  [("active_store", stored); ("replica", absent); ("wal", stored);
   ("snapshot_store", stored); ("backup", absent); ("staging", stored);
   ("temporary_export", absent); ("support", absent);
   ("cache", kept "metadata" "indefinite"
      (json [("mode", Str "retain_metadata"); ("max_ms", Null)]));
   ("operational_log", absent); ("attestations", evidence); ("deletion_ledger", evidence)].
Definition unsigned_disclosure : Value := json
  [("type", Str "PALLASYNC-RELAY-PRIVACY-v3"); ("version", Str "3.0");
   ("disclosure_id", Str (uuid_at 3)); ("relay_origin", Str "https://relay.example");
   ("relay_key_id", Str (hash_bytes relay_key)); ("revision", Num 1);
   ("published_at_ms", Num 0); ("effective_at_ms", Num start_ms);
   ("markdown_sha256", Str (hash_bytes notice));
   ("operator", json [("name", Str "op"); ("contact_url", Str "https://relay.example/c")]);
   ("durability_tier", Str "single-durable");
   ("limits", json [("max_request_bytes", Num 8388608); ("max_devices", Num 128);
                    ("max_records_per_upload", Num 64); ("page_limit", Num 1000)]);
   ("quota", json
      [("minimum_bytes", Num 1000); ("maximum_bytes", Null);
       ("allow_unconfigured", Bool false); ("counted_components", texts counted_components);
       ("allocation_rule", Str "first come")]);
   ("rate_limits", json [("authorized_signer", bucket 30 120);
      ("record_upload_device", bucket 10 30); ("enrollment_source_ip", bucket 3 6);
      ("enrollment_offer", bucket 1 3); ("public_document_ip", bucket 60 240)]);
   ("backups", json [("enabled", Bool false)]); ("copies", copies_doc);
   ("deletion", json [("assurance", Str "backup-expiry");
      ("active_delete_max_ms", Num 60000); ("backup_delete_max_ms", Null);
      ("key_destroy_max_ms", Null)]);
   ("relay_key", json [("protection", Str "kms");
      ("replacement_mode", Str "explicit_trust_reestablishment");
      ("automatic_rotation", Bool false); ("new_transparency_id_required", Bool true);
      ("old_verification_keys_retained", Bool true)]);
   ("replay_protection", json [("mode", Str "durable")]);
   ("metadata", json [("retained_fields", texts ["ip"; "timing"]);
      ("purposes", texts ["rates"]); ("retention", json [("mode", Str "indefinite")]);
      ("recipients", texts ["operator"])]);
   ("change_notice", json [("minimum_notice_ms", Num 0);
      ("notice_url", Str "https://relay.example/n");
      ("archive_url", Str "https://relay.example/a")])].
Definition sign_disclosure (v : Value) : Value :=
  set_member v "relay_signature" (Str (encode (seal relay_key (CTX_PRIVACY +:+ print v)))).
Definition signed_disclosure : Value := sign_disclosure unsigned_disclosure.
Local Close Scope string_scope.

Definition started : Result RelayConfig * World :=
  new schema_depth privacy_schema relay_key notice signed_disclosure (Some 1000000) world0.
Lemma started_ok : exists cfg w, started = (Ok cfg, w).
Proof.
  assert (H : is_ok (fst started) = true) by (vm_compute; reflexivity).
  destruct started as [[cfg|e|] w]; [|discriminate H..]. exists cfg, w. reflexivity.
Qed.

Lemma new_total_witness : exists r w', r <> Panic /\ db w' = db world0 /\
  started = (r, w').
Proof.
  destruct (new_total (X:=toy_ext) relay_key notice signed_disclosure (Some 1000000) world0)
    as (r & w' & Hr & Hd & H).
  exists r, w'. split; [exact Hr|]. split; [exact Hd|]. apply H. lia.
Defined.

Lemma accepted_limits_witness : exists cfg w, started = (Ok cfg, w) /\
  1 <= n (limits cfg) "page_limit" <= 1000 /\
  1 <= rate_of cfg "enrollment_offer" "burst" <= 1.
Proof.
  destruct started_ok as (cfg & w & H). exists cfg, w. split; [exact H|].
  destruct (accepted_limits _ _ _ _ _ _ _ _ H) as [(_ & _ & _ & Hp) [Hr _]].
  split; [exact Hp|]. apply (Hr "enrollment_offer"%string 3 1).
  do 3 right. left.
Defined.

Lemma accepted_identity_witness : exists cfg w, started = (Ok cfg, w) /\
  get (privacy cfg) "relay_key_id" = Str (key_id cfg) /\ origin cfg = "https://relay.example"%string.
Proof.
  destruct started_ok as (cfg & w & H). exists cfg, w. split; [exact H|].
  destruct (accepted_identity _ _ _ _ _ _ _ _ H) as (_ & _ & -> & _ & Hk & _ & _ & Ho & _).
  split; [exact Hk|].
  assert (E : get signed_disclosure "relay_origin" = Str "https://relay.example")
    by (vm_compute; reflexivity).
  rewrite E in Ho. injection Ho as Ho. symmetry. exact Ho.
Defined.

(** ** Two starts on one store, the turns of a request in between, a new revision *)
Local Open Scope string_scope.
Definition next_disclosure : Value :=
  sign_disclosure (set_member unsigned_disclosure "revision" (Num 2)).
Definition the_env (name : string) : option string :=
  if String.eqb name "PALLASYNC_RELAY_SIGNING_SEED" then Some (encode relay_key)
  else if String.eqb name "PALLASYNC_PRIVACY_MARKDOWN" then Some "privacy.md"
  else if String.eqb name "PALLASYNC_PRIVACY_JSON" then Some "privacy.json"
  else if String.eqb name "PALLASYNC_QUOTA_BYTES" then Some "1000000"
  else if String.eqb name "DATABASE_URL" then Some "sqlite:/data/relay.sqlite" else None.
Definition files (doc : Value) (name : string) : string + string :=
  if String.eqb name "privacy.md" then inr notice
  else if String.eqb name "privacy.json" then inr (print doc) else inl "missing".
Definition start_with (doc : Value) (w : World) : Res string RelayConfig * World :=
  start the_env (files doc) (fun x => x) "unavailable" schema_depth privacy_schema w.
Local Close Scope string_scope.
Definition first_start : Res string RelayConfig * World := start_with signed_disclosure world1.
Definition between : System :=
  let '(r, w) := first_start in
  after (request_turns epoch_request)
    (MkSystem w (Serving match r with Ok cfg => cfg | _ => relay end [] ∅)).
Definition second_start : Res string RelayConfig * World :=
  start_with next_disclosure (world between).
Definition ready {A} (r : Res string A) : bool := match r with Ok _ => true | _ => false end.
Lemma starts_ok : ready (fst first_start) && ready (fst second_start) = true /\
  (let '(r, w) := first_start in
   possible (request_turns epoch_request)
     (MkSystem w (Serving match r with Ok cfg => cfg | _ => relay end [] ∅))) = true.
Proof. apply all2. vm_compute. reflexivity. Qed.
Lemma relay_identity_pinned_witness : exists cfg cfg' w,
  first_start = (Ok cfg, w) /\ second_start = (Ok cfg', snd second_start) /\
  origin cfg' = origin cfg /\ n (privacy cfg) "revision" <= n (privacy cfg') "revision".
Proof.
  destruct starts_ok as [Hok Hp].
  assert (H2 : second_start = (fst second_start, snd second_start))
    by (destruct second_start; reflexivity).
  assert (Hb : between = let '(r, w) := first_start in after (request_turns epoch_request)
    (MkSystem w (Serving match r with Ok cfg => cfg | _ => relay end [] ∅))) by reflexivity.
  destruct (fst second_start) as [cfg'|e|]; [|rewrite andb_false_r in Hok; discriminate Hok..].
  destruct first_start as [[cfg|e|] w1] eqn:H1; [|discriminate Hok..].
  exists cfg, cfg', w1. split; [reflexivity|]. split; [exact H2|].
  pose proof (after_steps _ _ Hp) as Hs. rewrite <-Hb in Hs.
  destruct (relay_identity_pinned mime_of _ _ _ _ _ _ _ _ _ _ cfg cfg' world1 w1
    between (snd second_start) world1_keyed H1 Hs H2) as (Ho & _ & Hr & _).
  split; [exact Ho|exact Hr].
Defined.
