(* ===== verification/LegacyWitnesses.v ===== *)
(** * The theorems at work: the frozen interface

    A legacy chain with one device and three records beside the relay of Scenario.v;
    and a clock under which a token of v2.1 is accepted twice. *)
From S2P Require Import Prelude Error Json Verify Jcs Wire Query Db Monad Config Auth Sync.
From S2P Require Import DeletionSpec Legacy LegacySpec Scenario.

Local Open Scope string_scope.
Definition old_record (i : Z) : LRecordRow :=
  MkLRecord the_chain (uuid_at i) "2.1" 0 "history" "upsert" "payload" "nonce" phone 1 0 "sig".
Definition old_tables : LegacyDb := {|
  l_present := true;
  l_chains := {[the_chain := MkLChain "salt" (encode admin_key) 0 phone
                  (encode (device_key phone)) None]};
  l_devices := {[(the_chain, phone) := MkLDevice (encode (device_key phone)) "name" "nonce"
                   "active" 0 0 "sig"]};
  l_records := {[1%Z := old_record 1; 2%Z := old_record 2; 4%Z := old_record 4]};
  l_nonces := ∅; l_cursors := ∅; l_parameters := ∅ |}.
Definition old_world : LWorld := MkLWorld world0 old_tables.

Definition old_token (m p q : string) (expires nonce : Z) : Value :=
  signed_by (device_key phone) TOKEN_CONTEXT
  [("v", Num 1); ("chain_id", Str the_chain); ("device_id", Str phone); ("method", Str m);
   ("path", Str p); ("query", Str q); ("body_sha256", Str (hash_bytes EmptyString));
   ("issued_at_ms", Num start_ms); ("expires_at_ms", Num expires);
   ("nonce", Str (encode (bytes_of 16 nonce)))].
Definition old_request (m p q : string) (expires nonce : Z) : Request :=
  MkRequest m p (Some q)
    (Some (Some ("PallaSync " +:+ encode (print (old_token m p q expires nonce)))))
    None None "192.0.2.1" false EmptyString true.
Definition old_path : string := "/pallasync/v2/chains/" +:+ the_chain.
Definition records_path : string := old_path +:+ "/records".
Definition later : Z := (start_ms + 300000)%Z.
Definition read_request : Request := old_request "GET" records_path "limit=2" later 1.
Definition delete_request : Request := old_request "DELETE" old_path EmptyString later 2.
Local Close Scope string_scope.

Definition read_run : Res Z LResponse * LWorld := handle relay read_request old_world.
Definition delete_run : Res Z LResponse * LWorld := handle relay delete_request (snd read_run).
Definition status_of (r : Res Z LResponse) : Z :=
  match r with Ok resp => lp_status resp | _ => 0 end.
Lemma read_runs : status_of (fst read_run) = 200.
Proof. vm_compute. reflexivity. Qed.
Lemma delete_runs : status_of (fst delete_run) = 200.
Proof. vm_compute. reflexivity. Qed.
Lemma old_route : route_of old_path = Some (the_chain, LDelete).
Proof. vm_compute. reflexivity. Qed.
Lemma records_route : route_of records_path = Some (the_chain, LRecords).
Proof. vm_compute. reflexivity. Qed.

Lemma legacy_isolated_witness :
  only_rates (db world0) (db (v3 (snd read_run))) /\
  l_same_rows the_chain old_tables (legacy (snd read_run)).
Proof.
  destruct (legacy_isolated relay read_request old_world (fst read_run) (snd read_run))
    as [Hr Hs].
  - unfold read_run. destruct (handle relay read_request old_world). reflexivity.
  - split; [exact Hr|]. apply Hs. change (path read_request) with records_path.
    rewrite records_route. discriminate.
Defined.

(** After the deletion, the read is refused. *)
Lemma legacy_deletion_is_final_witness : exists resp,
  fst delete_run = Ok resp /\ lp_status resp = 200 /\
  closed the_chain (legacy (snd delete_run)) /\
  forall resp' w3, handle relay read_request (snd delete_run) = (Ok resp', w3) ->
    lp_status resp' <> 200.
Proof.
  pose proof delete_runs as Hs.
  assert (Hd : handle relay delete_request (snd read_run) = (fst delete_run, snd delete_run)).
  { unfold delete_run. destruct (handle relay delete_request (snd read_run)). reflexivity. }
  destruct (fst delete_run) as [resp|e|]; [|discriminate Hs..]. exists resp.
  split; [reflexivity|]. split; [exact Hs|].
  destruct (legacy_deletion_is_final relay delete_request (snd read_run) resp
    (snd delete_run) the_chain (snd delete_run) Hd Hs old_route (rtc_refl _ _)) as [Hc Hf].
  split; [exact Hc|]. intros resp' w3 H.
  exact (proj1 (Hf relay read_request LRecords resp' w3 records_route H)).
Defined.

Definition old_page_run : Res Z (bool * list Value * Z) * LWorld :=
  all_records the_chain 2 1000000 0 old_world.
Definition old_page_out : bool * list Value * Z :=
  match fst old_page_run with Ok out => out | _ => (false, [], 0) end.
Lemma old_page_runs : fst old_page_run = Ok old_page_out /\ fst (fst old_page_out) = true /\ snd old_page_out = 2.
Proof. vm_compute. repeat split. Qed.
Lemma legacy_page_contiguous_witness :
  exists shown rest, rows_after the_chain 0 old_tables = shown ++ rest /\
    snd (fst old_page_out) = rows_json the_chain shown /\
    rows_after the_chain 2 old_tables = rest /\ rest <> [].
Proof.
  destruct old_page_runs as (Hr & Hm & Hp).
  destruct (legacy_page_contiguous the_chain 2 1000000 0 old_world (fst old_page_run) (snd old_page_run))
    as (_ & _ & H).
  - lia.
  - unfold old_page_run. destruct (all_records _ _ _ _ _). reflexivity.
  - destruct old_page_out as [[more values] pos]. cbn [fst snd] in *. subst more pos.
    destruct (H true values 2 Hr) as (shown & rest & H1 & H2 & H3 & H4 & _).
    exists shown, rest. split; [exact H1|]. split; [exact H2|]. split; [exact H4|].
    intros ->. discriminate H3.
Defined.

(** ** A token accepted twice

    [authenticate] reads the clock once to compare the expiry of a token and once
    more to sweep the expired nonces.  When the token expires between the two, its own
    nonce is swept before it is looked for. *)
Definition stepping_clock (k : nat) : Z := start_ms + Z.of_nat (Nat.div k 16).
#[local] Instance stepping : Oracle := {|
  clock := stepping_clock; new_uuid k := uuid_at (Z.of_nat k);
  sql_fails _ := false; wal_busy _ := false |}.
Definition both (expires : Z) (k : nat) : Z * Z :=
  let rq := old_request "GET" records_path "limit=2" expires 3 in
  let first := handle (O:=stepping) relay rq old_world in
  let w := snd first in
  let second := handle (O:=stepping) relay rq
    (MkLWorld (MkWorld (db (v3 w)) (tick (v3 w) + k)) (legacy w)) in
  (status_of (fst first), status_of (fst second)).
(** The clock does not run backwards, and both requests are answered. *)
Theorem legacy_token_replayed :
  (forall j k, (j <= k)%nat -> stepping_clock j <= stepping_clock k) /\
  both (start_ms + 2) 7 = (200, 200).
Proof.
  split; [|vm_compute; reflexivity]. intros j k Hjk. unfold stepping_clock.
  pose proof (Nat.Div0.div_le_mono j k 16 Hjk). lia.
Qed.
