(* ===== verification/OperatorWitnesses.v ===== *)
(** * The theorems at work: the operator's command and the parser

    A draft, its signing, and a file system for the toy environment of Scenario.v; the
    printer of Scenario.v prints JSON texts. *)
From S2P Require Import Prelude Error Json Verify Jcs JsonText Wire Db Monad Config.
From S2P Require Import Disclosure PrivacySchema DisclosureSpec Sync Legacy Operator.
From S2P Require Import OperatorSpec Scenario Witnesses StartWitnesses.

(** ** The printer *)
Definition clean (x : string) : bool :=
  str_forallb (fun c => (32 <=? byte_of c) && negb (byte_of c =? 34) && negb (byte_of c =? 92)) x.
Fixpoint plain (v : Value) : bool :=
  match v with
  | Num z => 0 <=? z
  | Str x => clean x
  | Arr l => forallb plain l
  | Obj l => forallb (fun kv => clean (fst kv) && plain (snd kv)) l
  | _ => true
  end.
Fixpoint raw_of (v : Value) : Raw :=
  match v with
  | Null => RNull
  | Bool b => RBool b
  | Num z => RU64 (Z.to_N z)
  | Str x => RStr x
  | Arr l => RArr (map raw_of l)
  | Obj l => RObj (map (fun kv => (fst kv, raw_of (snd kv))) l)
  end.
Lemma arranged_raw v : arranged v (raw_of v).
Proof.
  induction v as [|b|z|x|l IH|l IH] using Value_ind'; simpl; [constructor..| |].
  - constructor. induction IH; simpl; by constructor.
  - apply (ar_obj l l); [done|]. induction IH as [|kv l H _ IHl]; simpl; [constructor|].
    by constructor.
Qed.
Lemma chars_clean x : clean x = true -> chars (str_bytes x) (str_bytes x).
Proof.
  unfold clean. induction x as [|c x IH]; simpl; [constructor|].
  intros [[[H1 H2]%andb_true_iff H3]%andb_true_iff Hx]%andb_true_iff. bsimp.
  constructor; [lia|done|done|by apply IH].
Qed.
Lemma str_bytes_app x y : str_bytes (x +:+ y) = str_bytes x ++ str_bytes y.
Proof.
  induction x as [|c x IH]; [done|].
  change (str_bytes (String c x +:+ y)) with (byte_of c :: str_bytes (x +:+ y)). by rewrite IH.
Qed.
Lemma quoted_literal x : clean x = true -> literal x (str_bytes (quoted x)).
Proof. intros H%chars_clean. unfold quoted. rewrite !str_bytes_app. by constructor. Qed.

Lemma ws_nil : ws [].
Proof. done. Qed.
Lemma print_elements l : Forall (fun v => plain v = true ->
    json_text (raw_of v) (str_bytes (print v))) l -> forallb plain l = true ->
  elements (map raw_of l) (str_bytes (String.concat "," (map print l))).
Proof.
  induction 1 as [|v l Hv Hl IH]; simpl; [intros _; by constructor|].
  intros [H1 H2]%andb_true_iff. destruct l as [|v' l]; simpl.
  - pose proof (el_last (raw_of v) [] _ [] ws_nil ws_nil (Hv H1)) as H.
    by rewrite app_nil_r in H.
  - rewrite !str_bytes_app.
    by apply (el_cons (raw_of v) _ [] _ [] _ ws_nil ws_nil (Hv H1)); [|apply IH].
Qed.
Lemma print_members l : Forall (fun kv => plain (snd kv) = true ->
    json_text (raw_of (snd kv)) (str_bytes (print (snd kv)))) l ->
  forallb (fun kv => clean (fst kv) && plain (snd kv)) l = true ->
  members (map (fun kv => (fst kv, raw_of (snd kv))) l)
    (str_bytes (String.concat ","
       (map (fun kv => quoted (fst kv) +:+ ":" +:+ print (snd kv))%string l))).
Proof.
  induction 1 as [|[k v] l Hv Hl IH]; simpl; [intros _; by constructor|].
  intros [[H0 H1]%andb_true_iff H2]%andb_true_iff. simpl in Hv. apply quoted_literal in H0.
  destruct l as [|kv l]; simpl; rewrite !str_bytes_app.
  - pose proof (mb_last k (raw_of v) [] _ [] [] _ [] ws_nil ws_nil ws_nil ws_nil H0 (Hv H1)) as H.
    by rewrite app_nil_r in H.
  - rewrite <-app_assoc.
    by apply (mb_cons k (raw_of v) _ [] _ [] [] _ [] _ ws_nil ws_nil ws_nil ws_nil H0 (Hv H1));
      [|apply IH].
Qed.
Lemma print_text v : plain v = true -> json_text (raw_of v) (str_bytes (print v)).
Proof.
  induction v as [|b|z|x|l IH|l IH] using Value_ind'; cbn [plain raw_of print]; intros H.
  - constructor.
  - destruct b; constructor.
  - assert (E : dec z = dec (Z.of_N (Z.to_N z))) by (rewrite Z2N.id by lia; done).
    rewrite E. constructor.
  - constructor. by apply quoted_literal.
  - rewrite !str_bytes_app. constructor. by apply print_elements.
  - rewrite !str_bytes_app. constructor. by apply print_members.
Qed.
Lemma print_document v : plain v = true -> json_document (raw_of v) (str_bytes (print v)).
Proof.
  intros H%print_text. rewrite <-(app_nil_r (str_bytes _)). by apply (doc _ []).
Qed.

(** The parser on a printed document. *)
Lemma parse_complete_witness : parse (print parameters_doc) = Ok parameters_doc.
Proof.
  apply (parse_complete parameters_doc (raw_of parameters_doc)).
  - apply (strict_sound (raw_of parameters_doc)). vm_compute. reflexivity.
  - apply arranged_raw.
  - apply print_document. vm_compute. reflexivity.
  - vm_compute. reflexivity.
  - apply Z.leb_le. vm_compute. reflexivity.
  - vm_compute. reflexivity.
Defined.

(** ** A draft, and what happens to it *)
Local Open Scope string_scope.
#[local] Instance toy_operator : OperatorExt := {|
  path_new := split_on "/"; to_vec_pretty := print; value_text := print;
  rfc3339 _ := Some "2026-01-01T00:00:00+00:00"; io_error _ := None;
  io_refused := "refused"; io_partial _ _ := EmptyString; file_mode := 420; dir_mode := 493 |}.
Definition draft_doc : Value := fold_left remove_member derived_fields unsigned_disclosure.
Definition home : gmap (list string) Dir :=
  {[ [] := MkDir 493 ∅;
     ["draft"] := MkDir 493 {["privacy.md" := (420, notice);
                              "privacy.json" := (420, print draft_doc)]} ]}.
Definition no_store : LegacyDb := MkLegacy false ∅ ∅ ∅ ∅ ∅ ∅.
Definition desk : OWorld := MkOWorld (MkLWorld world0 no_store) home [].
Definition typed : string := encode relay_key +:+ nl.
Definition command (args : list string) (w : OWorld) : Res string unit * OWorld :=
  Operator.run schema_depth privacy_schema typed args w.
Definition prepare_run : Res string (RelayConfig * string * list string) * OWorld :=
  prepare schema_depth privacy_schema typed ["draft"] ["policy"] (Some 1000000) desk.
Definition sign_run : Res string unit * OWorld :=
  command ["sign"; "draft"; "policy"; "1000000"] desk.
Local Close Scope string_scope.

Fixpoint raw_eqb (x y : Raw) : bool :=
  match x, y with
  | RNull, RNull => true
  | RBool b, RBool c => Bool.eqb b c
  | RU64 j, RU64 k => (j =? k)%N
  | RStr s, RStr t => String.eqb s t
  | RArr l, RArr m =>
      (fix go l m := match l, m with
       | [], [] => true
       | x :: l, y :: m => raw_eqb x y && go l m
       | _, _ => false
       end) l m
  | RObj l, RObj m =>
      (fix go l m := match l, m with
       | [], [] => true
       | (j, x) :: l, (k, y) :: m => String.eqb j k && raw_eqb x y && go l m
       | _, _ => false
       end) l m
  | _, _ => false
  end.
Lemma raw_eqb_eq x y : raw_eqb x y = true -> x = y.
Proof.
  revert y. induction x as [|b|k|z| |s|l IH|l IH] using Raw_ind'; intros [] H; simpl in H;
    try done; try (by f_equal; apply Bool.eqb_prop || apply N.eqb_eq || apply String.eqb_eq).
  - f_equal. revert l0 H. induction IH as [|x l Hx _ IHl]; intros [|y m] H; try done.
    apply andb_true_iff in H as [H1 H2]. f_equal; auto.
  - f_equal. revert l0 H. induction IH as [|[j x] l Hx _ IHl]; intros [|[k y] m] H; try done.
    apply andb_true_iff in H as [[->%String.eqb_eq H1]%andb_true_iff H2]. f_equal; [|by apply IHl].
    f_equal. by apply Hx.
Qed.

(** What is computed of the two runs, and what it means. *)
Definition checks (r : Res string (RelayConfig * string * list string)) (s : Res string unit)
    : bool :=
  match r, s with
  | Ok (cfg, _, _), Ok _ =>
      let v := privacy cfg in
      plain v && utf8_valid (str_bytes (print v)) && (raw_depth (raw_of v) <=? 32)
      && match read (print v) with Some r => raw_eqb r (raw_of v) | None => false end
      && (str_len (print v) <=? MAX_DOCUMENT)
  | _, _ => false
  end.
Lemma checks_mean r s : checks r s = true -> exists cfg pk t,
  r = Ok (cfg, pk, t) /\ s = Ok tt /\ reads_back (privacy cfg) (print (privacy cfg)) /\
  str_len (print (privacy cfg)) <= MAX_DOCUMENT.
Proof.
  destruct r as [[[cfg pk] t]|e|]; [|done..]. destruct s as [[]|e|]; [|done..].
  unfold checks. rewrite !andb_true_iff. intros [[[[Hp Hu] Hd%Z.leb_le] Hr] Hl%Z.leb_le].
  exists cfg, pk, t. split; [done|]. split; [done|]. split; [|done].
  exists (raw_of (privacy cfg)). split; [apply arranged_raw|]. split; [by apply print_document|].
  split; [done|]. split; [done|]. simpl. destruct (read _) as [r|]; [|done].
  f_equal. by apply raw_eqb_eq.
Qed.
Lemma sign_runs : checks (fst prepare_run) (fst sign_run) = true.
Proof. vm_compute. reflexivity. Qed.
Lemma prepare_run_eq : prepare schema_depth privacy_schema typed
  (path_new "draft"%string) (path_new "policy"%string) (Some 1000000) desk = prepare_run.
Proof. reflexivity. Qed.
Lemma sign_run_eq : Operator.run schema_depth privacy_schema typed
  ["sign"; "draft"; "policy"; "1000000"]%string desk = sign_run.
Proof. reflexivity. Qed.
#[global] Opaque prepare_run sign_run.


(** The policy that was signed is verified, and starts a relay. *)
Definition policy_env (name : string) : option string :=
  if String.eqb name "PALLASYNC_RELAY_SIGNING_SEED" then Some (encode relay_key)
  else if String.eqb name "PALLASYNC_PRIVACY_MARKDOWN" then Some "privacy.md"%string
  else if String.eqb name "PALLASYNC_PRIVACY_JSON" then Some "privacy.json"%string
  else if String.eqb name "PALLASYNC_QUOTA_BYTES" then Some "1000000"%string else None.
Definition policy_files (fs : gmap (list string) Dir) (name : string) : string + string :=
  match file_at fs ["policy"%string; name] with
  | Some (_, bytes) => inr bytes
  | None => inl "missing"%string
  end.
Lemma policy_files_read fs name dir m bytes : name <> "/"%string ->
  fs !! ["policy"%string] = Some dir -> d_files dir !! name = Some (m, bytes) ->
  policy_files fs name = inr bytes.
Proof.
  intros Hn Hd Hb. unfold policy_files.
  pose proof (file_in fs ["policy"%string] dir name Hn Hd) as E. unfold join in E. simpl in E.
  by rewrite E, Hb.
Qed.
Lemma policy_env_for fs cfg pk : fs !! ["policy"%string] =
    Some (published (markdown cfg) (privacy cfg) pk) ->
  env_for policy_env (policy_files fs) typed (markdown cfg) (to_vec_pretty (privacy cfg))
    (Some 1000000).
Proof.
  intros Hfile. destruct (published_files (markdown cfg) (privacy cfg) pk) as [H1 H2].
  constructor.
  - vm_compute. reflexivity.
  - change (policy_env "PALLASYNC_PRIVACY_MARKDOWN"%string) with (Some "privacy.md"%string).
    cbn [fmap option_fmap option_map]. f_equal. by eapply policy_files_read.
  - change (policy_env "PALLASYNC_PRIVACY_JSON"%string) with (Some "privacy.json"%string).
    cbn [fmap option_fmap option_map]. f_equal. by eapply policy_files_read.
  - vm_compute. reflexivity.
  - reflexivity.
  - reflexivity.
  - reflexivity.
Qed.

Lemma signed_policy_accepted_witness : exists cfg pk t,
  fst prepare_run = Ok (cfg, pk, t) /\
  (exists w2, command ["verify"; "policy"; "1000000"]%string (snd sign_run) = (Ok tt, w2)) /\
  (exists cfg' w2, from_env policy_env (policy_files (o_fs (snd sign_run))) schema_depth
     privacy_schema (v3 (o_store (snd sign_run))) = (Ok cfg', w2) /\ privacy cfg' = privacy cfg).
Proof.
  destruct (checks_mean _ _ sign_runs) as (cfg & pk & t & E1 & E2 & Hb & Hl).
  exists cfg, pk, t. split; [exact E1|].
  assert (H1 : prepare_run = (Ok (cfg, pk, t), snd prepare_run))
    by (rewrite <-E1; apply surjective_pairing).
  assert (H2 : sign_run = (Ok tt, snd sign_run)) by (rewrite <-E2; apply surjective_pairing).
  apply (eq_trans prepare_run_eq) in H1. apply (eq_trans sign_run_eq) in H2.
  destruct (signed_policy_accepted typed "draft" "policy" "1000000" (Some 1000000) cfg pk t desk
    (snd prepare_run) (snd sign_run) toy_clock_monotone eq_refl H1 H2 Hb) as [Hfile Hlater].
  destruct (Hlater (snd sign_run) (le_n _)) as [Hverify Hstart]. split.
  - apply Hverify; [reflexivity|intros j _; reflexivity|exact Hl].
  - destruct (Hstart policy_env (policy_files (o_fs (snd sign_run)))) as (cfg' & w2 & H & _ & E & _).
    + eapply policy_env_for. exact Hfile.
    + exists cfg', w2. split; [exact H|exact E].
Defined.
